(** * Quadrant algebra of p4est (p4est_bits.c), embedded in Rocq

    The C source is one file compiled twice: once as it stands (2D,
    quadtrees) and once with [P4_TO_P8] defined (3D, octrees).  The
    embedding keeps that switch as a boolean parameter, keeps the
    debug-build assertions ([P4EST_ASSERT]) as an explicit abort
    outcome, and models the fixed-width C integers as [Z] with the
    wrap-around written out. *)

From Stdlib Require Import ZArith Bool List Lia.
Import ListNotations.
Local Open Scope Z_scope.

(** ** Fixed-width integers *)

Definition int8 (v : Z) : Z := (v + 2 ^ 7) mod 2 ^ 8 - 2 ^ 7.
Definition int32 (v : Z) : Z := (v + 2 ^ 31) mod 2 ^ 32 - 2 ^ 31.
Definition uint32 (v : Z) : Z := v mod 2 ^ 32.
Definition uint64 (v : Z) : Z := v mod 2 ^ 64.

(** ** Outcomes of a call

    [Done a] is a normal return, [Abort] a failed [P4EST_ASSERT]
    (the library aborts), [Fuel] the exhaustion of the iteration bound
    that the model gives to a [while] loop. *)

Inductive outcome (A : Type) : Type :=
| Done (a : A)
| Abort
| Fuel.
Arguments Done {A} a.
Arguments Abort {A}.
Arguments Fuel {A}.

Definition bind {A B : Type} (m : outcome A) (k : A -> outcome B) : outcome B :=
  match m with
  | Done a => k a
  | Abort => Abort
  | Fuel => Fuel
  end.

Notation "v <- m ;; k" := (bind m (fun v => k))
  (at level 61, m at next level, right associativity).
Notation "m ;;; k" := (bind m (fun _ => k))
  (at level 61, right associativity).

(** ** The quadrant structure

    [p4est_quadrant_t] has the coordinates [x], [y] (and [z] when
    [P4_TO_P8] is defined) of type [p4est_qcoord_t = int32_t] and an
    [int8_t level].  The 2D code never reads or writes [z]. *)

Record p4est_quadrant_t : Type := mkquad {
  x : Z;
  y : Z;
  z : Z;
  level : Z
}.

Definition set_x (q : p4est_quadrant_t) (v : Z) := mkquad v (y q) (z q) (level q).
Definition set_y (q : p4est_quadrant_t) (v : Z) := mkquad (x q) v (z q) (level q).
Definition set_z (q : p4est_quadrant_t) (v : Z) := mkquad (x q) (y q) v (level q).
Definition set_level (q : p4est_quadrant_t) (v : Z) := mkquad (x q) (y q) (z q) v.

(** A local [p4est_quadrant_t] before anything is stored in it.  Each
    use below writes every field its dimension has before reading it. *)
Definition local_quadrant : p4est_quadrant_t := mkquad 0 0 0 0.

(** ** Loops *)

(** [for (i = i0; ...; ++i)] running [count] times. *)
Fixpoint for_loop {S : Type} (count : nat) (i : Z) (body : Z -> S -> S) (s : S) : S :=
  match count with
  | O => s
  | Datatypes.S count' => for_loop count' (i + 1) body (body i s)
  end.

(** [for (i = 0; i < n; ++i)]. *)
Definition for_upto {S : Type} (n : Z) (body : Z -> S -> S) (s : S) : S :=
  for_loop (Z.to_nat n) 0 body s.

(** The guard [#ifdef P4_To_P8] in [p4est_quadrant_is_sibling] names a
    macro that no build defines (the dimension switch is spelled
    [P4_TO_P8]), so the guarded line is never compiled. *)
Definition P4_To_P8 : bool := false.

Section Bits.

(** Compile-time switches. *)
Variable P4_TO_P8 : bool.
Variable P4EST_DEBUG : bool.

(** The maximal refinement level is a constant of p4est.h / p8est.h,
    which are not part of the sources at hand; it is a parameter. *)
Variable P4EST_MAXLEVEL : Z.

(** Modelled from the spec: the dimension constants [P4EST_DIM] and
    [P4EST_CHILDREN] (D and 2^D) of the missing headers. *)
Definition P4EST_DIM : Z := if P4_TO_P8 then 3 else 2.
Definition P4EST_CHILDREN : Z := if P4_TO_P8 then 8 else 4.

(** Modelled from the spec: [P4EST_QMAXLEVEL], the deepest level of a
    quadrant that is not a node, is [MAXLEVEL - 1]. *)
Definition P4EST_QMAXLEVEL : Z := P4EST_MAXLEVEL - 1.

(** Modelled from the spec: [P4EST_ROOT_LEN], the domain length, is the
    bit at position [MAXLEVEL]. *)
Definition P4EST_ROOT_LEN : Z := Z.shiftl 1 P4EST_MAXLEVEL.

(** Modelled from the spec: [P4EST_QUADRANT_LEN (l)], the side length at
    level [l], is the domain length divided by [2^l]. *)
Definition P4EST_QUADRANT_LEN (l : Z) : Z := Z.shiftl 1 (P4EST_MAXLEVEL - l).

(** Modelled from the spec: [P4EST_LAST_OFFSET (l)], the offset of the
    last quadrant of level [l]. *)
Definition P4EST_LAST_OFFSET (l : Z) : Z := P4EST_ROOT_LEN - P4EST_QUADRANT_LEN l.

(** Modelled from the spec: [SC_LOG2_32], the "most significant set bit"
    primitive of the sc support library, with -1 for the argument 0. *)
Definition SC_LOG2_32 (v : Z) : Z := if v =? 0 then -1 else Z.log2 v.

(** [P4EST_ASSERT (c)] checks [c] in a debug build and is empty otherwise. *)
Definition P4EST_ASSERT (c : bool) : outcome unit :=
  if P4EST_DEBUG then (if c then Done tt else Abort) else Done tt.

(** [P4EST_ASSERT] applied to a call that may itself abort; the call is
    not evaluated at all outside a debug build. *)
Definition P4EST_ASSERT_CALL (c : outcome bool) : outcome unit :=
  if P4EST_DEBUG
  then (b <- c ;; if b then Done tt else Abort)
  else Done tt.

(** ** Validity tiers *)

Definition p4est_quadrant_is_inside_root (q : p4est_quadrant_t) : bool :=
  ((x q >=? 0) && (x q <? P4EST_ROOT_LEN)) &&
  ((y q >=? 0) && (y q <? P4EST_ROOT_LEN)) &&
  (if P4_TO_P8 then (z q >=? 0) && (z q <? P4EST_ROOT_LEN) else true) &&
  true.

Definition p4est_quadrant_is_inside_3x3 (q : p4est_quadrant_t) : bool :=
  ((x q >=? - P4EST_ROOT_LEN) && (x q <=? P4EST_ROOT_LEN + (P4EST_ROOT_LEN - 1))) &&
  ((y q >=? - P4EST_ROOT_LEN) && (y q <=? P4EST_ROOT_LEN + (P4EST_ROOT_LEN - 1))) &&
  (if P4_TO_P8
   then (z q >=? - P4EST_ROOT_LEN) && (z q <=? P4EST_ROOT_LEN + (P4EST_ROOT_LEN - 1))
   else true) &&
  true.

Definition node_mask : Z := Z.shiftl 1 (P4EST_MAXLEVEL - P4EST_QMAXLEVEL) - 1.

Definition p4est_quadrant_is_node (q : p4est_quadrant_t) (inside : bool) : bool :=
  (level q =? P4EST_MAXLEVEL) &&
  (x q >=? 0) && (x q <=? P4EST_ROOT_LEN - Z.b2z inside) &&
  (y q >=? 0) && (y q <=? P4EST_ROOT_LEN - Z.b2z inside) &&
  (if P4_TO_P8
   then (z q >=? 0) && (z q <=? P4EST_ROOT_LEN - Z.b2z inside)
   else true) &&
  ((Z.land (x q) node_mask =? 0) || (inside && (x q =? P4EST_ROOT_LEN - 1))) &&
  ((Z.land (y q) node_mask =? 0) || (inside && (y q =? P4EST_ROOT_LEN - 1))) &&
  (if P4_TO_P8
   then (Z.land (z q) node_mask =? 0) || (inside && (z q =? P4EST_ROOT_LEN - 1))
   else true) &&
  true.

Definition p4est_quadrant_is_valid (q : p4est_quadrant_t) : bool :=
  ((level q >=? 0) && (level q <=? P4EST_QMAXLEVEL)) &&
  (Z.land (x q) (P4EST_QUADRANT_LEN (level q) - 1) =? 0) &&
  (Z.land (y q) (P4EST_QUADRANT_LEN (level q) - 1) =? 0) &&
  (if P4_TO_P8 then Z.land (z q) (P4EST_QUADRANT_LEN (level q) - 1) =? 0 else true) &&
  p4est_quadrant_is_inside_root q.

Definition p4est_quadrant_is_extended (q : p4est_quadrant_t) : bool :=
  ((level q >=? 0) && (level q <=? P4EST_QMAXLEVEL)) &&
  (Z.land (x q) (P4EST_QUADRANT_LEN (level q) - 1) =? 0) &&
  (Z.land (y q) (P4EST_QUADRANT_LEN (level q) - 1) =? 0) &&
  (if P4_TO_P8 then Z.land (z q) (P4EST_QUADRANT_LEN (level q) - 1) =? 0 else true) &&
  p4est_quadrant_is_inside_3x3 q.

(** ** Equality *)

Definition p4est_quadrant_is_equal (q1 q2 : p4est_quadrant_t) : outcome bool :=
  P4EST_ASSERT (p4est_quadrant_is_node q1 true || p4est_quadrant_is_extended q1) ;;;
  P4EST_ASSERT (p4est_quadrant_is_node q2 true || p4est_quadrant_is_extended q2) ;;;
  Done (((level q1 =? level q2) && (x q1 =? x q2) && (y q1 =? y q2))
        && (if P4_TO_P8 then z q1 =? z q2 else true)).

(** ** Nodes: clamping *)

Definition p4est_node_clamp_inside (n r : p4est_quadrant_t) : outcome p4est_quadrant_t :=
  P4EST_ASSERT (p4est_quadrant_is_node n false) ;;;
  let r := set_x r (if x n =? P4EST_ROOT_LEN then P4EST_ROOT_LEN - 1 else x n) in
  let r := set_y r (if y n =? P4EST_ROOT_LEN then P4EST_ROOT_LEN - 1 else y n) in
  let r := if P4_TO_P8
           then set_z r (if z n =? P4EST_ROOT_LEN then P4EST_ROOT_LEN - 1 else z n)
           else r in
  let r := set_level r P4EST_MAXLEVEL in
  P4EST_ASSERT (p4est_quadrant_is_node r true) ;;;
  Done r.

Definition p4est_node_unclamp (n : p4est_quadrant_t) : outcome p4est_quadrant_t :=
  P4EST_ASSERT (p4est_quadrant_is_node n true) ;;;
  let n := if x n =? P4EST_ROOT_LEN - 1 then set_x n P4EST_ROOT_LEN else n in
  let n := if y n =? P4EST_ROOT_LEN - 1 then set_y n P4EST_ROOT_LEN else n in
  let n := if P4_TO_P8
           then (if z n =? P4EST_ROOT_LEN - 1 then set_z n P4EST_ROOT_LEN else n)
           else n in
  P4EST_ASSERT (p4est_quadrant_is_node n false) ;;;
  Done n.

(** ** Parent *)

(** The destination [r] may be the source itself ([parent (&a, &a)]):
    every field is read before it is written, and [level] is written
    last, so the aliased call computes what the model does at [r := q]. *)
Definition p4est_quadrant_parent (q r : p4est_quadrant_t) : outcome p4est_quadrant_t :=
  P4EST_ASSERT (p4est_quadrant_is_extended q) ;;;
  P4EST_ASSERT (level q >? 0) ;;;
  let r := set_x r (Z.land (x q) (Z.lnot (P4EST_QUADRANT_LEN (level q)))) in
  let r := set_y r (Z.land (y q) (Z.lnot (P4EST_QUADRANT_LEN (level q)))) in
  let r := if P4_TO_P8
           then set_z r (Z.land (z q) (Z.lnot (P4EST_QUADRANT_LEN (level q))))
           else r in
  let r := set_level r (int8 (level q - 1)) in
  P4EST_ASSERT (p4est_quadrant_is_extended r) ;;;
  Done r.

(** ** Child and ancestor identifiers *)

Definition p4est_quadrant_ancestor_id (q : p4est_quadrant_t) (lvl : Z) : outcome Z :=
  P4EST_ASSERT (p4est_quadrant_is_extended q) ;;;
  P4EST_ASSERT ((0 <=? lvl) && (lvl <=? P4EST_MAXLEVEL)) ;;;
  P4EST_ASSERT (level q >=? lvl) ;;;
  if lvl =? 0 then Done 0
  else
    let id := 0 in
    let id := Z.lor id (if Z.land (x q) (P4EST_QUADRANT_LEN lvl) =? 0 then 0 else 1) in
    let id := Z.lor id (if Z.land (y q) (P4EST_QUADRANT_LEN lvl) =? 0 then 0 else 2) in
    let id := if P4_TO_P8
              then Z.lor id (if Z.land (z q) (P4EST_QUADRANT_LEN lvl) =? 0 then 0 else 4)
              else id in
    Done id.

Definition p4est_quadrant_child_id (q : p4est_quadrant_t) : outcome Z :=
  p4est_quadrant_ancestor_id q (level q).

(** ** Total order *)

(** The operand [c + ((c >= 0) ? 0 : ((int64_t) 1 << (P4EST_MAXLEVEL + 2)))]
    of the comparison, computed in [int64_t]. *)
Definition compare_operand (c : Z) : Z :=
  c + (if c >=? 0 then 0 else Z.shiftl 1 (P4EST_MAXLEVEL + 2)).

Definition p4est_quadrant_compare (q1 q2 : p4est_quadrant_t) : outcome Z :=
  P4EST_ASSERT (p4est_quadrant_is_node q1 true || p4est_quadrant_is_extended q1) ;;;
  P4EST_ASSERT (p4est_quadrant_is_node q2 true || p4est_quadrant_is_extended q2) ;;;
  let exclorx := uint32 (Z.lxor (x q1) (x q2)) in
  let exclory := uint32 (Z.lxor (y q1) (y q2)) in
  let exclorz := uint32 (Z.lxor (z q1) (z q2)) in
  if (exclory =? 0) && (exclorx =? 0) &&
     (if P4_TO_P8 then exclorz =? 0 else true) && true
  then Done (level q1 - level q2)
  else
    let log2x := SC_LOG2_32 exclorx in
    let log2y := SC_LOG2_32 exclory in
    let log2z := SC_LOG2_32 exclorz in
    let '(p1, p2) :=
      if P4_TO_P8 && ((log2z >=? log2x) && (log2z >=? log2y))
      then (compare_operand (z q1), compare_operand (z q2))
      else if log2y >=? log2x
      then (compare_operand (y q1), compare_operand (y q2))
      else (compare_operand (x q1), compare_operand (x q2)) in
    let diff := p1 - p2 in
    Done (if diff =? 0 then 0 else if diff <? 0 then -1 else 1).

(** ** Siblings *)

Definition p4est_quadrant_is_sibling (q1 q2 : p4est_quadrant_t) : outcome bool :=
  P4EST_ASSERT (p4est_quadrant_is_extended q1) ;;;
  P4EST_ASSERT (p4est_quadrant_is_extended q2) ;;;
  if level q1 =? 0 then Done false
  else
    let exclorx := Z.lxor (x q1) (x q2) in
    let exclory := Z.lxor (y q1) (y q2) in
    let exclorz := Z.lxor (z q1) (z q2) in
    if (if P4_TO_P8
        then (exclorx =? 0) && (exclory =? 0) && (exclorz =? 0)
        else (exclorx =? 0) && (exclory =? 0))
    then Done false
    else
      Done ((level q1 =? level q2) &&
            (Z.land exclorx (Z.lnot (P4EST_QUADRANT_LEN (level q1))) =? 0) &&
            (Z.land exclory (Z.lnot (P4EST_QUADRANT_LEN (level q1))) =? 0) &&
            (if P4_To_P8
             then Z.land exclorz (Z.lnot (P4EST_QUADRANT_LEN (level q1))) =? 0
             else true) &&
            true).

Definition p4est_quadrant_is_sibling_D (q1 q2 : p4est_quadrant_t) : outcome bool :=
  if level q1 =? 0 then Done false
  else
    e <- p4est_quadrant_is_equal q1 q2 ;;
    if e then Done false
    else
      p1 <- p4est_quadrant_parent q1 local_quadrant ;;
      p2 <- p4est_quadrant_parent q2 local_quadrant ;;
      p4est_quadrant_is_equal p1 p2.

(** ** Families and children (compiled only without [P4_TO_P8]) *)

Definition p4est_quadrant_is_family (q0 q1 q2 q3 : p4est_quadrant_t) : outcome bool :=
  let lvl := level q0 in
  P4EST_ASSERT (p4est_quadrant_is_extended q0) ;;;
  P4EST_ASSERT (p4est_quadrant_is_extended q1) ;;;
  P4EST_ASSERT (p4est_quadrant_is_extended q2) ;;;
  P4EST_ASSERT (p4est_quadrant_is_extended q3) ;;;
  if (lvl =? 0) || negb (lvl =? level q1) ||
     negb (lvl =? level q2) || negb (lvl =? level q3)
  then Done false
  else
    let inc := P4EST_QUADRANT_LEN lvl in
    Done (((int32 (x q0 + inc) =? x q1) && (y q0 =? y q1)) &&
          ((x q0 =? x q2) && (int32 (y q0 + inc) =? y q2)) &&
          ((x q1 =? x q3) && (y q2 =? y q3))).

Definition p4est_quadrant_children (q c0 c1 c2 c3 : p4est_quadrant_t)
  : outcome (p4est_quadrant_t * p4est_quadrant_t * p4est_quadrant_t * p4est_quadrant_t) :=
  P4EST_ASSERT (p4est_quadrant_is_extended q) ;;;
  P4EST_ASSERT (level q <? P4EST_QMAXLEVEL) ;;;
  let c0 := set_x c0 (x q) in
  let c0 := set_y c0 (y q) in
  let c0 := set_level c0 (int8 (level q + 1)) in
  let c1 := set_x c1 (Z.lor (x c0) (P4EST_QUADRANT_LEN (level c0))) in
  let c1 := set_y c1 (y c0) in
  let c1 := set_level c1 (level c0) in
  let c2 := set_x c2 (x c0) in
  let c2 := set_y c2 (Z.lor (y c0) (P4EST_QUADRANT_LEN (level c0))) in
  let c2 := set_level c2 (level c0) in
  let c3 := set_x c3 (x c1) in
  let c3 := set_y c3 (y c2) in
  let c3 := set_level c3 (level c0) in
  P4EST_ASSERT_CALL (p4est_quadrant_is_family c0 c1 c2 c3) ;;;
  Done (c0, c1, c2, c3).

(** ** Ancestors *)

Definition p4est_quadrant_is_ancestor (q r : p4est_quadrant_t) : outcome bool :=
  P4EST_ASSERT (p4est_quadrant_is_extended q) ;;;
  P4EST_ASSERT (p4est_quadrant_is_extended r) ;;;
  if level q >=? level r then Done false
  else
    let exclorx := Z.shiftr (Z.lxor (x q) (x r)) (P4EST_MAXLEVEL - level q) in
    let exclory := Z.shiftr (Z.lxor (y q) (y r)) (P4EST_MAXLEVEL - level q) in
    let exclorz := Z.shiftr (Z.lxor (z q) (z r)) (P4EST_MAXLEVEL - level q) in
    Done (if P4_TO_P8
          then (exclorx =? 0) && (exclory =? 0) && (exclorz =? 0)
          else (exclorx =? 0) && (exclory =? 0)).

(** ** Morton index *)

(** The body of the loop of [p4est_quadrant_linear_id]; [cx], [cy], [cz]
    are its [uint64_t] locals [x], [y], [z]. *)
Definition linear_id_body (cx cy cz : Z) (i id : Z) : Z :=
  let id := Z.lor id (uint64 (Z.shiftl (Z.land cx (uint64 (Z.shiftl 1 i)))
                                ((P4EST_DIM - 1) * i))) in
  let id := Z.lor id (uint64 (Z.shiftl (Z.land cy (uint64 (Z.shiftl 1 i)))
                                ((P4EST_DIM - 1) * i + 1))) in
  if P4_TO_P8
  then Z.lor id (uint64 (Z.shiftl (Z.land cz (uint64 (Z.shiftl 1 i)))
                           ((P4EST_DIM - 1) * i + 2)))
  else id.

Definition p4est_quadrant_linear_id (quadrant : p4est_quadrant_t) (lvl : Z) : outcome Z :=
  P4EST_ASSERT (p4est_quadrant_is_extended quadrant) ;;;
  P4EST_ASSERT ((level quadrant >=? lvl) && (lvl >=? 0)) ;;;
  let cx := uint64 (Z.shiftr (x quadrant) (P4EST_MAXLEVEL - lvl)) in
  let cy := uint64 (Z.shiftr (y quadrant) (P4EST_MAXLEVEL - lvl)) in
  let cz := uint64 (Z.shiftr (z quadrant) (P4EST_MAXLEVEL - lvl)) in
  let id := 0 in
  let id := for_upto (lvl + 2) (linear_id_body cx cy cz) id in
  Done id.

(** The body of the loop of [p4est_quadrant_set_morton]. *)
Definition set_morton_body (id : Z) (i : Z) (q : p4est_quadrant_t) : p4est_quadrant_t :=
  let q := set_x q (Z.lor (x q)
             (int32 (Z.shiftr (Z.land id (uint64 (Z.shiftl 1 (P4EST_DIM * i))))
                       ((P4EST_DIM - 1) * i)))) in
  let q := set_y q (Z.lor (y q)
             (int32 (Z.shiftr (Z.land id (uint64 (Z.shiftl 1 (P4EST_DIM * i + 1))))
                       ((P4EST_DIM - 1) * i + 1)))) in
  if P4_TO_P8
  then set_z q (Z.lor (z q)
         (int32 (Z.shiftr (Z.land id (uint64 (Z.shiftl 1 (P4EST_DIM * i + 2))))
                   ((P4EST_DIM - 1) * i + 2))))
  else q.

(** The sign correction that closes the 3D [p4est_quadrant_set_morton]. *)
Definition set_morton_sign (c : Z) : Z :=
  if c >=? int32 (Z.shiftl 1 (P4EST_MAXLEVEL + 1))
  then int32 (c - int32 (Z.shiftl 1 (P4EST_MAXLEVEL + 2)))
  else c.

Definition p4est_quadrant_set_morton (quadrant : p4est_quadrant_t) (lvl id : Z)
  : outcome p4est_quadrant_t :=
  P4EST_ASSERT ((0 <=? lvl) && (lvl <=? P4EST_QMAXLEVEL)) ;;;
  (if lvl <? P4EST_QMAXLEVEL
   then P4EST_ASSERT (id <? uint64 (Z.shiftl 1 (P4EST_DIM * (lvl + 2))))
   else Done tt) ;;;
  let q := set_level quadrant (int8 lvl) in
  let q := set_x q 0 in
  let q := set_y q 0 in
  let q := if P4_TO_P8 then set_z q 0 else q in
  let q := for_upto (lvl + 2) (set_morton_body id) q in
  let q := set_x q (int32 (Z.shiftl (x q) (P4EST_MAXLEVEL - lvl))) in
  let q := set_y q (int32 (Z.shiftl (y q) (P4EST_MAXLEVEL - lvl))) in
  let q :=
    if P4_TO_P8
    then
      let q := set_z q (int32 (Z.shiftl (z q) (P4EST_MAXLEVEL - lvl))) in
      let q := set_x q (set_morton_sign (x q)) in
      let q := set_y q (set_morton_sign (y q)) in
      set_z q (set_morton_sign (z q))
    else q in
  P4EST_ASSERT (p4est_quadrant_is_extended q) ;;;
  Done q.

(** ** Successor test *)

Definition p4est_quadrant_is_next (q r : p4est_quadrant_t) : outcome bool :=
  P4EST_ASSERT (p4est_quadrant_is_extended q) ;;;
  P4EST_ASSERT (p4est_quadrant_is_extended r) ;;;
  minlevel <-
    (if level q >? level r
     then
       let mask := int32 (P4EST_QUADRANT_LEN (level r) - P4EST_QUADRANT_LEN (level q)) in
       if negb (Z.land (x q) mask =? mask) || negb (Z.land (y q) mask =? mask) ||
          (if P4_TO_P8 then negb (Z.land (z q) mask =? mask) else false) || false
       then Done None
       else Done (Some (level r))
     else Done (Some (level q))) ;;
  match minlevel with
  | None => Done false
  | Some minlevel =>
      i1 <- p4est_quadrant_linear_id q minlevel ;;
      i2 <- p4est_quadrant_linear_id r minlevel ;;
      Done (uint64 (i1 + 1) =? i2)
  end.

(** The loop [while (a.level > b.level)] of [p4est_quadrant_is_next_D];
    [None] is its early [return false]. *)
Fixpoint is_next_D_loop (fuel : nat) (a b : p4est_quadrant_t)
  : outcome (option p4est_quadrant_t) :=
  if level a >? level b
  then
    match fuel with
    | O => Fuel
    | S fuel' =>
        cid <- p4est_quadrant_child_id a ;;
        if negb (cid =? P4EST_CHILDREN - 1) then Done None
        else
          a' <- p4est_quadrant_parent a a ;;
          is_next_D_loop fuel' a' b
    end
  else Done (Some a).

Definition p4est_quadrant_is_next_D (fuel : nat) (q r : p4est_quadrant_t) : outcome bool :=
  c <- p4est_quadrant_compare q r ;;
  if c >=? 0 then Done false
  else
    let a := q in
    let b := r in
    a <- is_next_D_loop fuel a b ;;
    match a with
    | None => Done false
    | Some a =>
        i1 <- p4est_quadrant_linear_id a (level a) ;;
        i2 <- p4est_quadrant_linear_id b (level a) ;;
        Done (uint64 (i1 + 1) =? i2)
    end.

(** ** Nearest common ancestor *)

Definition p4est_nearest_common_ancestor (q1 q2 r : p4est_quadrant_t)
  : outcome p4est_quadrant_t :=
  P4EST_ASSERT (p4est_quadrant_is_extended q1) ;;;
  P4EST_ASSERT (p4est_quadrant_is_extended q2) ;;;
  let exclorx := uint32 (Z.lxor (x q1) (x q2)) in
  let exclory := uint32 (Z.lxor (y q1) (y q2)) in
  let exclorz := uint32 (Z.lxor (z q1) (z q2)) in
  let maxclor := if P4_TO_P8
                 then Z.lor (Z.lor exclorx exclory) exclorz
                 else Z.lor exclorx exclory in
  let maxlevel := SC_LOG2_32 maxclor + 1 in
  P4EST_ASSERT (maxlevel <=? P4EST_MAXLEVEL) ;;;
  let r := set_x r (Z.land (x q1) (Z.lnot (int32 (Z.shiftl 1 maxlevel) - 1))) in
  let r := set_y r (Z.land (y q1) (Z.lnot (int32 (Z.shiftl 1 maxlevel) - 1))) in
  let r := if P4_TO_P8
           then set_z r (Z.land (z q1) (Z.lnot (int32 (Z.shiftl 1 maxlevel) - 1)))
           else r in
  let r := set_level r (int8 (Z.min (P4EST_MAXLEVEL - maxlevel)
                                (Z.min (level q1) (level q2)))) in
  P4EST_ASSERT (p4est_quadrant_is_extended r) ;;;
  Done r.

(** [while (s.level > lvl) p4est_quadrant_parent (&s, &s)]: the two loops
    of the first stage; the other quadrant, hence [lvl], does not change
    while one of them runs. *)
Fixpoint promote_loop (fuel : nat) (s : p4est_quadrant_t) (lvl : Z)
  : outcome p4est_quadrant_t :=
  if level s >? lvl
  then
    match fuel with
    | O => Fuel
    | S fuel' => s' <- p4est_quadrant_parent s s ;; promote_loop fuel' s' lvl
    end
  else Done s.

(** [while (!p4est_quadrant_is_equal (&s1, &s2))]: the second stage. *)
Fixpoint simultaneous_loop (fuel : nat) (s1 s2 : p4est_quadrant_t)
  : outcome (p4est_quadrant_t * p4est_quadrant_t) :=
  e <- p4est_quadrant_is_equal s1 s2 ;;
  if negb e
  then
    match fuel with
    | O => Fuel
    | S fuel' =>
        s1' <- p4est_quadrant_parent s1 s1 ;;
        s2' <- p4est_quadrant_parent s2 s2 ;;
        simultaneous_loop fuel' s1' s2'
    end
  else Done (s1, s2).

Definition p4est_nearest_common_ancestor_D (fuel : nat) (q1 q2 r : p4est_quadrant_t)
  : outcome p4est_quadrant_t :=
  let s1 := q1 in
  let s2 := q2 in
  P4EST_ASSERT (p4est_quadrant_is_extended q1) ;;;
  P4EST_ASSERT (p4est_quadrant_is_extended q2) ;;;
  s1 <- promote_loop fuel s1 (level s2) ;;
  s2 <- promote_loop fuel s2 (level s1) ;;
  P4EST_ASSERT (level s1 =? level s2) ;;;
  s12 <- simultaneous_loop fuel s1 s2 ;;
  let s1 := fst s12 in
  let r := set_x r (x s1) in
  let r := set_y r (y s1) in
  let r := if P4_TO_P8 then set_z r (z s1) else r in
  let r := set_level r (level s1) in
  P4EST_ASSERT (p4est_quadrant_is_extended r) ;;;
  Done r.

(** ** Hash-table equality *)

Definition p4est_quadrant_equal_fn (q1 q2 : p4est_quadrant_t) : outcome bool :=
  P4EST_ASSERT (p4est_quadrant_is_extended q1) ;;;
  P4EST_ASSERT (p4est_quadrant_is_extended q2) ;;;
  Done ((level q1 =? level q2) && (x q1 =? x q2) && (y q1 =? y q2)
        && (if P4_TO_P8 then z q1 =? z q2 else true)).

(** ** Nodes and the quadrants around them *)

Definition p4est_node_to_quadrant (n : p4est_quadrant_t) (lvl : Z) (q : p4est_quadrant_t)
  : outcome p4est_quadrant_t :=
  P4EST_ASSERT (p4est_quadrant_is_node n true) ;;;
  P4EST_ASSERT ((0 <=? lvl) && (lvl <=? P4EST_QMAXLEVEL)) ;;;
  let q := set_x q (Z.land (x n)
                      (Z.lnot (int32 (Z.shiftl 1 (P4EST_MAXLEVEL - lvl)) - 1))) in
  let q := set_y q (Z.land (y n)
                      (Z.lnot (int32 (Z.shiftl 1 (P4EST_MAXLEVEL - lvl)) - 1))) in
  let q := if P4_TO_P8
           then set_z q (Z.land (z n)
                           (Z.lnot (int32 (Z.shiftl 1 (P4EST_MAXLEVEL - lvl)) - 1)))
           else q in
  let q := set_level q (int8 lvl) in
  P4EST_ASSERT (p4est_quadrant_is_valid q) ;;;
  Done q.

Definition p4est_quadrant_contains_node (q n : p4est_quadrant_t) : outcome bool :=
  let qlen := P4EST_QUADRANT_LEN (level q) in
  P4EST_ASSERT (p4est_quadrant_is_valid q) ;;;
  P4EST_ASSERT (p4est_quadrant_is_node n true) ;;;
  Done (((x q <=? x n) && (x n <? int32 (x q + qlen))) &&
        ((y q <=? y n) && (y n <? int32 (y q + qlen))) &&
        (if P4_TO_P8 then (z q <=? z n) && (z n <? int32 (z q + qlen)) else true)).

(** ** Outside the root *)

Definition p4est_quadrant_is_outside_face (q : p4est_quadrant_t) : bool :=
  let outface0 := Z.b2z ((x q <? 0) || (x q >=? P4EST_ROOT_LEN)) in
  let outface1 := Z.b2z ((y q <? 0) || (y q >=? P4EST_ROOT_LEN)) in
  let outface2 := Z.b2z ((z q <? 0) || (z q >=? P4EST_ROOT_LEN)) in
  (if P4_TO_P8 then outface0 + outface1 + outface2 else outface0 + outface1) =? 1.

Definition p4est_quadrant_is_outside_corner (q : p4est_quadrant_t) : bool :=
  ((x q <? 0) || (x q >=? P4EST_ROOT_LEN)) &&
  ((y q <? 0) || (y q >=? P4EST_ROOT_LEN)) &&
  (if P4_TO_P8 then (z q <? 0) || (z q >=? P4EST_ROOT_LEN) else true) &&
  true.

(** ** Parent and ancestor tests *)

Definition p4est_quadrant_is_parent (q r : p4est_quadrant_t) : outcome bool :=
  P4EST_ASSERT (p4est_quadrant_is_extended q) ;;;
  P4EST_ASSERT (p4est_quadrant_is_extended r) ;;;
  Done ((level q + 1 =? level r) &&
        (x q =? Z.land (x r) (Z.lnot (P4EST_QUADRANT_LEN (level r)))) &&
        (y q =? Z.land (y r) (Z.lnot (P4EST_QUADRANT_LEN (level r)))) &&
        (if P4_TO_P8
         then z q =? Z.land (z r) (Z.lnot (P4EST_QUADRANT_LEN (level r)))
         else true) &&
        true).

Definition p4est_quadrant_is_parent_D (q r : p4est_quadrant_t) : outcome bool :=
  P4EST_ASSERT (p4est_quadrant_is_extended q) ;;;
  if level r =? 0 then Done false
  else
    p <- p4est_quadrant_parent r local_quadrant ;;
    p4est_quadrant_is_equal q p.

Definition p4est_quadrant_is_ancestor_D (fuel : nat) (q r : p4est_quadrant_t)
  : outcome bool :=
  e <- p4est_quadrant_is_equal q r ;;
  if e then Done false
  else
    s <- p4est_nearest_common_ancestor_D fuel q r local_quadrant ;;
    p4est_quadrant_is_equal q s.

(** ** Siblings, neighbours, corners *)

(** [r] may be any quadrant but the caller's [q] is read in full before
    [r->level] is written. *)
Definition p4est_quadrant_sibling (q r : p4est_quadrant_t) (sibling_id : Z)
  : outcome p4est_quadrant_t :=
  let addx := Z.land sibling_id 1 in
  let addy := Z.shiftr (Z.land sibling_id 2) 1 in
  let addz := Z.shiftr (Z.land sibling_id 4) 2 in
  let shift := P4EST_QUADRANT_LEN (level q) in
  P4EST_ASSERT (p4est_quadrant_is_extended q) ;;;
  P4EST_ASSERT (level q >? 0) ;;;
  P4EST_ASSERT ((sibling_id >=? 0) && (sibling_id <? P4EST_CHILDREN)) ;;;
  let r := set_x r (if addx =? 0
                    then Z.land (x q) (Z.lnot shift) else Z.lor (x q) shift) in
  let r := set_y r (if addy =? 0
                    then Z.land (y q) (Z.lnot shift) else Z.lor (y q) shift) in
  let r := if P4_TO_P8
           then set_z r (if addz =? 0
                         then Z.land (z q) (Z.lnot shift) else Z.lor (z q) shift)
           else r in
  let r := set_level r (level q) in
  P4EST_ASSERT (p4est_quadrant_is_extended r) ;;;
  Done r.

(** The 2D build switches on [face] and aborts on any other value, also
    outside a debug build; the 3D build adds an offset per axis. *)
Definition p4est_quadrant_face_neighbor (q : p4est_quadrant_t) (face : Z)
  (r : p4est_quadrant_t) : outcome p4est_quadrant_t :=
  let qh := P4EST_QUADRANT_LEN (level q) in
  P4EST_ASSERT ((0 <=? face) && (face <? 2 * P4EST_DIM)) ;;;
  P4EST_ASSERT (p4est_quadrant_is_valid q) ;;;
  r <- (if P4_TO_P8
        then
          let r := set_x r (int32 (x q + (if face =? 0 then - qh
                                          else if face =? 1 then qh else 0))) in
          let r := set_y r (int32 (y q + (if face =? 2 then - qh
                                          else if face =? 3 then qh else 0))) in
          let r := set_z r (int32 (z q + (if face =? 4 then - qh
                                          else if face =? 5 then qh else 0))) in
          Done r
        else
          if face =? 0 then
            let r := set_x r (x q) in
            Done (set_y r (int32 (y q - qh)))
          else if face =? 1 then
            let r := set_x r (int32 (x q + qh)) in
            Done (set_y r (y q))
          else if face =? 2 then
            let r := set_x r (x q) in
            Done (set_y r (int32 (y q + qh)))
          else if face =? 3 then
            let r := set_x r (int32 (x q - qh)) in
            Done (set_y r (y q))
          else Abort) ;;
  let r := set_level r (level q) in
  P4EST_ASSERT (p4est_quadrant_is_extended r) ;;;
  Done r.

(** Compiled only without [P4_TO_P8].  The arrays [n] and [nur] hold two
    quadrants each; [nur] may be [NULL], here [None]. *)
Definition p4est_quadrant_half_face_neighbors (q : p4est_quadrant_t) (face : Z)
  (n : p4est_quadrant_t * p4est_quadrant_t)
  (nur : option (p4est_quadrant_t * p4est_quadrant_t))
  : outcome (p4est_quadrant_t * p4est_quadrant_t *
             option (p4est_quadrant_t * p4est_quadrant_t)) :=
  let qh := P4EST_QUADRANT_LEN (level q) in
  let qh_2 := P4EST_QUADRANT_LEN (level q + 1) in
  P4EST_ASSERT (p4est_quadrant_is_valid q) ;;;
  P4EST_ASSERT (level q <? P4EST_QMAXLEVEL) ;;;
  let n0 := set_level (fst n) (int8 (level q + 1)) in
  let n1 := set_level (snd n) (int8 (level q + 1)) in
  n01 <- (if face =? 0 then
            let n0 := set_x n0 (x q) in
            let n1 := set_y n1 (int32 (y q - qh_2)) in
            let n0 := set_y n0 (y n1) in
            let n1 := set_x n1 (int32 (x n0 + qh_2)) in
            Done (n0, n1)
          else if face =? 1 then
            let n1 := set_x n1 (int32 (x q + qh)) in
            let n0 := set_x n0 (x n1) in
            let n0 := set_y n0 (y q) in
            let n1 := set_y n1 (int32 (y n0 + qh_2)) in
            Done (n0, n1)
          else if face =? 2 then
            let n0 := set_x n0 (x q) in
            let n1 := set_y n1 (int32 (y q + qh)) in
            let n0 := set_y n0 (y n1) in
            let n1 := set_x n1 (int32 (x n0 + qh_2)) in
            Done (n0, n1)
          else if face =? 3 then
            let n1 := set_x n1 (int32 (x q - qh_2)) in
            let n0 := set_x n0 (x n1) in
            let n0 := set_y n0 (y q) in
            let n1 := set_y n1 (int32 (y n0 + qh_2)) in
            Done (n0, n1)
          else Abort) ;;
  let n0 := fst n01 in
  let n1 := snd n01 in
  P4EST_ASSERT (p4est_quadrant_is_extended n0) ;;;
  P4EST_ASSERT (p4est_quadrant_is_extended n1) ;;;
  match nur with
  | None => Done (n0, n1, None)
  | Some (nur0, nur1) =>
      let dh := int32 (qh_2 - P4EST_QUADRANT_LEN P4EST_QMAXLEVEL) in
      let nur0 := set_x nur0 (int32 (x n0 + dh)) in
      let nur0 := set_y nur0 (int32 (y n0 + dh)) in
      let nur0 := set_level nur0 P4EST_QMAXLEVEL in
      P4EST_ASSERT (p4est_quadrant_is_extended nur0) ;;;
      let nur1 := set_x nur1 (int32 (x n1 + dh)) in
      let nur1 := set_y nur1 (int32 (y n1 + dh)) in
      let nur1 := set_level nur1 P4EST_QMAXLEVEL in
      P4EST_ASSERT (p4est_quadrant_is_extended nur1) ;;;
      Done (n0, n1, Some (nur0, nur1))
  end.

Definition p4est_quadrant_corner_neighbor (q : p4est_quadrant_t) (corner : Z)
  (r : p4est_quadrant_t) : outcome p4est_quadrant_t :=
  let qh := P4EST_QUADRANT_LEN (level q) in
  P4EST_ASSERT ((0 <=? corner) && (corner <? P4EST_CHILDREN)) ;;;
  P4EST_ASSERT (p4est_quadrant_is_valid q) ;;;
  let r := set_x r (int32 (x q + int32 ((2 * Z.land corner 1 - 1) * qh))) in
  let r := set_y r (int32 (y q + int32 ((Z.land corner 2 - 1) * qh))) in
  let r := if P4_TO_P8
           then set_z r (int32 (z q + int32 ((Z.quot (Z.land corner 4) 2 - 1) * qh)))
           else r in
  let r := set_level r (level q) in
  P4EST_ASSERT (p4est_quadrant_is_extended r) ;;;
  Done r.

Definition p4est_quadrant_corner_node (q : p4est_quadrant_t) (corner : Z)
  (r : p4est_quadrant_t) : outcome p4est_quadrant_t :=
  let qh := P4EST_QUADRANT_LEN (level q) in
  P4EST_ASSERT ((0 <=? corner) && (corner <? P4EST_CHILDREN)) ;;;
  P4EST_ASSERT (p4est_quadrant_is_valid q) ;;;
  let r := set_x r (int32 (x q + int32 (Z.land corner 1 * qh))) in
  let r := set_y r (int32 (y q + int32 (Z.shiftr (Z.land corner 2) 1 * qh))) in
  let r := if P4_TO_P8
           then set_z r (int32 (z q + int32 (Z.shiftr (Z.land corner 4) 2 * qh)))
           else r in
  let r := set_level r P4EST_MAXLEVEL in
  P4EST_ASSERT (p4est_quadrant_is_node r false) ;;;
  Done r.

(** ** Descendants *)

Definition p4est_quadrant_first_descendent (q fd : p4est_quadrant_t) (lvl : Z)
  : outcome p4est_quadrant_t :=
  P4EST_ASSERT (p4est_quadrant_is_extended q) ;;;
  P4EST_ASSERT ((level q <=? lvl) && (lvl <=? P4EST_QMAXLEVEL)) ;;;
  let fd := set_x fd (x q) in
  let fd := set_y fd (y q) in
  let fd := if P4_TO_P8 then set_z fd (z q) else fd in
  let fd := set_level fd (int8 lvl) in
  Done fd.

Definition p4est_quadrant_last_descendent (q ld : p4est_quadrant_t) (lvl : Z)
  : outcome p4est_quadrant_t :=
  P4EST_ASSERT (p4est_quadrant_is_extended q) ;;;
  P4EST_ASSERT ((level q <=? lvl) && (lvl <=? P4EST_QMAXLEVEL)) ;;;
  let shift := int32 (P4EST_QUADRANT_LEN (level q) - P4EST_QUADRANT_LEN lvl) in
  let ld := set_x ld (int32 (x q + shift)) in
  let ld := set_y ld (int32 (y q + shift)) in
  let ld := if P4_TO_P8 then set_z ld (int32 (z q + shift)) else ld in
  let ld := set_level ld (int8 lvl) in
  Done ld.

(** ** A quadrant against a tree *)

(** Modelled from the spec: of the tree container the code reads the
    number of quadrants it stores and its cached first and last
    descendant markers. *)
Record p4est_tree_t : Type := mktree {
  quadrants_elem_count : Z;
  first_desc : p4est_quadrant_t;
  last_desc : p4est_quadrant_t
}.

Definition p4est_quadrant_overlaps_tree (tree : p4est_tree_t) (q : p4est_quadrant_t)
  : outcome bool :=
  P4EST_ASSERT (p4est_quadrant_is_valid q) ;;;
  if quadrants_elem_count tree =? 0 then Done false
  else
    P4EST_ASSERT (p4est_quadrant_is_valid (first_desc tree)) ;;;
    P4EST_ASSERT (p4est_quadrant_is_valid (last_desc tree)) ;;;
    desc <- p4est_quadrant_last_descendent q local_quadrant P4EST_QMAXLEVEL ;;
    c <- p4est_quadrant_compare desc (first_desc tree) ;;
    if c <? 0 then Done false
    else
      c <- p4est_quadrant_compare (last_desc tree) q ;;
      if c <? 0 then Done false
      else Done true.

Definition p4est_quadrant_is_inside_tree (tree : p4est_tree_t) (q : p4est_quadrant_t)
  : outcome bool :=
  P4EST_ASSERT (p4est_quadrant_is_valid q) ;;;
  if quadrants_elem_count tree =? 0 then Done false
  else
    P4EST_ASSERT (p4est_quadrant_is_valid (first_desc tree)) ;;;
    P4EST_ASSERT (p4est_quadrant_is_valid (last_desc tree)) ;;;
    desc <- p4est_quadrant_first_descendent q local_quadrant P4EST_QMAXLEVEL ;;
    c <- p4est_quadrant_compare desc (first_desc tree) ;;
    if c <? 0 then Done false
    else
      desc <- p4est_quadrant_last_descendent q desc P4EST_QMAXLEVEL ;;
      c <- p4est_quadrant_compare (last_desc tree) q ;;
      if c <? 0 then Done false
      else Done true.

(** ** Transforms across tree boundaries *)

(** Compiled only without [P4_TO_P8]. *)
Definition p4est_quadrant_translate_face (q : p4est_quadrant_t) (face : Z)
  : outcome p4est_quadrant_t :=
  P4EST_ASSERT (p4est_quadrant_is_node q false || p4est_quadrant_is_extended q) ;;;
  q <- (if face =? 0 then Done (set_y q (int32 (y q + P4EST_ROOT_LEN)))
        else if face =? 1 then Done (set_x q (int32 (x q - P4EST_ROOT_LEN)))
        else if face =? 2 then Done (set_y q (int32 (y q - P4EST_ROOT_LEN)))
        else if face =? 3 then Done (set_x q (int32 (x q + P4EST_ROOT_LEN)))
        else Abort) ;;
  P4EST_ASSERT (p4est_quadrant_is_node q false || p4est_quadrant_is_extended q) ;;;
  Done q.

(** Compiled only without [P4_TO_P8].  The source asserts [q != r]: the
    two are distinct objects, as they are here. *)
Definition p4est_quadrant_transform_face (q r : p4est_quadrant_t) (transform_type : Z)
  : outcome p4est_quadrant_t :=
  P4EST_ASSERT ((0 <=? transform_type) && (transform_type <? 8)) ;;;
  th <- (if p4est_quadrant_is_node q false
         then Done P4EST_ROOT_LEN
         else
           P4EST_ASSERT (p4est_quadrant_is_extended q) ;;;
           Done (P4EST_LAST_OFFSET (level q))) ;;
  r <- (if transform_type =? 0 then
          let r := set_x r (x q) in
          Done (set_y r (y q))
        else if transform_type =? 1 then
          let r := set_x r (int32 (th - y q)) in
          Done (set_y r (x q))
        else if transform_type =? 2 then
          let r := set_x r (int32 (th - x q)) in
          Done (set_y r (int32 (th - y q)))
        else if transform_type =? 3 then
          let r := set_x r (y q) in
          Done (set_y r (int32 (th - x q)))
        else if transform_type =? 4 then
          let r := set_x r (x q) in
          Done (set_y r (int32 (th - y q)))
        else if transform_type =? 5 then
          let r := set_x r (y q) in
          Done (set_y r (x q))
        else if transform_type =? 6 then
          let r := set_x r (int32 (th - x q)) in
          Done (set_y r (y q))
        else if transform_type =? 7 then
          let r := set_x r (int32 (th - y q)) in
          Done (set_y r (int32 (th - x q)))
        else Abort) ;;
  let r := set_level r (level q) in
  P4EST_ASSERT (p4est_quadrant_is_node r false || p4est_quadrant_is_extended r) ;;;
  Done r.

(** [a[i]] for a local array of [int]; every index the code computes is
    within the array whenever the assertion on [corner] holds. *)
Definition array_get (a : list Z) (i : Z) : Z := nth (Z.to_nat i) a 0.

Definition p4est_quadrant_touches_corner (q : p4est_quadrant_t) (corner : Z)
  (inside : bool) : outcome bool :=
  P4EST_ASSERT ((0 <=? corner) && (corner <? P4EST_CHILDREN)) ;;;
  bounds <- (if level q =? P4EST_MAXLEVEL then
               P4EST_ASSERT (p4est_quadrant_is_node q inside) ;;;
               Done (0, P4EST_ROOT_LEN - Z.b2z inside)
             else if negb inside then
               P4EST_ASSERT (p4est_quadrant_is_extended q) ;;;
               Done (- P4EST_QUADRANT_LEN (level q), P4EST_ROOT_LEN)
             else
               P4EST_ASSERT (p4est_quadrant_is_valid q) ;;;
               Done (0, P4EST_LAST_OFFSET (level q))) ;;
  let lower := fst bounds in
  let upper := snd bounds in
  let quad_contact :=
    [Z.b2z (x q =? lower); Z.b2z (x q =? upper);
     Z.b2z (y q =? lower); Z.b2z (y q =? upper)] ++
    (if P4_TO_P8 then [Z.b2z (z q =? lower); Z.b2z (z q =? upper)] else []) in
  let incount := 0 in
  let side := Z.rem corner 2 in
  let incount := incount + array_get quad_contact side in
  let side := Z.rem (Z.quot corner 2) 2 in
  let incount := incount + array_get quad_contact (2 + side) in
  let incount :=
    if P4_TO_P8
    then
      let side := Z.quot corner 4 in
      incount + array_get quad_contact (4 + side)
    else incount in
  Done (incount =? P4EST_DIM).

Definition p4est_quadrant_transform_corner (q : p4est_quadrant_t) (corner : Z)
  (inside : bool) : outcome p4est_quadrant_t :=
  P4EST_ASSERT ((0 <=? corner) && (corner <? P4EST_CHILDREN)) ;;;
  shift <- (if level q =? P4EST_MAXLEVEL then
              P4EST_ASSERT (negb inside) ;;;
              Done [0; P4EST_ROOT_LEN]
            else
              P4EST_ASSERT ((0 <=? level q) && (level q <=? P4EST_QMAXLEVEL)) ;;;
              Done [if inside then 0 else - P4EST_QUADRANT_LEN (level q);
                    if inside then P4EST_LAST_OFFSET (level q) else P4EST_ROOT_LEN]) ;;
  let q := set_x q (array_get shift (Z.rem corner 2)) in
  let q := set_y q (array_get shift (Z.rem (Z.quot corner 2) 2)) in
  let q := if P4_TO_P8 then set_z q (array_get shift (Z.quot corner 4)) else q in
  P4EST_ASSERT_CALL (p4est_quadrant_touches_corner q corner inside) ;;;
  Done q.

(** The table [contact] of [p4est_quadrant_shift_corner]. *)
Definition shift_corner_contact : list Z :=
  if P4_TO_P8
  then [0x15; 0x16; 0x19; 0x1a; 0x25; 0x26; 0x29; 0x2a]
  else [0x05; 0x06; 0x09; 0x0a].

(** The [for (;;)] loop of [p4est_quadrant_shift_corner]; it leaves with
    the candidate [r] and the offset [th] of the pass that broke out. *)
Fixpoint shift_corner_loop (fuel : nat) (quad r : p4est_quadrant_t) (corner : Z)
  : outcome (p4est_quadrant_t * Z) :=
  let th := P4EST_LAST_OFFSET (level quad) in
  let step0 := 2 * Z.land corner 1 - 1 in
  let step1 := Z.land corner 2 - 1 in
  let step2 := Z.quot (Z.land corner 4) 2 - 1 in
  r <- p4est_quadrant_sibling quad r corner ;;
  P4EST_ASSERT ((-1 =? step0) || (step0 =? 1)) ;;;
  P4EST_ASSERT ((-1 =? step1) || (step1 =? 1)) ;;;
  (if P4_TO_P8 then P4EST_ASSERT ((-1 =? step2) || (step2 =? 1)) else Done tt) ;;;
  let outface := 0 in
  let outface := Z.lor outface (if x r <=? 0 then 0x01 else 0) in
  let outface := Z.lor outface (if x r >=? th then 0x02 else 0) in
  let outface := Z.lor outface (if y r <=? 0 then 0x04 else 0) in
  let outface := Z.lor outface (if y r >=? th then 0x08 else 0) in
  let outface :=
    if P4_TO_P8
    then
      let outface := Z.lor outface (if z r <=? 0 then 0x10 else 0) in
      Z.lor outface (if z r >=? th then 0x20 else 0)
    else outface in
  if outface =? array_get shift_corner_contact corner then Done (r, th)
  else
    match fuel with
    | O => Fuel
    | S fuel' =>
        quad <- p4est_quadrant_parent quad quad ;;
        let quad := set_x quad
                      (int32 (x quad + int32 (step0 * P4EST_QUADRANT_LEN (level quad)))) in
        let quad := set_y quad
                      (int32 (y quad + int32 (step1 * P4EST_QUADRANT_LEN (level quad)))) in
        let quad :=
          if P4_TO_P8
          then set_z quad
                 (int32 (z quad + int32 (step2 * P4EST_QUADRANT_LEN (level quad))))
          else quad in
        P4EST_ASSERT (p4est_quadrant_is_extended quad) ;;;
        shift_corner_loop fuel' quad r corner
    end.

(** The source asserts [q != r]; the local [quad] is a copy of [*q]. *)
Definition p4est_quadrant_shift_corner (fuel : nat) (q r : p4est_quadrant_t) (corner : Z)
  : outcome p4est_quadrant_t :=
  P4EST_ASSERT (p4est_quadrant_is_valid q) ;;;
  P4EST_ASSERT ((corner >=? 0) && (corner <? P4EST_CHILDREN)) ;;;
  let quad := q in
  rth <- shift_corner_loop fuel quad r corner ;;
  let r := fst rth in
  let th := snd rth in
  let r := if x r <? 0 then set_x r 0 else r in
  let r := if x r >=? P4EST_ROOT_LEN then set_x r th else r in
  let r := if y r <? 0 then set_y r 0 else r in
  let r := if y r >=? P4EST_ROOT_LEN then set_y r th else r in
  let r :=
    if P4_TO_P8
    then
      let r := if z r <? 0 then set_z r 0 else r in
      if z r >=? P4EST_ROOT_LEN then set_z r th else r
    else r in
  P4EST_ASSERT_CALL (p4est_quadrant_touches_corner r corner true) ;;;
  Done r.

(** ** Quadrants that carry their tree *)

(** Modelled from the spec: the owner-tree tag [p.which_tree] of a
    quadrant, a [p4est_topidx_t] ([int32_t]) in the user data of
    [p4est_quadrant_t]; it is kept beside the fields that the other
    functions read. *)
Record p4est_quadrant_piggy_t : Type := mkpiggy {
  piggy_quadrant : p4est_quadrant_t;
  which_tree : Z
}.

Definition p4est_quadrant_is_equal_piggy (q1 q2 : p4est_quadrant_piggy_t)
  : outcome bool :=
  if which_tree q1 =? which_tree q2
  then p4est_quadrant_is_equal (piggy_quadrant q1) (piggy_quadrant q2)
  else Done false.

Definition p4est_quadrant_compare_piggy (q1 q2 : p4est_quadrant_piggy_t)
  : outcome Z :=
  let diff := int32 (which_tree q1 - which_tree q2) in
  P4EST_ASSERT ((which_tree q1 >=? 0) && (which_tree q2 >=? 0)) ;;;
  if diff =? 0
  then p4est_quadrant_compare (piggy_quadrant q1) (piggy_quadrant q2)
  else Done (if diff <? 0 then -1 else 1).

(** The flag [clamped] is read from the user pointer [u], in a debug
    build only. *)
Definition p4est_node_equal_piggy_fn (q1 q2 : p4est_quadrant_piggy_t) (clamped : bool)
  : outcome bool :=
  P4EST_ASSERT (p4est_quadrant_is_node (piggy_quadrant q1) clamped) ;;;
  P4EST_ASSERT (p4est_quadrant_is_node (piggy_quadrant q2) clamped) ;;;
  Done (((which_tree q1 =? which_tree q2) &&
         (x (piggy_quadrant q1) =? x (piggy_quadrant q2)) &&
         (y (piggy_quadrant q1) =? y (piggy_quadrant q2)))
        && (if P4_TO_P8 then z (piggy_quadrant q1) =? z (piggy_quadrant q2) else true)).

(** ** Corner numbers under a face transform *)

(** [p4est_corner_to_zorder], a table of four [int] that is defined
    outside this file; it is read at the indices that the assertion of
    [p4est_node_transform] leaves. *)
Variable p4est_corner_to_zorder : list Z.

(** Compiled only without [P4_TO_P8]. *)
Definition p4est_node_transform (node transform_type : Z) : outcome Z :=
  P4EST_ASSERT ((0 <=? node) && (node <? 4)) ;;;
  if transform_type =? 0 then Done node
  else if transform_type =? 1 then
    Done (array_get p4est_corner_to_zorder
            (Z.rem (array_get p4est_corner_to_zorder node + 1) 4))
  else if transform_type =? 2 then Done (3 - node)
  else if transform_type =? 3 then
    Done (array_get p4est_corner_to_zorder
            (Z.rem (array_get p4est_corner_to_zorder node + 3) 4))
  else if transform_type =? 4 then
    (if node =? 0 then Done 2
     else if node =? 1 then Done 3
     else if node =? 2 then Done 0
     else if node =? 3 then Done 1
     else Abort)
  else if transform_type =? 5 then
    (if node =? 0 then Done 0
     else if node =? 1 then Done 2
     else if node =? 2 then Done 1
     else if node =? 3 then Done 3
     else Abort)
  else if transform_type =? 6 then
    (if node =? 0 then Done 1
     else if node =? 1 then Done 0
     else if node =? 2 then Done 3
     else if node =? 3 then Done 2
     else Abort)
  else if transform_type =? 7 then
    (if node =? 0 then Done 3
     else if node =? 1 then Done 1
     else if node =? 2 then Done 2
     else if node =? 3 then Done 0
     else Abort)
  else Abort.

(** ** Vocabulary of the specification *)

(** The coordinate axes, those of the dimension at hand, and the
    priority that breaks ties in the total order (z before y before x). *)
Inductive axis : Type := AX | AY | AZ.

Definition axis_select (a : axis) (vx vy vz : Z) : Z :=
  match a with AX => vx | AY => vy | AZ => vz end.

Definition coord (a : axis) (q : p4est_quadrant_t) : Z :=
  axis_select a (x q) (y q) (z q).

Definition axes : list axis := if P4_TO_P8 then [AX; AY; AZ] else [AX; AY].

Definition axis_rank (a : axis) : Z :=
  match a with AX => 0 | AY => 1 | AZ => 2 end.

(** A coordinate of a quadrant of level [l] in the extended domain:
    aligned to the side length and within the 3x3 neighbourhood. *)
Definition coord_extended (l c : Z) : Prop :=
  c mod 2 ^ (P4EST_MAXLEVEL - l) = 0 /\
  - 2 ^ P4EST_MAXLEVEL <= c <= 2 ^ P4EST_MAXLEVEL + (2 ^ P4EST_MAXLEVEL - 1).

(** The bounds on [P4EST_MAXLEVEL] under which [int32_t] holds every
    extended coordinate and [uint64_t] every Morton index; p4est.h and
    p8est.h take the largest admissible values, 30 and 19. *)
Definition MAXLEVEL_ok : Prop :=
  1 <= P4EST_MAXLEVEL <= (if P4_TO_P8 then 19 else 30).

Hypothesis MAXLEVEL_bounds : MAXLEVEL_ok.

(** A coordinate of a node: within the closed root domain (its top edge
    lowered by one when [inside]) and even, or the clamped top edge. *)
Definition node_coord (inside : bool) (c : Z) : Prop :=
  0 <= c <= 2 ^ P4EST_MAXLEVEL - Z.b2z inside /\
  (c mod 2 = 0 \/ (inside = true /\ c = 2 ^ P4EST_MAXLEVEL - 1)).

(** What [p4est_node_unclamp] stores in one coordinate. *)
Definition unclamp_coord_of (c : Z) : Z :=
  if c =? P4EST_ROOT_LEN - 1 then P4EST_ROOT_LEN else c.

(** Two coordinates agree on every bit at or above position [p]. *)
Definition agree_from (p a b : Z) : Prop :=
  forall i, p <= i -> Z.testbit a i = Z.testbit b i.

(** Two coordinates agree on every bit strictly above position [p]. *)
Definition agree_above (p a b : Z) : Prop :=
  forall i, p < i -> Z.testbit a i = Z.testbit b i.

(** A coordinate with its bits below position [p] cleared. *)
Definition clear_bits_below (p c : Z) : Z := Z.ldiff c (Z.ones p).

(** A coordinate of a quadrant of level [l] inside the root domain. *)
Definition coord_valid (l c : Z) : Prop :=
  c mod 2 ^ (P4EST_MAXLEVEL - l) = 0 /\ 0 <= c < 2 ^ P4EST_MAXLEVEL.

(** The value [p4est_quadrant_linear_id] returns once its assertions
    have passed. *)
Definition linear_id_result (q : p4est_quadrant_t) (lvl : Z) : Z :=
  for_upto (lvl + 2)
    (linear_id_body (uint64 (Z.shiftr (x q) (P4EST_MAXLEVEL - lvl)))
                    (uint64 (Z.shiftr (y q) (P4EST_MAXLEVEL - lvl)))
                    (uint64 (Z.shiftr (z q) (P4EST_MAXLEVEL - lvl))))
    0.

(** The quadrant [p4est_quadrant_set_morton] has built when it reaches
    its closing assertion. *)
Definition set_morton_result (quadrant : p4est_quadrant_t) (lvl id : Z)
  : p4est_quadrant_t :=
  let q := set_level quadrant (int8 lvl) in
  let q := set_x q 0 in
  let q := set_y q 0 in
  let q := if P4_TO_P8 then set_z q 0 else q in
  let q := for_upto (lvl + 2) (set_morton_body id) q in
  let q := set_x q (int32 (Z.shiftl (x q) (P4EST_MAXLEVEL - lvl))) in
  let q := set_y q (int32 (Z.shiftl (y q) (P4EST_MAXLEVEL - lvl))) in
  if P4_TO_P8
  then
    let q := set_z q (int32 (Z.shiftl (z q) (P4EST_MAXLEVEL - lvl))) in
    let q := set_x q (set_morton_sign (x q)) in
    let q := set_y q (set_morton_sign (y q)) in
    set_z q (set_morton_sign (z q))
  else q.

(** The highest position below [n] at which the two's complement
    representations of [a] and [b] differ, -1 when there is none. *)
Fixpoint differing_bit_scan (n : nat) (a b : Z) : Z :=
  match n with
  | O => -1
  | S n' =>
      if xorb (Z.testbit a (Z.of_nat n')) (Z.testbit b (Z.of_nat n'))
      then Z.of_nat n'
      else differing_bit_scan n' a b
  end.

(** The highest differing bit position of two [int32_t] coordinates. *)
Definition highest_differing_bit (a b : Z) : Z := differing_bit_scan 32 a b.

(** Two quadrants have identical coordinates on every axis. *)
Definition same_position (q1 q2 : p4est_quadrant_t) : Prop :=
  forall a, In a axes -> coord a q1 = coord a q2.

(** Axis [a] decides the order of [q1] and [q2]: its highest differing
    bit position is the greatest of all axes, and strictly greater than
    that of every axis of higher priority (z before y before x). *)
Definition decides (a : axis) (q1 q2 : p4est_quadrant_t) : Prop :=
  In a axes /\
  forall b, In b axes ->
    highest_differing_bit (coord b q1) (coord b q2) <=
    highest_differing_bit (coord a q1) (coord a q2) /\
    (axis_rank a < axis_rank b ->
     highest_differing_bit (coord b q1) (coord b q2) <
     highest_differing_bit (coord a q1) (coord a q2)).

(** A coordinate after [2^(MAXLEVEL+2)] has been added to it if negative. *)
Definition lift_negative (c : Z) : Z :=
  if c <? 0 then c + 2 ^ (P4EST_MAXLEVEL + 2) else c.

(** The quadrants that [p4est_quadrant_compare] and
    [p4est_quadrant_is_equal] accept: clamped nodes and extended
    quadrants. *)
Definition comparable (q : p4est_quadrant_t) : bool :=
  p4est_quadrant_is_node q true || p4est_quadrant_is_extended q.

(** Position [p] of the window [0 .. MAXLEVEL + 1] of an extended
    coordinate, as a position of its [int32_t] word: the top of the
    window stands for the sign bit. *)
Definition word_position (p : Z) : Z := if p =? P4EST_MAXLEVEL + 1 then 31 else p.

(** What [p4est_quadrant_parent (q, r)] stores in [r]. *)
Definition parent_result (q r : p4est_quadrant_t) : p4est_quadrant_t :=
  let r := set_x r (Z.land (x q) (Z.lnot (P4EST_QUADRANT_LEN (level q)))) in
  let r := set_y r (Z.land (y q) (Z.lnot (P4EST_QUADRANT_LEN (level q)))) in
  let r := if P4_TO_P8
           then set_z r (Z.land (z q) (Z.lnot (P4EST_QUADRANT_LEN (level q))))
           else r in
  set_level r (int8 (level q - 1)).

(** [q] is the last descendant, at its own level, of its ancestor of
    level [l]: on every axis all bits of the levels below [l] down to
    [q.level] are set. *)
Definition last_path (q : p4est_quadrant_t) (l : Z) : Prop :=
  forall a, In a axes ->
  forall j, P4EST_MAXLEVEL - level q <= j < P4EST_MAXLEVEL - l ->
            Z.testbit (coord a q) j = true.

(** The test for it in [p4est_quadrant_is_next]. *)
Definition is_last_descendant (q : p4est_quadrant_t) (l : Z) : bool :=
  let mask := int32 (P4EST_QUADRANT_LEN l - P4EST_QUADRANT_LEN (level q)) in
  negb (negb (Z.land (x q) mask =? mask) || negb (Z.land (y q) mask =? mask) ||
        (if P4_TO_P8 then negb (Z.land (z q) mask =? mask) else false) || false).

(** Two extended quadrants belong to the same tree: on every axis their
    coordinates lie in the same root-length cell of the 3x3
    neighbourhood. *)
Definition same_tree (q1 q2 : p4est_quadrant_t) : Prop :=
  forall a, In a axes ->
            Z.shiftr (coord a q1) P4EST_MAXLEVEL = Z.shiftr (coord a q2) P4EST_MAXLEVEL.

(** [lev] is the level of the nearest common ancestor of [q1] and [q2]:
    the deepest level, not below either quadrant, down to which their
    coordinates agree. *)
Definition nca_level (q1 q2 : p4est_quadrant_t) (lev : Z) : Prop :=
  0 <= lev <= Z.min (level q1) (level q2) /\
  (forall a, In a axes ->
             agree_from (P4EST_MAXLEVEL - lev) (coord a q1) (coord a q2)) /\
  (lev < Z.min (level q1) (level q2) ->
   ~ forall a, In a axes ->
               agree_from (P4EST_MAXLEVEL - lev - 1) (coord a q1) (coord a q2)).

(** [q] comes before [r] along the space-filling curve: at the highest
    interleaved position of the coordinate window where the two differ,
    [q] has the bit clear and [r] has it set. *)
Definition morton_before (q r : p4est_quadrant_t) : Prop :=
  exists a i,
    In a axes /\ 0 <= i <= P4EST_MAXLEVEL + 1 /\
    Z.testbit (coord a q) i = false /\ Z.testbit (coord a r) i = true /\
    forall b j, In b axes -> 0 <= j <= P4EST_MAXLEVEL + 1 ->
                P4EST_DIM * i + axis_rank a < P4EST_DIM * j + axis_rank b ->
                Z.testbit (coord b q) j = Z.testbit (coord b r) j.

(** The step, in side lengths, that [p4est_quadrant_face_neighbor] takes
    along axis [a] for face number [face]: the 2D faces are numbered
    counterclockwise from the bottom, the 3D faces in pairs by axis. *)
Definition face_offset (face : Z) (a : axis) : Z :=
  if P4_TO_P8
  then
    match a with
    | AX => if face =? 0 then -1 else if face =? 1 then 1 else 0
    | AY => if face =? 2 then -1 else if face =? 3 then 1 else 0
    | AZ => if face =? 4 then -1 else if face =? 5 then 1 else 0
    end
  else
    match a with
    | AX => if face =? 1 then 1 else if face =? 3 then -1 else 0
    | AY => if face =? 0 then -1 else if face =? 2 then 1 else 0
    | AZ => 0
    end.

(** The face across from [face]. *)
Definition opposite_face (face : Z) : Z :=
  if P4_TO_P8 then Z.lxor face 1 else (face + 2) mod 4.

(** The step, in side lengths, towards corner number [corner] along axis
    [a]: bit [a] of the corner number selects the upper side. *)
Definition corner_offset (corner : Z) (a : axis) : Z :=
  2 * Z.b2z (Z.testbit corner (axis_rank a)) - 1.

(** The coordinate that a quadrant touching corner number [corner] has
    on axis [a], given the lowest and the highest admissible coordinate. *)
Definition corner_target (lower upper corner : Z) (a : axis) : Z :=
  if Z.testbit corner (axis_rank a) then upper else lower.

(** The eight rigid transforms of [p4est_quadrant_transform_face] as a
    map of the coordinate pair, [th] being the reflection offset. *)
Definition transform_face_coords (transform_type th vx vy : Z) : Z * Z :=
  if transform_type =? 0 then (vx, vy)
  else if transform_type =? 1 then (th - vy, vx)
  else if transform_type =? 2 then (th - vx, th - vy)
  else if transform_type =? 3 then (vy, th - vx)
  else if transform_type =? 4 then (vx, th - vy)
  else if transform_type =? 5 then (vy, vx)
  else if transform_type =? 6 then (th - vx, vy)
  else (th - vy, th - vx).

(** The transform that undoes [transform_type]: the two quarter turns
    undo each other, every other transform undoes itself. *)
Definition inverse_transform (transform_type : Z) : Z :=
  if transform_type =? 1 then 3 else if transform_type =? 3 then 1 else transform_type.

(** [c] is [q] or an ancestor of [q], by the tests of the library. *)
Definition ancestor_or_equal (c q : p4est_quadrant_t) : Prop :=
  p4est_quadrant_is_equal c q = Done true \/ p4est_quadrant_is_ancestor c q = Done true.

(** The range through which the loop of [p4est_quadrant_shift_corner] moves
    a coordinate of its quadrant of level [l]: aligned to the side length,
    and at most one quadrant beyond the root on the side the corner lies
    on ([up]: the upper side). *)
Definition shift_range (up : bool) (l c : Z) : Prop :=
  c mod 2 ^ (P4EST_MAXLEVEL - l) = 0 /\
  if up then 0 <= c <= 2 ^ P4EST_MAXLEVEL + 2 ^ (P4EST_MAXLEVEL - l)
  else - (2 * 2 ^ (P4EST_MAXLEVEL - l)) <= c < 2 ^ P4EST_MAXLEVEL.

(** The tagged quadrants that [p4est_quadrant_compare_piggy] accepts: a
    clamped node or extended quadrant with a tree number that is not
    negative. *)
Definition piggy_ok (p : p4est_quadrant_piggy_t) : Prop :=
  comparable (piggy_quadrant p) = true /\ 0 <= which_tree p < 2 ^ 31.

(** * Properties *)

(** ** Assertions and outcomes *)

Lemma P4EST_ASSERT_true : P4EST_ASSERT true = Done tt.
Proof. unfold P4EST_ASSERT. destruct P4EST_DEBUG; reflexivity. Qed.

Lemma P4EST_ASSERT_holds (c : bool) : c = true -> P4EST_ASSERT c = Done tt.
Proof. intros ->. apply P4EST_ASSERT_true. Qed.

Lemma P4EST_ASSERT_debug_false (c : bool) :
  P4EST_DEBUG = true -> c = false -> P4EST_ASSERT c = Abort.
Proof. unfold P4EST_ASSERT. intros -> ->. reflexivity. Qed.

(** ** Side lengths *)

Lemma QUADRANT_LEN_pow (l : Z) : P4EST_QUADRANT_LEN l = 2 ^ (P4EST_MAXLEVEL - l).
Proof. unfold P4EST_QUADRANT_LEN. apply Z.shiftl_1_l. Qed.

Lemma ROOT_LEN_pow : P4EST_ROOT_LEN = 2 ^ P4EST_MAXLEVEL.
Proof. unfold P4EST_ROOT_LEN. apply Z.shiftl_1_l. Qed.

Lemma land_len_mask (l c : Z) :
  l <= P4EST_MAXLEVEL ->
  (Z.land c (P4EST_QUADRANT_LEN l - 1) =? 0) = true <->
  c mod 2 ^ (P4EST_MAXLEVEL - l) = 0.
Proof.
  intros Hl. rewrite QUADRANT_LEN_pow, Z.sub_1_r, <- Z.ones_equiv.
  rewrite Z.land_ones by lia. apply Z.eqb_eq.
Qed.

Lemma is_extended_spec (q : p4est_quadrant_t) :
  p4est_quadrant_is_extended q = true <->
  0 <= level q <= P4EST_QMAXLEVEL /\
  coord_extended (level q) (x q) /\
  coord_extended (level q) (y q) /\
  (P4_TO_P8 = true -> coord_extended (level q) (z q)).
Proof.
  unfold p4est_quadrant_is_extended, p4est_quadrant_is_inside_3x3,
    coord_extended, P4EST_QMAXLEVEL.
  rewrite ROOT_LEN_pow.
  destruct (Z.leb_spec (level q) (P4EST_MAXLEVEL - 1)) as [Hl|Hl].
  2:{ rewrite andb_false_r. simpl. split; [discriminate | lia]. }
  pose proof (land_len_mask (level q) (x q)) as Hx.
  pose proof (land_len_mask (level q) (y q)) as Hy.
  pose proof (land_len_mask (level q) (z q)) as Hz.
  destruct P4_TO_P8;
    rewrite ?andb_true_iff, ?Hx, ?Hy, ?Hz by lia;
    rewrite ?Z.geb_le, ?Z.leb_le; intuition (try lia; try discriminate).
Qed.

(** ** Nodes *)

Lemma node_mask_one : node_mask = 1.
Proof.
  unfold node_mask, P4EST_QMAXLEVEL.
  replace (P4EST_MAXLEVEL - (P4EST_MAXLEVEL - 1)) with 1 by ring. reflexivity.
Qed.

Lemma is_node_spec (q : p4est_quadrant_t) (inside : bool) :
  p4est_quadrant_is_node q inside = true <->
  level q = P4EST_MAXLEVEL /\
  node_coord inside (x q) /\
  node_coord inside (y q) /\
  (P4_TO_P8 = true -> node_coord inside (z q)).
Proof.
  unfold p4est_quadrant_is_node, node_coord.
  rewrite node_mask_one, ROOT_LEN_pow.
  assert (Hm : forall c, (Z.land c 1 =? 0) = true <-> c mod 2 = 0).
  { intros c. change 1 with (Z.ones 1). rewrite Z.land_ones by lia. apply Z.eqb_eq. }
  destruct P4_TO_P8;
    rewrite ?andb_true_iff, ?orb_true_iff, ?andb_true_iff, ?Hm;
    rewrite ?Z.geb_le, ?Z.leb_le, ?Z.eqb_eq;
    intuition (try lia; try discriminate).
Qed.

Lemma pow2_pred_odd (n : Z) : 1 <= n -> (2 ^ n - 1) mod 2 = 1.
Proof.
  intros Hn. replace n with (1 + (n - 1)) by ring.
  rewrite Z.pow_add_r by lia. change (2 ^ 1) with 2.
  replace (2 * 2 ^ (n - 1) - 1) with (1 + (2 ^ (n - 1) - 1) * 2) by ring.
  rewrite Z.mod_add by lia. reflexivity.
Qed.

Lemma clamp_coord_node (c : Z) :
  node_coord false c ->
  node_coord true (if c =? P4EST_ROOT_LEN then P4EST_ROOT_LEN - 1 else c).
Proof.
  unfold node_coord. rewrite ROOT_LEN_pow. simpl Z.b2z. intros [Hr [He|[Hf _]]]; [|discriminate].
  assert (0 < 2 ^ P4EST_MAXLEVEL)
    by (apply Z.pow_pos_nonneg; destruct MAXLEVEL_bounds; lia).
  destruct (Z.eqb_spec c (2 ^ P4EST_MAXLEVEL)).
  - split; [lia | right; split; reflexivity].
  - split; [lia | left; exact He].
Qed.

Lemma unclamp_coord (c : Z) :
  node_coord false c ->
  let c' := if c =? P4EST_ROOT_LEN then P4EST_ROOT_LEN - 1 else c in
  (if c' =? P4EST_ROOT_LEN - 1 then P4EST_ROOT_LEN else c') = c.
Proof.
  unfold node_coord. rewrite ROOT_LEN_pow. simpl Z.b2z. intros [Hr [He|[Hf _]]]; [|discriminate].
  pose proof (pow2_pred_odd P4EST_MAXLEVEL) as Hodd.
  assert (1 <= P4EST_MAXLEVEL) by (destruct MAXLEVEL_bounds; lia).
  cbv zeta.
  destruct (Z.eqb_spec c (2 ^ P4EST_MAXLEVEL)) as [->|Hne].
  - rewrite Z.eqb_refl. reflexivity.
  - destruct (Z.eqb_spec c (2 ^ P4EST_MAXLEVEL - 1)) as [->|]; [|reflexivity].
    rewrite Hodd in He by lia. discriminate.
Qed.

Lemma p4est_node_unclamp_eq (n : p4est_quadrant_t) :
  p4est_node_unclamp n =
  (P4EST_ASSERT (p4est_quadrant_is_node n true) ;;;
   let u := mkquad (unclamp_coord_of (x n)) (unclamp_coord_of (y n))
              (if P4_TO_P8 then unclamp_coord_of (z n) else z n) (level n) in
   P4EST_ASSERT (p4est_quadrant_is_node u false) ;;; Done u).
Proof.
  unfold p4est_node_unclamp, unclamp_coord_of. destruct n as [cx cy cz l].
  cbv zeta.
  destruct P4_TO_P8;
    cbn [x y z level set_x set_y set_z set_level];
    destruct (cx =? P4EST_ROOT_LEN - 1);
    cbn [x y z level set_x set_y set_z set_level];
    destruct (cy =? P4EST_ROOT_LEN - 1);
    cbn [x y z level set_x set_y set_z set_level];
    try destruct (cz =? P4EST_ROOT_LEN - 1);
    reflexivity.
Qed.

(** C10: clamping an unclamped node gives a clamped node, and unclamping
    that node restores the coordinates (and the level) of the original:
    clamp followed by unclamp is the identity on unclamped nodes. *)
Theorem node_clamp_then_unclamp (n r : p4est_quadrant_t) :
  p4est_quadrant_is_node n false = true ->
  exists c,
    p4est_node_clamp_inside n r = Done c /\
    p4est_quadrant_is_node c true = true /\
    exists u,
      p4est_node_unclamp c = Done u /\
      p4est_quadrant_is_node u false = true /\
      x u = x n /\ y u = y n /\ (P4_TO_P8 = true -> z u = z n) /\
      level u = level n.
Proof.
  intros Hn. pose proof Hn as Hn'. apply is_node_spec in Hn'.
  destruct Hn' as (Hl & Hx & Hy & Hz).
  unfold p4est_node_clamp_inside.
  rewrite (P4EST_ASSERT_holds _ Hn). cbn [bind].
  match goal with |- context [P4EST_ASSERT (p4est_quadrant_is_node ?c true)] =>
    set (cl := c) end.
  assert (Hc : p4est_quadrant_is_node cl true = true).
  { apply is_node_spec. subst cl.
    destruct P4_TO_P8; cbn [x y z level set_x set_y set_z set_level];
      (split; [reflexivity|]); (split; [apply clamp_coord_node, Hx|]);
      (split; [apply clamp_coord_node, Hy|]); intros Hp;
      [apply clamp_coord_node, Hz, Hp | discriminate]. }
  rewrite (P4EST_ASSERT_holds _ Hc). cbn [bind].
  exists cl. split; [reflexivity|]. split; [exact Hc|].
  rewrite p4est_node_unclamp_eq, (P4EST_ASSERT_holds _ Hc). cbn [bind]. cbv zeta.
  match goal with |- context [P4EST_ASSERT (p4est_quadrant_is_node ?c false)] =>
    set (un := c) end.
  assert (Hu : x un = x n /\ y un = y n /\ (P4_TO_P8 = true -> z un = z n) /\
               level un = level n).
  { subst un cl. unfold unclamp_coord_of.
    destruct P4_TO_P8; cbn [x y z level set_x set_y set_z set_level];
      (split; [apply (unclamp_coord _ Hx)|]); (split; [apply (unclamp_coord _ Hy)|]);
      (split; [|symmetry; exact Hl]); intros Hp;
      [apply (unclamp_coord _ (Hz Hp)) | discriminate]. }
  destruct Hu as (Ux & Uy & Uz & Ul).
  assert (Hun : p4est_quadrant_is_node un false = true).
  { apply is_node_spec. rewrite Ux, Uy, Ul.
    split; [exact Hl|]. split; [exact Hx|]. split; [exact Hy|].
    intros Hp. rewrite (Uz Hp). auto. }
  rewrite (P4EST_ASSERT_holds _ Hun). cbn [bind].
  exists un. repeat split; auto.
Qed.

(** ** Fixed-width integers that do not wrap *)

Lemma int8_small (v : Z) : -128 <= v < 128 -> int8 v = v.
Proof.
  intros H. unfold int8. change (2 ^ 7) with 128. change (2 ^ 8) with 256.
  rewrite Z.mod_small; lia.
Qed.

Lemma int32_small (v : Z) : - 2 ^ 31 <= v < 2 ^ 31 -> int32 v = v.
Proof.
  intros H. unfold int32. change (2 ^ 32) with (2 ^ 31 + 2 ^ 31).
  rewrite Z.mod_small; lia.
Qed.

Lemma uint64_small (v : Z) : 0 <= v < 2 ^ 64 -> uint64 v = v.
Proof. intros H. apply Z.mod_small, H. Qed.

(** ** Bits of aligned and of bounded numbers *)

Lemma aligned_bits (c k : Z) :
  0 <= k -> (c mod 2 ^ k = 0 <-> forall i, i < k -> Z.testbit c i = false).
Proof.
  intros Hk. split.
  - intros H i Hi. destruct (Z.neg_nonneg_cases i) as [Hn|Hn].
    + apply Z.testbit_neg_r, Hn.
    + rewrite <- (Z.mod_pow2_bits_low c k i) by lia. rewrite H. apply Z.bits_0.
  - intros H. apply Z.bits_inj'. intros i Hi. rewrite Z.bits_0.
    destruct (Z.lt_ge_cases i k).
    + rewrite Z.mod_pow2_bits_low by lia. auto.
    + apply Z.mod_pow2_bits_high. lia.
Qed.

Lemma pow2_le_mono (a b : Z) : 0 <= a <= b -> 2 ^ a <= 2 ^ b.
Proof. intros H. apply Z.pow_le_mono_r; lia. Qed.

Lemma pow2_pos (a : Z) : 0 <= a -> 0 < 2 ^ a.
Proof. intros H. apply Z.pow_pos_nonneg; lia. Qed.

Lemma pow2_double (a : Z) : 0 <= a -> 2 ^ (a + 1) = 2 * 2 ^ a.
Proof. intros H. rewrite Z.pow_add_r by lia. change (2 ^ 1) with 2. ring. Qed.

(** Clearing bit [k] of a number aligned to [2^k] rounds it down to a
    multiple of [2^(k+1)]. *)
Lemma clear_bit_aligned (c k : Z) :
  0 <= k -> c mod 2 ^ k = 0 ->
  Z.land c (Z.lnot (2 ^ k)) = 2 ^ (k + 1) * (c / 2 ^ (k + 1)).
Proof.
  intros Hk Hc. apply Z.bits_inj'. intros i Hi.
  rewrite Z.land_spec, Z.lnot_spec, Z.pow2_bits_eqb by lia.
  rewrite Z.mul_comm, <- Z.shiftl_mul_pow2 by lia.
  rewrite Z.shiftl_spec by lia.
  destruct (Z.lt_ge_cases i (k + 1)) as [Hlt|Hge].
  - rewrite (Z.testbit_neg_r _ (i - (k + 1))) by lia.
    destruct (Z.eqb_spec k i) as [->|Hne].
    + apply andb_false_r.
    + rewrite (proj1 (aligned_bits c k Hk) Hc i) by lia. reflexivity.
  - rewrite Z.div_pow2_bits by lia.
    replace (i - (k + 1) + (k + 1)) with i by ring.
    destruct (Z.eqb_spec k i); [lia|]. apply andb_true_r.
Qed.

(** ** Parent *)

(** The coordinate of the parent of an extended quadrant of level [l > 0]
    is an extended coordinate of level [l - 1]. *)
Lemma parent_coord_extended (l c : Z) :
  0 < l <= P4EST_QMAXLEVEL -> coord_extended l c ->
  coord_extended (l - 1) (Z.land c (Z.lnot (P4EST_QUADRANT_LEN l))).
Proof.
  unfold P4EST_QMAXLEVEL, coord_extended. intros Hl [Hal Hr].
  rewrite QUADRANT_LEN_pow.
  set (k := P4EST_MAXLEVEL - l) in *.
  assert (Hk : 0 <= k) by lia.
  rewrite (clear_bit_aligned c k Hk Hal).
  replace (P4EST_MAXLEVEL - (l - 1)) with (k + 1) by lia.
  pose proof (pow2_pos (k + 1) ltac:(lia)) as Hp.
  split.
  - rewrite Z.mul_comm. apply Z.mod_mul. lia.
  - pose proof (Z.mul_div_le c (2 ^ (k + 1)) Hp).
    split; [|lia].
    assert (Hs : 2 ^ P4EST_MAXLEVEL = 2 ^ (k + 1) * 2 ^ (l - 1)).
    { rewrite <- Z.pow_add_r by lia. f_equal. lia. }
    rewrite Hs in *.
    assert (- 2 ^ (l - 1) <= c / 2 ^ (k + 1)).
    { apply Z.div_le_lower_bound; lia. }
    nia.
Qed.

(** C8: in a debug build the parent of a level-0 quadrant aborts; for
    every extended quadrant of positive level the parent is computed
    (each coordinate with the bit of the quadrant's own level cleared,
    the level one less) and is again extended, so the closing assertion
    holds. *)
Theorem parent_precondition_and_validity :
  (forall q r, P4EST_DEBUG = true -> level q = 0 ->
               p4est_quadrant_parent q r = Abort) /\
  (forall q r,
      p4est_quadrant_is_extended q = true -> 0 < level q ->
      exists p,
        p4est_quadrant_parent q r = Done p /\
        x p = Z.land (x q) (Z.lnot (P4EST_QUADRANT_LEN (level q))) /\
        y p = Z.land (y q) (Z.lnot (P4EST_QUADRANT_LEN (level q))) /\
        (P4_TO_P8 = true ->
         z p = Z.land (z q) (Z.lnot (P4EST_QUADRANT_LEN (level q)))) /\
        level p = level q - 1 /\
        p4est_quadrant_is_extended p = true).
Proof.
  split.
  - intros q r Hd Hl. unfold p4est_quadrant_parent.
    unfold P4EST_ASSERT at 1. rewrite Hd.
    destruct (p4est_quadrant_is_extended q); [|reflexivity].
    cbn [bind]. rewrite (P4EST_ASSERT_debug_false _ Hd); [reflexivity|].
    rewrite Hl. reflexivity.
  - intros q r He Hl. pose proof He as He'. apply is_extended_spec in He'.
    destruct He' as (Hlv & Hx & Hy & Hz).
    unfold p4est_quadrant_parent.
    rewrite (P4EST_ASSERT_holds _ He). cbn [bind].
    rewrite (P4EST_ASSERT_holds (level q >? 0)) by (apply Z.gtb_lt; lia).
    cbn [bind].
    match goal with |- context [P4EST_ASSERT (p4est_quadrant_is_extended ?c)] =>
      set (p := c) end.
    assert (Hi : int8 (level q - 1) = level q - 1).
    { apply int8_small. unfold P4EST_QMAXLEVEL in Hlv.
      destruct MAXLEVEL_bounds as [_ Hb]. destruct P4_TO_P8; lia. }
    assert (Hp : x p = Z.land (x q) (Z.lnot (P4EST_QUADRANT_LEN (level q))) /\
                 y p = Z.land (y q) (Z.lnot (P4EST_QUADRANT_LEN (level q))) /\
                 (P4_TO_P8 = true ->
                  z p = Z.land (z q) (Z.lnot (P4EST_QUADRANT_LEN (level q)))) /\
                 level p = level q - 1).
    { subst p. destruct P4_TO_P8; cbn [x y z level set_x set_y set_z set_level];
        rewrite Hi; repeat split; intros; discriminate. }
    destruct Hp as (Px & Py & Pz & Pl).
    assert (Hpe : p4est_quadrant_is_extended p = true).
    { apply is_extended_spec. rewrite Px, Py, Pl.
      split; [lia|].
      split; [apply parent_coord_extended; [lia | exact Hx]|].
      split; [apply parent_coord_extended; [lia | exact Hy]|].
      intros Hd. rewrite (Pz Hd). apply parent_coord_extended; [lia | auto]. }
    rewrite (P4EST_ASSERT_holds _ Hpe). cbn [bind].
    exists p. repeat split; auto.
Qed.

(** ** Ancestors *)

Lemma shiftr_lxor_zero (a b k : Z) :
  0 <= k -> (Z.shiftr (Z.lxor a b) k = 0 <-> agree_from k a b).
Proof.
  intros Hk. unfold agree_from. split.
  - intros H i Hi.
    assert (Hb : Z.testbit (Z.shiftr (Z.lxor a b) k) (i - k) = false)
      by (rewrite H; apply Z.bits_0).
    rewrite Z.shiftr_spec, Z.lxor_spec in Hb by lia.
    replace (i - k + k) with i in Hb by ring.
    destruct (Z.testbit a i), (Z.testbit b i); auto; discriminate.
  - intros H. apply Z.bits_inj'. intros i Hi.
    rewrite Z.shiftr_spec, Z.lxor_spec, Z.bits_0 by lia.
    rewrite (H (i + k)) by lia. apply xorb_nilpotent.
Qed.

Lemma in_axes_2d (P : axis -> Prop) :
  P4_TO_P8 = false -> ((forall a, In a axes -> P a) <-> P AX /\ P AY).
Proof.
  unfold axes. intros Hd. rewrite Hd. cbn. split.
  - intros HP. split; apply HP; auto.
  - intros [Hx Hy] a [<-|[<-|[]]]; assumption.
Qed.

Lemma in_axes_3d (P : axis -> Prop) :
  P4_TO_P8 = true -> ((forall a, In a axes -> P a) <-> P AX /\ P AY /\ P AZ).
Proof.
  unfold axes. intros Hd. rewrite Hd. cbn. split.
  - intros HP. repeat split; apply HP; auto.
  - intros (Hx & Hy & Hz) a [<-|[<-|[<-|[]]]]; assumption.
Qed.

(** C7 (as amended): [q] is reported an ancestor of [r] exactly when
    [q.level < r.level] and, on every axis, the coordinates of [r] and
    [q] agree on all bits at or above position [MAXLEVEL - q.level]. *)
Theorem is_ancestor_iff_bits_from (q r : p4est_quadrant_t) :
  p4est_quadrant_is_extended q = true ->
  p4est_quadrant_is_extended r = true ->
  exists b,
    p4est_quadrant_is_ancestor q r = Done b /\
    (b = true <->
     level q < level r /\
     forall a, In a axes ->
               agree_from (P4EST_MAXLEVEL - level q) (coord a q) (coord a r)).
Proof.
  intros Hq Hr. unfold p4est_quadrant_is_ancestor.
  rewrite (P4EST_ASSERT_holds _ Hq), (P4EST_ASSERT_holds _ Hr). cbn [bind].
  apply is_extended_spec in Hq. destruct Hq as (Hl & _).
  unfold P4EST_QMAXLEVEL in Hl.
  destruct (Z.geb_spec (level q) (level r)) as [Hge|Hlt].
  - exists false. split; [reflexivity|]. split; [discriminate | lia].
  - eexists. split; [reflexivity|].
    assert (Hk : 0 <= P4EST_MAXLEVEL - level q) by lia.
    pose proof (shiftr_lxor_zero (x q) (x r) _ Hk) as Sx.
    pose proof (shiftr_lxor_zero (y q) (y r) _ Hk) as Sy.
    pose proof (shiftr_lxor_zero (z q) (z r) _ Hk) as Sz.
    destruct P4_TO_P8 eqn:Hd.
    + rewrite (in_axes_3d _ Hd). cbn [coord axis_select].
      rewrite !andb_true_iff, !Z.eqb_eq, Sx, Sy, Sz. tauto.
    + rewrite (in_axes_2d _ Hd). cbn [coord axis_select].
      rewrite !andb_true_iff, !Z.eqb_eq, Sx, Sy. tauto.
Qed.

(** ** Families and children *)

Lemma quadrant_eq (q q' : p4est_quadrant_t) :
  x q = x q' -> y q = y q' -> z q = z q' -> level q = level q' -> q = q'.
Proof. destruct q, q'. cbn. congruence. Qed.

Lemma land_pow2_aligned_next (c k : Z) :
  0 <= k -> c mod 2 ^ (k + 1) = 0 -> Z.land c (2 ^ k) = 0.
Proof.
  intros Hk Hc. apply Z.bits_inj'. intros i Hi.
  rewrite Z.land_spec, Z.pow2_bits_eqb, Z.bits_0 by lia.
  destruct (Z.eqb_spec k i) as [<-|]; [|apply andb_false_r].
  rewrite (proj1 (aligned_bits c (k + 1) ltac:(lia)) Hc k) by lia. reflexivity.
Qed.

Lemma lor_pow2_aligned_next (c k : Z) :
  0 <= k -> c mod 2 ^ (k + 1) = 0 -> Z.lor c (2 ^ k) = c + 2 ^ k.
Proof.
  intros Hk Hc. pose proof (land_pow2_aligned_next c k Hk Hc) as Hl.
  rewrite <- Z.lxor_lor by exact Hl. symmetry. apply Z.add_nocarry_lxor, Hl.
Qed.

Lemma aligned_next (c k : Z) :
  0 <= k -> c mod 2 ^ k = 0 -> Z.land c (2 ^ k) = 0 -> c mod 2 ^ (k + 1) = 0.
Proof.
  intros Hk Hc Hb. apply aligned_bits; [lia|]. intros i Hi.
  destruct (Z.eq_dec i k) as [->|Hne].
  - assert (Hbit : Z.testbit (Z.land c (2 ^ k)) k = false)
      by (rewrite Hb; apply Z.bits_0).
    rewrite Z.land_spec, Z.pow2_bits_true, andb_true_r in Hbit by lia. exact Hbit.
  - apply (proj1 (aligned_bits c k Hk) Hc). lia.
Qed.

Lemma aligned_weaken (c j k : Z) :
  0 <= j <= k -> c mod 2 ^ k = 0 -> c mod 2 ^ j = 0.
Proof.
  intros Hjk Hc. apply aligned_bits; [lia|]. intros i Hi.
  apply (proj1 (aligned_bits c k ltac:(lia)) Hc). lia.
Qed.

(** An extended coordinate fits [int32_t], and so does its sum with a
    side length. *)
Lemma coord_extended_int32 (l c : Z) :
  coord_extended l c -> - 2 ^ 31 < c < 2 ^ 31.
Proof.
  intros [_ Hr]. destruct MAXLEVEL_bounds as [Hlo Hhi].
  assert (2 ^ P4EST_MAXLEVEL <= 2 ^ 30)
    by (apply pow2_le_mono; destruct P4_TO_P8; lia).
  change (2 ^ 31) with (2 * 2 ^ 30). lia.
Qed.

(** The first child's coordinate plus the side length of the children is
    the second child's coordinate, which is extended again. *)
Lemma child_coord_extended (l c : Z) :
  0 <= l < P4EST_QMAXLEVEL -> coord_extended l c ->
  coord_extended (l + 1) c /\
  coord_extended (l + 1) (c + P4EST_QUADRANT_LEN (l + 1)) /\
  Z.lor c (P4EST_QUADRANT_LEN (l + 1)) = c + P4EST_QUADRANT_LEN (l + 1) /\
  Z.land c (P4EST_QUADRANT_LEN (l + 1)) = 0.
Proof.
  unfold P4EST_QMAXLEVEL, coord_extended. intros Hl [Hal Hr].
  rewrite QUADRANT_LEN_pow.
  set (k := P4EST_MAXLEVEL - (l + 1)).
  assert (Hk : 0 <= k) by lia.
  replace (P4EST_MAXLEVEL - l) with (k + 1) in Hal by lia.
  pose proof (pow2_pos k Hk) as Hp.
  pose proof (pow2_double k Hk) as Hd.
  assert (Hak : c mod 2 ^ k = 0) by (apply (aligned_weaken c k (k + 1)); [lia | exact Hal]).
  split; [split; [exact Hak | exact Hr]|].
  split; [|split; [apply lor_pow2_aligned_next | apply land_pow2_aligned_next]; assumption].
  split.
  - rewrite <- Zplus_mod_idemp_l, Hak, Z.add_0_l. apply Z.mod_same. lia.
  - assert (Hs : 2 ^ P4EST_MAXLEVEL = 2 ^ (k + 1) * 2 ^ l).
    { rewrite <- Z.pow_add_r by lia. f_equal. lia. }
    apply Z.mod_divide in Hal; [|lia]. destruct Hal as [t Ht].
    pose proof (pow2_pos l ltac:(lia)).
    assert (t <= 2 * 2 ^ l - 1) by nia.
    nia.
Qed.

Lemma is_family_value (q0 q1 q2 q3 : p4est_quadrant_t) :
  p4est_quadrant_is_extended q0 = true ->
  p4est_quadrant_is_extended q1 = true ->
  p4est_quadrant_is_extended q2 = true ->
  p4est_quadrant_is_extended q3 = true ->
  p4est_quadrant_is_family q0 q1 q2 q3 =
  Done (negb (level q0 =? 0) && (level q0 =? level q1) &&
        (level q0 =? level q2) && (level q0 =? level q3) &&
        (((int32 (x q0 + P4EST_QUADRANT_LEN (level q0)) =? x q1) && (y q0 =? y q1)) &&
         ((x q0 =? x q2) && (int32 (y q0 + P4EST_QUADRANT_LEN (level q0)) =? y q2)) &&
         ((x q1 =? x q3) && (y q2 =? y q3)))).
Proof.
  intros H0 H1 H2 H3. unfold p4est_quadrant_is_family.
  rewrite (P4EST_ASSERT_holds _ H0), (P4EST_ASSERT_holds _ H1),
    (P4EST_ASSERT_holds _ H2), (P4EST_ASSERT_holds _ H3). cbn [bind].
  destruct (level q0 =? 0), (level q0 =? level q1), (level q0 =? level q2),
    (level q0 =? level q3); reflexivity.
Qed.

Lemma child_id_zero_2d (q : p4est_quadrant_t) :
  P4_TO_P8 = false ->
  p4est_quadrant_is_extended q = true ->
  (p4est_quadrant_child_id q = Done 0 <->
   level q = 0 \/
   (Z.land (x q) (P4EST_QUADRANT_LEN (level q)) = 0 /\
    Z.land (y q) (P4EST_QUADRANT_LEN (level q)) = 0)).
Proof.
  intros Hd He. unfold p4est_quadrant_child_id, p4est_quadrant_ancestor_id.
  pose proof He as He'. apply is_extended_spec in He'. destruct He' as (Hl & _).
  unfold P4EST_QMAXLEVEL in Hl.
  rewrite (P4EST_ASSERT_holds _ He).
  rewrite (P4EST_ASSERT_holds ((0 <=? level q) && (level q <=? P4EST_MAXLEVEL)))
    by (apply andb_true_iff; split; apply Z.leb_le; lia).
  rewrite (P4EST_ASSERT_holds (level q >=? level q)) by (apply Z.geb_le; lia).
  cbn [bind]. rewrite Hd.
  destruct (Z.eqb_spec (level q) 0) as [H0|H0]; [tauto|].
  destruct (Z.eqb_spec (Z.land (x q) (P4EST_QUADRANT_LEN (level q))) 0) as [Hx|Hx];
    destruct (Z.eqb_spec (Z.land (y q) (P4EST_QUADRANT_LEN (level q))) 0) as [Hy|Hy];
    cbn; split; intros H; try (injection H as H); try discriminate; try tauto;
    destruct H as [H|[H H']]; try contradiction.
Qed.

(** C6 (as amended, 2D build): four extended quadrants are the children
    of some extended quadrant [X] (of a level that has children), in
    child-index order, exactly when [p4est_quadrant_is_family] accepts
    them and the first of them has child index 0. *)
Theorem is_family_with_first_child_iff_children (q0 q1 q2 q3 : p4est_quadrant_t) :
  P4_TO_P8 = false ->
  p4est_quadrant_is_extended q0 = true ->
  p4est_quadrant_is_extended q1 = true ->
  p4est_quadrant_is_extended q2 = true ->
  p4est_quadrant_is_extended q3 = true ->
  ((exists X c0 c1 c2 c3,
       p4est_quadrant_is_extended X = true /\
       level X < P4EST_QMAXLEVEL /\
       p4est_quadrant_children X c0 c1 c2 c3 = Done (q0, q1, q2, q3))
   <->
   (p4est_quadrant_is_family q0 q1 q2 q3 = Done true /\
    p4est_quadrant_child_id q0 = Done 0)).
Proof.
  intros Hd H0 H1 H2 H3.
  rewrite (is_family_value q0 q1 q2 q3 H0 H1 H2 H3).
  rewrite (child_id_zero_2d q0 Hd H0).
  destruct MAXLEVEL_bounds as [Mlo Mhi]. rewrite Hd in Mhi.
  split.
  - intros (X & c0 & c1 & c2 & c3 & HX & HlX & Hch).
    unfold p4est_quadrant_children in Hch.
    rewrite (P4EST_ASSERT_holds _ HX) in Hch.
    rewrite (P4EST_ASSERT_holds (level X <? P4EST_QMAXLEVEL)) in Hch
      by (apply Z.ltb_lt; exact HlX).
    cbn [bind] in Hch.
    destruct (P4EST_ASSERT_CALL _) in Hch; cbn [bind] in Hch; try discriminate.
    apply is_extended_spec in HX. destruct HX as (Hlv & Hx & Hy & _).
    assert (Hi : int8 (level X + 1) = level X + 1).
    { apply int8_small. unfold P4EST_QMAXLEVEL in *. lia. }
    cbn [x y z level set_x set_y set_z set_level] in Hch. rewrite Hi in Hch.
    injection Hch as E0 E1 E2 E3.
    destruct (child_coord_extended (level X) (x X) ltac:(lia) Hx)
      as (_ & Cx & Lx & Bx).
    destruct (child_coord_extended (level X) (y X) ltac:(lia) Hy)
      as (_ & Cy & Ly & By).
    rewrite Lx in *. rewrite Ly in *.
    pose proof (coord_extended_int32 _ _ Cx) as Rx.
    pose proof (coord_extended_int32 _ _ Cy) as Ry.
    subst q0 q1 q2 q3. cbn [x y z level set_x set_y set_z set_level].
    rewrite !int32_small by lia. rewrite !Z.eqb_refl.
    split.
    + f_equal. destruct (Z.eqb_spec (level X + 1) 0); [lia | reflexivity].
    + right. split; assumption.
  - intros [Hfam Hcid]. injection Hfam as Hfam. pose proof Hfam as Hfam0.
    rewrite !andb_true_iff in Hfam. rewrite negb_true_iff in Hfam.
    rewrite !Z.eqb_eq, Z.eqb_neq in Hfam.
    destruct Hfam as ((((Hl0 & Hl1) & Hl2) & Hl3) & ((Fx1 & Fy1) & (Fx2 & Fy2)) & (Fx3 & Fy3)).
    destruct Hcid as [Hc|[Bx By]]; [contradiction|].
    pose proof H0 as H0'. apply is_extended_spec in H0'.
    destruct H0' as (Hlv & (Ax & Rx) & (Ay & Ry) & _).
    unfold P4EST_QMAXLEVEL in Hlv.
    rewrite QUADRANT_LEN_pow in *.
    set (k := P4EST_MAXLEVEL - level q0) in *.
    assert (Hk : 0 <= k) by (subst k; lia).
    pose proof (aligned_next _ _ Hk Ax Bx) as Ax'.
    pose proof (aligned_next _ _ Hk Ay By) as Ay'.
    set (X := mkquad (x q0) (y q0) (z q0) (level q0 - 1)).
    assert (HX : p4est_quadrant_is_extended X = true).
    { apply is_extended_spec. subst X. cbn [x y z level]. rewrite Hd.
      unfold P4EST_QMAXLEVEL, coord_extended.
      replace (P4EST_MAXLEVEL - (level q0 - 1)) with (k + 1) by (subst k; lia).
      repeat split; try lia; try assumption. }
    exists X, q0, q1, q2, q3.
    split; [exact HX|]. split; [subst X; cbn; unfold P4EST_QMAXLEVEL; lia|].
    unfold p4est_quadrant_children.
    rewrite (P4EST_ASSERT_holds _ HX).
    rewrite (P4EST_ASSERT_holds (level X <? P4EST_QMAXLEVEL))
      by (apply Z.ltb_lt; subst X; cbn; unfold P4EST_QMAXLEVEL; lia).
    cbn [bind].
    assert (Hi : int8 (level X + 1) = level q0).
    { subst X. cbn [level]. replace (level q0 - 1 + 1) with (level q0) by ring.
      apply int8_small. lia. }
    cbn [x y z level set_x set_y set_z set_level]. rewrite Hi.
    subst X. cbn [x y z level].
    rewrite QUADRANT_LEN_pow. fold k.
    rewrite (lor_pow2_aligned_next _ _ Hk Ax'), (lor_pow2_aligned_next _ _ Hk Ay').
    pose proof (child_coord_extended (level q0 - 1) (x q0)) as Cx.
    pose proof (child_coord_extended (level q0 - 1) (y q0)) as Cy.
    unfold coord_extended, P4EST_QMAXLEVEL in Cx, Cy.
    replace (level q0 - 1 + 1) with (level q0) in Cx, Cy by ring.
    replace (P4EST_MAXLEVEL - (level q0 - 1)) with (k + 1) in Cx, Cy by (subst k; lia).
    rewrite QUADRANT_LEN_pow in Cx, Cy. fold k in Cx, Cy.
    destruct (Cx ltac:(lia) (conj Ax' Rx)) as (_ & Cx' & _).
    destruct (Cy ltac:(lia) (conj Ay' Ry)) as (_ & Cy' & _).
    apply (coord_extended_int32 (level q0)) in Cx'.
    apply (coord_extended_int32 (level q0)) in Cy'.
    rewrite int32_small in Fx1, Fy2 by lia.
    assert (E0 : set_level (set_y (set_x q0 (x q0)) (y q0)) (level q0) = q0)
      by (destruct q0; reflexivity).
    assert (E1 : set_level (set_y (set_x q1 (x q0 + 2 ^ k)) (y q0)) (level q0) = q1)
      by (apply quadrant_eq; cbn; congruence).
    assert (E2 : set_level (set_y (set_x q2 (x q0)) (y q0 + 2 ^ k)) (level q0) = q2)
      by (apply quadrant_eq; cbn; congruence).
    assert (E3 : set_level (set_y (set_x q3 (x q0 + 2 ^ k)) (y q0 + 2 ^ k))
                   (level q0) = q3)
      by (apply quadrant_eq; cbn; congruence).
    rewrite E0, E1, E2, E3.
    unfold P4EST_ASSERT_CALL.
    rewrite (is_family_value q0 q1 q2 q3 H0 H1 H2 H3).
    rewrite QUADRANT_LEN_pow. fold k. rewrite Hfam0.
    destruct P4EST_DEBUG; reflexivity.
Qed.

(** ** Morton index: the bits the two loops move *)

Lemma DIM_cases : (P4_TO_P8 = false /\ P4EST_DIM = 2) \/ (P4_TO_P8 = true /\ P4EST_DIM = 3).
Proof. unfold P4EST_DIM. destruct P4_TO_P8; auto. Qed.

Lemma axis_rank_range (a : axis) : In a axes -> 0 <= axis_rank a < P4EST_DIM.
Proof.
  unfold axes, P4EST_DIM.
  destruct P4_TO_P8; cbn; intros H; repeat destruct H as [<-|H]; cbn; try lia; contradiction.
Qed.

(** Every bit position is position [DIM * i + rank a] of one axis. *)
Lemma position_split (k : Z) :
  0 <= k -> exists i a, In a axes /\ 0 <= i /\ k = P4EST_DIM * i + axis_rank a.
Proof.
  intros Hk. unfold axes, P4EST_DIM. destruct P4_TO_P8.
  - pose proof (Z.div_mod k 3 ltac:(lia)) as Hdm.
    pose proof (Z.mod_pos_bound k 3 ltac:(lia)) as Hm.
    assert (Hi : 0 <= k / 3) by (apply Z.div_pos; lia).
    exists (k / 3).
    destruct (Z.eq_dec (k mod 3) 0) as [E|N0].
    { exists AX. cbn [In axis_rank]. split; [auto|]. split; lia. }
    destruct (Z.eq_dec (k mod 3) 1) as [E|N1].
    { exists AY. cbn [In axis_rank]. split; [auto|]. split; lia. }
    exists AZ. cbn [In axis_rank]. split; [auto|]. split; lia.
  - pose proof (Z.div_mod k 2 ltac:(lia)) as Hdm.
    pose proof (Z.mod_pos_bound k 2 ltac:(lia)) as Hm.
    assert (Hi : 0 <= k / 2) by (apply Z.div_pos; lia).
    exists (k / 2).
    destruct (Z.eq_dec (k mod 2) 0) as [E|N0].
    { exists AX. cbn [In axis_rank]. split; [auto|]. split; lia. }
    exists AY. cbn [In axis_rank]. split; [auto|]. split; lia.
Qed.

Lemma uint64_pow2 (n : Z) : 0 <= n < 64 -> uint64 (Z.shiftl 1 n) = 2 ^ n.
Proof.
  intros H. rewrite Z.shiftl_1_l. apply uint64_small.
  split; [apply Z.pow_nonneg; lia | apply Z.pow_lt_mono_r; lia].
Qed.

(** The term that [p4est_quadrant_linear_id] ors into the index: bit [i]
    of [c] moved to position [i + s]. *)
Lemma interleave_term_bit (c i s k : Z) :
  0 <= i -> 0 <= s -> i + s < 64 -> 0 <= k ->
  Z.testbit (uint64 (Z.shiftl (Z.land c (uint64 (Z.shiftl 1 i))) s)) k =
  (k =? i + s) && Z.testbit c i.
Proof.
  intros Hi Hs Hb Hk. rewrite uint64_pow2 by lia. unfold uint64.
  rewrite Z.testbit_mod_pow2, Z.shiftl_spec, Z.land_spec by lia.
  destruct (Z.eqb_spec k (i + s)) as [->|Hne].
  - replace (i + s - s) with i by ring.
    rewrite Z.pow2_bits_true by lia.
    destruct (Z.ltb_spec (i + s) 64); [|lia]. cbn. apply andb_true_r.
  - rewrite Z.pow2_bits_false by lia. rewrite andb_false_r. apply andb_false_r.
Qed.

(** The term that [p4est_quadrant_set_morton] ors into a coordinate: bit
    [p] of the index moved down to position [p - s]. *)
Lemma deinterleave_term_bit (id p s k : Z) :
  0 <= s <= p -> p < 64 -> p - s < 31 -> 0 <= k ->
  Z.testbit (int32 (Z.shiftr (Z.land id (uint64 (Z.shiftl 1 p))) s)) k =
  (k =? p - s) && Z.testbit id p.
Proof.
  intros Hs Hp Hps Hk. rewrite uint64_pow2 by lia.
  assert (Hv : Z.shiftr (Z.land id (2 ^ p)) s = if Z.testbit id p then 2 ^ (p - s) else 0).
  { apply Z.bits_inj'. intros j Hj.
    rewrite Z.shiftr_spec, Z.land_spec, Z.pow2_bits_eqb by lia.
    destruct (Z.eqb_spec p (j + s)) as [->|Hne].
    - rewrite andb_true_r. destruct (Z.testbit id (j + s)).
      + rewrite Z.pow2_bits_eqb by lia. symmetry. apply Z.eqb_eq. lia.
      + symmetry. apply Z.bits_0.
    - rewrite andb_false_r. destruct (Z.testbit id p).
      + rewrite Z.pow2_bits_false by lia. reflexivity.
      + symmetry. apply Z.bits_0. }
  rewrite Hv.
  assert (Hr : 0 < 2 ^ (p - s) < 2 ^ 31).
  { split; [apply pow2_pos; lia | apply Z.pow_lt_mono_r; lia]. }
  destruct (Z.testbit id p).
  - rewrite int32_small by lia. rewrite Z.pow2_bits_eqb by lia.
    rewrite andb_true_r. apply Z.eqb_sym.
  - rewrite int32_small by lia. rewrite Z.bits_0. symmetry. apply andb_false_r.
Qed.

Lemma linear_id_body_bit (cx cy cz j id : Z) (a : axis) (i : Z) :
  0 <= j -> P4EST_DIM * (j + 1) <= 64 -> In a axes -> 0 <= i ->
  Z.testbit (linear_id_body cx cy cz j id) (P4EST_DIM * i + axis_rank a) =
  Z.testbit id (P4EST_DIM * i + axis_rank a) ||
  ((i =? j) && Z.testbit (axis_select a cx cy cz) j).
Proof.
  intros Hj Hb Ha Hi. pose proof (axis_rank_range a Ha) as Hr.
  unfold linear_id_body.
  destruct DIM_cases as [[Hd HD]|[Hd HD]]; rewrite Hd; rewrite HD in *;
    rewrite !Z.lor_spec, !interleave_term_bit by lia;
    destruct (Z.eqb_spec i j) as [->|Hne];
    destruct a; cbn [axis_rank axis_select] in *; try lia;
    repeat match goal with
      | |- context [?u =? ?v] =>
          destruct (Z.eqb_spec u v); try lia
      end;
    cbn [andb orb]; rewrite ?orb_false_r; reflexivity.
Qed.

Lemma linear_id_body_nonneg (cx cy cz j id : Z) :
  0 <= id -> 0 <= linear_id_body cx cy cz j id.
Proof.
  intros H. unfold linear_id_body, uint64.
  assert (Hm : forall v, 0 <= v mod 2 ^ 64) by (intros v; apply Z.mod_pos_bound; lia).
  destruct P4_TO_P8; repeat (apply Z.lor_nonneg; split); auto.
Qed.

Lemma linear_id_loop_bit (cx cy cz : Z) (a : axis) (i : Z) (count : nat) :
  In a axes -> 0 <= i ->
  forall i0 id,
    0 <= i0 -> P4EST_DIM * (i0 + Z.of_nat count) <= 64 ->
    Z.testbit (for_loop count i0 (linear_id_body cx cy cz) id)
      (P4EST_DIM * i + axis_rank a) =
    Z.testbit id (P4EST_DIM * i + axis_rank a) ||
    ((i0 <=? i) && (i <? i0 + Z.of_nat count) &&
     Z.testbit (axis_select a cx cy cz) i).
Proof.
  intros Ha Hi.
  assert (HD : 2 <= P4EST_DIM) by (destruct DIM_cases as [[_ ->]|[_ ->]]; lia).
  induction count as [|count IH]; intros i0 id Hi0 Hb.
  - cbn [for_loop].
    destruct (Z.leb_spec i0 i), (Z.ltb_spec i (i0 + Z.of_nat 0)); try lia;
      cbn [andb]; rewrite orb_false_r; reflexivity.
  - cbn [for_loop]. rewrite IH by nia.
    rewrite linear_id_body_bit by (auto; nia).
    rewrite <- orb_assoc. f_equal.
    destruct (Z.eqb_spec i i0) as [->|Hne].
    + destruct (Z.leb_spec (i0 + 1) i0), (Z.ltb_spec i0 (i0 + 1 + Z.of_nat count)),
        (Z.leb_spec i0 i0), (Z.ltb_spec i0 (i0 + Z.of_nat (S count))); try lia.
      cbn [andb orb]. apply orb_false_r.
    + destruct (Z.leb_spec (i0 + 1) i), (Z.ltb_spec i (i0 + 1 + Z.of_nat count)),
        (Z.leb_spec i0 i), (Z.ltb_spec i (i0 + Z.of_nat (S count))); try lia;
        reflexivity.
Qed.

Lemma linear_id_loop_nonneg (cx cy cz : Z) (count : nat) :
  forall i0 id, 0 <= id -> 0 <= for_loop count i0 (linear_id_body cx cy cz) id.
Proof.
  induction count as [|count IH]; intros i0 id H; cbn [for_loop]; [exact H|].
  apply IH, linear_id_body_nonneg, H.
Qed.

Lemma p4est_quadrant_linear_id_eq (q : p4est_quadrant_t) (lvl : Z) :
  p4est_quadrant_linear_id q lvl =
  (P4EST_ASSERT (p4est_quadrant_is_extended q) ;;;
   P4EST_ASSERT ((level q >=? lvl) && (lvl >=? 0)) ;;;
   Done (linear_id_result q lvl)).
Proof. reflexivity. Qed.

Lemma linear_id_result_nonneg (q : p4est_quadrant_t) (lvl : Z) :
  0 <= linear_id_result q lvl.
Proof. apply linear_id_loop_nonneg. lia. Qed.

(** Bit [i] of the index group of axis [a] is bit [i + (MAXLEVEL - lvl)]
    of that coordinate, for the [lvl + 2] lowest groups. *)
Lemma linear_id_result_bit (q : p4est_quadrant_t) (lvl : Z) (a : axis) (i : Z) :
  0 <= lvl <= P4EST_MAXLEVEL -> In a axes -> 0 <= i ->
  Z.testbit (linear_id_result q lvl) (P4EST_DIM * i + axis_rank a) =
  (i <? lvl + 2) && Z.testbit (coord a q) (i + (P4EST_MAXLEVEL - lvl)).
Proof.
  intros Hl Ha Hi. unfold linear_id_result, for_upto.
  destruct MAXLEVEL_bounds as [Mlo Mhi].
  rewrite linear_id_loop_bit; auto; try lia.
  2:{ rewrite Z2Nat.id by lia.
      destruct DIM_cases as [[Hd ->]|[Hd ->]]; rewrite Hd in Mhi; lia. }
  rewrite Z.bits_0, orb_false_l, Z2Nat.id by lia.
  destruct (Z.leb_spec 0 i); [|lia]. rewrite andb_true_l, Z.add_0_l.
  destruct (Z.ltb_spec i (lvl + 2)) as [Hlt|Hge]; [|reflexivity].
  rewrite !andb_true_l. unfold coord, uint64.
  destruct a; cbn [axis_select];
    rewrite Z.testbit_mod_pow2, Z.shiftr_spec by lia;
    (destruct (Z.ltb_spec i 64); [reflexivity | destruct P4_TO_P8; lia]).
Qed.

(** A non-negative number all of whose bits from position [n] on are
    clear is below [2^n]. *)
Lemma bits_above_bound (v n : Z) :
  0 <= n -> 0 <= v -> (forall k, n <= k -> Z.testbit v k = false) -> v < 2 ^ n.
Proof.
  intros Hn Hv Hb.
  assert (Hm : v mod 2 ^ n = v).
  { apply Z.bits_inj'. intros k Hk. rewrite Z.testbit_mod_pow2 by lia.
    destruct (Z.ltb_spec k n); [reflexivity|]. symmetry. apply Hb. lia. }
  rewrite <- Hm. apply Z.mod_pos_bound, pow2_pos, Hn.
Qed.

Lemma bits_of_bounded (v n k : Z) :
  0 <= v < 2 ^ n -> n <= k -> Z.testbit v k = false.
Proof.
  intros Hv Hk. destruct (Z.neg_nonneg_cases n) as [Hn|Hn].
  - rewrite Z.pow_neg_r in Hv by lia. lia.
  - rewrite <- (Z.mod_small v (2 ^ n)) by lia. apply Z.mod_pow2_bits_high. lia.
Qed.

Lemma linear_id_result_bound (q : p4est_quadrant_t) (lvl : Z) :
  0 <= lvl <= P4EST_MAXLEVEL ->
  linear_id_result q lvl < 2 ^ (P4EST_DIM * (lvl + 2)).
Proof.
  intros Hl.
  assert (HD : 2 <= P4EST_DIM) by (destruct DIM_cases as [[_ ->]|[_ ->]]; lia).
  apply bits_above_bound; [nia | apply linear_id_result_nonneg |].
  intros k Hk.
  destruct (position_split k ltac:(nia)) as (i & a & Ha & Hi & ->).
  pose proof (axis_rank_range a Ha).
  rewrite linear_id_result_bit by auto.
  destruct (Z.ltb_spec i (lvl + 2)); [nia | reflexivity].
Qed.

Lemma p4est_quadrant_set_morton_eq (quadrant : p4est_quadrant_t) (lvl id : Z) :
  p4est_quadrant_set_morton quadrant lvl id =
  (P4EST_ASSERT ((0 <=? lvl) && (lvl <=? P4EST_QMAXLEVEL)) ;;;
   (if lvl <? P4EST_QMAXLEVEL
    then P4EST_ASSERT (id <? uint64 (Z.shiftl 1 (P4EST_DIM * (lvl + 2))))
    else Done tt) ;;;
   P4EST_ASSERT (p4est_quadrant_is_extended (set_morton_result quadrant lvl id)) ;;;
   Done (set_morton_result quadrant lvl id)).
Proof. reflexivity. Qed.

Lemma set_morton_body_spec (id j : Z) (q : p4est_quadrant_t) :
  0 <= j < 31 -> P4EST_DIM * (j + 1) <= 64 ->
  level (set_morton_body id j q) = level q /\
  (P4_TO_P8 = false -> z (set_morton_body id j q) = z q) /\
  forall a k, In a axes -> 0 <= k ->
    Z.testbit (coord a (set_morton_body id j q)) k =
    Z.testbit (coord a q) k ||
    ((k =? j) && Z.testbit id (P4EST_DIM * j + axis_rank a)).
Proof.
  intros Hj Hb. unfold set_morton_body. destruct q as [qx qy qz ql].
  destruct DIM_cases as [[Hd HD]|[Hd HD]]; rewrite Hd; rewrite HD in *;
    cbn [x y z level set_x set_y set_z set_level];
    (split; [reflexivity|]); (split; [intros; try reflexivity; discriminate|]);
    intros a k Ha Hk; pose proof (axis_rank_range a Ha) as Hr; rewrite HD in Hr;
    destruct a; cbn [axis_rank] in Hr; try lia;
    cbn [coord axis_select x y z level set_x set_y set_z set_level axis_rank];
    rewrite Z.lor_spec, deinterleave_term_bit by lia;
    do 2 f_equal; try lia; f_equal; lia.
Qed.

Lemma set_morton_loop_spec (id : Z) (count : nat) :
  forall i0 q,
    0 <= i0 -> i0 + Z.of_nat count <= 31 ->
    P4EST_DIM * (i0 + Z.of_nat count) <= 64 ->
    level (for_loop count i0 (set_morton_body id) q) = level q /\
    (P4_TO_P8 = false -> z (for_loop count i0 (set_morton_body id) q) = z q) /\
    forall a k, In a axes -> 0 <= k ->
      Z.testbit (coord a (for_loop count i0 (set_morton_body id) q)) k =
      Z.testbit (coord a q) k ||
      ((i0 <=? k) && (k <? i0 + Z.of_nat count) &&
       Z.testbit id (P4EST_DIM * k + axis_rank a)).
Proof.
  assert (HD : 2 <= P4EST_DIM) by (destruct DIM_cases as [[_ ->]|[_ ->]]; lia).
  induction count as [|count IH]; intros i0 q Hi0 Hc Hb.
  - cbn [for_loop]. split; [reflexivity|]. split; [reflexivity|].
    intros a k Ha Hk.
    destruct (Z.leb_spec i0 k), (Z.ltb_spec k (i0 + Z.of_nat 0)); try lia;
      cbn [andb]; rewrite orb_false_r; reflexivity.
  - cbn [for_loop].
    destruct (IH (i0 + 1) (set_morton_body id i0 q)) as (Il & Iz & Ib); try nia.
    destruct (set_morton_body_spec id i0 q) as (Bl & Bz & Bb); try nia.
    split; [congruence|]. split; [intros Hd; rewrite Iz, Bz; auto|].
    intros a k Ha Hk. rewrite Ib, Bb by auto.
    rewrite <- orb_assoc. f_equal.
    destruct (Z.eqb_spec k i0) as [->|Hne].
    + destruct (Z.leb_spec (i0 + 1) i0), (Z.ltb_spec i0 (i0 + 1 + Z.of_nat count)),
        (Z.leb_spec i0 i0), (Z.ltb_spec i0 (i0 + Z.of_nat (S count))); try lia.
      cbn [andb orb]. apply orb_false_r.
    + destruct (Z.leb_spec (i0 + 1) k), (Z.ltb_spec k (i0 + 1 + Z.of_nat count)),
        (Z.leb_spec i0 k), (Z.ltb_spec k (i0 + Z.of_nat (S count))); try lia;
        reflexivity.
Qed.

Lemma nonneg_of_bits (v n : Z) :
  (forall k, n <= k -> Z.testbit v k = false) -> 0 <= v.
Proof.
  intros H. apply Z.bits_iff_nonneg_ex. exists n. intros m Hm. apply H. lia.
Qed.

Lemma MAXLEVEL_le_30 : 1 <= P4EST_MAXLEVEL <= 30.
Proof. destruct MAXLEVEL_bounds. destruct P4_TO_P8; lia. Qed.

Lemma pow2_MAXLEVEL_le : 0 < 2 ^ P4EST_MAXLEVEL <= 2 ^ 30.
Proof.
  pose proof MAXLEVEL_le_30. split; [apply pow2_pos; lia | apply pow2_le_mono; lia].
Qed.

(** A value below [2^l], shifted up to the coordinate width, stays
    inside the root: neither the [int32_t] store nor the sign correction
    of the 3D build changes it. *)
Lemma shifted_inside_root (v s l : Z) :
  0 <= s -> 0 <= l -> l + s = P4EST_MAXLEVEL -> 0 <= v < 2 ^ l ->
  0 <= Z.shiftl v s < 2 ^ P4EST_MAXLEVEL /\
  int32 (Z.shiftl v s) = Z.shiftl v s /\
  (P4_TO_P8 = true -> set_morton_sign (Z.shiftl v s) = Z.shiftl v s).
Proof.
  intros Hs Hl Hm Hv. pose proof MAXLEVEL_le_30 as HM.
  pose proof pow2_MAXLEVEL_le as H30.
  rewrite Z.shiftl_mul_pow2 by lia.
  pose proof (pow2_pos s Hs) as Hp.
  assert (Hpow : 2 ^ P4EST_MAXLEVEL = 2 ^ l * 2 ^ s)
    by (rewrite <- Z.pow_add_r by lia; f_equal; lia).
  assert (Hr : 0 <= v * 2 ^ s < 2 ^ P4EST_MAXLEVEL) by (rewrite Hpow; nia).
  assert (H31 : 2 ^ 31 = 2 * 2 ^ 30) by reflexivity.
  split; [exact Hr|]. split; [apply int32_small; lia|].
  intros Hd. unfold set_morton_sign. rewrite Z.shiftl_1_l.
  assert (Hdb : 2 ^ (P4EST_MAXLEVEL + 1) = 2 * 2 ^ P4EST_MAXLEVEL)
    by (apply pow2_double; lia).
  assert (H29 : 2 ^ P4EST_MAXLEVEL <= 2 ^ 19).
  { apply pow2_le_mono. destruct MAXLEVEL_bounds as [? Hhi]. rewrite Hd in Hhi. lia. }
  rewrite (int32_small (2 ^ (P4EST_MAXLEVEL + 1))).
  - destruct (Z.geb_spec (v * 2 ^ s) (2 ^ (P4EST_MAXLEVEL + 1))); [lia | reflexivity].
  - rewrite Hdb. change (2 ^ 31) with (4096 * 2 ^ 19). lia.
Qed.

(** Decoding an index whose groups from [lvl] on are empty gives a
    quadrant inside the root whose coordinates hold the groups of the
    index, shifted up to the coordinate width. *)
Lemma set_morton_result_inside (quadrant : p4est_quadrant_t) (lvl id : Z) :
  0 <= lvl <= P4EST_QMAXLEVEL ->
  (forall a i, In a axes -> lvl <= i ->
               Z.testbit id (P4EST_DIM * i + axis_rank a) = false) ->
  level (set_morton_result quadrant lvl id) = lvl /\
  (P4_TO_P8 = false -> z (set_morton_result quadrant lvl id) = z quadrant) /\
  forall a, In a axes ->
    0 <= coord a (set_morton_result quadrant lvl id) < 2 ^ P4EST_MAXLEVEL /\
    forall j, 0 <= j ->
      Z.testbit (coord a (set_morton_result quadrant lvl id)) j =
      (P4EST_MAXLEVEL - lvl <=? j) &&
      Z.testbit id (P4EST_DIM * (j - (P4EST_MAXLEVEL - lvl)) + axis_rank a).
Proof.
  unfold P4EST_QMAXLEVEL. intros Hl Hid. pose proof MAXLEVEL_le_30 as HM.
  assert (Hi8 : int8 lvl = lvl) by (apply int8_small; lia).
  unfold set_morton_result, for_upto. rewrite Hi8.
  match goal with |- context [for_loop ?c ?i ?b ?q] =>
    destruct (set_morton_loop_spec id c i q) as (Ll & Lz & Lb);
    [lia | rewrite Z2Nat.id by lia; lia
     | rewrite Z2Nat.id by lia; destruct MAXLEVEL_bounds as [_ Hhi];
       destruct DIM_cases as [[Hd ->]|[Hd ->]]; rewrite Hd in Hhi; lia |];
    set (ql := for_loop c i b q) in *
  end.
  rewrite Z2Nat.id in Lb by lia.
  (* the coordinates left by the loop *)
  assert (HX : forall a, In a axes ->
             0 <= coord a ql < 2 ^ lvl /\
             forall k, 0 <= k ->
               Z.testbit (coord a ql) k =
               Z.testbit id (P4EST_DIM * k + axis_rank a)).
  { intros a Ha.
    assert (Hb : forall k, 0 <= k ->
               Z.testbit (coord a ql) k =
               Z.testbit id (P4EST_DIM * k + axis_rank a)).
    { intros k Hk. rewrite (Lb a k Ha Hk).
      assert (H0 : Z.testbit
                (coord a (if P4_TO_P8
                          then set_z (set_y (set_x (set_level quadrant lvl) 0) 0) 0
                          else set_y (set_x (set_level quadrant lvl) 0) 0)) k = false).
      { revert Ha. unfold axes. destruct P4_TO_P8; cbn [In];
          intros Ha; repeat destruct Ha as [<-|Ha]; try contradiction;
          cbn [coord axis_select x y z set_x set_y set_z set_level]; apply Z.bits_0. }
      rewrite H0, orb_false_l.
      destruct (Z.leb_spec 0 k); [|lia]. rewrite andb_true_l.
      destruct (Z.ltb_spec k (0 + (lvl + 2))) as [Hlt|Hge]; [reflexivity|].
      rewrite Hid by (auto; lia). reflexivity. }
    assert (Hhigh : forall k, lvl <= k -> Z.testbit (coord a ql) k = false).
    { intros k Hk. rewrite Hb by lia. apply Hid; auto. }
    split; [|exact Hb].
    split; [apply (nonneg_of_bits _ lvl), Hhigh
           | apply bits_above_bound; [lia | apply (nonneg_of_bits _ lvl), Hhigh | exact Hhigh]]. }
  set (s := P4EST_MAXLEVEL - lvl) in *.
  assert (HS : forall a, In a axes ->
             0 <= Z.shiftl (coord a ql) s < 2 ^ P4EST_MAXLEVEL /\
             int32 (Z.shiftl (coord a ql) s) = Z.shiftl (coord a ql) s /\
             (P4_TO_P8 = true ->
              set_morton_sign (Z.shiftl (coord a ql) s) = Z.shiftl (coord a ql) s)).
  { intros a Ha. apply (shifted_inside_root _ s lvl); subst s; try lia.
    apply HX, Ha. }
  assert (HB : forall a j, In a axes -> 0 <= j ->
             Z.testbit (Z.shiftl (coord a ql) s) j =
             (s <=? j) && Z.testbit id (P4EST_DIM * (j - s) + axis_rank a)).
  { intros a j Ha Hj. rewrite Z.shiftl_spec by lia.
    destruct (Z.leb_spec s j).
    - rewrite (proj2 (HX a Ha)) by lia. reflexivity.
    - apply Z.testbit_neg_r. lia. }
  assert (Hfin : forall a, In a axes ->
             coord a (if P4_TO_P8
                      then
                        set_z
                          (set_y
                             (set_x
                                (set_z
                                   (set_y (set_x ql (int32 (Z.shiftl (x ql) s)))
                                      (int32 (Z.shiftl (y (set_x ql (int32 (Z.shiftl (x ql) s)))) s)))
                                   (int32 (Z.shiftl (z (set_y (set_x ql (int32 (Z.shiftl (x ql) s)))
                                      (int32 (Z.shiftl (y (set_x ql (int32 (Z.shiftl (x ql) s)))) s)))) s)))
                                (set_morton_sign (int32 (Z.shiftl (x ql) s))))
                             (set_morton_sign (int32 (Z.shiftl (y ql) s))))
                          (set_morton_sign (int32 (Z.shiftl (z ql) s)))
                      else set_y (set_x ql (int32 (Z.shiftl (x ql) s)))
                             (int32 (Z.shiftl (y ql) s)))
             = Z.shiftl (coord a ql) s).
  { intros a Ha. destruct (HS a Ha) as (_ & Hi & Hsg). revert Ha Hi Hsg.
    unfold axes. destruct P4_TO_P8; cbn [In];
      intros Ha; repeat destruct Ha as [<-|Ha]; try contradiction;
      cbn [coord axis_select x y z set_x set_y set_z set_level];
      intros Hi Hsg; rewrite Hi; auto. }
  cbv zeta.
  split; [|split].
  - destruct P4_TO_P8; cbn [level set_x set_y set_z set_level]; rewrite Ll;
      reflexivity.
  - intros Hd. rewrite Hd in *. cbn [z set_x set_y]. rewrite Lz by reflexivity.
    reflexivity.
  - intros a Ha. 
    match goal with |- context [coord a ?r] =>
      replace (coord a r) with (Z.shiftl (coord a ql) s)
    end.
    + split; [apply HS, Ha | intros j Hj; apply HB; auto].
    + symmetry. rewrite <- (Hfin a Ha). destruct P4_TO_P8; reflexivity.
Qed.

Lemma is_valid_spec (q : p4est_quadrant_t) :
  p4est_quadrant_is_valid q = true <->
  0 <= level q <= P4EST_QMAXLEVEL /\
  coord_valid (level q) (x q) /\
  coord_valid (level q) (y q) /\
  (P4_TO_P8 = true -> coord_valid (level q) (z q)).
Proof.
  unfold p4est_quadrant_is_valid, p4est_quadrant_is_inside_root,
    coord_valid, P4EST_QMAXLEVEL.
  rewrite ROOT_LEN_pow.
  destruct (Z.leb_spec (level q) (P4EST_MAXLEVEL - 1)) as [Hl|Hl].
  2:{ rewrite andb_false_r. simpl. split; [discriminate | lia]. }
  pose proof (land_len_mask (level q) (x q)) as Hx.
  pose proof (land_len_mask (level q) (y q)) as Hy.
  pose proof (land_len_mask (level q) (z q)) as Hz.
  destruct P4_TO_P8;
    rewrite ?andb_true_iff, ?Hx, ?Hy, ?Hz by lia;
    rewrite ?Z.geb_le, ?Z.leb_le, ?Z.ltb_lt; intuition (try lia; try discriminate).
Qed.

Lemma coord_valid_extended (l c : Z) : coord_valid l c -> coord_extended l c.
Proof.
  unfold coord_valid, coord_extended. intros [Ha Hr]. split; [exact Ha | lia].
Qed.

Lemma is_valid_extended (q : p4est_quadrant_t) :
  p4est_quadrant_is_valid q = true -> p4est_quadrant_is_extended q = true.
Proof.
  rewrite is_valid_spec, is_extended_spec. intros (Hl & Hx & Hy & Hz).
  split; [exact Hl|]. split; [apply coord_valid_extended, Hx|].
  split; [apply coord_valid_extended, Hy|].
  intros Hd. apply coord_valid_extended, Hz, Hd.
Qed.

Lemma is_valid_coord (q : p4est_quadrant_t) (a : axis) :
  p4est_quadrant_is_valid q = true -> In a axes -> coord_valid (level q) (coord a q).
Proof.
  rewrite is_valid_spec. intros (Hl & Hx & Hy & Hz). unfold axes.
  destruct P4_TO_P8; cbn [In]; intros Ha;
    repeat destruct Ha as [<-|Ha]; try contradiction; cbn [coord axis_select]; auto.
Qed.

Lemma is_valid_of_coords (q : p4est_quadrant_t) :
  0 <= level q <= P4EST_QMAXLEVEL ->
  (forall a, In a axes -> coord_valid (level q) (coord a q)) ->
  p4est_quadrant_is_valid q = true.
Proof.
  intros Hl Hc. apply is_valid_spec. split; [exact Hl|].
  split; [apply (Hc AX); unfold axes; destruct P4_TO_P8; cbn; auto|].
  split; [apply (Hc AY); unfold axes; destruct P4_TO_P8; cbn; auto|].
  intros Hd. apply (Hc AZ). unfold axes. rewrite Hd. cbn. auto.
Qed.

Lemma clear_bits_below_bit (p c j : Z) :
  0 <= p -> 0 <= j ->
  Z.testbit (clear_bits_below p c) j = (p <=? j) && Z.testbit c j.
Proof.
  intros Hp Hj. unfold clear_bits_below.
  rewrite Z.ldiff_spec, Z.testbit_ones_nonneg by lia.
  destruct (Z.ltb_spec j p), (Z.leb_spec p j); try lia; cbn;
    rewrite ?andb_true_r, ?andb_false_r; reflexivity.
Qed.

Lemma DIM_range : 2 <= P4EST_DIM <= 3.
Proof. destruct DIM_cases as [[_ ->]|[_ ->]]; lia. Qed.

Lemma DIM_levels_fit (l : Z) : l <= P4EST_QMAXLEVEL -> P4EST_DIM * (l + 2) < 64.
Proof.
  unfold P4EST_QMAXLEVEL. intros Hl. destruct MAXLEVEL_bounds as [_ Hhi].
  destruct DIM_cases as [[Hd ->]|[Hd ->]]; rewrite Hd in Hhi; lia.
Qed.

(** The quadrant decoded from an index whose groups from [lvl] on are
    empty is valid and passes the assertions of the decoder. *)
Lemma set_morton_inside_done (quadrant : p4est_quadrant_t) (lvl id : Z) :
  0 <= lvl <= P4EST_QMAXLEVEL -> 0 <= id ->
  (forall a i, In a axes -> lvl <= i ->
               Z.testbit id (P4EST_DIM * i + axis_rank a) = false) ->
  p4est_quadrant_set_morton quadrant lvl id =
    Done (set_morton_result quadrant lvl id) /\
  p4est_quadrant_is_valid (set_morton_result quadrant lvl id) = true.
Proof.
  intros Hl Hid0 Hid. pose proof DIM_range as HD.
  destruct (set_morton_result_inside quadrant lvl id Hl Hid) as (Rl & Rz & Rc).
  assert (Hv : p4est_quadrant_is_valid (set_morton_result quadrant lvl id) = true).
  { apply is_valid_of_coords; rewrite Rl; [exact Hl|].
    intros a Ha. destruct (Rc a Ha) as [Hr Hb]. split; [|exact Hr].
    unfold P4EST_QMAXLEVEL in Hl.
    apply aligned_bits; [lia|]. intros i Hi.
    destruct (Z.neg_nonneg_cases i) as [Hn|Hn]; [apply Z.testbit_neg_r, Hn|].
    rewrite Hb by lia. destruct (Z.leb_spec (P4EST_MAXLEVEL - lvl) i); [lia|reflexivity]. }
  split; [|exact Hv].
  rewrite p4est_quadrant_set_morton_eq.
  rewrite (P4EST_ASSERT_holds ((0 <=? lvl) && (lvl <=? P4EST_QMAXLEVEL)))
    by (apply andb_true_iff; split; apply Z.leb_le; lia).
  cbn [bind].
  assert (Hb : id < uint64 (Z.shiftl 1 (P4EST_DIM * (lvl + 2)))).
  { pose proof (DIM_levels_fit lvl ltac:(lia)).
    rewrite uint64_pow2 by nia.
    apply bits_above_bound; [nia | exact Hid0 |].
    intros k Hk. destruct (position_split k ltac:(nia)) as (i & a & Ha & Hi & ->).
    pose proof (axis_rank_range a Ha). apply Hid; [exact Ha | nia]. }
  assert (Hg : (if lvl <? P4EST_QMAXLEVEL
                then P4EST_ASSERT (id <? uint64 (Z.shiftl 1 (P4EST_DIM * (lvl + 2))))
                else Done tt) = Done tt).
  { destruct (lvl <? P4EST_QMAXLEVEL); [|reflexivity].
    apply P4EST_ASSERT_holds, Z.ltb_lt, Hb. }
  rewrite Hg. cbn [bind].
  rewrite (P4EST_ASSERT_holds _ (is_valid_extended _ Hv)). reflexivity.
Qed.

Lemma linear_id_done (q : p4est_quadrant_t) (lvl : Z) :
  p4est_quadrant_is_extended q = true -> 0 <= lvl <= level q ->
  p4est_quadrant_linear_id q lvl = Done (linear_id_result q lvl).
Proof.
  intros He Hl. rewrite p4est_quadrant_linear_id_eq.
  rewrite (P4EST_ASSERT_holds _ He).
  rewrite (P4EST_ASSERT_holds ((level q >=? lvl) && (lvl >=? 0)))
    by (apply andb_true_iff; split; apply Z.geb_le; lia).
  reflexivity.
Qed.

(** C2: for a valid quadrant [q] and a level [0 <= L <= q.level], the
    quadrant decoded at level [L] from the linear id of [q] at [L] has
    level [L] and, on every axis, the coordinate of [q] with its bits
    below position [MAXLEVEL - L] cleared; and every index of a level-[L]
    quadrant of the root (an index below [2^(D L)]) decodes to a valid
    quadrant of level [L] whose linear id at [L] is that index again. *)
Theorem morton_encode_decode_inverse :
  (forall q r0 L,
      p4est_quadrant_is_valid q = true -> 0 <= L <= level q ->
      exists id r,
        p4est_quadrant_linear_id q L = Done id /\
        p4est_quadrant_set_morton r0 L id = Done r /\
        level r = L /\
        forall a, In a axes ->
                  coord a r = clear_bits_below (P4EST_MAXLEVEL - L) (coord a q)) /\
  (forall r0 L id,
      0 <= L <= P4EST_QMAXLEVEL -> 0 <= id < 2 ^ (P4EST_DIM * L) ->
      exists r,
        p4est_quadrant_set_morton r0 L id = Done r /\
        p4est_quadrant_is_valid r = true /\
        level r = L /\
        p4est_quadrant_linear_id r L = Done id).
Proof.
  pose proof DIM_range as HD. pose proof MAXLEVEL_le_30 as HM.
  split.
  - intros q r0 L Hv HL.
    pose proof (is_valid_extended q Hv) as He.
    pose proof (proj1 (is_valid_spec q) Hv) as (Hlq & _).
    unfold P4EST_QMAXLEVEL in Hlq.
    assert (HL' : 0 <= L <= P4EST_QMAXLEVEL) by (unfold P4EST_QMAXLEVEL; lia).
    set (id := linear_id_result q L).
    assert (Hgroups : forall a i, In a axes -> L <= i ->
              Z.testbit id (P4EST_DIM * i + axis_rank a) = false).
    { intros a i Ha Hi. subst id. rewrite linear_id_result_bit by (auto; lia).
      destruct (is_valid_coord q a Hv Ha) as [_ Hr].
      rewrite (bits_of_bounded _ P4EST_MAXLEVEL) by (auto; lia).
      apply andb_false_r. }
    destruct (set_morton_inside_done r0 L id HL' (linear_id_result_nonneg q L) Hgroups)
      as [Hdone _].
    destruct (set_morton_result_inside r0 L id HL' Hgroups) as (Rl & _ & Rc).
    exists id, (set_morton_result r0 L id).
    split; [apply linear_id_done; auto|].
    split; [exact Hdone|]. split; [exact Rl|].
    intros a Ha. destruct (Rc a Ha) as [_ Hb].
    destruct (is_valid_coord q a Hv Ha) as [_ Hr].
    apply Z.bits_inj'. intros j Hj.
    rewrite Hb, clear_bits_below_bit by lia.
    destruct (Z.leb_spec (P4EST_MAXLEVEL - L) j) as [Hge|Hlt]; [|reflexivity].
    rewrite !andb_true_l. subst id.
    rewrite linear_id_result_bit by (auto; lia).
    replace (j - (P4EST_MAXLEVEL - L) + (P4EST_MAXLEVEL - L)) with j by ring.
    destruct (Z.ltb_spec (j - (P4EST_MAXLEVEL - L)) (L + 2)); [reflexivity|].
    rewrite (bits_of_bounded _ P4EST_MAXLEVEL) by (auto; lia). reflexivity.
  - intros r0 L id HL Hid.
    assert (Hgroups : forall a i, In a axes -> L <= i ->
              Z.testbit id (P4EST_DIM * i + axis_rank a) = false).
    { intros a i Ha Hi. pose proof (axis_rank_range a Ha).
      apply (bits_of_bounded _ (P4EST_DIM * L)); [exact Hid | nia]. }
    destruct (set_morton_inside_done r0 L id HL ltac:(lia) Hgroups) as [Hdone Hv].
    destruct (set_morton_result_inside r0 L id HL Hgroups) as (Rl & _ & Rc).
    set (r := set_morton_result r0 L id) in *.
    exists r. split; [exact Hdone|]. split; [exact Hv|]. split; [exact Rl|].
    rewrite linear_id_done by (auto using is_valid_extended; lia).
    f_equal. unfold P4EST_QMAXLEVEL in HL.
    apply Z.bits_inj'. intros k Hk.
    destruct (position_split k Hk) as (i & a & Ha & Hi & ->).
    rewrite linear_id_result_bit by (auto; lia).
    destruct (Rc a Ha) as [_ Hb]. rewrite Hb by lia.
    replace (i + (P4EST_MAXLEVEL - L) - (P4EST_MAXLEVEL - L)) with i by ring.
    destruct (Z.leb_spec (P4EST_MAXLEVEL - L) (i + (P4EST_MAXLEVEL - L))); [|lia].
    rewrite andb_true_l.
    destruct (Z.ltb_spec i (L + 2)); [reflexivity|].
    rewrite Hgroups by (auto; lia). reflexivity.
Qed.

(** ** Total order *)

Lemma differing_bit_scan_spec (n : nat) (a b : Z) :
  -1 <= differing_bit_scan n a b < Z.of_nat n /\
  (forall i, differing_bit_scan n a b < i < Z.of_nat n ->
             Z.testbit a i = Z.testbit b i) /\
  (0 <= differing_bit_scan n a b ->
   Z.testbit a (differing_bit_scan n a b) <> Z.testbit b (differing_bit_scan n a b)).
Proof.
  induction n as [|n (IHr & IHa & IHd)].
  - cbn. split; [lia|]. split; [intros; lia | intros; lia].
  - cbn [differing_bit_scan].
    destruct (xorb (Z.testbit a (Z.of_nat n)) (Z.testbit b (Z.of_nat n))) eqn:Hx.
    + split; [lia|]. split; [intros; lia|].
      intros _ He. rewrite He, xorb_nilpotent in Hx. discriminate.
    + split; [lia|]. split; [|exact IHd].
      intros i Hi. destruct (Z.eq_dec i (Z.of_nat n)) as [->|Hne].
      * apply xorb_eq, Hx.
      * apply IHa. lia.
Qed.

Lemma highest_differing_bit_spec (a b : Z) :
  -1 <= highest_differing_bit a b < 32 /\
  (forall i, highest_differing_bit a b < i < 32 -> Z.testbit a i = Z.testbit b i) /\
  (0 <= highest_differing_bit a b ->
   Z.testbit a (highest_differing_bit a b) <> Z.testbit b (highest_differing_bit a b)).
Proof. apply (differing_bit_scan_spec 32). Qed.

Lemma highest_differing_bit_unique (a b h : Z) :
  -1 <= h < 32 ->
  (forall i, h < i < 32 -> Z.testbit a i = Z.testbit b i) ->
  (0 <= h -> Z.testbit a h <> Z.testbit b h) ->
  highest_differing_bit a b = h.
Proof.
  intros Hr Ha Hd. destruct (highest_differing_bit_spec a b) as (Sr & Sa & Sd).
  destruct (Z.lt_trichotomy (highest_differing_bit a b) h) as [Hlt|[He|Hgt]];
    [|exact He|].
  - exfalso. apply Hd; [lia|]. apply Sa. lia.
  - exfalso. apply Sd; [lia|]. apply Ha. lia.
Qed.

(** From here on the scan is used through the three lemmas above only. *)
Opaque highest_differing_bit.

Lemma uint32_lxor_bit (a b i : Z) :
  Z.testbit (uint32 (Z.lxor a b)) i = (i <? 32) && xorb (Z.testbit a i) (Z.testbit b i).
Proof. unfold uint32. rewrite Z.testbit_mod_pow2, Z.lxor_spec by lia. reflexivity. Qed.

(** [SC_LOG2_32] of the unsigned XOR is the highest differing bit. *)
Lemma SC_LOG2_32_lxor (a b : Z) :
  SC_LOG2_32 (uint32 (Z.lxor a b)) = highest_differing_bit a b.
Proof.
  destruct (highest_differing_bit_spec a b) as (Sr & Sa & Sd).
  remember (highest_differing_bit a b) as h eqn:Eh. clear Eh. unfold SC_LOG2_32.
  destruct (Z.neg_nonneg_cases h) as [Hn|Hn].
  - assert (He : uint32 (Z.lxor a b) = 0).
    { apply Z.bits_inj'. intros i Hi. rewrite uint32_lxor_bit, Z.bits_0.
      destruct (Z.ltb_spec i 32); [|reflexivity].
      rewrite (Sa i) by lia. rewrite xorb_nilpotent. reflexivity. }
    rewrite He, Z.eqb_refl. lia.
  - assert (Hb : Z.testbit (uint32 (Z.lxor a b)) h = true).
    { rewrite uint32_lxor_bit. destruct (Z.ltb_spec h 32); [|lia].
      specialize (Sd Hn). destruct (Z.testbit a h), (Z.testbit b h);
        try reflexivity; exfalso; apply Sd; reflexivity. }
    assert (Hne : uint32 (Z.lxor a b) <> 0).
    { intros He. rewrite He, Z.bits_0 in Hb. discriminate. }
    destruct (Z.eqb_spec (uint32 (Z.lxor a b)) 0); [contradiction|].
    apply Z.log2_bits_unique; [exact Hb|].
    intros m Hm. rewrite uint32_lxor_bit.
    destruct (Z.ltb_spec m 32); [|reflexivity].
    rewrite (Sa m) by lia. rewrite xorb_nilpotent. reflexivity.
Qed.

(** Bits of a signed number from its width on: copies of the sign. *)
Lemma signed_bits_high (c n i : Z) :
  0 <= n -> - 2 ^ n <= c < 2 ^ n -> n <= i -> Z.testbit c i = (c <? 0).
Proof.
  intros Hn Hc Hi. destruct (Z.ltb_spec c 0) as [Hneg|Hpos].
  - destruct (Z.eq_dec c (-1)) as [->|Hne]; [apply Z.bits_m1; lia|].
    apply Z.bits_above_log2_neg; [exact Hneg|].
    apply Z.lt_le_trans with n; [|exact Hi].
    apply Z.log2_lt_pow2; lia.
  - apply (bits_of_bounded c n); lia.
Qed.

Lemma highest_differing_bit_none (a b : Z) :
  - 2 ^ 31 <= a < 2 ^ 31 -> - 2 ^ 31 <= b < 2 ^ 31 ->
  (highest_differing_bit a b = -1 <-> a = b).
Proof.
  intros Ha Hb. destruct (highest_differing_bit_spec a b) as (Sr & Sa & Sd). split.
  - intros Hh. rewrite Hh in Sa.
    apply Z.bits_inj'. intros i Hi.
    destruct (Z.lt_ge_cases i 32) as [Hlt|Hge]; [apply Sa; lia|].
    rewrite (signed_bits_high a 31 i), (signed_bits_high b 31 i) by lia.
    rewrite <- (signed_bits_high a 31 31), <- (signed_bits_high b 31 31) by lia.
    apply Sa. lia.
  - intros ->. apply highest_differing_bit_unique; [lia | reflexivity | lia].
Qed.

Lemma uint32_lxor_zero (a b : Z) :
  (uint32 (Z.lxor a b) =? 0) = (highest_differing_bit a b =? -1).
Proof.
  rewrite <- SC_LOG2_32_lxor. unfold SC_LOG2_32.
  destruct (Z.eqb_spec (uint32 (Z.lxor a b)) 0) as [He|Hne]; [reflexivity|].
  symmetry. apply Z.eqb_neq.
  pose proof (Z.log2_nonneg (uint32 (Z.lxor a b))). lia.
Qed.

Lemma compare_operand_lift (c : Z) : compare_operand c = lift_negative c.
Proof.
  unfold compare_operand, lift_negative. rewrite Z.shiftl_1_l.
  destruct (Z.geb_spec c 0), (Z.ltb_spec c 0); lia.
Qed.

Lemma three_way_sgn (d : Z) :
  (if d =? 0 then 0 else if d <? 0 then -1 else 1) = Z.sgn d.
Proof.
  destruct (Z.eqb_spec d 0) as [->|Hne]; [reflexivity|].
  destruct (Z.ltb_spec d 0); [rewrite Z.sgn_neg | rewrite Z.sgn_pos]; lia.
Qed.

Lemma comparable_coord_range (q : p4est_quadrant_t) (a : axis) :
  comparable q = true -> In a axes ->
  - 2 ^ P4EST_MAXLEVEL <= coord a q < 2 ^ (P4EST_MAXLEVEL + 1).
Proof.
  unfold comparable. intros Hc Ha. pose proof MAXLEVEL_le_30 as HM.
  rewrite pow2_double by lia. pose proof pow2_MAXLEVEL_le as HP.
  apply orb_true_iff in Hc. destruct Hc as [Hn|He].
  - apply is_node_spec in Hn. destruct Hn as (_ & Hx & Hy & Hz).
    assert (Hn : node_coord true (coord a q)).
    { revert Ha. unfold axes. destruct P4_TO_P8; cbn [In]; intros Ha;
        repeat destruct Ha as [<-|Ha]; try contradiction;
        cbn [coord axis_select]; auto. }
    destruct Hn as [Hr _]. cbn [Z.b2z] in Hr. lia.
  - apply is_extended_spec in He. destruct He as (_ & Hx & Hy & Hz).
    assert (Hn : coord_extended (level q) (coord a q)).
    { revert Ha. unfold axes. destruct P4_TO_P8; cbn [In]; intros Ha;
        repeat destruct Ha as [<-|Ha]; try contradiction;
        cbn [coord axis_select]; auto. }
    destruct Hn as [_ Hr]. lia.
Qed.

Lemma comparable_coord_int32 (q : p4est_quadrant_t) (a : axis) :
  comparable q = true -> In a axes -> - 2 ^ 31 <= coord a q < 2 ^ 31.
Proof.
  intros Hc Ha. pose proof (comparable_coord_range q a Hc Ha) as Hr.
  pose proof MAXLEVEL_le_30 as HM. pose proof pow2_MAXLEVEL_le as HP.
  rewrite pow2_double in Hr by lia.
  change (2 ^ 31) with (2 * 2 ^ 30). lia.
Qed.

(** The comparison, with the assertions discharged and the XOR words
    read as highest differing bit positions. *)
Lemma p4est_quadrant_compare_value (q1 q2 : p4est_quadrant_t) :
  comparable q1 = true -> comparable q2 = true ->
  p4est_quadrant_compare q1 q2 =
  Done
    (let hx := highest_differing_bit (x q1) (x q2) in
     let hy := highest_differing_bit (y q1) (y q2) in
     let hz := highest_differing_bit (z q1) (z q2) in
     if (hy =? -1) && (hx =? -1) && (if P4_TO_P8 then hz =? -1 else true)
     then level q1 - level q2
     else
       Z.sgn
         (if P4_TO_P8 && ((hz >=? hx) && (hz >=? hy))
          then lift_negative (z q1) - lift_negative (z q2)
          else if hy >=? hx
          then lift_negative (y q1) - lift_negative (y q2)
          else lift_negative (x q1) - lift_negative (x q2))).
Proof.
  unfold comparable. intros H1 H2. unfold p4est_quadrant_compare.
  rewrite (P4EST_ASSERT_holds _ H1), (P4EST_ASSERT_holds _ H2). cbn [bind].
  rewrite !uint32_lxor_zero, !SC_LOG2_32_lxor, !compare_operand_lift. cbv zeta.
  rewrite andb_true_r.
  destruct ((highest_differing_bit (y q1) (y q2) =? -1) &&
            (highest_differing_bit (x q1) (x q2) =? -1) &&
            (if P4_TO_P8 then highest_differing_bit (z q1) (z q2) =? -1 else true));
    [reflexivity|].
  destruct (P4_TO_P8 &&
            ((highest_differing_bit (z q1) (z q2) >=? highest_differing_bit (x q1) (x q2)) &&
             (highest_differing_bit (z q1) (z q2) >=? highest_differing_bit (y q1) (y q2))));
    [rewrite three_way_sgn; reflexivity|].
  destruct (highest_differing_bit (y q1) (y q2) >=? highest_differing_bit (x q1) (x q2));
    rewrite three_way_sgn; reflexivity.
Qed.

Lemma same_position_bits (q1 q2 : p4est_quadrant_t) :
  comparable q1 = true -> comparable q2 = true ->
  (same_position q1 q2 <->
   forall a, In a axes -> highest_differing_bit (coord a q1) (coord a q2) = -1).
Proof.
  intros H1 H2. unfold same_position. split; intros H a Ha.
  - apply highest_differing_bit_none; auto using comparable_coord_int32.
  - apply highest_differing_bit_none; auto using comparable_coord_int32.
Qed.

(** When the coordinates are identical the levels decide. *)
Lemma compare_same_position (q1 q2 : p4est_quadrant_t) :
  comparable q1 = true -> comparable q2 = true -> same_position q1 q2 ->
  p4est_quadrant_compare q1 q2 = Done (level q1 - level q2).
Proof.
  intros H1 H2 Hs. rewrite (p4est_quadrant_compare_value q1 q2 H1 H2). cbv zeta.
  pose proof (proj1 (same_position_bits q1 q2 H1 H2) Hs) as Hb. clear Hs.
  rename Hb into Hs. revert Hs. unfold axes.
  destruct P4_TO_P8; intros Hs.
  - pose proof (Hs AX ltac:(cbn; auto)) as Ex. pose proof (Hs AY ltac:(cbn; auto)) as Ey.
    pose proof (Hs AZ ltac:(cbn; auto)) as Ez. cbn [coord axis_select] in Ex, Ey, Ez.
    rewrite Ex, Ey, Ez. reflexivity.
  - pose proof (Hs AX ltac:(cbn; auto)) as Ex. pose proof (Hs AY ltac:(cbn; auto)) as Ey.
    cbn [coord axis_select] in Ex, Ey.
    rewrite Ex, Ey. reflexivity.
Qed.

(** Some axis always decides. *)
Lemma decides_exists (q1 q2 : p4est_quadrant_t) : exists a, decides a q1 q2.
Proof.
  unfold decides, axes.
  remember (highest_differing_bit (coord AX q1) (coord AX q2)) as hx eqn:Ex.
  remember (highest_differing_bit (coord AY q1) (coord AY q2)) as hy eqn:Ey.
  remember (highest_differing_bit (coord AZ q1) (coord AZ q2)) as hz eqn:Ez.
  destruct P4_TO_P8.
  - destruct (Z_le_dec hx hz) as [Hxz|Hxz]; [destruct (Z_le_dec hy hz) as [Hyz|Hyz]|].
    + exists AZ. split; [cbn; auto|].
      intros b [<-|[<-|[<-|[]]]]; rewrite <- ?Ex, <- ?Ey, <- ?Ez; clear Ex Ey Ez; cbn [axis_rank]; lia.
    + exists AY. split; [cbn; auto|].
      intros b [<-|[<-|[<-|[]]]]; rewrite <- ?Ex, <- ?Ey, <- ?Ez; clear Ex Ey Ez; cbn [axis_rank]; lia.
    + destruct (Z_le_dec hx hy) as [Hxy|Hxy].
      * exists AY. split; [cbn; auto|].
        intros b [<-|[<-|[<-|[]]]]; rewrite <- ?Ex, <- ?Ey, <- ?Ez; clear Ex Ey Ez; cbn [axis_rank]; lia.
      * exists AX. split; [cbn; auto|].
        intros b [<-|[<-|[<-|[]]]]; rewrite <- ?Ex, <- ?Ey, <- ?Ez; clear Ex Ey Ez; cbn [axis_rank]; lia.
  - destruct (Z_le_dec hx hy) as [Hxy|Hxy].
    + exists AY. split; [cbn; auto|].
      intros b [<-|[<-|[]]]; rewrite <- ?Ex, <- ?Ey; clear Ex Ey Ez; cbn [axis_rank]; lia.
    + exists AX. split; [cbn; auto|].
      intros b [<-|[<-|[]]]; rewrite <- ?Ex, <- ?Ey; clear Ex Ey Ez; cbn [axis_rank]; lia.
Qed.

(** Otherwise the deciding axis does, through its lifted coordinates. *)
Lemma compare_decided (q1 q2 : p4est_quadrant_t) (a : axis) :
  comparable q1 = true -> comparable q2 = true ->
  ~ same_position q1 q2 -> decides a q1 q2 ->
  p4est_quadrant_compare q1 q2 =
  Done (Z.sgn (lift_negative (coord a q1) - lift_negative (coord a q2))).
Proof.
  intros H1 H2 Hn [Ha Hd]. rewrite (p4est_quadrant_compare_value q1 q2 H1 H2).
  cbv zeta. rewrite (same_position_bits q1 q2 H1 H2) in Hn.
  pose proof (fun b => proj1 (highest_differing_bit_spec (coord b q1) (coord b q2)))
    as Hr.
  pose proof (Hr AX) as Rx. pose proof (Hr AY) as Ry. pose proof (Hr AZ) as Rz.
  clear Hr. revert Ha Hd Hn. unfold axes.
  cbn [coord axis_select] in Rx, Ry, Rz.
  destruct P4_TO_P8; cbn [In andb]; intros Ha Hd Hn.
  - pose proof (Hd AX ltac:(auto)) as Dx. pose proof (Hd AY ltac:(auto)) as Dy.
    pose proof (Hd AZ ltac:(auto)) as Dz. clear Hd.
    assert (Hsome : ~ (highest_differing_bit (x q1) (x q2) = -1 /\
                       highest_differing_bit (y q1) (y q2) = -1 /\
                       highest_differing_bit (z q1) (z q2) = -1)).
    { intros (Ex & Ey & Ez). apply Hn. intros b Hb.
      destruct Hb as [<-|[<-|[<-|[]]]]; [exact Ex | exact Ey | exact Ez]. }
    clear Hn.
    destruct Ha as [<-|[<-|[<-|[]]]]; cbn [coord axis_select axis_rank] in *;
      revert Rx Ry Rz Dx Dy Dz Hsome;
      generalize (highest_differing_bit (x q1) (x q2));
      generalize (highest_differing_bit (y q1) (y q2));
      generalize (highest_differing_bit (z q1) (z q2));
      intros hz hy hx Rx Ry Rz Dx Dy Dz Hsome;
      destruct (Z.eqb_spec hy (-1)), (Z.eqb_spec hx (-1)), (Z.eqb_spec hz (-1)),
        (Z.geb_spec hz hx), (Z.geb_spec hz hy), (Z.geb_spec hy hx);
      cbn [andb]; try reflexivity; exfalso; lia.
  - pose proof (Hd AX ltac:(auto)) as Dx. pose proof (Hd AY ltac:(auto)) as Dy.
    clear Hd.
    assert (Hsome : ~ (highest_differing_bit (x q1) (x q2) = -1 /\
                       highest_differing_bit (y q1) (y q2) = -1)).
    { intros (Ex & Ey). apply Hn. intros b Hb.
      destruct Hb as [<-|[<-|[]]]; [exact Ex | exact Ey]. }
    clear Hn Rz.
    destruct Ha as [<-|[<-|[]]]; cbn [coord axis_select axis_rank] in *;
      revert Rx Ry Dx Dy Hsome;
      generalize (highest_differing_bit (x q1) (x q2));
      generalize (highest_differing_bit (y q1) (y q2));
      intros hy hx Rx Ry Dx Dy Hsome;
      destruct (Z.eqb_spec hy (-1)), (Z.eqb_spec hx (-1)), (Z.geb_spec hy hx);
      cbn [andb]; try reflexivity; exfalso; lia.
Qed.

Lemma same_position_dec (q1 q2 : p4est_quadrant_t) :
  same_position q1 q2 \/ ~ same_position q1 q2.
Proof.
  unfold same_position. destruct P4_TO_P8 eqn:Hd.
  - rewrite (in_axes_3d _ Hd). cbn [coord axis_select].
    destruct (Z.eq_dec (x q1) (x q2)), (Z.eq_dec (y q1) (y q2)),
      (Z.eq_dec (z q1) (z q2)); tauto.
  - rewrite (in_axes_2d _ Hd). cbn [coord axis_select].
    destruct (Z.eq_dec (x q1) (x q2)), (Z.eq_dec (y q1) (y q2)); tauto.
Qed.

(** C1: on clamped nodes and extended quadrants the comparison returns a
    three-way result: with identical coordinates it has the sign of
    [q1.level - q2.level]; otherwise an axis decides (the one whose
    highest differing bit position is greatest, z before y before x on
    ties), and the result has the sign of the difference of the two
    coordinates on that axis, each lifted by [2^(MAXLEVEL+2)] if negative. *)
Theorem compare_three_way (q1 q2 : p4est_quadrant_t) :
  comparable q1 = true -> comparable q2 = true ->
  exists c,
    p4est_quadrant_compare q1 q2 = Done c /\
    (same_position q1 q2 ->
     Z.sgn c = Z.sgn (level q1 - level q2) /\
     (c = 0 <-> level q1 = level q2)) /\
    (~ same_position q1 q2 ->
     (exists a, decides a q1 q2) /\
     forall a, decides a q1 q2 ->
       Z.sgn c = Z.sgn (lift_negative (coord a q1) - lift_negative (coord a q2))).
Proof.
  intros H1 H2.
  destruct (same_position_dec q1 q2) as [Hs|Hn].
  - exists (level q1 - level q2).
    split; [apply compare_same_position; assumption|].
    split; [intros _; split; [reflexivity | lia] | contradiction].
  - destruct (decides_exists q1 q2) as [a0 Ha0].
    exists (Z.sgn (lift_negative (coord a0 q1) - lift_negative (coord a0 q2))).
    split; [apply compare_decided; assumption|].
    split; [contradiction|]. intros _. split; [exists a0; exact Ha0|].
    intros a Ha.
    pose proof (compare_decided q1 q2 a H1 H2 Hn Ha) as E1.
    pose proof (compare_decided q1 q2 a0 H1 H2 Hn Ha0) as E0.
    rewrite E0 in E1. injection E1 as E1. rewrite E1.
    apply Z.sgn_sgn. 
Qed.

(** ** Order of non-negative numbers, read off their bits *)

(** [u < v] when [v] has a bit set where [u] has it clear and the two
    agree on all higher bits. *)
Lemma lt_by_highest_bit (u v k : Z) :
  0 <= u -> 0 <= v -> 0 <= k ->
  Z.testbit u k = false -> Z.testbit v k = true ->
  (forall j, k < j -> Z.testbit u j = Z.testbit v j) ->
  u < v.
Proof.
  intros Hu Hv Hk Bu Bv Hhigh.
  pose proof (pow2_pos k Hk) as Hp.
  assert (Hq : u / 2 ^ (k + 1) = v / 2 ^ (k + 1)).
  { apply Z.bits_inj'. intros j Hj. rewrite !Z.div_pow2_bits by lia.
    apply Hhigh. lia. }
  pose proof (pow2_double k Hk) as Hd.
  assert (Hpu : Z.testbit (u / 2 ^ k) 0 = false)
    by (rewrite Z.div_pow2_bits by lia; exact Bu).
  assert (Hpv : Z.testbit (v / 2 ^ k) 0 = true)
    by (rewrite Z.div_pow2_bits by lia; exact Bv).
  rewrite Z.bit0_eqb in Hpu, Hpv.
  apply Z.eqb_neq in Hpu. apply Z.eqb_eq in Hpv.
  assert (Hdd : forall w, w / 2 ^ (k + 1) = w / 2 ^ k / 2).
  { intros w. rewrite Hd, Z.mul_comm, Z.div_div by lia. reflexivity. }
  rewrite !Hdd in Hq.
  pose proof (Z.div_mod (u / 2 ^ k) 2 ltac:(lia)) as Du.
  pose proof (Z.div_mod (v / 2 ^ k) 2 ltac:(lia)) as Dv.
  pose proof (Z.mod_pos_bound (u / 2 ^ k) 2 ltac:(lia)).
  assert (Huv : u / 2 ^ k < v / 2 ^ k) by lia.
  pose proof (Z.div_mod u (2 ^ k) ltac:(lia)) as Eu.
  pose proof (Z.div_mod v (2 ^ k) ltac:(lia)) as Ev.
  pose proof (Z.mod_pos_bound u (2 ^ k) Hp).
  pose proof (Z.mod_pos_bound v (2 ^ k) Hp).
  nia.
Qed.

(** Conversely, [u < v] exhibits such a highest differing bit. *)
Lemma highest_bit_of_lt (u v : Z) :
  0 <= u -> 0 <= v -> u < v ->
  exists k, 0 <= k /\ Z.testbit u k = false /\ Z.testbit v k = true /\
            forall j, k < j -> Z.testbit u j = Z.testbit v j.
Proof.
  intros Hu Hv Hlt.
  assert (Hx : 0 < Z.lxor u v).
  { assert (0 <= Z.lxor u v) by (apply Z.lxor_nonneg; tauto).
    assert (Z.lxor u v <> 0) by (rewrite Z.lxor_eq_0_iff; lia). lia. }
  set (k := Z.log2 (Z.lxor u v)).
  assert (Hk : 0 <= k) by apply Z.log2_nonneg.
  assert (Hbk : xorb (Z.testbit u k) (Z.testbit v k) = true).
  { rewrite <- Z.lxor_spec. apply Z.bit_log2, Hx. }
  assert (Hhigh : forall j, k < j -> Z.testbit u j = Z.testbit v j).
  { intros j Hj. apply xorb_eq. rewrite <- Z.lxor_spec.
    apply Z.bits_above_log2; [lia | exact Hj]. }
  exists k. split; [exact Hk|].
  destruct (Z.testbit u k) eqn:Bu, (Z.testbit v k) eqn:Bv; try discriminate.
  - exfalso.
    assert (v < u); [|lia].
    apply (lt_by_highest_bit v u k); auto. intros j Hj. symmetry. auto.
  - auto.
Qed.

(** ** The comparison and the Morton index *)

Lemma lift_negative_mod (c : Z) :
  - 2 ^ P4EST_MAXLEVEL <= c < 2 ^ (P4EST_MAXLEVEL + 1) ->
  lift_negative c = c mod 2 ^ (P4EST_MAXLEVEL + 2).
Proof.
  intros Hc. pose proof MAXLEVEL_le_30 as HM. unfold lift_negative.
  pose proof (pow2_pos P4EST_MAXLEVEL ltac:(lia)) as Hp.
  assert (H1 : 2 ^ (P4EST_MAXLEVEL + 1) = 2 * 2 ^ P4EST_MAXLEVEL)
    by (apply pow2_double; lia).
  assert (H2 : 2 ^ (P4EST_MAXLEVEL + 2) = 4 * 2 ^ P4EST_MAXLEVEL).
  { replace (P4EST_MAXLEVEL + 2) with (P4EST_MAXLEVEL + 1 + 1) by ring.
    rewrite pow2_double, H1 by lia. ring. }
  destruct (Z.ltb_spec c 0).
  - apply (Z.mod_unique_pos _ _ (-1)); lia.
  - symmetry. apply Z.mod_small. lia.
Qed.

Lemma lift_negative_nonneg (c : Z) :
  - 2 ^ P4EST_MAXLEVEL <= c < 2 ^ (P4EST_MAXLEVEL + 1) -> 0 <= lift_negative c.
Proof.
  intros Hc. rewrite lift_negative_mod by exact Hc.
  apply Z.mod_pos_bound, pow2_pos. pose proof MAXLEVEL_le_30. lia.
Qed.

Lemma lift_negative_bit (c j : Z) :
  - 2 ^ P4EST_MAXLEVEL <= c < 2 ^ (P4EST_MAXLEVEL + 1) ->
  Z.testbit (lift_negative c) j = (j <? P4EST_MAXLEVEL + 2) && Z.testbit c j.
Proof.
  intros Hc. rewrite lift_negative_mod by exact Hc.
  apply Z.testbit_mod_pow2. pose proof MAXLEVEL_le_30. lia.
Qed.

(** An in-range coordinate repeats bit [MAXLEVEL + 1] in all higher bits. *)
Lemma window_sign_bits (c j : Z) :
  - 2 ^ P4EST_MAXLEVEL <= c < 2 ^ (P4EST_MAXLEVEL + 1) ->
  P4EST_MAXLEVEL + 1 <= j ->
  Z.testbit c j = Z.testbit c (P4EST_MAXLEVEL + 1).
Proof.
  intros Hc Hj. pose proof MAXLEVEL_le_30 as HM.
  pose proof (pow2_pos P4EST_MAXLEVEL ltac:(lia)) as Hp.
  assert (H1 : 2 ^ (P4EST_MAXLEVEL + 1) = 2 * 2 ^ P4EST_MAXLEVEL)
    by (apply pow2_double; lia).
  rewrite (signed_bits_high c (P4EST_MAXLEVEL + 1) j) by lia.
  rewrite (signed_bits_high c (P4EST_MAXLEVEL + 1) (P4EST_MAXLEVEL + 1)) by lia.
  reflexivity.
Qed.

Section Window.

Variables c1 c2 p : Z.
Hypothesis range1 : - 2 ^ P4EST_MAXLEVEL <= c1 < 2 ^ (P4EST_MAXLEVEL + 1).
Hypothesis range2 : - 2 ^ P4EST_MAXLEVEL <= c2 < 2 ^ (P4EST_MAXLEVEL + 1).
Hypothesis position : 0 <= p <= P4EST_MAXLEVEL + 1.

Lemma window_agree_word (j : Z) :
  (forall i, p < i <= P4EST_MAXLEVEL + 1 -> Z.testbit c1 i = Z.testbit c2 i) ->
  p < P4EST_MAXLEVEL + 1 -> p < j -> Z.testbit c1 j = Z.testbit c2 j.
Proof.
  intros Hag Hp Hj. destruct (Z.le_gt_cases j (P4EST_MAXLEVEL + 1)).
  - apply Hag. lia.
  - rewrite (window_sign_bits c1 j), (window_sign_bits c2 j) by (auto; lia).
    apply Hag. lia.
Qed.

Lemma highest_differing_bit_at :
  Z.testbit c1 p <> Z.testbit c2 p ->
  (forall i, p < i <= P4EST_MAXLEVEL + 1 -> Z.testbit c1 i = Z.testbit c2 i) ->
  highest_differing_bit c1 c2 = word_position p.
Proof.
  intros Hd Hag. pose proof MAXLEVEL_le_30 as HM. unfold word_position.
  apply highest_differing_bit_unique.
  - destruct (Z.eqb_spec p (P4EST_MAXLEVEL + 1)); lia.
  - intros i Hi. destruct (Z.eqb_spec p (P4EST_MAXLEVEL + 1)); [lia|].
    apply window_agree_word; [exact Hag | lia | lia].
  - intros _. destruct (Z.eqb_spec p (P4EST_MAXLEVEL + 1)) as [E|N]; [|exact Hd].
    rewrite (window_sign_bits c1 31), (window_sign_bits c2 31) by (auto; lia).
    rewrite <- E. exact Hd.
Qed.

Lemma highest_differing_bit_le :
  (forall i, p < i <= P4EST_MAXLEVEL + 1 -> Z.testbit c1 i = Z.testbit c2 i) ->
  highest_differing_bit c1 c2 <= word_position p.
Proof.
  intros Hag. pose proof MAXLEVEL_le_30 as HM. unfold word_position.
  destruct (highest_differing_bit_spec c1 c2) as (Sr & _ & Sd).
  destruct (Z.eqb_spec p (P4EST_MAXLEVEL + 1)) as [E|N]; [lia|].
  destruct (Z.le_gt_cases (highest_differing_bit c1 c2) p) as [Hle|Hgt]; [exact Hle|].
  exfalso. apply Sd; [lia|]. apply window_agree_word; [exact Hag | lia | lia].
Qed.

Lemma highest_differing_bit_lt :
  (forall i, p <= i <= P4EST_MAXLEVEL + 1 -> Z.testbit c1 i = Z.testbit c2 i) ->
  highest_differing_bit c1 c2 < word_position p.
Proof.
  intros Hag. pose proof MAXLEVEL_le_30 as HM. unfold word_position.
  destruct (highest_differing_bit_spec c1 c2) as (Sr & _ & Sd).
  destruct (Z.eqb_spec p (P4EST_MAXLEVEL + 1)) as [E|N].
  - destruct (Z.lt_ge_cases (highest_differing_bit c1 c2) 31) as [Hlt|Hge];
      [exact Hlt|].
    exfalso. apply Sd; [lia|].
    rewrite (window_sign_bits c1 _), (window_sign_bits c2 _) by (auto; lia).
    apply Hag. lia.
  - destruct (Z.lt_ge_cases (highest_differing_bit c1 c2) p) as [Hlt|Hge];
      [exact Hlt|].
    exfalso. apply Sd; [lia|].
    destruct (Z.le_gt_cases (highest_differing_bit c1 c2) (P4EST_MAXLEVEL + 1)).
    + apply Hag. lia.
    + rewrite (window_sign_bits c1 _), (window_sign_bits c2 _) by (auto; lia).
      apply Hag. lia.
Qed.

Lemma lift_negative_lt :
  Z.testbit c1 p = false -> Z.testbit c2 p = true ->
  (forall i, p < i <= P4EST_MAXLEVEL + 1 -> Z.testbit c1 i = Z.testbit c2 i) ->
  lift_negative c1 < lift_negative c2.
Proof.
  intros B1 B2 Hag.
  apply (lt_by_highest_bit _ _ p); try apply lift_negative_nonneg; auto; try lia.
  - rewrite lift_negative_bit, B1 by auto. apply andb_false_r.
  - rewrite lift_negative_bit, B2 by auto.
    destruct (Z.ltb_spec p (P4EST_MAXLEVEL + 2)); [reflexivity | lia].
  - intros j Hj. rewrite !lift_negative_bit by auto.
    destruct (Z.ltb_spec j (P4EST_MAXLEVEL + 2)); [|reflexivity].
    cbn [andb]. apply Hag. lia.
Qed.

End Window.

Lemma word_position_mono (p p' : Z) :
  0 <= p <= P4EST_MAXLEVEL + 1 -> 0 <= p' <= P4EST_MAXLEVEL + 1 ->
  p <= p' -> word_position p <= word_position p'.
Proof.
  intros Hp Hp' Hle. pose proof MAXLEVEL_le_30. unfold word_position.
  destruct (Z.eqb_spec p (P4EST_MAXLEVEL + 1)),
    (Z.eqb_spec p' (P4EST_MAXLEVEL + 1)); lia.
Qed.

(** A smaller Morton index at any level means a smaller quadrant. *)
Lemma linear_id_lt_compare (q r : p4est_quadrant_t) (L : Z) :
  comparable q = true -> comparable r = true -> 0 <= L <= P4EST_MAXLEVEL ->
  linear_id_result q L < linear_id_result r L ->
  p4est_quadrant_compare q r = Done (-1).
Proof.
  intros Hq Hr HL Hlt. pose proof DIM_range as HD.
  destruct (highest_bit_of_lt _ _ (linear_id_result_nonneg q L)
              (linear_id_result_nonneg r L) Hlt) as (K & HK & Bq & Br & Hhigh).
  destruct (position_split K HK) as (i & a & Ha & Hi & ->).
  pose proof (axis_rank_range a Ha) as Ra.
  rewrite linear_id_result_bit in Bq, Br by auto.
  apply andb_true_iff in Br. destruct Br as [Hi2 Br]. apply Z.ltb_lt in Hi2.
  rewrite (proj2 (Z.ltb_lt _ _) Hi2), andb_true_l in Bq.
  set (s := P4EST_MAXLEVEL - L) in *. set (p := i + s) in *.
  assert (Hp : 0 <= p <= P4EST_MAXLEVEL + 1) by (subst p s; lia).
  (* what the agreement of the indices above K says about the coordinates *)
  assert (Habove : forall b j, In b axes -> p < j <= P4EST_MAXLEVEL + 1 ->
             Z.testbit (coord b q) j = Z.testbit (coord b r) j).
  { intros b j Hb Hj. pose proof (axis_rank_range b Hb) as Rb.
    pose proof (Hhigh (P4EST_DIM * (j - s) + axis_rank b) ltac:(subst p; nia)) as E.
    rewrite !linear_id_result_bit in E by (auto; subst p s; lia).
    replace (j - s + (P4EST_MAXLEVEL - L)) with j in E by (subst s; ring).
    destruct (Z.ltb_spec (j - s) (L + 2)); [exact E | subst p s; lia]. }
  assert (Hat : forall b, In b axes -> axis_rank a < axis_rank b ->
             Z.testbit (coord b q) p = Z.testbit (coord b r) p).
  { intros b Hb Hab. pose proof (axis_rank_range b Hb) as Rb.
    pose proof (Hhigh (P4EST_DIM * i + axis_rank b) ltac:(lia)) as E.
    rewrite !linear_id_result_bit in E by auto.
    rewrite (proj2 (Z.ltb_lt _ _) Hi2), !andb_true_l in E. exact E. }
  pose proof (fun b Hb => comparable_coord_range q b Hq Hb) as Rq.
  pose proof (fun b Hb => comparable_coord_range r b Hr Hb) as Rr.
  assert (Hdiff : Z.testbit (coord a q) p <> Z.testbit (coord a r) p)
    by (rewrite Bq, Br; discriminate).
  assert (Hdec : decides a q r).
  { split; [exact Ha|]. intros b Hb.
    rewrite (highest_differing_bit_at (coord a q) (coord a r) p) by auto.
    split.
    - apply highest_differing_bit_le; auto.
    - intros Hab. apply highest_differing_bit_lt; auto.
      intros j Hj. destruct (Z.eq_dec j p) as [->|Hne]; [auto|].
      apply Habove; [exact Hb | lia]. }
  assert (Hns : ~ same_position q r).
  { intros Hs. apply Hdiff. rewrite (Hs a Ha). reflexivity. }
  rewrite (compare_decided q r a Hq Hr Hns Hdec). f_equal.
  apply Z.sgn_neg. 
  pose proof (lift_negative_lt (coord a q) (coord a r) p (Rq a Ha) (Rr a Ha) Hp
                Bq Br (fun j Hj => Habove a j Ha Hj)).
  lia.
Qed.

Lemma highest_differing_bit_sym (a b : Z) :
  highest_differing_bit a b = highest_differing_bit b a.
Proof.
  destruct (highest_differing_bit_spec b a) as (Sr & Sa & Sd).
  apply highest_differing_bit_unique; [exact Sr | |].
  - intros i Hi. symmetry. apply Sa, Hi.
  - intros Hn He. apply (Sd Hn). symmetry. exact He.
Qed.

Lemma compare_antisym (q1 q2 : p4est_quadrant_t) (c : Z) :
  comparable q1 = true -> comparable q2 = true ->
  p4est_quadrant_compare q1 q2 = Done c ->
  p4est_quadrant_compare q2 q1 = Done (- c).
Proof.
  intros H1 H2. rewrite (p4est_quadrant_compare_value q1 q2 H1 H2),
    (p4est_quadrant_compare_value q2 q1 H2 H1). cbv zeta.
  rewrite (highest_differing_bit_sym (x q2)), (highest_differing_bit_sym (y q2)),
    (highest_differing_bit_sym (z q2)).
  intros E. injection E as <-. f_equal.
  destruct ((highest_differing_bit (y q1) (y q2) =? -1) &&
            (highest_differing_bit (x q1) (x q2) =? -1) &&
            (if P4_TO_P8 then highest_differing_bit (z q1) (z q2) =? -1 else true));
    [ring|].
  rewrite <- Z.sgn_opp. f_equal.
  destruct (P4_TO_P8 &&
            ((highest_differing_bit (z q1) (z q2) >=? highest_differing_bit (x q1) (x q2)) &&
             (highest_differing_bit (z q1) (z q2) >=? highest_differing_bit (y q1) (y q2))));
    [ring|].
  destruct (highest_differing_bit (y q1) (y q2) >=? highest_differing_bit (x q1) (x q2));
    ring.
Qed.

Lemma is_valid_comparable (q : p4est_quadrant_t) :
  p4est_quadrant_is_valid q = true -> comparable q = true.
Proof.
  intros Hv. unfold comparable. rewrite (is_valid_extended q Hv). apply orb_true_r.
Qed.

Lemma linear_id_release (q : p4est_quadrant_t) (L : Z) :
  P4EST_DEBUG = false ->
  p4est_quadrant_linear_id q L = Done (linear_id_result q L).
Proof.
  intros Hd. rewrite p4est_quadrant_linear_id_eq. unfold P4EST_ASSERT.
  rewrite Hd. reflexivity.
Qed.

(** Valid quadrants no deeper than [L] with equal indices at [L] lie at
    the same position. *)
Lemma linear_id_eq_same_position (q r : p4est_quadrant_t) (L : Z) :
  p4est_quadrant_is_valid q = true -> p4est_quadrant_is_valid r = true ->
  Z.max (level q) (level r) <= L <= P4EST_QMAXLEVEL ->
  linear_id_result q L = linear_id_result r L ->
  same_position q r.
Proof.
  intros Hq Hr HL He a Ha. unfold P4EST_QMAXLEVEL in HL.
  destruct (is_valid_coord q a Hq Ha) as [Aq Rq].
  destruct (is_valid_coord r a Hr Ha) as [Ar Rr].
  pose proof (proj1 (is_valid_spec q) Hq) as (Lq & _).
  pose proof (proj1 (is_valid_spec r) Hr) as (Lr & _).
  unfold P4EST_QMAXLEVEL in Lq, Lr.
  apply Z.bits_inj'. intros j Hj.
  destruct (Z.lt_ge_cases j (P4EST_MAXLEVEL - L)) as [Hlow|Hhigh].
  - rewrite (proj1 (aligned_bits _ (P4EST_MAXLEVEL - level q) ltac:(lia)) Aq j) by lia.
    rewrite (proj1 (aligned_bits _ (P4EST_MAXLEVEL - level r) ltac:(lia)) Ar j) by lia.
    reflexivity.
  - destruct (Z.lt_ge_cases j P4EST_MAXLEVEL) as [Hin|Hout].
    + assert (E : Z.testbit (linear_id_result q L)
                    (P4EST_DIM * (j - (P4EST_MAXLEVEL - L)) + axis_rank a) =
                  Z.testbit (linear_id_result r L)
                    (P4EST_DIM * (j - (P4EST_MAXLEVEL - L)) + axis_rank a))
        by (rewrite He; reflexivity).
      rewrite !linear_id_result_bit in E by (auto; lia).
      replace (j - (P4EST_MAXLEVEL - L) + (P4EST_MAXLEVEL - L)) with j in E by ring.
      destruct (Z.ltb_spec (j - (P4EST_MAXLEVEL - L)) (L + 2)); [exact E | lia].
    + rewrite (bits_of_bounded _ P4EST_MAXLEVEL j Rq),
        (bits_of_bounded _ P4EST_MAXLEVEL j Rr) by lia. reflexivity.
Qed.

(** C3 (as amended): for valid [a], [b] with [compare (a, b) < 0], the
    linear ids at their common level [L = a.level = b.level] are strictly
    increasing; at a common level [L] above one of the two levels, which
    the precondition of [p4est_quadrant_linear_id] excludes, a build
    without assertions still gives [linear_id (a, L) <= linear_id (b, L)],
    strictly unless [a] and [b] lie at the same position. *)
Theorem compare_lt_linear_id (a b : p4est_quadrant_t) (L c : Z) :
  p4est_quadrant_is_valid a = true -> p4est_quadrant_is_valid b = true ->
  p4est_quadrant_compare a b = Done c -> c < 0 ->
  (level a = L -> level b = L ->
   exists i1 i2,
     p4est_quadrant_linear_id a L = Done i1 /\
     p4est_quadrant_linear_id b L = Done i2 /\ i1 < i2) /\
  (P4EST_DEBUG = false -> Z.max (level a) (level b) <= L <= P4EST_QMAXLEVEL ->
   exists i1 i2,
     p4est_quadrant_linear_id a L = Done i1 /\
     p4est_quadrant_linear_id b L = Done i2 /\
     i1 <= i2 /\ (~ same_position a b -> i1 < i2)).
Proof.
  intros Ha Hb Hc Hneg.
  pose proof (is_valid_comparable a Ha) as Ca.
  pose proof (is_valid_comparable b Hb) as Cb.
  pose proof (proj1 (is_valid_spec a) Ha) as (La & _).
  pose proof (proj1 (is_valid_spec b) Hb) as (Lb & _).
  assert (Hle : 0 <= L <= P4EST_MAXLEVEL ->
                linear_id_result a L <= linear_id_result b L).
  { intros HL. destruct (Z.le_gt_cases (linear_id_result a L) (linear_id_result b L))
      as [Hle|Hgt]; [exact Hle|]. exfalso.
    pose proof (linear_id_lt_compare b a L Cb Ca HL ltac:(lia)) as Hba.
    apply (compare_antisym b a _ Cb Ca) in Hba. rewrite Hc in Hba.
    injection Hba as ->. lia. }
  assert (Hne : Z.max (level a) (level b) <= L <= P4EST_QMAXLEVEL ->
                ~ same_position a b ->
                linear_id_result a L <> linear_id_result b L).
  { intros HL Hns He. apply Hns.
    apply (linear_id_eq_same_position a b L); assumption. }
  unfold P4EST_QMAXLEVEL in *.
  split.
  - intros Ea Eb.
    exists (linear_id_result a L), (linear_id_result b L).
    split; [apply linear_id_done; [apply is_valid_extended, Ha | lia]|].
    split; [apply linear_id_done; [apply is_valid_extended, Hb | lia]|].
    assert (Hns : ~ same_position a b).
    { intros Hs. rewrite (compare_same_position a b Ca Cb Hs) in Hc.
      injection Hc as <-. lia. }
    specialize (Hle ltac:(lia)). specialize (Hne ltac:(lia) Hns). lia.
  - intros Hd HL.
    exists (linear_id_result a L), (linear_id_result b L).
    split; [apply linear_id_release, Hd|].
    split; [apply linear_id_release, Hd|].
    split; [apply Hle; lia|].
    intros Hns. specialize (Hle ltac:(lia)). specialize (Hne ltac:(lia) Hns). lia.
Qed.

(** ** Climbing to the parent *)

Lemma extended_coord (q : p4est_quadrant_t) (a : axis) :
  p4est_quadrant_is_extended q = true -> In a axes ->
  coord_extended (level q) (coord a q).
Proof.
  rewrite is_extended_spec. intros (Hl & Hx & Hy & Hz). unfold axes.
  destruct P4_TO_P8; cbn [In]; intros Ha;
    repeat destruct Ha as [<-|Ha]; try contradiction; cbn [coord axis_select]; auto.
Qed.

Lemma is_extended_of_coords (q : p4est_quadrant_t) :
  0 <= level q <= P4EST_QMAXLEVEL ->
  (forall a, In a axes -> coord_extended (level q) (coord a q)) ->
  p4est_quadrant_is_extended q = true.
Proof.
  intros Hl Hc. apply is_extended_spec. split; [exact Hl|].
  split; [apply (Hc AX); unfold axes; destruct P4_TO_P8; cbn; auto|].
  split; [apply (Hc AY); unfold axes; destruct P4_TO_P8; cbn; auto|].
  intros Hd. apply (Hc AZ). unfold axes. rewrite Hd. cbn. auto.
Qed.

Lemma is_extended_comparable (q : p4est_quadrant_t) :
  p4est_quadrant_is_extended q = true -> comparable q = true.
Proof. intros He. unfold comparable. rewrite He. apply orb_true_r. Qed.

Lemma extended_level (q : p4est_quadrant_t) :
  p4est_quadrant_is_extended q = true -> 0 <= level q <= P4EST_MAXLEVEL - 1.
Proof. rewrite is_extended_spec. unfold P4EST_QMAXLEVEL. tauto. Qed.

Lemma parent_result_fields (q r : p4est_quadrant_t) :
  p4est_quadrant_is_extended q = true ->
  level (parent_result q r) = level q - 1 /\
  (P4_TO_P8 = false -> z (parent_result q r) = z r) /\
  forall a, In a axes ->
    coord a (parent_result q r) =
    Z.land (coord a q) (Z.lnot (2 ^ (P4EST_MAXLEVEL - level q))).
Proof.
  intros He. pose proof (extended_level q He) as Hl. pose proof MAXLEVEL_le_30 as HM.
  unfold parent_result. rewrite QUADRANT_LEN_pow.
  rewrite (int8_small (level q - 1)) by lia.
  unfold axes. destruct P4_TO_P8; cbn [level x y z set_x set_y set_z set_level In];
    (split; [reflexivity|]); (split; [intros; try reflexivity; discriminate|]);
    intros a Ha; repeat destruct Ha as [<-|Ha]; try contradiction;
    cbn [coord axis_select level x y z set_x set_y set_z set_level]; reflexivity.
Qed.

Lemma parent_done (q r : p4est_quadrant_t) :
  p4est_quadrant_is_extended q = true -> 0 < level q ->
  p4est_quadrant_parent q r = Done (parent_result q r) /\
  p4est_quadrant_is_extended (parent_result q r) = true.
Proof.
  intros He Hl. pose proof (extended_level q He) as Hlq.
  destruct (parent_result_fields q r He) as (Pl & _ & Pc).
  assert (Hpe : p4est_quadrant_is_extended (parent_result q r) = true).
  { apply is_extended_of_coords; rewrite Pl; [unfold P4EST_QMAXLEVEL; lia|].
    intros a Ha. rewrite (Pc a Ha), <- QUADRANT_LEN_pow.
    apply parent_coord_extended; [unfold P4EST_QMAXLEVEL; lia|].
    apply extended_coord; assumption. }
  split; [|exact Hpe].
  unfold p4est_quadrant_parent.
  rewrite (P4EST_ASSERT_holds _ He).
  rewrite (P4EST_ASSERT_holds (level q >? 0)) by (apply Z.gtb_lt; lia).
  cbn [bind]. fold (parent_result q r).
  rewrite (P4EST_ASSERT_holds _ Hpe). reflexivity.
Qed.

Lemma clear_bit_testbit (c k j : Z) :
  0 <= k -> 0 <= j ->
  Z.testbit (Z.land c (Z.lnot (2 ^ k))) j = Z.testbit c j && negb (j =? k).
Proof.
  intros Hk Hj. rewrite Z.land_spec, Z.lnot_spec, Z.pow2_bits_eqb by lia.
  rewrite (Z.eqb_sym k j). reflexivity.
Qed.

Lemma land_pow2_testbit (c k : Z) :
  0 <= k -> (Z.land c (2 ^ k) =? 0) = negb (Z.testbit c k).
Proof.
  intros Hk.
  assert (E : Z.land c (2 ^ k) = if Z.testbit c k then 2 ^ k else 0).
  { apply Z.bits_inj'. intros j Hj. rewrite Z.land_spec, Z.pow2_bits_eqb by lia.
    destruct (Z.eqb_spec k j) as [<-|Hne].
    - rewrite andb_true_r. destruct (Z.testbit c k).
      + symmetry. apply Z.pow2_bits_true, Hk.
      + symmetry. apply Z.bits_0.
    - rewrite andb_false_r. destruct (Z.testbit c k).
      + symmetry. apply Z.pow2_bits_false, Hne.
      + symmetry. apply Z.bits_0. }
  rewrite E. pose proof (pow2_pos k Hk). destruct (Z.testbit c k); cbn [negb].
  - apply Z.eqb_neq. lia.
  - reflexivity.
Qed.

(** The child id is the last one exactly when the bit of the quadrant's
    own level is set on every axis. *)
Lemma child_id_last (q : p4est_quadrant_t) :
  p4est_quadrant_is_extended q = true -> 0 < level q ->
  exists cid,
    p4est_quadrant_child_id q = Done cid /\
    ((cid =? P4EST_CHILDREN - 1) = true <->
     forall a, In a axes ->
               Z.testbit (coord a q) (P4EST_MAXLEVEL - level q) = true).
Proof.
  intros He Hl. pose proof (extended_level q He) as Hlq.
  unfold p4est_quadrant_child_id, p4est_quadrant_ancestor_id.
  rewrite (P4EST_ASSERT_holds _ He).
  rewrite (P4EST_ASSERT_holds ((0 <=? level q) && (level q <=? P4EST_MAXLEVEL)))
    by (apply andb_true_iff; split; apply Z.leb_le; lia).
  rewrite (P4EST_ASSERT_holds (level q >=? level q)) by (apply Z.geb_le; lia).
  cbn [bind]. destruct (Z.eqb_spec (level q) 0); [lia|].
  eexists. split; [reflexivity|].
  rewrite QUADRANT_LEN_pow, !land_pow2_testbit by lia.
  unfold P4EST_CHILDREN. destruct P4_TO_P8 eqn:Hd.
  - rewrite (in_axes_3d _ Hd). cbn [coord axis_select].
    destruct (Z.testbit (x q) _), (Z.testbit (y q) _), (Z.testbit (z q) _);
      cbn; intuition discriminate.
  - rewrite (in_axes_2d _ Hd). cbn [coord axis_select].
    destruct (Z.testbit (x q) _), (Z.testbit (y q) _);
      cbn; intuition discriminate.
Qed.

(** ** Successor test *)

Lemma pow2_diff_bit (hi lo j : Z) :
  0 <= lo <= hi -> 0 <= j ->
  Z.testbit (2 ^ hi - 2 ^ lo) j = (lo <=? j) && (j <? hi).
Proof.
  intros Hr Hj.
  assert (E : 2 ^ hi - 2 ^ lo = Z.shiftl (Z.ones (hi - lo)) lo).
  { rewrite Z.shiftl_mul_pow2, Z.ones_equiv by lia.
    replace hi with (hi - lo + lo) at 1 by ring.
    rewrite Z.pow_add_r by lia. lia. }
  rewrite E, Z.shiftl_spec by lia.
  destruct (Z.leb_spec lo j).
  - rewrite Z.testbit_ones_nonneg by lia.
    destruct (Z.ltb_spec (j - lo) (hi - lo)), (Z.ltb_spec j hi); try lia; reflexivity.
  - apply Z.testbit_neg_r. lia.
Qed.

Lemma land_mask_all_set (c hi lo : Z) :
  0 <= lo <= hi ->
  (Z.land c (2 ^ hi - 2 ^ lo) =? 2 ^ hi - 2 ^ lo) = true <->
  forall j, lo <= j < hi -> Z.testbit c j = true.
Proof.
  intros Hr. rewrite Z.eqb_eq. split.
  - intros E j Hj.
    assert (B : Z.testbit (Z.land c (2 ^ hi - 2 ^ lo)) j = Z.testbit (2 ^ hi - 2 ^ lo) j)
      by (rewrite E; reflexivity).
    rewrite Z.land_spec, pow2_diff_bit in B by lia.
    destruct (Z.leb_spec lo j), (Z.ltb_spec j hi); try lia.
    cbn [andb] in B. rewrite andb_true_r in B. exact B.
  - intros H. apply Z.bits_inj'. intros j Hj.
    rewrite Z.land_spec, pow2_diff_bit by lia.
    destruct (Z.leb_spec lo j), (Z.ltb_spec j hi); cbn [andb];
      rewrite ?andb_false_r; try reflexivity.
    rewrite H by lia. reflexivity.
Qed.

Lemma is_last_descendant_spec (q : p4est_quadrant_t) (l : Z) :
  p4est_quadrant_is_extended q = true -> 0 <= l <= level q ->
  (is_last_descendant q l = true <-> last_path q l).
Proof.
  intros He Hl. pose proof (extended_level q He) as Hlq.
  pose proof MAXLEVEL_le_30 as HM.
  unfold is_last_descendant, last_path. rewrite !QUADRANT_LEN_pow.
  set (hi := P4EST_MAXLEVEL - l). set (lo := P4EST_MAXLEVEL - level q).
  assert (Hr : 0 <= lo <= hi) by (subst hi lo; lia).
  assert (Hm : int32 (2 ^ hi - 2 ^ lo) = 2 ^ hi - 2 ^ lo).
  { apply int32_small. pose proof (pow2_pos lo ltac:(lia)).
    pose proof (pow2_le_mono lo hi Hr).
    assert (2 ^ hi <= 2 ^ 30) by (apply pow2_le_mono; subst hi; lia).
    change (2 ^ 31) with (2 * 2 ^ 30). lia. }
  rewrite Hm. cbv zeta. rewrite orb_false_r.
  pose proof (land_mask_all_set (x q) hi lo Hr) as Mx.
  pose proof (land_mask_all_set (y q) hi lo Hr) as My.
  pose proof (land_mask_all_set (z q) hi lo Hr) as Mz.
  destruct P4_TO_P8 eqn:Hd.
  - rewrite (in_axes_3d _ Hd). cbn [coord axis_select].
    rewrite <- Mx, <- My, <- Mz.
    destruct (Z.land (x q) _ =? _), (Z.land (y q) _ =? _), (Z.land (z q) _ =? _);
      cbn; intuition discriminate.
  - rewrite (in_axes_2d _ Hd). cbn [coord axis_select].
    rewrite <- Mx, <- My.
    destruct (Z.land (x q) _ =? _), (Z.land (y q) _ =? _);
      cbn; intuition discriminate.
Qed.

Lemma p4est_quadrant_is_next_value (q r : p4est_quadrant_t) :
  p4est_quadrant_is_extended q = true ->
  p4est_quadrant_is_extended r = true ->
  p4est_quadrant_is_next q r =
  Done (if level q >? level r
        then is_last_descendant q (level r) &&
             (uint64 (linear_id_result q (level r) + 1) =?
              linear_id_result r (level r))
        else uint64 (linear_id_result q (level q) + 1) =?
             linear_id_result r (level q)).
Proof.
  intros Hq Hr. pose proof (extended_level q Hq). pose proof (extended_level r Hr).
  unfold p4est_quadrant_is_next.
  rewrite (P4EST_ASSERT_holds _ Hq), (P4EST_ASSERT_holds _ Hr). cbn [bind].
  fold (is_last_descendant q (level r)).
  destruct (Z.gtb_spec (level q) (level r)).
  - unfold is_last_descendant at 1. cbv zeta.
    match goal with |- context [if ?b then Done None else _] =>
      change (is_last_descendant q (level r)) with (negb b); destruct b end;
      cbn [bind negb andb]; [reflexivity|].
    rewrite !linear_id_done by (auto; lia). reflexivity.
  - cbn [bind]. rewrite !linear_id_done by (auto; lia). reflexivity.
Qed.

Lemma is_next_D_loop_spec (fuel : nat) (b : p4est_quadrant_t) :
  forall a,
    p4est_quadrant_is_extended a = true -> 0 <= level b ->
    level a - level b <= Z.of_nat fuel ->
    (level a <= level b -> is_next_D_loop fuel a b = Done (Some a)) /\
    (level b < level a -> last_path a (level b) ->
     exists a',
       is_next_D_loop fuel a b = Done (Some a') /\
       p4est_quadrant_is_extended a' = true /\
       level a' = level b /\
       forall ax, In ax axes ->
       forall j, P4EST_MAXLEVEL - level b <= j ->
                 Z.testbit (coord ax a') j = Z.testbit (coord ax a) j) /\
    (level b < level a -> ~ last_path a (level b) ->
     is_next_D_loop fuel a b = Done None).
Proof.
  induction fuel as [|fuel IH]; intros a He Hb Hf.
  - cbn [is_next_D_loop]. destruct (Z.gtb_spec (level a) (level b)); [lia|].
    split; [reflexivity|]. split; intros; lia.
  - cbn [is_next_D_loop]. pose proof (extended_level a He) as Hla.
    destruct (Z.gtb_spec (level a) (level b)) as [Hgt|Hle].
    2:{ split; [reflexivity|]. split; intros; lia. }
    split; [intros; lia|].
    destruct (child_id_last a He ltac:(lia)) as (cid & Hcid & Hiff).
    rewrite Hcid. cbn [bind].
    destruct (parent_done a a He ltac:(lia)) as (Hp & Hpe).
    destruct (parent_result_fields a a He) as (Pl & _ & Pc).
    set (a1 := parent_result a a) in *.
    assert (Hbits : forall ax, In ax axes -> forall j, 0 <= j ->
              Z.testbit (coord ax a1) j =
              Z.testbit (coord ax a) j && negb (j =? P4EST_MAXLEVEL - level a)).
    { intros ax Hax j Hj. rewrite (Pc ax Hax). apply clear_bit_testbit; lia. }
    destruct (IH a1 Hpe Hb ltac:(lia)) as (I1 & I2 & I3).
    destruct (cid =? P4EST_CHILDREN - 1) eqn:Hc; cbn [negb].
    + (* the bit of a's level is set on every axis: climb *)
      pose proof (proj1 Hiff eq_refl) as Hset. rewrite Hp. cbn [bind].
      assert (Hpath : level b < level a1 ->
                (last_path a (level b) <-> last_path a1 (level b))).
      { intros Hlt. unfold last_path. rewrite Pl. split; intros H ax Hax j Hj.
        - rewrite Hbits by (auto; lia).
          rewrite (H ax Hax j) by lia.
          destruct (Z.eqb_spec j (P4EST_MAXLEVEL - level a)); [lia | reflexivity].
        - destruct (Z.eq_dec j (P4EST_MAXLEVEL - level a)) as [->|Hne];
            [apply Hset, Hax|].
          pose proof (H ax Hax j ltac:(lia)) as E.
          rewrite Hbits in E by (auto; lia).
          apply andb_true_iff in E. tauto. }
      destruct (Z.le_gt_cases (level a1) (level b)) as [Hle1|Hgt1].
      * rewrite (I1 Hle1). split.
        -- intros _ _. exists a1. split; [reflexivity|]. split; [exact Hpe|].
           split; [lia|]. intros ax Hax j Hj. rewrite Hbits by (auto; lia).
           destruct (Z.eqb_spec j (P4EST_MAXLEVEL - level a)); [lia|].
           apply andb_true_r.
        -- intros _ Hn. exfalso. apply Hn. intros ax Hax j Hj.
           replace j with (P4EST_MAXLEVEL - level a) by lia. apply Hset, Hax.
      * split.
        -- intros _ Hlp. destruct (I2 Hgt1 (proj1 (Hpath Hgt1) Hlp))
             as (a' & E & Ee & El & Eb).
           exists a'. split; [exact E|]. split; [exact Ee|]. split; [exact El|].
           intros ax Hax j Hj. rewrite (Eb ax Hax j Hj), Hbits by (auto; lia).
           destruct (Z.eqb_spec j (P4EST_MAXLEVEL - level a)); [lia|].
           apply andb_true_r.
        -- intros _ Hn. apply I3; [exact Hgt1|]. intros Hlp.
           apply Hn, (Hpath Hgt1), Hlp.
    + (* some axis has the bit clear: not on the last path *)
      split; [|intros; reflexivity].
      intros _ Hlp. exfalso.
      assert (Hall : forall ax, In ax axes ->
                Z.testbit (coord ax a) (P4EST_MAXLEVEL - level a) = true)
        by (intros ax Hax; apply Hlp; [exact Hax | lia]).
      apply Hiff in Hall. congruence.
Qed.

Lemma linear_id_result_ext (q q' : p4est_quadrant_t) (L : Z) :
  0 <= L <= P4EST_MAXLEVEL ->
  (forall a, In a axes -> forall j, P4EST_MAXLEVEL - L <= j ->
             Z.testbit (coord a q') j = Z.testbit (coord a q) j) ->
  linear_id_result q' L = linear_id_result q L.
Proof.
  intros HL Hb. apply Z.bits_inj'. intros k Hk.
  destruct (position_split k Hk) as (i & a & Ha & Hi & ->).
  rewrite !linear_id_result_bit by auto. rewrite (Hb a Ha) by lia. reflexivity.
Qed.

(** An index that is the successor of another belongs to a greater
    quadrant. *)
Lemma linear_id_succ_compare (q r : p4est_quadrant_t) (L : Z) :
  comparable q = true -> comparable r = true -> 0 <= L <= P4EST_QMAXLEVEL ->
  (uint64 (linear_id_result q L + 1) =? linear_id_result r L) = true ->
  p4est_quadrant_compare q r = Done (-1).
Proof.
  unfold P4EST_QMAXLEVEL. intros Hq Hr HL He. apply Z.eqb_eq in He.
  apply (linear_id_lt_compare q r L); auto; [lia|].
  pose proof (linear_id_result_nonneg q L) as Hn.
  pose proof (linear_id_result_bound q L ltac:(lia)) as Hb.
  pose proof (DIM_levels_fit L ltac:(unfold P4EST_QMAXLEVEL; lia)) as Hfit.
  pose proof DIM_range as HD.
  assert (H62 : 2 ^ (P4EST_DIM * (L + 2)) <= 2 ^ 63) by (apply pow2_le_mono; nia).
  rewrite uint64_small in He; [lia|].
  change (2 ^ 64) with (2 * 2 ^ 63). lia.
Qed.

(** C5: on extended quadrants the bit-mask successor test and its
    level-by-level reference return the same boolean (the reference
    being given enough iterations for its loop). *)
Theorem is_next_agrees_with_reference (fuel : nat) (q r : p4est_quadrant_t) :
  p4est_quadrant_is_extended q = true ->
  p4est_quadrant_is_extended r = true ->
  level q - level r <= Z.of_nat fuel ->
  exists b,
    p4est_quadrant_is_next q r = Done b /\
    p4est_quadrant_is_next_D fuel q r = Done b.
Proof.
  intros Hq Hr Hf.
  pose proof (is_extended_comparable q Hq) as Cq.
  pose proof (is_extended_comparable r Hr) as Cr.
  pose proof (extended_level q Hq) as Lq. pose proof (extended_level r Hr) as Lr.
  rewrite (p4est_quadrant_is_next_value q r Hq Hr).
  eexists. split; [reflexivity|].
  unfold p4est_quadrant_is_next_D.
  destruct (p4est_quadrant_compare q r) as [c| |] eqn:Hc;
    [|rewrite (p4est_quadrant_compare_value q r Cq Cr) in Hc; discriminate ..].
  cbn [bind].
  assert (Hsucc : forall L, 0 <= L <= P4EST_QMAXLEVEL ->
            (uint64 (linear_id_result q L + 1) =? linear_id_result r L) = true ->
            c = -1).
  { intros L HL He. pose proof (linear_id_succ_compare q r L Cq Cr HL He) as E.
    rewrite Hc in E. injection E as E. exact E. }
  destruct (is_next_D_loop_spec fuel r q Hq ltac:(lia) Hf) as (S1 & S2 & S3).
  destruct (Z.gtb_spec (level q) (level r)) as [Hgt|Hle].
  - destruct (Z.geb_spec c 0) as [Hc0|Hc0].
    + f_equal. symmetry. apply andb_false_iff. right.
      destruct (uint64 (linear_id_result q (level r) + 1) =?
                linear_id_result r (level r)) eqn:He; [|reflexivity].
      pose proof (Hsucc (level r) ltac:(unfold P4EST_QMAXLEVEL; lia) He). lia.
    + destruct (is_last_descendant q (level r)) eqn:Hld.
      * apply (is_last_descendant_spec q (level r) Hq ltac:(lia)) in Hld.
        destruct (S2 ltac:(lia) Hld) as (a' & E & Ee & El & Eb).
        rewrite E. cbn [bind]. rewrite El.
        rewrite !linear_id_done by (auto; lia). cbn [bind andb].
        rewrite (linear_id_result_ext q a' (level r)) by (auto; lia).
        reflexivity.
      * assert (Hn : ~ last_path q (level r)).
        { intros Hlp.
          apply (is_last_descendant_spec q (level r) Hq ltac:(lia)) in Hlp.
          congruence. }
        rewrite (S3 ltac:(lia) Hn). reflexivity.
  - destruct (Z.geb_spec c 0) as [Hc0|Hc0].
    + f_equal. symmetry.
      destruct (uint64 (linear_id_result q (level q) + 1) =?
                linear_id_result r (level q)) eqn:He; [|reflexivity].
      pose proof (Hsucc (level q) ltac:(unfold P4EST_QMAXLEVEL; lia) He). lia.
    + rewrite (S1 Hle). cbn [bind].
      rewrite !linear_id_done by (auto; lia). reflexivity.
Qed.

(** ** Nearest common ancestor *)

Lemma nca_level_unique (q1 q2 : p4est_quadrant_t) (lev lev' : Z) :
  nca_level q1 q2 lev -> nca_level q1 q2 lev' -> lev = lev'.
Proof.
  assert (Hlt : forall u v, nca_level q1 q2 u -> nca_level q1 q2 v -> ~ u < v).
  { intros u v (Ur & _ & Um) (Vr & Va & _) Huv.
    apply Um; [lia|]. intros a Ha i Hi. apply (Va a Ha). lia. }
  intros H H'. pose proof (Hlt _ _ H H'). pose proof (Hlt _ _ H' H). lia.
Qed.

Lemma same_tree_agree (q1 q2 : p4est_quadrant_t) :
  same_tree q1 q2 ->
  forall a, In a axes -> agree_from P4EST_MAXLEVEL (coord a q1) (coord a q2).
Proof.
  intros Hs a Ha. apply shiftr_lxor_zero.
  - pose proof MAXLEVEL_le_30. lia.
  - rewrite Z.shiftr_lxor, (Hs a Ha). apply Z.lxor_nilpotent.
Qed.

(** Clearing the bits below [p] of a coordinate aligned to [2^p']. *)
Lemma clear_bits_below_aligned (p c : Z) :
  0 <= p -> c mod 2 ^ p = 0 -> clear_bits_below p c = c.
Proof.
  intros Hp Ha. apply Z.bits_inj'. intros j Hj.
  rewrite clear_bits_below_bit by lia.
  destruct (Z.leb_spec p j); [reflexivity|].
  symmetry. apply (proj1 (aligned_bits c p Hp) Ha). lia.
Qed.

Lemma clear_bits_below_extended (l p c : Z) :
  0 <= l <= P4EST_QMAXLEVEL -> p = P4EST_MAXLEVEL - l ->
  - 2 ^ P4EST_MAXLEVEL <= c <= 2 ^ P4EST_MAXLEVEL + (2 ^ P4EST_MAXLEVEL - 1) ->
  coord_extended l (clear_bits_below p c).
Proof.
  unfold P4EST_QMAXLEVEL. intros Hl -> Hc. pose proof MAXLEVEL_le_30 as HM.
  set (p := P4EST_MAXLEVEL - l). assert (Hp : 0 <= p) by (subst p; lia).
  assert (E : clear_bits_below p c = 2 ^ p * (c / 2 ^ p)).
  { apply Z.bits_inj'. intros j Hj. rewrite clear_bits_below_bit by lia.
    rewrite Z.mul_comm, <- Z.shiftl_mul_pow2, Z.shiftl_spec by lia.
    destruct (Z.leb_spec p j).
    - rewrite Z.div_pow2_bits by lia. cbn [andb]. f_equal. ring.
    - symmetry. apply Z.testbit_neg_r. lia. }
  rewrite E. pose proof (pow2_pos p Hp) as Hpp. split.
  - rewrite Z.mul_comm. apply Z.mod_mul. lia.
  - pose proof (Z.mul_div_le c (2 ^ p) Hpp). split; [|lia].
    assert (Hs : 2 ^ P4EST_MAXLEVEL = 2 ^ p * 2 ^ l).
    { rewrite <- Z.pow_add_r by lia. f_equal. subst p. lia. }
    rewrite Hs in *.
    assert (- 2 ^ l <= c / 2 ^ p) by (apply Z.div_le_lower_bound; lia).
    nia.
Qed.

(** The first stage of the iterative algorithm. *)
Lemma promote_loop_spec (fuel : nat) (lvl : Z) :
  forall s,
    p4est_quadrant_is_extended s = true -> 0 <= lvl ->
    level s - lvl <= Z.of_nat fuel ->
    exists s',
      promote_loop fuel s lvl = Done s' /\
      p4est_quadrant_is_extended s' = true /\
      level s' = Z.min (level s) lvl /\
      (P4_TO_P8 = false -> z s' = z s) /\
      forall a, In a axes ->
        coord a s' = clear_bits_below (P4EST_MAXLEVEL - Z.min (level s) lvl) (coord a s).
Proof.
  induction fuel as [|fuel IH]; intros s He Hl Hf;
    pose proof (extended_level s He) as Hls; cbn [promote_loop].
  - destruct (Z.gtb_spec (level s) lvl); [lia|].
    exists s. rewrite Z.min_l by lia. repeat split; auto.
    intros a Ha. symmetry. apply clear_bits_below_aligned; [lia|].
    apply (extended_coord s a He Ha).
  - destruct (Z.gtb_spec (level s) lvl) as [Hgt|Hle].
    + destruct (parent_done s s He ltac:(lia)) as (Hp & Hpe).
      destruct (parent_result_fields s s He) as (Pl & Pz & Pc).
      rewrite Hp. cbn [bind].
      destruct (IH (parent_result s s) Hpe Hl ltac:(lia)) as (s' & E & Ee & El & Ez & Ec).
      exists s'. split; [exact E|]. split; [exact Ee|].
      rewrite Pl in El, Ec.
      rewrite Z.min_r in El, Ec by lia. rewrite Z.min_r by lia.
      split; [exact El|]. split; [intros Hd; rewrite (Ez Hd), (Pz Hd); reflexivity|].
      intros a Ha. rewrite (Ec a Ha), (Pc a Ha).
      apply Z.bits_inj'. intros j Hj.
      rewrite !clear_bits_below_bit, clear_bit_testbit by lia.
      destruct (Z.leb_spec (P4EST_MAXLEVEL - lvl) j); [|reflexivity].
      destruct (Z.eqb_spec j (P4EST_MAXLEVEL - level s)); [lia|].
      cbn [andb negb]. apply andb_true_r.
    + exists s. rewrite Z.min_l by lia. repeat split; auto.
      intros a Ha. symmetry. apply clear_bits_below_aligned; [lia|].
      apply (extended_coord s a He Ha).
Qed.

Lemma is_equal_value (q1 q2 : p4est_quadrant_t) :
  comparable q1 = true -> comparable q2 = true ->
  exists e,
    p4est_quadrant_is_equal q1 q2 = Done e /\
    (e = true <-> level q1 = level q2 /\ same_position q1 q2).
Proof.
  unfold comparable. intros H1 H2. unfold p4est_quadrant_is_equal.
  rewrite (P4EST_ASSERT_holds _ H1), (P4EST_ASSERT_holds _ H2). cbn [bind].
  eexists. split; [reflexivity|]. unfold same_position.
  destruct P4_TO_P8 eqn:Hd.
  - rewrite (in_axes_3d _ Hd). cbn [coord axis_select].
    rewrite !andb_true_iff, !Z.eqb_eq. tauto.
  - rewrite (in_axes_2d _ Hd). cbn [coord axis_select].
    rewrite !andb_true_iff, !Z.eqb_eq. tauto.
Qed.

Lemma parent_bits_above (s r : p4est_quadrant_t) (a : axis) (j : Z) :
  p4est_quadrant_is_extended s = true -> In a axes ->
  P4EST_MAXLEVEL - level s < j ->
  Z.testbit (coord a (parent_result s r)) j = Z.testbit (coord a s) j.
Proof.
  intros He Ha Hj. pose proof (extended_level s He).
  destruct (parent_result_fields s r He) as (_ & _ & Pc).
  rewrite (Pc a Ha), clear_bit_testbit by lia.
  destruct (Z.eqb_spec j (P4EST_MAXLEVEL - level s)); [lia|]. apply andb_true_r.
Qed.

(** Extended coordinates of one level that agree from that level's bit
    on are equal. *)
Lemma aligned_agree_eq (l c1 c2 : Z) :
  0 <= l <= P4EST_MAXLEVEL ->
  c1 mod 2 ^ (P4EST_MAXLEVEL - l) = 0 -> c2 mod 2 ^ (P4EST_MAXLEVEL - l) = 0 ->
  agree_from (P4EST_MAXLEVEL - l) c1 c2 -> c1 = c2.
Proof.
  intros Hl A1 A2 Hag. apply Z.bits_inj'. intros j Hj.
  destruct (Z.lt_ge_cases j (P4EST_MAXLEVEL - l)).
  - rewrite (proj1 (aligned_bits c1 (P4EST_MAXLEVEL - l) ltac:(lia)) A1 j),
      (proj1 (aligned_bits c2 (P4EST_MAXLEVEL - l) ltac:(lia)) A2 j) by lia.
    reflexivity.
  - apply Hag. lia.
Qed.

(** The second stage of the iterative algorithm. *)
Lemma simultaneous_loop_spec (fuel : nat) :
  forall s1 s2,
    p4est_quadrant_is_extended s1 = true ->
    p4est_quadrant_is_extended s2 = true ->
    level s1 = level s2 ->
    (forall a, In a axes -> agree_from P4EST_MAXLEVEL (coord a s1) (coord a s2)) ->
    level s1 <= Z.of_nat fuel ->
    exists s1' s2' lev,
      simultaneous_loop fuel s1 s2 = Done (s1', s2') /\
      p4est_quadrant_is_extended s1' = true /\
      level s1' = lev /\ 0 <= lev <= level s1 /\
      (P4_TO_P8 = false -> z s1' = z s1) /\
      (forall a, In a axes ->
                 coord a s1' = clear_bits_below (P4EST_MAXLEVEL - lev) (coord a s1)) /\
      (forall a, In a axes ->
                 agree_from (P4EST_MAXLEVEL - lev) (coord a s1) (coord a s2)) /\
      (lev < level s1 ->
       ~ forall a, In a axes ->
                   agree_from (P4EST_MAXLEVEL - lev - 1) (coord a s1) (coord a s2)).
Proof.
  induction fuel as [|fuel IH]; intros s1 s2 H1 H2 Hl Htree Hf;
    pose proof (extended_level s1 H1) as L1;
    pose proof (extended_level s2 H2) as L2;
    destruct (is_equal_value s1 s2 (is_extended_comparable _ H1)
                (is_extended_comparable _ H2)) as (e & He & Hiff);
    cbn [simultaneous_loop]; rewrite He; cbn [bind].
  - destruct e; cbn [negb].
    + destruct (proj1 Hiff eq_refl) as [_ Hsame].
      exists s1, s2, (level s1). split; [reflexivity|]. split; [exact H1|].
      split; [reflexivity|]. split; [lia|]. split; [reflexivity|].
      split; [|split; [|lia]].
      * intros a Ha. symmetry. apply clear_bits_below_aligned; [lia|].
        apply (extended_coord s1 a H1 Ha).
      * intros a Ha i Hi. rewrite (Hsame a Ha). reflexivity.
    + exfalso. assert (E : false = true); [|discriminate].
      apply Hiff. split; [exact Hl|]. intros a Ha.
      apply (aligned_agree_eq (level s1)); [lia | | |].
      * apply (extended_coord s1 a H1 Ha).
      * rewrite Hl. apply (extended_coord s2 a H2 Ha).
      * replace (level s1) with 0 by lia. rewrite Z.sub_0_r. apply Htree, Ha.
  - destruct e eqn:Ee; cbn [negb].
    + destruct (proj1 Hiff eq_refl) as [_ Hsame].
      exists s1, s2, (level s1). split; [reflexivity|]. split; [exact H1|].
      split; [reflexivity|]. split; [lia|]. split; [reflexivity|].
      split; [|split; [|lia]].
      * intros a Ha. symmetry. apply clear_bits_below_aligned; [lia|].
        apply (extended_coord s1 a H1 Ha).
      * intros a Ha i Hi. rewrite (Hsame a Ha). reflexivity.
    + assert (Hdiff : ~ forall a, In a axes ->
                agree_from (P4EST_MAXLEVEL - level s1) (coord a s1) (coord a s2)).
      { intros Hag. assert (E : false = true); [|discriminate].
        apply Hiff. split; [exact Hl|]. intros a Ha.
        apply (aligned_agree_eq (level s1)); [lia | | | apply Hag, Ha].
        - apply (extended_coord s1 a H1 Ha).
        - rewrite Hl. apply (extended_coord s2 a H2 Ha). }
      assert (Hpos : 0 < level s1).
      { destruct (Z.eq_dec (level s1) 0) as [E0|]; [|lia].
        exfalso. apply Hdiff. rewrite E0, Z.sub_0_r. exact Htree. }
      destruct (parent_done s1 s1 H1 Hpos) as (P1 & P1e).
      destruct (parent_done s2 s2 H2 ltac:(lia)) as (P2 & P2e).
      destruct (parent_result_fields s1 s1 H1) as (P1l & P1z & _).
      destruct (parent_result_fields s2 s2 H2) as (P2l & _ & _).
      rewrite P1, P2. cbn [bind].
      destruct (IH (parent_result s1 s1) (parent_result s2 s2) P1e P2e
                  ltac:(lia)) as (s1' & s2' & lev & E & E1 & El & Er & Ez & Ec & Ea & Em).
      { intros a Ha i Hi. rewrite !parent_bits_above by (auto; lia).
        apply Htree; auto. }
      { lia. }
      rewrite P1l in Er, Em.
      exists s1', s2', lev. split; [exact E|]. split; [exact E1|].
      split; [exact El|]. split; [lia|].
      split; [intros Hd; rewrite (Ez Hd), (P1z Hd); reflexivity|].
      split; [|split].
      * intros a Ha. rewrite (Ec a Ha). apply Z.bits_inj'. intros j Hj.
        rewrite !clear_bits_below_bit by lia.
        destruct (Z.leb_spec (P4EST_MAXLEVEL - lev) j); [|reflexivity].
        cbn [andb]. apply parent_bits_above; auto. lia.
      * intros a Ha i Hi. pose proof (Ea a Ha i Hi) as B.
        rewrite !parent_bits_above in B by (auto; lia). exact B.
      * intros _. destruct (Z.eq_dec lev (level s1 - 1)) as [->|Hne].
        -- replace (P4EST_MAXLEVEL - (level s1 - 1) - 1)
             with (P4EST_MAXLEVEL - level s1) by ring. exact Hdiff.
        -- intros Hag. apply Em; [lia|]. intros a Ha i Hi.
           rewrite !parent_bits_above by (auto; lia). apply Hag; auto.
Qed.

Lemma nca_D_spec (fuel : nat) (q1 q2 r : p4est_quadrant_t) :
  p4est_quadrant_is_extended q1 = true ->
  p4est_quadrant_is_extended q2 = true ->
  same_tree q1 q2 ->
  P4EST_MAXLEVEL <= Z.of_nat fuel ->
  exists res lev,
    p4est_nearest_common_ancestor_D fuel q1 q2 r = Done res /\
    nca_level q1 q2 lev /\
    level res = lev /\
    z res = (if P4_TO_P8 then clear_bits_below (P4EST_MAXLEVEL - lev) (z q1) else z r) /\
    x res = clear_bits_below (P4EST_MAXLEVEL - lev) (x q1) /\
    y res = clear_bits_below (P4EST_MAXLEVEL - lev) (y q1).
Proof.
  intros H1 H2 Htree Hf.
  pose proof (extended_level q1 H1) as L1. pose proof (extended_level q2 H2) as L2.
  unfold p4est_nearest_common_ancestor_D.
  rewrite (P4EST_ASSERT_holds _ H1), (P4EST_ASSERT_holds _ H2). cbn [bind].
  destruct (promote_loop_spec fuel (level q2) q1 H1 ltac:(lia) ltac:(lia))
    as (s1 & E1 & S1e & S1l & _ & S1c).
  rewrite E1. cbn [bind].
  destruct (promote_loop_spec fuel (level s1) q2 H2 ltac:(lia) ltac:(lia))
    as (s2 & E2 & S2e & S2l & _ & S2c).
  rewrite E2. cbn [bind].
  set (l0 := Z.min (level q1) (level q2)) in *.
  assert (S2l' : level s2 = l0) by (subst l0; lia).
  rewrite S1l in S2c. replace (Z.min (level q2) l0) with l0 in S2c by (subst l0; lia).
  rewrite (P4EST_ASSERT_holds (level s1 =? level s2)) by (apply Z.eqb_eq; lia).
  cbn [bind].
  assert (Hb1 : forall a, In a axes -> forall j, P4EST_MAXLEVEL - l0 <= j ->
            Z.testbit (coord a s1) j = Z.testbit (coord a q1) j).
  { intros a Ha j Hj. rewrite (S1c a Ha), clear_bits_below_bit by lia.
    destruct (Z.leb_spec (P4EST_MAXLEVEL - l0) j); [reflexivity | lia]. }
  assert (Hb2 : forall a, In a axes -> forall j, P4EST_MAXLEVEL - l0 <= j ->
            Z.testbit (coord a s2) j = Z.testbit (coord a q2) j).
  { intros a Ha j Hj. rewrite (S2c a Ha), clear_bits_below_bit by lia.
    destruct (Z.leb_spec (P4EST_MAXLEVEL - l0) j); [reflexivity | lia]. }
  destruct (simultaneous_loop_spec fuel s1 s2 S1e S2e ltac:(lia))
    as (s1' & s2' & lev & E & Ee & El & Er & _ & Ec & Ea & Em).
  { intros a Ha i Hi. rewrite Hb1, Hb2 by (auto; lia).
    apply (same_tree_agree q1 q2 Htree a Ha i Hi). }
  { lia. }
  rewrite E. cbn [bind fst].
  rewrite S1l in Er, Em.
  assert (Hc : forall a, In a axes ->
            coord a s1' = clear_bits_below (P4EST_MAXLEVEL - lev) (coord a q1)).
  { intros a Ha. rewrite (Ec a Ha). apply Z.bits_inj'. intros j Hj.
    rewrite !clear_bits_below_bit by lia.
    destruct (Z.leb_spec (P4EST_MAXLEVEL - lev) j); [|reflexivity].
    cbn [andb]. apply Hb1; auto. lia. }
  match goal with |- context [P4EST_ASSERT (p4est_quadrant_is_extended ?t)] =>
    set (res := t) end.
  assert (Hres : level res = lev /\
                 z res = (if P4_TO_P8
                          then clear_bits_below (P4EST_MAXLEVEL - lev) (z q1)
                          else z r) /\
                 x res = clear_bits_below (P4EST_MAXLEVEL - lev) (x q1) /\
                 y res = clear_bits_below (P4EST_MAXLEVEL - lev) (y q1)).
  { pose proof (Hc AX) as Cx. pose proof (Hc AY) as Cy. pose proof (Hc AZ) as Cz.
    subst res. revert Cx Cy Cz. unfold axes.
    destruct P4_TO_P8; cbn [In coord axis_select level x y z set_x set_y set_z set_level];
      intros Cx Cy Cz; rewrite <- ?Cx, <- ?Cy, <- ?Cz by auto; auto. }
  destruct Hres as (Rl & Rz & Rx & Ry).
  assert (Hext : p4est_quadrant_is_extended res = true).
  { apply is_extended_of_coords; rewrite Rl; [unfold P4EST_QMAXLEVEL; lia|].
    intros a Ha.
    assert (Hca : coord a res = clear_bits_below (P4EST_MAXLEVEL - lev) (coord a q1)).
    { revert Ha Rz. unfold axes. destruct P4_TO_P8; cbn [In]; intros Ha Rz;
        repeat destruct Ha as [<-|Ha]; try contradiction; cbn [coord axis_select]; auto. }
    rewrite Hca.
    apply clear_bits_below_extended; [unfold P4EST_QMAXLEVEL; lia | reflexivity|].
    apply (extended_coord q1 a H1 Ha). }
  rewrite (P4EST_ASSERT_holds _ Hext). cbn [bind].
  exists res, lev. split; [reflexivity|]. split; [|auto].
  split; [fold l0; lia|]. split.
  - intros a Ha i Hi. rewrite <- Hb1, <- Hb2 by (auto; lia). apply Ea; auto.
  - fold l0. intros Hlt Hag. apply Em; [exact Hlt|]. intros a Ha i Hi.
    rewrite Hb1, Hb2 by (auto; lia). apply Hag; auto.
Qed.

Lemma SC_LOG2_32_lower (v : Z) : -1 <= SC_LOG2_32 v.
Proof.
  unfold SC_LOG2_32. destruct (v =? 0); [lia|].
  pose proof (Z.log2_nonneg v). lia.
Qed.

Lemma SC_LOG2_32_lor (u v : Z) :
  0 <= u -> 0 <= v ->
  SC_LOG2_32 (Z.lor u v) = Z.max (SC_LOG2_32 u) (SC_LOG2_32 v).
Proof.
  intros Hu Hv. pose proof (SC_LOG2_32_lower u). pose proof (SC_LOG2_32_lower v).
  destruct (Z.eq_dec u 0) as [->|Nu].
  - rewrite Z.lor_0_l. change (SC_LOG2_32 0) with (-1) in *. lia.
  - destruct (Z.eq_dec v 0) as [->|Nv].
    + rewrite Z.lor_0_r. change (SC_LOG2_32 0) with (-1) in *. lia.
    + unfold SC_LOG2_32.
      assert (Z.lor u v <> 0) by (rewrite Z.lor_eq_0_iff; tauto).
      destruct (Z.eqb_spec (Z.lor u v) 0), (Z.eqb_spec u 0), (Z.eqb_spec v 0);
        try contradiction.
      apply Z.log2_lor; assumption.
Qed.

Lemma uint32_nonneg (v : Z) : 0 <= uint32 v.
Proof. unfold uint32. apply Z.mod_pos_bound. lia. Qed.

Lemma nca_mask (c m : Z) :
  0 <= m <= 30 ->
  Z.land c (Z.lnot (int32 (Z.shiftl 1 m) - 1)) = clear_bits_below m c.
Proof.
  intros Hm. rewrite Z.shiftl_1_l.
  assert (0 < 2 ^ m <= 2 ^ 30) by (split; [apply pow2_pos | apply pow2_le_mono]; lia).
  rewrite int32_small by (change (2 ^ 31) with (2 * 2 ^ 30); lia).
  unfold clear_bits_below. rewrite Z.ldiff_land, Z.ones_equiv, Z.sub_1_r. reflexivity.
Qed.

(** What the closed-form algorithm computes, for quadrants of one tree. *)
Lemma nca_spec (q1 q2 r : p4est_quadrant_t) :
  p4est_quadrant_is_extended q1 = true ->
  p4est_quadrant_is_extended q2 = true ->
  same_tree q1 q2 ->
  exists res lev,
    p4est_nearest_common_ancestor q1 q2 r = Done res /\
    nca_level q1 q2 lev /\
    level res = lev /\
    z res = (if P4_TO_P8 then clear_bits_below (P4EST_MAXLEVEL - lev) (z q1) else z r) /\
    x res = clear_bits_below (P4EST_MAXLEVEL - lev) (x q1) /\
    y res = clear_bits_below (P4EST_MAXLEVEL - lev) (y q1).
Proof.
  intros H1 H2 Htree. pose proof MAXLEVEL_le_30 as HM.
  pose proof (extended_level q1 H1) as L1. pose proof (extended_level q2 H2) as L2.
  unfold p4est_nearest_common_ancestor.
  rewrite (P4EST_ASSERT_holds _ H1), (P4EST_ASSERT_holds _ H2). cbn [bind].
  (* the highest differing bit over all axes *)
  set (h := SC_LOG2_32
              (if P4_TO_P8
               then Z.lor (Z.lor (uint32 (Z.lxor (x q1) (x q2)))
                                 (uint32 (Z.lxor (y q1) (y q2))))
                          (uint32 (Z.lxor (z q1) (z q2)))
               else Z.lor (uint32 (Z.lxor (x q1) (x q2)))
                          (uint32 (Z.lxor (y q1) (y q2))))).
  assert (Hh : forall a, In a axes ->
             highest_differing_bit (coord a q1) (coord a q2) <= h).
  { subst h. unfold axes. destruct P4_TO_P8; cbn [In]; intros a Ha;
      rewrite ?SC_LOG2_32_lor, ?SC_LOG2_32_lxor
        by (try apply Z.lor_nonneg; auto using uint32_nonneg);
      repeat destruct Ha as [<-|Ha]; try contradiction; cbn [coord axis_select]; lia. }
  assert (Hsome : 0 <= h ->
             exists a, In a axes /\
                       highest_differing_bit (coord a q1) (coord a q2) = h).
  { subst h. unfold axes. destruct P4_TO_P8; cbn [In]; intros H0;
      rewrite ?SC_LOG2_32_lor, ?SC_LOG2_32_lxor in *
        by (try apply Z.lor_nonneg; auto using uint32_nonneg).
    - destruct (Z.max_spec (Z.max (highest_differing_bit (x q1) (x q2))
                              (highest_differing_bit (y q1) (y q2)))
                  (highest_differing_bit (z q1) (z q2))) as [[_ E]|[_ E]].
      + exists AZ. cbn [coord axis_select]. auto.
      + destruct (Z.max_spec (highest_differing_bit (x q1) (x q2))
                    (highest_differing_bit (y q1) (y q2))) as [[_ E']|[_ E']].
        * exists AY. cbn [coord axis_select]. split; [auto | congruence].
        * exists AX. cbn [coord axis_select]. split; [auto | congruence].
    - destruct (Z.max_spec (highest_differing_bit (x q1) (x q2))
                  (highest_differing_bit (y q1) (y q2))) as [[_ E']|[_ E']].
      * exists AY. cbn [coord axis_select]. split; [auto | congruence].
      * exists AX. cbn [coord axis_select]. split; [auto | congruence]. }
  assert (Hlow : -1 <= h) by apply SC_LOG2_32_lower.
  clearbody h.
  assert (HhM : h < P4EST_MAXLEVEL).
  { destruct (Z.lt_ge_cases h P4EST_MAXLEVEL) as [?|Hge]; [assumption|].
    exfalso. destruct (Hsome ltac:(lia)) as (a & Ha & Eh).
    destruct (highest_differing_bit_spec (coord a q1) (coord a q2)) as (_ & _ & Sd).
    apply Sd; [lia|]. apply (same_tree_agree q1 q2 Htree a Ha). lia. }
  assert (Hagree : forall a, In a axes ->
             agree_from (h + 1) (coord a q1) (coord a q2)).
  { intros a Ha i Hi.
    destruct (Z.lt_ge_cases i P4EST_MAXLEVEL) as [Hlt|Hge].
    - destruct (highest_differing_bit_spec (coord a q1) (coord a q2)) as (_ & Sa & _).
      apply Sa. pose proof (Hh a Ha). lia.
    - apply (same_tree_agree q1 q2 Htree a Ha). lia. }
  assert (Hdiffer : 0 <= h ->
             ~ forall a, In a axes -> agree_from h (coord a q1) (coord a q2)).
  { intros H0 Hag. destruct (Hsome H0) as (a & Ha & Eh).
    destruct (highest_differing_bit_spec (coord a q1) (coord a q2)) as (_ & _ & Sd).
    apply Sd; [lia|]. rewrite Eh. apply (Hag a Ha). lia. }
  rewrite (P4EST_ASSERT_holds (h + 1 <=? P4EST_MAXLEVEL)) by (apply Z.leb_le; lia).
  cbn [bind].
  set (l0 := Z.min (level q1) (level q2)).
  set (lev := Z.min (P4EST_MAXLEVEL - (h + 1)) l0).
  assert (Hlev : 0 <= lev <= l0) by (subst lev l0; lia).
  rewrite (int8_small lev) by (subst lev l0; lia).
  rewrite !nca_mask by lia.
  (* the bits between the two masks are clear *)
  assert (Hc : forall a, In a axes ->
            clear_bits_below (h + 1) (coord a q1) =
            clear_bits_below (P4EST_MAXLEVEL - lev) (coord a q1)).
  { intros a Ha. apply Z.bits_inj'. intros j Hj.
    rewrite !clear_bits_below_bit by lia.
    destruct (Z.leb_spec (h + 1) j) as [Hhj|Hhj],
      (Z.leb_spec (P4EST_MAXLEVEL - lev) j) as [Hlj|Hlj];
      try reflexivity; [|subst lev; lia].
    cbn [andb].
    destruct (extended_coord q1 a H1 Ha) as [A1 _].
    destruct (extended_coord q2 a H2 Ha) as [A2 _].
    destruct (Z.lt_ge_cases j (P4EST_MAXLEVEL - level q1)) as [Hj1|Hj1].
    - apply (proj1 (aligned_bits _ (P4EST_MAXLEVEL - level q1) ltac:(lia)) A1). lia.
    - rewrite (Hagree a Ha j) by lia.
      apply (proj1 (aligned_bits _ (P4EST_MAXLEVEL - level q2) ltac:(lia)) A2).
      subst lev l0. lia. }
  match goal with |- context [P4EST_ASSERT (p4est_quadrant_is_extended ?t)] =>
    set (res := t) end.
  assert (Hres : level res = lev /\
                 z res = (if P4_TO_P8
                          then clear_bits_below (P4EST_MAXLEVEL - lev) (z q1)
                          else z r) /\
                 x res = clear_bits_below (P4EST_MAXLEVEL - lev) (x q1) /\
                 y res = clear_bits_below (P4EST_MAXLEVEL - lev) (y q1)).
  { pose proof (Hc AX) as Cx. pose proof (Hc AY) as Cy. pose proof (Hc AZ) as Cz.
    subst res. revert Cx Cy Cz. unfold axes.
    destruct P4_TO_P8; cbn [In coord axis_select level x y z set_x set_y set_z set_level];
      intros Cx Cy Cz; rewrite ?Cx, ?Cy, ?Cz by auto; auto. }
  destruct Hres as (Rl & Rz & Rx & Ry).
  assert (Hext : p4est_quadrant_is_extended res = true).
  { apply is_extended_of_coords; rewrite Rl; [unfold P4EST_QMAXLEVEL; subst l0; lia|].
    intros a Ha.
    assert (Hca : coord a res = clear_bits_below (P4EST_MAXLEVEL - lev) (coord a q1)).
    { revert Ha Rz. unfold axes. destruct P4_TO_P8; cbn [In]; intros Ha Rz;
        repeat destruct Ha as [<-|Ha]; try contradiction; cbn [coord axis_select]; auto. }
    rewrite Hca.
    apply clear_bits_below_extended;
      [unfold P4EST_QMAXLEVEL; subst l0; lia | reflexivity|].
    apply (extended_coord q1 a H1 Ha). }
  rewrite (P4EST_ASSERT_holds _ Hext). cbn [bind].
  exists res, lev. split; [reflexivity|]. split; [|auto].
  split; [fold l0; lia|]. split.
  - intros a Ha i Hi. apply (Hagree a Ha). subst lev. lia.
  - fold l0. intros Hlt.
    replace (P4EST_MAXLEVEL - lev - 1) with h by (subst lev; lia).
    apply Hdiffer. subst lev l0. lia.
Qed.

(** C4: for extended quadrants of one tree the closed-form and the
    iterative nearest common ancestor return the same quadrant (the
    iterative one being given enough iterations for its loops). *)
Theorem nearest_common_ancestor_agree (fuel : nat) (q1 q2 r : p4est_quadrant_t) :
  p4est_quadrant_is_extended q1 = true ->
  p4est_quadrant_is_extended q2 = true ->
  same_tree q1 q2 ->
  P4EST_MAXLEVEL <= Z.of_nat fuel ->
  exists res,
    p4est_nearest_common_ancestor q1 q2 r = Done res /\
    p4est_nearest_common_ancestor_D fuel q1 q2 r = Done res.
Proof.
  intros H1 H2 Htree Hf.
  destruct (nca_spec q1 q2 r H1 H2 Htree) as (res & lev & E & Hn & Rl & Rz & Rx & Ry).
  destruct (nca_D_spec fuel q1 q2 r H1 H2 Htree Hf)
    as (res' & lev' & E' & Hn' & Rl' & Rz' & Rx' & Ry').
  pose proof (nca_level_unique q1 q2 lev lev' Hn Hn') as <-.
  exists res. split; [exact E|]. rewrite E'. f_equal.
  apply quadrant_eq; congruence.
Qed.

(** ** The sibling test against its reference (2D) *)

Lemma masked_lxor_zero (a b m : Z) :
  (Z.land (Z.lxor a b) m =? 0) = (Z.land a m =? Z.land b m).
Proof.
  assert (Hx : Z.land (Z.lxor a b) m = Z.lxor (Z.land a m) (Z.land b m)).
  { apply Z.bits_inj'. intros i _.
    rewrite Z.land_spec, !Z.lxor_spec, !Z.land_spec.
    destruct (Z.testbit a i), (Z.testbit b i), (Z.testbit m i); reflexivity. }
  rewrite Hx.
  destruct (Z.eqb_spec (Z.land a m) (Z.land b m)) as [E|E].
  - apply Z.eqb_eq, Z.lxor_eq_0_iff, E.
  - apply Z.eqb_neq. rewrite Z.lxor_eq_0_iff. exact E.
Qed.

Lemma lxor_zero_eqb (a b : Z) : (Z.lxor a b =? 0) = (a =? b).
Proof.
  destruct (Z.eqb_spec a b) as [E|E].
  - apply Z.eqb_eq, Z.lxor_eq_0_iff, E.
  - apply Z.eqb_neq. rewrite Z.lxor_eq_0_iff. exact E.
Qed.

Lemma parent_release (q r : p4est_quadrant_t) :
  P4EST_DEBUG = false -> p4est_quadrant_parent q r = Done (parent_result q r).
Proof.
  intros Hg. unfold p4est_quadrant_parent, P4EST_ASSERT. rewrite Hg. reflexivity.
Qed.

Lemma is_equal_release (q1 q2 : p4est_quadrant_t) :
  P4EST_DEBUG = false ->
  p4est_quadrant_is_equal q1 q2 =
  Done (((level q1 =? level q2) && (x q1 =? x q2) && (y q1 =? y q2))
        && (if P4_TO_P8 then z q1 =? z q2 else true)).
Proof.
  intros Hg. unfold p4est_quadrant_is_equal, P4EST_ASSERT. rewrite Hg. reflexivity.
Qed.

Lemma is_equal_comparable (q1 q2 : p4est_quadrant_t) :
  comparable q1 = true -> comparable q2 = true ->
  p4est_quadrant_is_equal q1 q2 =
  Done (((level q1 =? level q2) && (x q1 =? x q2) && (y q1 =? y q2))
        && (if P4_TO_P8 then z q1 =? z q2 else true)).
Proof.
  unfold comparable. intros H1 H2. unfold p4est_quadrant_is_equal.
  rewrite (P4EST_ASSERT_holds _ H1), (P4EST_ASSERT_holds _ H2). reflexivity.
Qed.

(** In the 2D build the bit-mask sibling test returns what the reference
    predicate returns, wherever the reference predicate returns: in a
    debug build the latter takes the parent of [q2] and so needs
    [q2.level > 0] once [q1.level > 0]. *)
Theorem is_sibling_agrees_with_reference_2d (q1 q2 : p4est_quadrant_t) :
  P4_TO_P8 = false ->
  p4est_quadrant_is_extended q1 = true ->
  p4est_quadrant_is_extended q2 = true ->
  (P4EST_DEBUG = true -> 0 < level q1 -> 0 < level q2) ->
  exists b,
    p4est_quadrant_is_sibling q1 q2 = Done b /\
    p4est_quadrant_is_sibling_D q1 q2 = Done b.
Proof.
  intros Hd He1 He2 Hdbg.
  pose proof (extended_level q1 He1) as Hl1.
  pose proof (extended_level q2 He2) as Hl2.
  pose proof MAXLEVEL_le_30 as HM.
  unfold p4est_quadrant_is_sibling, p4est_quadrant_is_sibling_D.
  rewrite (P4EST_ASSERT_holds _ He1), (P4EST_ASSERT_holds _ He2). cbn [bind].
  destruct (Z.eqb_spec (level q1) 0) as [E0|N0].
  { exists false. split; reflexivity. }
  rewrite Hd. unfold P4_To_P8.
  rewrite !masked_lxor_zero, !lxor_zero_eqb, !andb_true_r.
  assert (Hp : exists p1 p2,
    p4est_quadrant_parent q1 local_quadrant = Done p1 /\
    p4est_quadrant_parent q2 local_quadrant = Done p2 /\
    p4est_quadrant_is_equal p1 p2 =
    Done ((level q1 =? level q2) &&
          (Z.land (x q1) (Z.lnot (P4EST_QUADRANT_LEN (level q1))) =?
           Z.land (x q2) (Z.lnot (P4EST_QUADRANT_LEN (level q2)))) &&
          (Z.land (y q1) (Z.lnot (P4EST_QUADRANT_LEN (level q1))) =?
           Z.land (y q2) (Z.lnot (P4EST_QUADRANT_LEN (level q2)))))).
  { exists (parent_result q1 local_quadrant), (parent_result q2 local_quadrant).
    assert (Hv : Done (A := bool)
      (((level (parent_result q1 local_quadrant) =?
         level (parent_result q2 local_quadrant)) &&
        (x (parent_result q1 local_quadrant) =? x (parent_result q2 local_quadrant)) &&
        (y (parent_result q1 local_quadrant) =? y (parent_result q2 local_quadrant)))
       && (if P4_TO_P8
           then z (parent_result q1 local_quadrant) =? z (parent_result q2 local_quadrant)
           else true)) =
      Done ((level q1 =? level q2) &&
          (Z.land (x q1) (Z.lnot (P4EST_QUADRANT_LEN (level q1))) =?
           Z.land (x q2) (Z.lnot (P4EST_QUADRANT_LEN (level q2)))) &&
          (Z.land (y q1) (Z.lnot (P4EST_QUADRANT_LEN (level q1))) =?
           Z.land (y q2) (Z.lnot (P4EST_QUADRANT_LEN (level q2)))))).
    { unfold parent_result. rewrite Hd.
      cbn [x y z level set_x set_y set_z set_level].
      rewrite !int8_small by lia. rewrite andb_true_r.
      replace (level q1 - 1 =? level q2 - 1) with (level q1 =? level q2); [reflexivity|].
      destruct (Z.eqb_spec (level q1) (level q2)); symmetry;
        [apply Z.eqb_eq | apply Z.eqb_neq]; lia. }
    destruct P4EST_DEBUG eqn:Hg.
    - specialize (Hdbg eq_refl ltac:(lia)).
      destruct (parent_done q1 local_quadrant He1 ltac:(lia)) as [P1 X1].
      destruct (parent_done q2 local_quadrant He2 Hdbg) as [P2 X2].
      split; [exact P1|]. split; [exact P2|].
      rewrite is_equal_comparable by (apply is_extended_comparable; assumption).
      exact Hv.
    - split; [apply parent_release; exact Hg|].
      split; [apply parent_release; exact Hg|].
      rewrite is_equal_release by exact Hg. exact Hv. }
  destruct Hp as (p1 & p2 & P1 & P2 & Pe).
  rewrite (is_equal_comparable q1 q2) by (apply is_extended_comparable; assumption).
  rewrite Hd, andb_true_r. cbn [bind].
  destruct (Z.eqb_spec (level q1) (level q2)) as [El|Nl].
  - rewrite <- El in *. cbn [andb].
    destruct ((x q1 =? x q2) && (y q1 =? y q2)).
    + exists false. split; reflexivity.
    + rewrite P1, P2. cbn [bind]. rewrite Pe. eexists. split; reflexivity.
  - cbn [andb]. rewrite P1, P2. cbn [bind]. rewrite Pe. cbn [andb].
    exists false. split; [|reflexivity].
    destruct ((x q1 =? x q2) && (y q1 =? y q2)); reflexivity.
Qed.

(** ** The comparison as a total order *)

(** The Morton index over the whole coordinate window decides the
    comparison; the level breaks ties. *)
Lemma key_eq_same_position (q r : p4est_quadrant_t) :
  comparable q = true -> comparable r = true ->
  linear_id_result q P4EST_MAXLEVEL = linear_id_result r P4EST_MAXLEVEL ->
  same_position q r.
Proof.
  intros Hq Hr He a Ha. pose proof MAXLEVEL_le_30 as HM.
  pose proof (comparable_coord_range q a Hq Ha) as Rq.
  pose proof (comparable_coord_range r a Hr Ha) as Rr.
  assert (Hw : forall j, 0 <= j < P4EST_MAXLEVEL + 2 ->
                         Z.testbit (coord a q) j = Z.testbit (coord a r) j).
  { intros j Hj.
    assert (E : Z.testbit (linear_id_result q P4EST_MAXLEVEL)
                  (P4EST_DIM * j + axis_rank a) =
                Z.testbit (linear_id_result r P4EST_MAXLEVEL)
                  (P4EST_DIM * j + axis_rank a))
      by (rewrite He; reflexivity).
    rewrite !linear_id_result_bit in E by (auto; lia).
    replace (j + (P4EST_MAXLEVEL - P4EST_MAXLEVEL)) with j in E by ring.
    destruct (Z.ltb_spec j (P4EST_MAXLEVEL + 2)); [exact E | lia]. }
  apply Z.bits_inj'. intros j Hj.
  destruct (Z.lt_ge_cases j (P4EST_MAXLEVEL + 2)) as [Hin|Hout].
  - apply Hw. lia.
  - rewrite (window_sign_bits _ j Rq), (window_sign_bits _ j Rr) by lia.
    apply Hw. lia.
Qed.

Lemma compare_by_key (q r : p4est_quadrant_t) :
  comparable q = true -> comparable r = true ->
  p4est_quadrant_compare q r =
  Done (if linear_id_result q P4EST_MAXLEVEL <? linear_id_result r P4EST_MAXLEVEL
        then -1
        else if linear_id_result r P4EST_MAXLEVEL <? linear_id_result q P4EST_MAXLEVEL
        then 1
        else level q - level r).
Proof.
  intros Hq Hr. pose proof MAXLEVEL_le_30 as HM.
  destruct (Z.ltb_spec (linear_id_result q P4EST_MAXLEVEL)
                       (linear_id_result r P4EST_MAXLEVEL)) as [Hlt|Hge].
  - apply linear_id_lt_compare with (L := P4EST_MAXLEVEL); auto. lia.
  - destruct (Z.ltb_spec (linear_id_result r P4EST_MAXLEVEL)
                         (linear_id_result q P4EST_MAXLEVEL)) as [Hgt|Hle].
    + change 1 with (- (-1)). apply compare_antisym; auto.
      apply linear_id_lt_compare with (L := P4EST_MAXLEVEL); auto. lia.
    + apply compare_same_position; auto.
      apply key_eq_same_position; auto. lia.
Qed.

(** [p4est_quadrant_compare] is a total order on clamped nodes and
    extended quadrants: it is reflexive, antisymmetric in the sense of a
    three-way comparison, and transitive, strictly so when one of the
    two steps is strict. *)
Theorem compare_total_order :
  (forall q, comparable q = true -> p4est_quadrant_compare q q = Done 0) /\
  (forall q1 q2,
      comparable q1 = true -> comparable q2 = true ->
      exists c, p4est_quadrant_compare q1 q2 = Done c /\
                p4est_quadrant_compare q2 q1 = Done (- c)) /\
  (forall q1 q2 q3,
      comparable q1 = true -> comparable q2 = true -> comparable q3 = true ->
      exists c12 c23 c13,
        p4est_quadrant_compare q1 q2 = Done c12 /\
        p4est_quadrant_compare q2 q3 = Done c23 /\
        p4est_quadrant_compare q1 q3 = Done c13 /\
        (c12 <= 0 -> c23 <= 0 -> c13 <= 0) /\
        (c12 <= 0 -> c23 <= 0 -> c12 < 0 \/ c23 < 0 -> c13 < 0)).
Proof.
  split; [|split].
  - intros q Hq. rewrite (compare_by_key q q Hq Hq).
    rewrite Z.ltb_irrefl. f_equal. ring.
  - intros q1 q2 H1 H2.
    rewrite (compare_by_key q1 q2 H1 H2). eexists. split; [reflexivity|].
    apply compare_antisym; auto. apply compare_by_key; auto.
  - intros q1 q2 q3 H1 H2 H3.
    rewrite (compare_by_key q1 q2 H1 H2), (compare_by_key q2 q3 H2 H3),
      (compare_by_key q1 q3 H1 H3).
    do 3 eexists. split; [reflexivity|]. split; [reflexivity|]. split; [reflexivity|].
    generalize (linear_id_result q1 P4EST_MAXLEVEL), (linear_id_result q2 P4EST_MAXLEVEL),
      (linear_id_result q3 P4EST_MAXLEVEL).
    intros k1 k2 k3.
    destruct (Z.ltb_spec k1 k2), (Z.ltb_spec k2 k1), (Z.ltb_spec k2 k3),
      (Z.ltb_spec k3 k2), (Z.ltb_spec k1 k3), (Z.ltb_spec k3 k1); lia.
Qed.

(** [p4est_quadrant_compare] returns 0 exactly on the pairs that
    [p4est_quadrant_is_equal] accepts, and on extended quadrants exactly
    on those that the hash-table equality [p4est_quadrant_equal_fn]
    accepts. *)
Theorem compare_zero_iff_equal (q1 q2 : p4est_quadrant_t) :
  comparable q1 = true -> comparable q2 = true ->
  exists c e,
    p4est_quadrant_compare q1 q2 = Done c /\
    p4est_quadrant_is_equal q1 q2 = Done e /\
    (c = 0 <-> e = true) /\
    (p4est_quadrant_is_extended q1 = true ->
     p4est_quadrant_is_extended q2 = true ->
     p4est_quadrant_equal_fn q1 q2 = Done e).
Proof.
  intros H1 H2. pose proof MAXLEVEL_le_30 as HM.
  destruct (is_equal_value q1 q2 H1 H2) as (e & He & Hev).
  rewrite (compare_by_key q1 q2 H1 H2).
  eexists. exists e. split; [reflexivity|]. split; [exact He|]. split.
  - rewrite Hev. split.
    + intros Hc.
      destruct (Z.ltb_spec (linear_id_result q1 P4EST_MAXLEVEL)
                           (linear_id_result q2 P4EST_MAXLEVEL)); [discriminate|].
      destruct (Z.ltb_spec (linear_id_result q2 P4EST_MAXLEVEL)
                           (linear_id_result q1 P4EST_MAXLEVEL)); [discriminate|].
      split; [lia|]. apply key_eq_same_position; auto. lia.
    + intros [Hl Hs].
      rewrite (linear_id_result_ext q2 q1 P4EST_MAXLEVEL) by
        (try lia; intros a Ha j _; rewrite (Hs a Ha); reflexivity).
      rewrite Z.ltb_irrefl. lia.
  - intros E1 E2. rewrite (is_equal_comparable q1 q2 H1 H2) in He.
    unfold p4est_quadrant_equal_fn.
    rewrite (P4EST_ASSERT_holds _ E1), (P4EST_ASSERT_holds _ E2). exact He.
Qed.

(** ** The parent test against its reference *)

Lemma parent_result_record (q r : p4est_quadrant_t) :
  p4est_quadrant_is_extended q = true ->
  parent_result q r =
  mkquad (Z.land (x q) (Z.lnot (P4EST_QUADRANT_LEN (level q))))
         (Z.land (y q) (Z.lnot (P4EST_QUADRANT_LEN (level q))))
         (if P4_TO_P8 then Z.land (z q) (Z.lnot (P4EST_QUADRANT_LEN (level q))) else z r)
         (level q - 1).
Proof.
  intros He. pose proof (extended_level q He) as Hl. pose proof MAXLEVEL_le_30 as HM.
  unfold parent_result. rewrite (int8_small (level q - 1)) by lia.
  destruct P4_TO_P8; reflexivity.
Qed.

(** The bit-mask parent test [p4est_quadrant_is_parent] and the
    reference [p4est_quadrant_is_parent_D], which takes the parent of [r]
    and compares, return the same boolean on all extended quadrants, in
    2D and 3D, with or without assertions. *)
Theorem is_parent_agrees_with_reference (q r : p4est_quadrant_t) :
  p4est_quadrant_is_extended q = true ->
  p4est_quadrant_is_extended r = true ->
  exists b,
    p4est_quadrant_is_parent q r = Done b /\
    p4est_quadrant_is_parent_D q r = Done b.
Proof.
  intros Hq Hr.
  pose proof (extended_level q Hq) as Hlq.
  pose proof (extended_level r Hr) as Hlr.
  unfold p4est_quadrant_is_parent, p4est_quadrant_is_parent_D.
  rewrite (P4EST_ASSERT_holds _ Hq), (P4EST_ASSERT_holds _ Hr). cbn [bind].
  destruct (Z.eqb_spec (level r) 0) as [E0|N0].
  - exists false. split; [|reflexivity].
    replace (level q + 1 =? level r) with false; [reflexivity|].
    symmetry. apply Z.eqb_neq. lia.
  - destruct (parent_done r local_quadrant Hr ltac:(lia)) as [Hp Hpe].
    rewrite Hp. cbn [bind].
    rewrite (is_equal_comparable q _ (is_extended_comparable q Hq)
               (is_extended_comparable _ Hpe)).
    rewrite (parent_result_record r local_quadrant Hr).
    cbn [x y z level].
    eexists. split; [reflexivity|]. f_equal.
    replace (level q + 1 =? level r) with (level q =? level r - 1).
    2:{ destruct (Z.eqb_spec (level q) (level r - 1)); symmetry;
          [apply Z.eqb_eq | apply Z.eqb_neq]; lia. }
    destruct P4_TO_P8; rewrite ?andb_true_r; reflexivity.
Qed.

(** ** The ancestor test against its reference *)

Lemma is_ancestor_value (q r : p4est_quadrant_t) :
  p4est_quadrant_is_extended q = true ->
  p4est_quadrant_is_extended r = true ->
  exists b,
    p4est_quadrant_is_ancestor q r = Done b /\
    (b = true <->
     level q < level r /\
     forall a, In a axes ->
               agree_from (P4EST_MAXLEVEL - level q) (coord a q) (coord a r)).
Proof.
  intros Hq Hr. unfold p4est_quadrant_is_ancestor.
  rewrite (P4EST_ASSERT_holds _ Hq), (P4EST_ASSERT_holds _ Hr). cbn [bind].
  pose proof (extended_level q Hq) as Hl.
  destruct (Z.geb_spec (level q) (level r)) as [Hge|Hlt].
  - exists false. split; [reflexivity|]. split; [discriminate | lia].
  - eexists. split; [reflexivity|].
    assert (Hk : 0 <= P4EST_MAXLEVEL - level q) by lia.
    pose proof (shiftr_lxor_zero (x q) (x r) _ Hk) as Sx.
    pose proof (shiftr_lxor_zero (y q) (y r) _ Hk) as Sy.
    pose proof (shiftr_lxor_zero (z q) (z r) _ Hk) as Sz.
    destruct P4_TO_P8 eqn:Hd.
    + rewrite (in_axes_3d _ Hd). cbn [coord axis_select].
      rewrite !andb_true_iff, !Z.eqb_eq, Sx, Sy, Sz. tauto.
    + rewrite (in_axes_2d _ Hd). cbn [coord axis_select].
      rewrite !andb_true_iff, !Z.eqb_eq, Sx, Sy. tauto.
Qed.

Lemma coords_of_fields (q s : p4est_quadrant_t) (f : Z -> Z) :
  x s = f (x q) -> y s = f (y q) -> (P4_TO_P8 = true -> z s = f (z q)) ->
  forall a, In a axes -> coord a s = f (coord a q).
Proof.
  intros Hx Hy Hz a. unfold axes. destruct P4_TO_P8; cbn [In]; intros Ha;
    repeat destruct Ha as [<-|Ha]; try contradiction; cbn [coord axis_select]; auto.
Qed.

(** [p4est_quadrant_is_ancestor] and the reference
    [p4est_quadrant_is_ancestor_D], which compares [q] with the nearest
    common ancestor found by climbing, return the same boolean on
    extended quadrants of one tree, once the loops of the reference have
    iterations enough for the deepest level. *)
Theorem is_ancestor_agrees_with_reference (fuel : nat) (q r : p4est_quadrant_t) :
  p4est_quadrant_is_extended q = true ->
  p4est_quadrant_is_extended r = true ->
  same_tree q r ->
  P4EST_MAXLEVEL <= Z.of_nat fuel ->
  exists b,
    p4est_quadrant_is_ancestor q r = Done b /\
    p4est_quadrant_is_ancestor_D fuel q r = Done b.
Proof.
  intros Hq Hr Htree Hf.
  pose proof (extended_level q Hq) as Hlq.
  pose proof (extended_level r Hr) as Hlr.
  destruct (is_ancestor_value q r Hq Hr) as (b & Hb & Hbv).
  exists b. split; [exact Hb|].
  unfold p4est_quadrant_is_ancestor_D.
  destruct (is_equal_value q r (is_extended_comparable q Hq) (is_extended_comparable r Hr))
    as (e & He & Hev).
  rewrite He. cbn [bind].
  destruct e.
  - destruct (proj1 Hev eq_refl) as [El _].
    destruct b; [|reflexivity]. destruct (proj1 Hbv eq_refl). lia.
  - destruct (nca_D_spec fuel q r local_quadrant Hq Hr Htree Hf)
      as (s & lev & Es & Hnca & Sl & Sz & Sx & Sy).
    rewrite Es. cbn [bind].
    assert (Hsc : forall a, In a axes ->
              coord a s = clear_bits_below (P4EST_MAXLEVEL - lev) (coord a q)).
    { apply coords_of_fields; auto. intros Hd. rewrite Sz, Hd. reflexivity. }
    pose proof Hnca as (Hlev & Hag & Hmax).
    assert (Hse : p4est_quadrant_is_extended s = true).
    { apply is_extended_of_coords; rewrite Sl; [unfold P4EST_QMAXLEVEL; lia|].
      intros a Ha. rewrite (Hsc a Ha).
      apply clear_bits_below_extended; [unfold P4EST_QMAXLEVEL; lia | reflexivity|].
      apply (extended_coord q a Hq Ha). }
    destruct (is_equal_value q s (is_extended_comparable q Hq) (is_extended_comparable s Hse))
      as (e' & He' & Hev').
    rewrite He'. f_equal.
    destruct b, e'; try reflexivity; exfalso.
    + (* ancestor by bits, yet the climb ends elsewhere *)
      destruct (proj1 Hbv eq_refl) as [Hlt Hbits].
      assert (Hq_nca : nca_level q r (level q)).
      { split; [lia|]. split; [exact Hbits|]. lia. }
      pose proof (nca_level_unique q r _ _ Hnca Hq_nca) as Elev.
      assert (Hs' : level q = level s /\ same_position q s).
      { split; [lia|]. intros a Ha. rewrite (Hsc a Ha), Elev.
        symmetry. apply clear_bits_below_aligned; [lia|].
        apply (extended_coord q a Hq Ha). }
      apply Hev' in Hs'. discriminate.
    + destruct (proj1 Hev' eq_refl) as [El Hs].
      assert (Hlt : level q < level r).
      { destruct (Z.eq_dec (level q) (level r)) as [Eqr|]; [|lia]. exfalso.
        assert (Hqr : level q = level r /\ same_position q r).
        { split; [exact Eqr|]. intros a Ha.
          apply (aligned_agree_eq (level q)); [lia | | |].
          - apply (extended_coord q a Hq Ha).
          - rewrite Eqr. apply (extended_coord r a Hr Ha).
          - rewrite El, Sl. apply Hag; auto. }
        apply Hev in Hqr. discriminate. }
      assert (Hb' : false = true); [|discriminate].
      apply Hbv. split; [exact Hlt|]. intros a Ha. rewrite El, Sl. apply Hag; auto.
Qed.

(** ** Siblings by child identifier *)

Lemma set_bit_testbit (c k j : Z) :
  0 <= k -> 0 <= j ->
  Z.testbit (Z.lor c (2 ^ k)) j = Z.testbit c j || (j =? k).
Proof.
  intros Hk Hj. rewrite Z.lor_spec, Z.pow2_bits_eqb by lia.
  rewrite (Z.eqb_sym k j). reflexivity.
Qed.

Lemma small_id_cases (id : Z) :
  0 <= id < 8 ->
  id = 0 \/ id = 1 \/ id = 2 \/ id = 3 \/ id = 4 \/ id = 5 \/ id = 6 \/ id = 7.
Proof. lia. Qed.

Lemma id_bit_tests (id : Z) :
  0 <= id < 8 ->
  (Z.land id 1 =? 0) = negb (Z.testbit id 0) /\
  (Z.shiftr (Z.land id 2) 1 =? 0) = negb (Z.testbit id 1) /\
  (Z.shiftr (Z.land id 4) 2 =? 0) = negb (Z.testbit id 2).
Proof.
  intros H. destruct (small_id_cases id H) as [E|[E|[E|[E|[E|[E|[E|E]]]]]]];
    subst id; repeat split; reflexivity.
Qed.

Lemma id_rebuild_2d (id : Z) :
  0 <= id < 4 ->
  Z.lor (Z.lor 0 (if negb (Z.testbit id 0) then 0 else 1))
        (if negb (Z.testbit id 1) then 0 else 2) = id.
Proof.
  intros H. assert (E : id = 0 \/ id = 1 \/ id = 2 \/ id = 3) by lia.
  destruct E as [E|[E|[E|E]]]; subst id; reflexivity.
Qed.

Lemma id_rebuild_3d (id : Z) :
  0 <= id < 8 ->
  Z.lor (Z.lor (Z.lor 0 (if negb (Z.testbit id 0) then 0 else 1))
               (if negb (Z.testbit id 1) then 0 else 2))
        (if negb (Z.testbit id 2) then 0 else 4) = id.
Proof.
  intros H. destruct (small_id_cases id H) as [E|[E|[E|[E|[E|[E|[E|E]]]]]]];
    subst id; reflexivity.
Qed.

(** One coordinate of a sibling: the bit of the level set or cleared. *)
Lemma sibling_coord (l c : Z) (b : bool) :
  0 < l <= P4EST_QMAXLEVEL -> coord_extended l c ->
  let c' := if b then Z.lor c (P4EST_QUADRANT_LEN l)
            else Z.land c (Z.lnot (P4EST_QUADRANT_LEN l)) in
  coord_extended l c' /\
  Z.land c' (Z.lnot (P4EST_QUADRANT_LEN l)) = Z.land c (Z.lnot (P4EST_QUADRANT_LEN l)) /\
  (Z.land c' (P4EST_QUADRANT_LEN l) =? 0) = negb b /\
  (Z.testbit c (P4EST_MAXLEVEL - l) = b -> c' = c).
Proof.
  intros Hl Hc. pose proof (parent_coord_extended l c Hl Hc) as Hp.
  unfold P4EST_QMAXLEVEL in Hl.
  destruct (child_coord_extended (l - 1) _ ltac:(unfold P4EST_QMAXLEVEL; lia) Hp)
    as (C0 & C1 & Clor & Cland).
  replace (l - 1 + 1) with l in * by ring.
  rewrite QUADRANT_LEN_pow in *.
  set (k := P4EST_MAXLEVEL - l) in *. assert (Hk : 0 <= k) by (subst k; lia).
  assert (Hlor : Z.lor c (2 ^ k) = Z.land c (Z.lnot (2 ^ k)) + 2 ^ k).
  { rewrite <- Clor. apply Z.bits_inj'. intros j Hj.
    rewrite !set_bit_testbit, clear_bit_testbit by lia.
    destruct (Z.eqb_spec j k); [rewrite !orb_true_r | rewrite andb_true_r]; reflexivity. }
  cbv zeta. destruct b.
  - split; [rewrite Hlor; exact C1|]. split; [|split].
    + apply Z.bits_inj'. intros j Hj.
      rewrite !clear_bit_testbit, set_bit_testbit by lia.
      destruct (Z.eqb_spec j k); [rewrite !andb_false_r | rewrite orb_false_r]; reflexivity.
    + rewrite land_pow2_testbit, set_bit_testbit by lia.
      rewrite Z.eqb_refl, orb_true_r. reflexivity.
    + intros Hb. apply Z.bits_inj'. intros j Hj. rewrite set_bit_testbit by lia.
      destruct (Z.eqb_spec j k) as [->|]; [rewrite Hb | rewrite orb_false_r]; reflexivity.
  - split; [exact C0|]. split; [|split].
    + apply Z.bits_inj'. intros j Hj. rewrite !clear_bit_testbit by lia.
      destruct (Z.testbit c j), (j =? k); reflexivity.
    + rewrite land_pow2_testbit, clear_bit_testbit by lia.
      rewrite Z.eqb_refl, andb_false_r. reflexivity.
    + intros Hb. apply Z.bits_inj'. intros j Hj. rewrite clear_bit_testbit by lia.
      destruct (Z.eqb_spec j k) as [->|]; [rewrite Hb | rewrite andb_true_r]; reflexivity.
Qed.

(** What [p4est_quadrant_sibling] stores in [r]. *)
Lemma sibling_done (q r : p4est_quadrant_t) (id : Z) :
  p4est_quadrant_is_extended q = true -> 0 < level q -> 0 <= id < P4EST_CHILDREN ->
  let c' (j : Z) (c : Z) :=
    if Z.testbit id j then Z.lor c (P4EST_QUADRANT_LEN (level q))
    else Z.land c (Z.lnot (P4EST_QUADRANT_LEN (level q))) in
  let s := mkquad (c' 0 (x q)) (c' 1 (y q))
                  (if P4_TO_P8 then c' 2 (z q) else z r) (level q) in
  p4est_quadrant_sibling q r id = Done s /\
  p4est_quadrant_is_extended s = true.
Proof.
  intros He Hl Hid. cbv zeta.
  pose proof (extended_level q He) as Hlq.
  assert (Hid8 : 0 <= id < 8) by (unfold P4EST_CHILDREN in Hid; destruct P4_TO_P8; lia).
  destruct (id_bit_tests id Hid8) as (B0 & B1 & B2).
  pose proof (proj1 (is_extended_spec q) He) as (Hlv & Cx & Cy & Cz).
  assert (Hs : forall b c, coord_extended (level q) c ->
            coord_extended (level q)
              (if b : bool then Z.lor c (P4EST_QUADRANT_LEN (level q))
               else Z.land c (Z.lnot (P4EST_QUADRANT_LEN (level q))))).
  { intros b c Hc. apply (sibling_coord (level q) c b); [lia | exact Hc]. }
  match goal with |- _ /\ p4est_quadrant_is_extended ?t = true => set (s := t) end.
  assert (Hse : p4est_quadrant_is_extended s = true).
  { apply is_extended_spec. subst s. cbn [x y z level].
    split; [exact Hlv|]. split; [apply Hs, Cx|]. split; [apply Hs, Cy|].
    intros Hd. rewrite Hd. apply Hs, Cz, Hd. }
  split; [|exact Hse].
  unfold p4est_quadrant_sibling.
  rewrite (P4EST_ASSERT_holds _ He).
  rewrite (P4EST_ASSERT_holds (level q >? 0)) by (apply Z.gtb_lt; lia).
  rewrite (P4EST_ASSERT_holds ((id >=? 0) && (id <? P4EST_CHILDREN)))
    by (apply andb_true_iff; split; [apply Z.geb_le | apply Z.ltb_lt]; lia).
  cbn [bind]. rewrite B0, B1, B2.
  match goal with |- context [P4EST_ASSERT (p4est_quadrant_is_extended ?t)] =>
    replace t with s end.
  - rewrite (P4EST_ASSERT_holds _ Hse). reflexivity.
  - subst s. destruct P4_TO_P8, (Z.testbit id 0), (Z.testbit id 1), (Z.testbit id 2);
      reflexivity.
Qed.

(** [p4est_quadrant_sibling (q, r, id)] yields, for an extended [q] of
    positive level and a child identifier in range, an extended quadrant
    of the level of [q] that has child identifier [id] and the parent of
    [q]. *)
Theorem sibling_has_id_and_parent (q r : p4est_quadrant_t) (id : Z) :
  p4est_quadrant_is_extended q = true -> 0 < level q -> 0 <= id < P4EST_CHILDREN ->
  exists s,
    p4est_quadrant_sibling q r id = Done s /\
    p4est_quadrant_is_extended s = true /\
    level s = level q /\
    p4est_quadrant_child_id s = Done id /\
    exists p,
      p4est_quadrant_parent q local_quadrant = Done p /\
      p4est_quadrant_parent s local_quadrant = Done p.
Proof.
  intros He Hl Hid.
  destruct (sibling_done q r id He Hl Hid) as [Hs Hse]. cbv zeta in Hs, Hse.
  pose proof (extended_level q He) as Hlq.
  pose proof (proj1 (is_extended_spec q) He) as (Hlv & Cx & Cy & Cz).
  eexists. split; [exact Hs|]. split; [exact Hse|]. split; [reflexivity|].
  assert (HL : 0 < level q <= P4EST_QMAXLEVEL) by lia.
  destruct (sibling_coord (level q) (x q) (Z.testbit id 0) HL Cx) as (_ & Px & Ix & _).
  destruct (sibling_coord (level q) (y q) (Z.testbit id 1) HL Cy) as (_ & Py & Iy & _).
  split.
  - unfold p4est_quadrant_child_id, p4est_quadrant_ancestor_id.
    rewrite (P4EST_ASSERT_holds _ Hse). cbn [x y z level].
    rewrite (P4EST_ASSERT_holds ((0 <=? level q) && (level q <=? P4EST_MAXLEVEL)))
      by (apply andb_true_iff; split; apply Z.leb_le; lia).
    rewrite (P4EST_ASSERT_holds (level q >=? level q)) by (apply Z.geb_le; lia).
    cbn [bind].
    destruct (Z.eqb_spec (level q) 0) as [E0|_]; [lia|].
    rewrite Ix, Iy. f_equal.
    destruct P4_TO_P8 eqn:Hd.
    + destruct (sibling_coord (level q) (z q) (Z.testbit id 2) HL (Cz eq_refl))
        as (_ & _ & Iz & _).
      rewrite Iz. apply id_rebuild_3d. unfold P4EST_CHILDREN in Hid. rewrite Hd in Hid. lia.
    + apply id_rebuild_2d. unfold P4EST_CHILDREN in Hid. rewrite Hd in Hid. lia.
  - destruct (parent_done q local_quadrant He Hl) as [Pq _].
    rewrite Pq. eexists. split; [reflexivity|].
    match type of Hse with p4est_quadrant_is_extended ?t = true =>
      destruct (parent_done t local_quadrant Hse Hl) as [Ps _]; rewrite Ps end.
    f_equal. rewrite (parent_result_record q local_quadrant He).
    rewrite parent_result_record by exact Hse.
    cbn [x y z level]. rewrite Px, Py.
    destruct P4_TO_P8 eqn:Hd; [|reflexivity].
    destruct (sibling_coord (level q) (z q) (Z.testbit id 2) HL (Cz eq_refl))
      as (_ & Pz & _ & _).
    rewrite Pz. reflexivity.
Qed.

(** [p4est_quadrant_sibling] at the child identifier of [q] itself gives
    back the coordinates and the level of [q]. *)
Theorem sibling_of_own_child_id (q r : p4est_quadrant_t) :
  p4est_quadrant_is_extended q = true -> 0 < level q ->
  exists cid s,
    p4est_quadrant_child_id q = Done cid /\
    p4est_quadrant_sibling q r cid = Done s /\
    x s = x q /\ y s = y q /\ (P4_TO_P8 = true -> z s = z q) /\ level s = level q.
Proof.
  intros He Hl.
  pose proof (extended_level q He) as Hlq.
  pose proof (proj1 (is_extended_spec q) He) as (Hlv & Cx & Cy & Cz).
  assert (HL : 0 < level q <= P4EST_QMAXLEVEL) by lia.
  assert (Hk : 0 <= P4EST_MAXLEVEL - level q) by lia.
  set (bx := Z.testbit (x q) (P4EST_MAXLEVEL - level q)).
  set (by_ := Z.testbit (y q) (P4EST_MAXLEVEL - level q)).
  set (bz := Z.testbit (z q) (P4EST_MAXLEVEL - level q)).
  set (cid := Z.lor (Z.lor (Z.b2z bx) (2 * Z.b2z by_))
                    (if P4_TO_P8 then 4 * Z.b2z bz else 0)).
  assert (Hcid : p4est_quadrant_child_id q = Done cid).
  { unfold p4est_quadrant_child_id, p4est_quadrant_ancestor_id.
    rewrite (P4EST_ASSERT_holds _ He).
    rewrite (P4EST_ASSERT_holds ((0 <=? level q) && (level q <=? P4EST_MAXLEVEL)))
      by (apply andb_true_iff; split; apply Z.leb_le; lia).
    rewrite (P4EST_ASSERT_holds (level q >=? level q)) by (apply Z.geb_le; lia).
    cbn [bind].
    destruct (Z.eqb_spec (level q) 0) as [E0|_]; [lia|].
    rewrite QUADRANT_LEN_pow, !land_pow2_testbit by lia.
    fold bx by_ bz. subst cid. f_equal.
    destruct P4_TO_P8, bx, by_, bz; reflexivity. }
  assert (Hbits : 0 <= cid < P4EST_CHILDREN /\ Z.testbit cid 0 = bx /\
                  Z.testbit cid 1 = by_ /\ (P4_TO_P8 = true -> Z.testbit cid 2 = bz)).
  { subst cid. unfold P4EST_CHILDREN.
    destruct P4_TO_P8, bx, by_, bz; cbn; repeat split; try lia; try discriminate. }
  destruct Hbits as (Hr & B0 & B1 & B2).
  destruct (sibling_done q r cid He Hl Hr) as [Hs _]. cbv zeta in Hs.
  exists cid. eexists. split; [exact Hcid|]. split; [exact Hs|].
  cbn [x y z level].
  destruct (sibling_coord (level q) (x q) (Z.testbit cid 0) HL Cx) as (_ & _ & _ & Ix).
  destruct (sibling_coord (level q) (y q) (Z.testbit cid 1) HL Cy) as (_ & _ & _ & Iy).
  split; [apply Ix; rewrite B0; reflexivity|].
  split; [apply Iy; rewrite B1; reflexivity|].
  split; [|reflexivity].
  intros Hd. rewrite Hd.
  destruct (sibling_coord (level q) (z q) (Z.testbit cid 2) HL (Cz Hd)) as (_ & _ & _ & Iz).
  apply Iz. rewrite (B2 Hd). reflexivity.
Qed.

(** ** First and last descendants *)

Lemma aligned_step (c k n : Z) :
  0 <= k <= n -> c mod 2 ^ k = 0 -> c < 2 ^ n -> c + 2 ^ k <= 2 ^ n.
Proof.
  intros Hk Hc Hn. pose proof (pow2_pos k ltac:(lia)) as Hp.
  pose proof (pow2_pos (n - k) ltac:(lia)) as Hp'.
  assert (Hs : 2 ^ n = 2 ^ k * 2 ^ (n - k)).
  { rewrite <- Z.pow_add_r by lia. f_equal. lia. }
  apply Z.mod_divide in Hc; [|lia]. destruct Hc as [t Ht].
  assert (t < 2 ^ (n - k)) by nia. nia.
Qed.

Lemma aligned_add_bits (c hi lo j : Z) :
  0 <= lo <= hi -> c mod 2 ^ hi = 0 -> 0 <= j ->
  Z.testbit (c + (2 ^ hi - 2 ^ lo)) j = if j <? hi then lo <=? j else Z.testbit c j.
Proof.
  intros Hr Hc Hj.
  assert (Hd : Z.land c (2 ^ hi - 2 ^ lo) = 0).
  { apply Z.bits_inj'. intros i Hi. rewrite Z.land_spec, Z.bits_0, pow2_diff_bit by lia.
    destruct (Z.ltb_spec i hi).
    - rewrite (proj1 (aligned_bits c hi ltac:(lia)) Hc i) by lia. reflexivity.
    - rewrite andb_false_r, andb_false_r. reflexivity. }
  rewrite (Z.add_nocarry_lxor _ _ Hd), Z.lxor_spec, pow2_diff_bit by lia.
  destruct (Z.ltb_spec j hi).
  - rewrite (proj1 (aligned_bits c hi ltac:(lia)) Hc j) by lia.
    rewrite andb_true_r. apply xorb_false_l.
  - rewrite andb_false_r. apply xorb_false_r.
Qed.

(** One coordinate of the first and of the last descendant of level
    [lvl] of a quadrant of level [l]. *)
Lemma descendant_coord (l lvl c : Z) :
  0 <= l <= lvl -> lvl <= P4EST_QMAXLEVEL -> coord_extended l c ->
  let c' := c + (P4EST_QUADRANT_LEN l - P4EST_QUADRANT_LEN lvl) in
  0 <= P4EST_QUADRANT_LEN l - P4EST_QUADRANT_LEN lvl < 2 ^ P4EST_MAXLEVEL /\
  coord_extended lvl c /\ coord_extended lvl c' /\
  (coord_valid l c -> coord_valid lvl c /\ coord_valid lvl c').
Proof.
  unfold P4EST_QMAXLEVEL, coord_extended, coord_valid. intros Hl Hlvl [Hal Hr].
  rewrite !QUADRANT_LEN_pow. cbv zeta.
  set (hi := P4EST_MAXLEVEL - l) in *. set (lo := P4EST_MAXLEVEL - lvl) in *.
  assert (Hlo : 0 <= lo <= hi) by (subst lo hi; lia).
  assert (Hhi : hi <= P4EST_MAXLEVEL) by (subst hi; lia).
  pose proof (pow2_pos lo ltac:(lia)) as Plo.
  pose proof (pow2_le_mono lo hi Hlo) as Ple.
  pose proof (pow2_le_mono hi P4EST_MAXLEVEL ltac:(lia)) as Phi.
  pose proof (pow2_double P4EST_MAXLEVEL ltac:(lia)) as Pd.
  assert (Hallo : c mod 2 ^ lo = 0) by (apply (aligned_weaken c lo hi); [lia | exact Hal]).
  assert (Hal' : (c + (2 ^ hi - 2 ^ lo)) mod 2 ^ lo = 0).
  { apply aligned_bits; [lia|]. intros i Hi.
    destruct (Z.neg_nonneg_cases i) as [Hn|Hn]; [apply Z.testbit_neg_r, Hn|].
    rewrite aligned_add_bits by (auto; lia).
    destruct (Z.ltb_spec i hi); [|lia]. apply Z.leb_gt. lia. }
  split; [lia|]. split; [split; [exact Hallo | exact Hr]|].
  split.
  - split; [exact Hal'|].
    pose proof (aligned_step c hi (P4EST_MAXLEVEL + 1) ltac:(lia) Hal ltac:(lia)). lia.
  - intros [_ Hv]. split; [split; [exact Hallo | exact Hv]|].
    split; [exact Hal'|].
    pose proof (aligned_step c hi P4EST_MAXLEVEL ltac:(lia) Hal ltac:(lia)). lia.
Qed.

Lemma first_descendent_done (q r : p4est_quadrant_t) (lvl : Z) :
  p4est_quadrant_is_extended q = true -> level q <= lvl <= P4EST_QMAXLEVEL ->
  p4est_quadrant_first_descendent q r lvl =
  Done (mkquad (x q) (y q) (if P4_TO_P8 then z q else z r) lvl).
Proof.
  intros He Hl. pose proof (extended_level q He) as Hlq. pose proof MAXLEVEL_le_30 as HM.
  unfold P4EST_QMAXLEVEL in Hl.
  unfold p4est_quadrant_first_descendent.
  rewrite (P4EST_ASSERT_holds _ He).
  rewrite (P4EST_ASSERT_holds ((level q <=? lvl) && (lvl <=? P4EST_QMAXLEVEL)))
    by (unfold P4EST_QMAXLEVEL; apply andb_true_iff; split; apply Z.leb_le; lia).
  cbn [bind]. rewrite (int8_small lvl) by lia.
  destruct P4_TO_P8; reflexivity.
Qed.

Lemma last_descendent_done (q r : p4est_quadrant_t) (lvl : Z) :
  p4est_quadrant_is_extended q = true -> level q <= lvl <= P4EST_QMAXLEVEL ->
  let shift := P4EST_QUADRANT_LEN (level q) - P4EST_QUADRANT_LEN lvl in
  p4est_quadrant_last_descendent q r lvl =
  Done (mkquad (x q + shift) (y q + shift)
               (if P4_TO_P8 then z q + shift else z r) lvl).
Proof.
  intros He Hl. pose proof (extended_level q He) as Hlq. pose proof MAXLEVEL_le_30 as HM.
  pose proof (proj1 (is_extended_spec q) He) as (_ & Cx & Cy & Cz).
  pose proof pow2_MAXLEVEL_le as HP.
  assert (H31 : 2 ^ 31 = 2 * 2 ^ 30) by reflexivity.
  assert (HL : 0 <= level q <= lvl) by lia.
  destruct (descendant_coord (level q) lvl (x q) HL (proj2 Hl) Cx) as (Hs & _ & Dx & _).
  destruct (descendant_coord (level q) lvl (y q) HL (proj2 Hl) Cy) as (_ & _ & Dy & _).
  cbv zeta in Dx, Dy |- *.
  unfold P4EST_QMAXLEVEL in Hl.
  unfold p4est_quadrant_last_descendent.
  rewrite (P4EST_ASSERT_holds _ He).
  rewrite (P4EST_ASSERT_holds ((level q <=? lvl) && (lvl <=? P4EST_QMAXLEVEL)))
    by (unfold P4EST_QMAXLEVEL; apply andb_true_iff; split; apply Z.leb_le; lia).
  cbn [bind]. rewrite (int8_small lvl) by lia.
  rewrite (int32_small (P4EST_QUADRANT_LEN (level q) - P4EST_QUADRANT_LEN lvl)) by lia.
  rewrite (int32_small (x q + _)) by (pose proof (coord_extended_int32 _ _ Dx); lia).
  rewrite (int32_small (y q + _)) by (pose proof (coord_extended_int32 _ _ Dy); lia).
  destruct P4_TO_P8; [|reflexivity].
  destruct (descendant_coord (level q) lvl (z q) HL ltac:(unfold P4EST_QMAXLEVEL; lia)
              (Cz eq_refl)) as (_ & _ & Dz & _).
  cbv zeta in Dz.
  rewrite (int32_small (z q + _)) by (pose proof (coord_extended_int32 _ _ Dz); lia).
  reflexivity.
Qed.

(** The first and the last descendant of level [lvl] of an extended
    quadrant [q] are extended quadrants of that level, valid when [q] is,
    and [q] is an ancestor of both when [lvl] is deeper than its own
    level. *)
Theorem descendents_extended_valid_below (q r : p4est_quadrant_t) (lvl : Z) :
  p4est_quadrant_is_extended q = true -> level q <= lvl <= P4EST_QMAXLEVEL ->
  exists fd ld,
    p4est_quadrant_first_descendent q r lvl = Done fd /\
    p4est_quadrant_last_descendent q r lvl = Done ld /\
    level fd = lvl /\ level ld = lvl /\
    p4est_quadrant_is_extended fd = true /\
    p4est_quadrant_is_extended ld = true /\
    (p4est_quadrant_is_valid q = true ->
     p4est_quadrant_is_valid fd = true /\ p4est_quadrant_is_valid ld = true) /\
    (level q < lvl ->
     p4est_quadrant_is_ancestor q fd = Done true /\
     p4est_quadrant_is_ancestor q ld = Done true).
Proof.
  intros He Hl. pose proof (extended_level q He) as Hlq.
  rewrite (first_descendent_done q r lvl He Hl).
  pose proof (last_descendent_done q r lvl He Hl) as Hld. cbv zeta in Hld. rewrite Hld.
  do 2 eexists. split; [reflexivity|]. split; [reflexivity|].
  split; [reflexivity|]. split; [reflexivity|].
  assert (HL : 0 <= level q <= lvl) by lia.
  assert (Hlv : 0 <= lvl <= P4EST_QMAXLEVEL) by lia.
  assert (Hc : forall a, In a axes ->
            coord_extended lvl (coord a q) /\
            coord_extended lvl
              (coord a q + (P4EST_QUADRANT_LEN (level q) - P4EST_QUADRANT_LEN lvl)) /\
            (coord_valid (level q) (coord a q) ->
             coord_valid lvl (coord a q) /\
             coord_valid lvl
               (coord a q + (P4EST_QUADRANT_LEN (level q) - P4EST_QUADRANT_LEN lvl)))).
  { intros a Ha.
    destruct (descendant_coord (level q) lvl (coord a q) HL (proj2 Hl)
                (extended_coord q a He Ha)) as (_ & D1 & D2 & D3). auto. }
  set (fd := mkquad (x q) (y q) (if P4_TO_P8 then z q else z r) lvl).
  set (ld := mkquad (x q + (P4EST_QUADRANT_LEN (level q) - P4EST_QUADRANT_LEN lvl))
                    (y q + (P4EST_QUADRANT_LEN (level q) - P4EST_QUADRANT_LEN lvl))
                    (if P4_TO_P8
                     then z q + (P4EST_QUADRANT_LEN (level q) - P4EST_QUADRANT_LEN lvl)
                     else z r) lvl).
  assert (Hfc : forall a, In a axes -> coord a fd = coord a q).
  { apply (coords_of_fields q fd (fun c => c)); subst fd; cbn [x y z]; auto.
    intros ->. reflexivity. }
  assert (Hlc : forall a, In a axes ->
            coord a ld =
            coord a q + (P4EST_QUADRANT_LEN (level q) - P4EST_QUADRANT_LEN lvl)).
  { apply (coords_of_fields q ld
             (fun c => c + (P4EST_QUADRANT_LEN (level q) - P4EST_QUADRANT_LEN lvl)));
      subst ld; cbn [x y z]; auto.
    intros ->. reflexivity. }
  assert (Hfe : p4est_quadrant_is_extended fd = true).
  { apply is_extended_of_coords; [exact Hlv|]. intros a Ha.
    rewrite (Hfc a Ha). apply (Hc a Ha). }
  assert (Hle : p4est_quadrant_is_extended ld = true).
  { apply is_extended_of_coords; [exact Hlv|]. intros a Ha.
    rewrite (Hlc a Ha). apply (Hc a Ha). }
  split; [exact Hfe|]. split; [exact Hle|]. split.
  - intros Hv. split.
    + apply is_valid_of_coords; [exact Hlv|]. intros a Ha.
      rewrite (Hfc a Ha). apply (Hc a Ha), (is_valid_coord q a Hv Ha).
    + apply is_valid_of_coords; [exact Hlv|]. intros a Ha.
      rewrite (Hlc a Ha). apply (Hc a Ha), (is_valid_coord q a Hv Ha).
  - intros Hlt. split.
    + destruct (is_ancestor_value q fd He Hfe) as (b & Hb & Hbv).
      rewrite Hb. f_equal. apply Hbv. split; [exact Hlt|].
      intros a Ha i Hi. rewrite (Hfc a Ha). reflexivity.
    + destruct (is_ancestor_value q ld He Hle) as (b & Hb & Hbv).
      rewrite Hb. f_equal. apply Hbv. split; [exact Hlt|].
      intros a Ha i Hi. rewrite (Hlc a Ha), !QUADRANT_LEN_pow.
      assert (0 <= i) by lia.
      rewrite aligned_add_bits; [| unfold P4EST_QMAXLEVEL in *; lia
                                 | apply (extended_coord q a He Ha) | lia].
      destruct (Z.ltb_spec i (P4EST_MAXLEVEL - level q)); [lia | reflexivity].
Qed.

(** ** Order along the curve, bit by bit *)

Lemma key_lt_iff (q r : p4est_quadrant_t) :
  linear_id_result q P4EST_MAXLEVEL < linear_id_result r P4EST_MAXLEVEL <->
  morton_before q r.
Proof.
  pose proof DIM_range as HD. pose proof MAXLEVEL_le_30 as HM.
  assert (HL : 0 <= P4EST_MAXLEVEL <= P4EST_MAXLEVEL) by lia.
  split.
  - intros Hlt.
    destruct (highest_bit_of_lt _ _ (linear_id_result_nonneg q _)
                (linear_id_result_nonneg r _) Hlt) as (K & HK & Bq & Br & Hhigh).
    destruct (position_split K HK) as (i & a & Ha & Hi & ->).
    rewrite linear_id_result_bit in Bq, Br by auto.
    apply andb_true_iff in Br. destruct Br as [Hi2 Br]. apply Z.ltb_lt in Hi2.
    rewrite (proj2 (Z.ltb_lt _ _) Hi2), andb_true_l in Bq.
    replace (i + (P4EST_MAXLEVEL - P4EST_MAXLEVEL)) with i in Bq, Br by ring.
    exists a, i. split; [exact Ha|]. split; [lia|]. split; [exact Bq|]. split; [exact Br|].
    intros b j Hb Hj Hpos.
    pose proof (Hhigh _ Hpos) as E.
    rewrite !linear_id_result_bit in E by (auto; lia).
    replace (j + (P4EST_MAXLEVEL - P4EST_MAXLEVEL)) with j in E by ring.
    destruct (Z.ltb_spec j (P4EST_MAXLEVEL + 2)); [exact E | lia].
  - intros (a & i & Ha & Hi & Bq & Br & Habove).
    pose proof (axis_rank_range a Ha) as Ra.
    apply (lt_by_highest_bit _ _ (P4EST_DIM * i + axis_rank a)).
    + apply linear_id_result_nonneg.
    + apply linear_id_result_nonneg.
    + nia.
    + rewrite linear_id_result_bit by (auto; lia).
      replace (i + (P4EST_MAXLEVEL - P4EST_MAXLEVEL)) with i by ring.
      rewrite Bq. apply andb_false_r.
    + rewrite linear_id_result_bit by (auto; lia).
      replace (i + (P4EST_MAXLEVEL - P4EST_MAXLEVEL)) with i by ring.
      rewrite Br. apply andb_true_iff. split; [apply Z.ltb_lt; lia | reflexivity].
    + intros k Hk.
      destruct (position_split k ltac:(nia)) as (j & b & Hb & Hj & ->).
      rewrite !linear_id_result_bit by (auto; lia).
      replace (j + (P4EST_MAXLEVEL - P4EST_MAXLEVEL)) with j by ring.
      destruct (Z.ltb_spec j (P4EST_MAXLEVEL + 2)); [|reflexivity].
      cbn [andb]. apply Habove; auto. lia.
Qed.

(** The comparison in terms of the curve alone. *)
Lemma compare_morton (q r : p4est_quadrant_t) :
  comparable q = true -> comparable r = true ->
  exists c,
    p4est_quadrant_compare q r = Done c /\
    (c < 0 <-> morton_before q r \/ (same_position q r /\ level q < level r)) /\
    (c <= 0 <-> morton_before q r \/ (same_position q r /\ level q <= level r)).
Proof.
  intros Hq Hr. pose proof MAXLEVEL_le_30 as HM.
  rewrite (compare_by_key q r Hq Hr). eexists. split; [reflexivity|].
  rewrite <- key_lt_iff.
  assert (Hsame : same_position q r ->
                  linear_id_result q P4EST_MAXLEVEL = linear_id_result r P4EST_MAXLEVEL).
  { intros Hs. apply linear_id_result_ext; [lia|].
    intros a Ha j _. rewrite (Hs a Ha). reflexivity. }
  destruct (Z.ltb_spec (linear_id_result q P4EST_MAXLEVEL)
                       (linear_id_result r P4EST_MAXLEVEL)) as [Hlt|Hge].
  - split; split; auto; lia.
  - destruct (Z.ltb_spec (linear_id_result r P4EST_MAXLEVEL)
                         (linear_id_result q P4EST_MAXLEVEL)) as [Hgt|Hle].
    + split; (split; [lia|]); intros [H|[Hs _]]; try lia; apply Hsame in Hs; lia.
    + assert (Hs : same_position q r) by (apply key_eq_same_position; auto; lia).
      split; (split; [intros; right; split; [exact Hs | lia]|]);
        intros [H|[_ H]]; lia.
Qed.

(** ** Descendants as an interval of the order *)

Lemma last_descendent_bits (q r : p4est_quadrant_t) :
  p4est_quadrant_is_extended q = true ->
  exists ld,
    p4est_quadrant_last_descendent q r P4EST_QMAXLEVEL = Done ld /\
    p4est_quadrant_is_extended ld = true /\
    level ld = P4EST_QMAXLEVEL /\
    forall a, In a axes -> forall j, 0 <= j ->
      Z.testbit (coord a ld) j =
      if j <? P4EST_MAXLEVEL - level q then 1 <=? j else Z.testbit (coord a q) j.
Proof.
  intros He. pose proof (extended_level q He) as Hlq.
  assert (Hl : level q <= P4EST_QMAXLEVEL <= P4EST_QMAXLEVEL)
    by (unfold P4EST_QMAXLEVEL; lia).
  pose proof (last_descendent_done q r _ He Hl) as Hld. cbv zeta in Hld. rewrite Hld.
  eexists. split; [reflexivity|].
  match goal with |- p4est_quadrant_is_extended ?t = true /\ _ => set (ld := t) end.
  assert (Hlc : forall a, In a axes ->
            coord a ld =
            coord a q + (P4EST_QUADRANT_LEN (level q) - P4EST_QUADRANT_LEN P4EST_QMAXLEVEL)).
  { apply (coords_of_fields q ld
             (fun c => c + (P4EST_QUADRANT_LEN (level q)
                            - P4EST_QUADRANT_LEN P4EST_QMAXLEVEL)));
      subst ld; cbn [x y z]; auto.
    intros ->. reflexivity. }
  split; [|split; [reflexivity|]].
  - apply is_extended_of_coords; [subst ld; cbn [level]; unfold P4EST_QMAXLEVEL; lia|].
    intros a Ha. rewrite (Hlc a Ha).
    apply (descendant_coord (level q) P4EST_QMAXLEVEL (coord a q));
      [lia | lia | apply (extended_coord q a He Ha)].
  - intros a Ha j Hj. rewrite (Hlc a Ha), !QUADRANT_LEN_pow.
    unfold P4EST_QMAXLEVEL.
    replace (P4EST_MAXLEVEL - (P4EST_MAXLEVEL - 1)) with 1 by ring.
    apply aligned_add_bits; [lia | apply (extended_coord q a He Ha) | exact Hj].
Qed.

Lemma extended_low_bits (q : p4est_quadrant_t) (a : axis) (j : Z) :
  p4est_quadrant_is_extended q = true -> In a axes ->
  j < P4EST_MAXLEVEL - level q -> Z.testbit (coord a q) j = false.
Proof.
  intros He Ha Hj. pose proof (extended_level q He) as Hl.
  destruct (extended_coord q a He Ha) as [Hal _].
  apply (proj1 (aligned_bits _ (P4EST_MAXLEVEL - level q) ltac:(lia)) Hal). exact Hj.
Qed.

Lemma extended_window_agree (q d : p4est_quadrant_t) (a : axis) (p : Z) :
  p4est_quadrant_is_extended q = true -> p4est_quadrant_is_extended d = true ->
  In a axes -> p <= P4EST_MAXLEVEL + 1 ->
  (forall j, p <= j <= P4EST_MAXLEVEL + 1 ->
             Z.testbit (coord a q) j = Z.testbit (coord a d) j) ->
  agree_from p (coord a q) (coord a d).
Proof.
  intros Hq Hd Ha Hp Hw j Hj.
  destruct (Z.le_gt_cases j (P4EST_MAXLEVEL + 1)) as [Hin|Hout]; [apply Hw; lia|].
  rewrite (window_sign_bits (coord a q) j), (window_sign_bits (coord a d) j);
    [apply Hw; lia | | lia | | lia];
    apply comparable_coord_range; auto using is_extended_comparable.
Qed.

(** The descendants of an extended quadrant [q] are exactly the
    extended quadrants that the total order places after [q] and not
    after the last descendant of [q] on the deepest level: the test
    [p4est_quadrant_is_ancestor (q, d)] is true iff
    [compare (q, d) < 0] and [compare (d, last) <= 0]. *)
Theorem descendants_are_order_interval (q d r : p4est_quadrant_t) :
  p4est_quadrant_is_extended q = true ->
  p4est_quadrant_is_extended d = true ->
  exists ld c1 c2 b,
    p4est_quadrant_last_descendent q r P4EST_QMAXLEVEL = Done ld /\
    p4est_quadrant_compare q d = Done c1 /\
    p4est_quadrant_compare d ld = Done c2 /\
    p4est_quadrant_is_ancestor q d = Done b /\
    (b = true <-> c1 < 0 /\ c2 <= 0).
Proof.
  intros Hq Hd. pose proof MAXLEVEL_le_30 as HM. pose proof DIM_range as HD.
  pose proof (extended_level q Hq) as Hlq. pose proof (extended_level d Hd) as Hld.
  destruct (last_descendent_bits q r Hq) as (ld & Eld & Hlde & Hldl & Hldb).
  pose proof (is_extended_comparable q Hq) as Cq.
  pose proof (is_extended_comparable d Hd) as Cd.
  pose proof (is_extended_comparable ld Hlde) as Cl.
  destruct (compare_morton q d Cq Cd) as (c1 & E1 & Hc1 & _).
  destruct (compare_morton d ld Cd Cl) as (c2 & E2 & _ & Hc2).
  destruct (is_ancestor_value q d Hq Hd) as (b & Eb & Hb).
  exists ld, c1, c2, b. repeat (split; [assumption|]).
  rewrite Hb, Hc1, Hc2. clear Hb Hc1 Hc2 E1 E2 Eb Eld.
  unfold P4EST_QMAXLEVEL in Hldl.
  split.
  - (* a descendant lies in the interval *)
    intros [Hlt Hag]. split.
    + destruct (same_position_dec q d) as [Hs|Hn]; [right; auto|]. left.
      apply key_lt_iff.
      destruct (Z.lt_trichotomy (linear_id_result q P4EST_MAXLEVEL)
                  (linear_id_result d P4EST_MAXLEVEL)) as [H|[H|H]]; [exact H | |].
      * exfalso. apply Hn. apply key_eq_same_position; auto.
      * exfalso. apply key_lt_iff in H.
        destruct H as (a & i & Ha & Hi & Bd & Bq & _).
        destruct (Z.lt_ge_cases i (P4EST_MAXLEVEL - level q)) as [Hlow|Hhigh].
        -- rewrite (extended_low_bits q a i Hq Ha Hlow) in Bq. discriminate.
        -- rewrite (Hag a Ha i Hhigh), Bd in Bq. discriminate.
    + destruct (same_position_dec d ld) as [Hs|Hn]; [right; split; [exact Hs | lia]|].
      left. apply key_lt_iff.
      destruct (Z.lt_trichotomy (linear_id_result d P4EST_MAXLEVEL)
                  (linear_id_result ld P4EST_MAXLEVEL)) as [H|[H|H]]; [exact H | |].
      * exfalso. apply Hn. apply key_eq_same_position; auto.
      * exfalso. apply key_lt_iff in H.
        destruct H as (a & i & Ha & Hi & Bl & Bd & _).
        rewrite (Hldb a Ha i) in Bl by lia.
        destruct (Z.ltb_spec i (P4EST_MAXLEVEL - level q)) as [Hlow|Hhigh].
        -- apply Z.leb_gt in Bl. assert (i = 0) by lia. subst i.
           rewrite (extended_low_bits d a 0 Hd Ha) in Bd by lia. discriminate.
        -- rewrite (Hag a Ha i Hhigh), Bd in Bl. discriminate.
  - (* a quadrant of the interval is a descendant *)
    intros [[Hqd|[Hs Hlt]] Hdl].
    2:{ split; [exact Hlt|]. intros a Ha i _. rewrite (Hs a Ha). reflexivity. }
    destruct Hqd as (a & i & Ha & Hi & Bq & Bd & Habove).
    pose proof (axis_rank_range a Ha) as Ra.
    assert (Hlow : i < P4EST_MAXLEVEL - level q).
    { destruct (Z.lt_ge_cases i (P4EST_MAXLEVEL - level q)) as [H|Hhigh]; [exact H|].
      exfalso.
      assert (Bl : Z.testbit (coord a ld) i = false).
      { rewrite (Hldb a Ha i) by lia.
        destruct (Z.ltb_spec i (P4EST_MAXLEVEL - level q)); [lia | exact Bq]. }
      destruct Hdl as [(a' & i' & Ha' & Hi' & Bd' & Bl' & Habove')|[Hs _]].
      2:{ rewrite (Hs a Ha), Bl in Bd. discriminate. }
      pose proof (axis_rank_range a' Ha') as Ra'.
      destruct (Z.lt_trichotomy (P4EST_DIM * i + axis_rank a)
                  (P4EST_DIM * i' + axis_rank a')) as [Hpos|[Hpos|Hpos]].
      - (* above the first difference of q and d, d = q = ld *)
        assert (Hii : i <= i') by nia.
        pose proof (Habove a' i' Ha' ltac:(lia) Hpos) as E.
        rewrite (Hldb a' Ha' i') in Bl' by lia.
        destruct (Z.ltb_spec i' (P4EST_MAXLEVEL - level q)); [lia|].
        rewrite E, Bd' in Bl'. discriminate.
      - assert (i = i') by nia. subst i'.
        assert (axis_rank a = axis_rank a') by lia.
        assert (a = a') by (destruct a, a'; cbn in *; congruence || lia). subst a'.
        rewrite Bd in Bd'. discriminate.
      - pose proof (Habove' a i Ha ltac:(lia) Hpos) as E.
        rewrite Bd, Bl in E. discriminate. }
    split.
    + destruct (Z.lt_ge_cases (level q) (level d)) as [H|Hge]; [exact H|]. exfalso.
      rewrite (extended_low_bits d a i Hd Ha) in Bd by lia. discriminate.
    + intros a2 Ha2. apply extended_window_agree; auto; [lia|].
      intros j Hj. apply Habove; [exact Ha2 | lia|].
      pose proof (axis_rank_range a2 Ha2). nia.
Qed.

(** ** A quadrant against a tree *)

Lemma first_before_last_key (q fd ld : p4est_quadrant_t) :
  p4est_quadrant_is_extended q = true ->
  (forall a, In a axes -> coord a fd = coord a q) ->
  (forall a, In a axes -> forall j, 0 <= j ->
     Z.testbit (coord a ld) j =
     if j <? P4EST_MAXLEVEL - level q then 1 <=? j else Z.testbit (coord a q) j) ->
  linear_id_result fd P4EST_MAXLEVEL <= linear_id_result ld P4EST_MAXLEVEL.
Proof.
  intros Hq Hfd Hld.
  destruct (Z.le_gt_cases (linear_id_result fd P4EST_MAXLEVEL)
              (linear_id_result ld P4EST_MAXLEVEL)) as [H|H]; [exact H|].
  exfalso. apply key_lt_iff in H.
  destruct H as (a & i & Ha & Hi & Bl & Bf & _).
  rewrite (Hfd a Ha) in Bf. rewrite (Hld a Ha i) in Bl by lia.
  destruct (Z.ltb_spec i (P4EST_MAXLEVEL - level q)) as [Hlow|Hhigh].
  - rewrite (extended_low_bits q a i Hq Ha Hlow) in Bf. discriminate.
  - rewrite Bl in Bf. discriminate.
Qed.

(** A quadrant that [p4est_quadrant_is_inside_tree] accepts is accepted
    by [p4est_quadrant_overlaps_tree]; both reject every quadrant when
    the tree stores none.  The markers of a tree that stores quadrants
    are valid quadrants. *)
Theorem inside_tree_implies_overlaps (tree : p4est_tree_t) (q : p4est_quadrant_t) :
  p4est_quadrant_is_valid q = true ->
  (quadrants_elem_count tree <> 0 ->
   p4est_quadrant_is_valid (first_desc tree) = true /\
   p4est_quadrant_is_valid (last_desc tree) = true) ->
  exists bi bo,
    p4est_quadrant_is_inside_tree tree q = Done bi /\
    p4est_quadrant_overlaps_tree tree q = Done bo /\
    (bi = true -> bo = true) /\
    (quadrants_elem_count tree = 0 -> bi = false /\ bo = false).
Proof.
  intros Hv Hmark. pose proof MAXLEVEL_le_30 as HM.
  pose proof (is_valid_extended q Hv) as Hq.
  pose proof (extended_level q Hq) as Hlq.
  unfold p4est_quadrant_is_inside_tree, p4est_quadrant_overlaps_tree.
  rewrite (P4EST_ASSERT_holds _ Hv). cbn [bind].
  destruct (Z.eqb_spec (quadrants_elem_count tree) 0) as [E0|N0].
  { exists false, false. repeat split; auto. }
  destruct (Hmark N0) as [Hf Hl].
  rewrite (P4EST_ASSERT_holds _ Hf), (P4EST_ASSERT_holds _ Hl). cbn [bind].
  assert (HL : level q <= P4EST_QMAXLEVEL <= P4EST_QMAXLEVEL)
    by (unfold P4EST_QMAXLEVEL; lia).
  rewrite (first_descendent_done q local_quadrant _ Hq HL).
  set (fd := mkquad (x q) (y q) (if P4_TO_P8 then z q else z local_quadrant)
               P4EST_QMAXLEVEL).
  destruct (last_descendent_bits q local_quadrant Hq) as (ld & Eld & Hlde & Hldl & Hldb).
  destruct (last_descendent_bits q fd Hq) as (ld' & Eld' & _).
  rewrite Eld. cbn [bind].
  assert (Hfc : forall a, In a axes -> coord a fd = coord a q).
  { apply (coords_of_fields q fd (fun c => c)); subst fd; cbn [x y z]; auto.
    intros ->. reflexivity. }
  assert (Hfe : p4est_quadrant_is_extended fd = true).
  { apply is_extended_of_coords; [subst fd; cbn [level]; unfold P4EST_QMAXLEVEL; lia|].
    intros a Ha. rewrite (Hfc a Ha).
    apply (descendant_coord (level q) P4EST_QMAXLEVEL (coord a q));
      [lia | lia | apply (extended_coord q a Hq Ha)]. }
  pose proof (first_before_last_key q fd ld Hq Hfc Hldb) as Hkey.
  pose proof (is_valid_comparable _ Hf) as Cf.
  pose proof (is_valid_comparable _ Hl) as Cl.
  pose proof (is_valid_comparable _ Hv) as Cq.
  rewrite (compare_by_key fd _ (is_extended_comparable _ Hfe) Cf).
  rewrite (compare_by_key ld _ (is_extended_comparable _ Hlde) Cf).
  rewrite (compare_by_key _ q Cl Cq). cbn [bind].
  rewrite Eld'. cbn [bind].
  assert (Hlev : level fd = level ld) by (rewrite Hldl; reflexivity).
  rewrite Hlev.
  pose proof (proj1 (is_valid_spec _) Hf) as (Hfl & _). unfold P4EST_QMAXLEVEL in Hfl, Hldl.
  revert Hkey.
  generalize (linear_id_result fd P4EST_MAXLEVEL), (linear_id_result ld P4EST_MAXLEVEL),
    (linear_id_result (first_desc tree) P4EST_MAXLEVEL).
  intros kf kl k1 Hkey.
  generalize (linear_id_result (last_desc tree) P4EST_MAXLEVEL),
    (linear_id_result q P4EST_MAXLEVEL).
  intros k2 kq.
  destruct (Z.ltb_spec kf k1), (Z.ltb_spec k1 kf), (Z.ltb_spec kl k1),
    (Z.ltb_spec k1 kl), (Z.ltb_spec k2 kq), (Z.ltb_spec kq k2);
    repeat match goal with |- context [?u <? 0] => destruct (Z.ltb_spec u 0) end;
    try lia; do 2 eexists; repeat split; try reflexivity; try discriminate; try lia.
Qed.

(** ** Neighbours across a face *)

Lemma shift_coord (l c k : Z) :
  0 <= l <= P4EST_QMAXLEVEL -> coord_valid l c -> -1 <= k <= 1 ->
  coord_extended l (c + k * P4EST_QUADRANT_LEN l) /\
  - 2 ^ 31 <= c + k * P4EST_QUADRANT_LEN l < 2 ^ 31 /\
  - 2 ^ P4EST_MAXLEVEL <= c + k * P4EST_QUADRANT_LEN l <= 2 ^ P4EST_MAXLEVEL /\
  (0 <= c + k * P4EST_QUADRANT_LEN l < 2 ^ P4EST_MAXLEVEL ->
   coord_valid l (c + k * P4EST_QUADRANT_LEN l)).
Proof.
  unfold P4EST_QMAXLEVEL, coord_valid, coord_extended. intros Hl [Hal Hr] Hk.
  rewrite QUADRANT_LEN_pow. pose proof pow2_MAXLEVEL_le as HP.
  pose proof (pow2_pos (P4EST_MAXLEVEL - l) ltac:(lia)) as Hp.
  pose proof (pow2_le_mono (P4EST_MAXLEVEL - l) P4EST_MAXLEVEL ltac:(lia)) as Hle.
  pose proof (aligned_step c (P4EST_MAXLEVEL - l) P4EST_MAXLEVEL ltac:(lia) Hal ltac:(lia))
    as Hst.
  assert (H31 : 2 ^ 31 = 2 * 2 ^ 30) by reflexivity.
  assert (Ha : (c + k * 2 ^ (P4EST_MAXLEVEL - l)) mod 2 ^ (P4EST_MAXLEVEL - l) = 0).
  { rewrite Z.mod_add by lia. exact Hal. }
  assert (Hb : - 2 ^ P4EST_MAXLEVEL <= c + k * 2 ^ (P4EST_MAXLEVEL - l)
               <= 2 ^ P4EST_MAXLEVEL) by nia.
  split; [split; [exact Ha | lia]|]. split; [lia|]. split; [exact Hb|].
  intros H. split; [exact Ha | exact H].
Qed.

Lemma face_cases (face : Z) :
  0 <= face < 2 * P4EST_DIM ->
  (P4_TO_P8 = false /\ (face = 0 \/ face = 1 \/ face = 2 \/ face = 3)) \/
  (P4_TO_P8 = true /\
   (face = 0 \/ face = 1 \/ face = 2 \/ face = 3 \/ face = 4 \/ face = 5)).
Proof. unfold P4EST_DIM. destruct P4_TO_P8; intros H; [right | left]; split; auto; lia. Qed.

Lemma face_offset_range (face : Z) (a : axis) : -1 <= face_offset face a <= 1.
Proof.
  unfold face_offset.
  destruct P4_TO_P8, a;
    repeat match goal with |- context [?u =? ?v] => destruct (u =? v) end; lia.
Qed.

(** What [p4est_quadrant_face_neighbor] stores in [r]. *)
Lemma face_neighbor_done (q r : p4est_quadrant_t) (face : Z) :
  p4est_quadrant_is_valid q = true -> 0 <= face < 2 * P4EST_DIM ->
  let n := mkquad (x q + face_offset face AX * P4EST_QUADRANT_LEN (level q))
                  (y q + face_offset face AY * P4EST_QUADRANT_LEN (level q))
                  (if P4_TO_P8
                   then z q + face_offset face AZ * P4EST_QUADRANT_LEN (level q)
                   else z r)
                  (level q) in
  p4est_quadrant_face_neighbor q face r = Done n /\
  p4est_quadrant_is_extended n = true.
Proof.
  intros Hv Hf. cbv zeta.
  pose proof (proj1 (is_valid_spec q) Hv) as (Hl & Cx & Cy & Cz).
  match goal with |- _ /\ p4est_quadrant_is_extended ?t = true => set (n := t) end.
  assert (Hne : p4est_quadrant_is_extended n = true).
  { apply is_extended_spec. subst n. cbn [x y z level].
    split; [exact Hl|].
    split; [apply shift_coord; auto using face_offset_range|].
    split; [apply shift_coord; auto using face_offset_range|].
    intros Hd. rewrite Hd. apply shift_coord; auto using face_offset_range. }
  split; [|exact Hne].
  unfold p4est_quadrant_face_neighbor.
  rewrite (P4EST_ASSERT_holds ((0 <=? face) && (face <? 2 * P4EST_DIM)))
    by (apply andb_true_iff; split; [apply Z.leb_le | apply Z.ltb_lt]; lia).
  rewrite (P4EST_ASSERT_holds _ Hv). cbn [bind].
  pose proof (fun k Hk => proj1 (proj2 (shift_coord (level q) (x q) k Hl Cx Hk))) as Ix.
  pose proof (fun k Hk => proj1 (proj2 (shift_coord (level q) (y q) k Hl Cy Hk))) as Iy.
  pose proof (Ix (-1) ltac:(lia)) as Ix1. pose proof (Ix 1 ltac:(lia)) as Ix2.
  pose proof (Ix 0 ltac:(lia)) as Ix0.
  pose proof (Iy (-1) ltac:(lia)) as Iy1. pose proof (Iy 1 ltac:(lia)) as Iy2.
  pose proof (Iy 0 ltac:(lia)) as Iy0.
  assert (Hres : forall t : p4est_quadrant_t, t = n ->
            (P4EST_ASSERT (p4est_quadrant_is_extended t) ;;; Done t) = Done n).
  { intros t ->. rewrite (P4EST_ASSERT_holds _ Hne). reflexivity. }
  destruct (face_cases face Hf) as [[Hd Hc]|[Hd Hc]]; rewrite Hd.
  - assert (En : n = mkquad (x q + face_offset face AX * P4EST_QUADRANT_LEN (level q))
                            (y q + face_offset face AY * P4EST_QUADRANT_LEN (level q))
                            (z r) (level q)) by (subst n; rewrite Hd; reflexivity).
    unfold face_offset in En. rewrite Hd in En.
    destruct Hc as [-> | [-> | [-> | -> ]]]; cbn [Z.eqb Pos.eqb bind] in En |- *;
      apply Hres; rewrite En; unfold set_level, set_z, set_y, set_x; cbn [x y z level];
      rewrite ?int32_small by lia; f_equal; lia.
  - pose proof (fun k Hk => proj1 (proj2 (shift_coord (level q) (z q) k Hl (Cz Hd) Hk)))
      as Iz.
    pose proof (Iz (-1) ltac:(lia)) as Iz1. pose proof (Iz 1 ltac:(lia)) as Iz2.
    pose proof (Iz 0 ltac:(lia)) as Iz0.
    assert (En : n = mkquad (x q + face_offset face AX * P4EST_QUADRANT_LEN (level q))
                            (y q + face_offset face AY * P4EST_QUADRANT_LEN (level q))
                            (z q + face_offset face AZ * P4EST_QUADRANT_LEN (level q))
                            (level q)) by (subst n; rewrite Hd; reflexivity).
    unfold face_offset in En. rewrite Hd in En.
    destruct Hc as [->|[->|[-> | [-> | [-> | -> ]]]]]; cbn [Z.eqb Pos.eqb bind] in En |- *;
      apply Hres; rewrite En; unfold set_level, set_z, set_y, set_x; cbn [x y z level];
      rewrite ?int32_small by lia; f_equal; lia.
Qed.

Lemma face_offset_opposite (face : Z) (a : axis) :
  0 <= face < 2 * P4EST_DIM ->
  0 <= opposite_face face < 2 * P4EST_DIM /\
  face_offset (opposite_face face) a = - face_offset face a.
Proof.
  intros Hf. unfold opposite_face, face_offset, P4EST_DIM.
  destruct (face_cases face Hf) as [[Hd Hc]|[Hd Hc]]; rewrite Hd.
  - destruct Hc as [-> | [-> | [-> | -> ]]]; destruct a; cbn; lia.
  - destruct Hc as [-> | [-> | [-> | [-> | [-> | -> ]]]]]; destruct a; cbn; lia.
Qed.

(** The neighbour stays inside the root or leaves it across one face. *)
Lemma face_neighbor_position (q : p4est_quadrant_t) (face zr : Z) :
  p4est_quadrant_is_valid q = true -> 0 <= face < 2 * P4EST_DIM ->
  let n := mkquad (x q + face_offset face AX * P4EST_QUADRANT_LEN (level q))
                  (y q + face_offset face AY * P4EST_QUADRANT_LEN (level q))
                  (if P4_TO_P8
                   then z q + face_offset face AZ * P4EST_QUADRANT_LEN (level q)
                   else zr)
                  (level q) in
  p4est_quadrant_is_valid n = true \/ p4est_quadrant_is_outside_face n = true.
Proof.
  intros Hv Hf. cbv zeta.
  pose proof (proj1 (is_valid_spec q) Hv) as (Hl & Cx & Cy & Cz).
  pose proof (fun k Hk => proj2 (proj2 (shift_coord (level q) (x q) k Hl Cx Hk))) as Sx.
  pose proof (fun k Hk => proj2 (proj2 (shift_coord (level q) (y q) k Hl Cy Hk))) as Sy.
  pose proof (fun Hd k Hk =>
                proj2 (proj2 (shift_coord (level q) (z q) k Hl (Cz Hd) Hk))) as Sz.
  pose proof (proj2 Cx) as Rx. pose proof (proj2 Cy) as Ry.
  pose proof (fun Hd => proj2 (Cz Hd)) as Rz.
  rewrite is_valid_spec. unfold p4est_quadrant_is_outside_face.
  cbn [x y z level]. rewrite ROOT_LEN_pow.
  unfold face_offset.
  destruct (face_cases face Hf) as [[Hd Hc]|[Hd Hc]]; rewrite Hd.
  - destruct Hc as [-> | [-> | [-> | -> ]]]; cbn [Z.eqb Pos.eqb];
      match goal with
      | |- context [x q + ?kx * ?h] =>
          match goal with
          | |- context [y q + ?ky * h] =>
              destruct (Sx kx ltac:(lia)) as [Bx Vx];
              destruct (Sy ky ltac:(lia)) as [By Vy];
              destruct (Z.ltb_spec (x q + kx * h) 0),
                (Z.geb_spec (x q + kx * h) (2 ^ P4EST_MAXLEVEL)),
                (Z.ltb_spec (y q + ky * h) 0),
                (Z.geb_spec (y q + ky * h) (2 ^ P4EST_MAXLEVEL));
              try lia; cbn;
              try (right; reflexivity);
              left; (split; [exact Hl|]); (split; [apply Vx; lia|]);
              (split; [apply Vy; lia|]); discriminate
          end
      end.
  - specialize (Sz Hd). specialize (Rz Hd).
    destruct Hc as [-> | [-> | [-> | [-> | [-> | -> ]]]]]; cbn [Z.eqb Pos.eqb];
      match goal with
      | |- context [x q + ?kx * ?h] =>
          match goal with
          | |- context [y q + ?ky * h] =>
              match goal with
              | |- context [z q + ?kz * h] =>
                  destruct (Sx kx ltac:(lia)) as [Bx Vx];
                  destruct (Sy ky ltac:(lia)) as [By Vy];
                  destruct (Sz kz ltac:(lia)) as [Bz Vz];
                  destruct (Z.ltb_spec (x q + kx * h) 0),
                    (Z.geb_spec (x q + kx * h) (2 ^ P4EST_MAXLEVEL)),
                    (Z.ltb_spec (y q + ky * h) 0),
                    (Z.geb_spec (y q + ky * h) (2 ^ P4EST_MAXLEVEL)),
                    (Z.ltb_spec (z q + kz * h) 0),
                    (Z.geb_spec (z q + kz * h) (2 ^ P4EST_MAXLEVEL));
                  try lia; cbn;
                  try (right; reflexivity);
                  left; (split; [exact Hl|]); (split; [apply Vx; lia|]);
                  (split; [apply Vy; lia|]); intros _; apply Vz; lia
              end
          end
      end.
Qed.

(** The face neighbour of a valid quadrant, for a face number in range,
    is an extended quadrant of the same level that is either valid or
    outside the root across exactly one face; when it is valid, its
    neighbour across the opposite face has the coordinates of the
    quadrant one started from. *)
Theorem face_neighbor_round_trip (q r r' : p4est_quadrant_t) (face : Z) :
  p4est_quadrant_is_valid q = true -> 0 <= face < 2 * P4EST_DIM ->
  exists n,
    p4est_quadrant_face_neighbor q face r = Done n /\
    p4est_quadrant_is_extended n = true /\
    level n = level q /\
    (p4est_quadrant_is_valid n = true \/ p4est_quadrant_is_outside_face n = true) /\
    (p4est_quadrant_is_valid n = true ->
     exists q',
       p4est_quadrant_face_neighbor n (opposite_face face) r' = Done q' /\
       x q' = x q /\ y q' = y q /\ (P4_TO_P8 = true -> z q' = z q) /\
       level q' = level q).
Proof.
  intros Hv Hf.
  destruct (face_neighbor_done q r face Hv Hf) as [Hn Hne]. cbv zeta in Hn, Hne.
  eexists. split; [exact Hn|]. split; [exact Hne|]. split; [reflexivity|].
  split; [apply (face_neighbor_position q face (z r) Hv Hf)|].
  intros Hnv.
  destruct (face_offset_opposite face AX Hf) as [Ho Ox].
  destruct (face_offset_opposite face AY Hf) as [_ Oy].
  destruct (face_offset_opposite face AZ Hf) as [_ Oz].
  destruct (face_neighbor_done _ r' (opposite_face face) Hnv Ho) as [Hq' _].
  cbv zeta in Hq'. eexists. split; [exact Hq'|].
  cbn [x y z level]. rewrite Ox, Oy, Oz.
  split; [ring|]. split; [ring|]. split; [|reflexivity].
  intros ->. ring.
Qed.

(** ** Translation across a face of the root (2D) *)

Lemma translated_coord (l c : Z) :
  0 <= l <= P4EST_QMAXLEVEL -> coord_valid l c ->
  (c - P4EST_QUADRANT_LEN l < 0 ->
   coord_valid l (c - P4EST_QUADRANT_LEN l + 2 ^ P4EST_MAXLEVEL)) /\
  (c + P4EST_QUADRANT_LEN l >= 2 ^ P4EST_MAXLEVEL ->
   coord_valid l (c + P4EST_QUADRANT_LEN l - 2 ^ P4EST_MAXLEVEL)).
Proof.
  unfold P4EST_QMAXLEVEL, coord_valid. intros Hl [Hal Hr].
  rewrite QUADRANT_LEN_pow.
  set (h := P4EST_MAXLEVEL - l). assert (Hh : 0 <= h <= P4EST_MAXLEVEL) by (subst h; lia).
  fold h in Hal.
  pose proof (pow2_pos h ltac:(lia)) as Hp.
  pose proof (pow2_le_mono h P4EST_MAXLEVEL Hh) as Hle.
  pose proof (aligned_step c h P4EST_MAXLEVEL Hh Hal ltac:(lia)) as Hst.
  assert (Hs : 2 ^ P4EST_MAXLEVEL = 2 ^ (P4EST_MAXLEVEL - h) * 2 ^ h).
  { rewrite <- Z.pow_add_r by lia. f_equal. lia. }
  assert (Hbelow : 0 <= c -> c < 2 ^ h -> c = 0).
  { intros H0 H1. rewrite <- (Z.mod_small c (2 ^ h)) by lia. exact Hal. }
  split; intros H.
  - split; [|lia].
    replace (c - 2 ^ h + 2 ^ P4EST_MAXLEVEL)
      with (c + (2 ^ (P4EST_MAXLEVEL - h) - 1) * 2 ^ h) by lia.
    rewrite Z.mod_add by lia. exact Hal.
  - split; [|lia].
    replace (c + 2 ^ h - 2 ^ P4EST_MAXLEVEL)
      with (c + (1 - 2 ^ (P4EST_MAXLEVEL - h)) * 2 ^ h) by lia.
    rewrite Z.mod_add by lia. exact Hal.
Qed.

(** In the 2D build, when the face neighbour of a valid quadrant lies
    outside the root, [p4est_quadrant_translate_face] with the same face
    number moves it to a valid quadrant of the same level: the one that
    touches the opposite face of the root. *)
Theorem translate_face_of_outside_neighbor (q r : p4est_quadrant_t) (face : Z) :
  P4_TO_P8 = false ->
  p4est_quadrant_is_valid q = true -> 0 <= face < 4 ->
  exists n,
    p4est_quadrant_face_neighbor q face r = Done n /\
    (p4est_quadrant_is_outside_face n = true ->
     exists t,
       p4est_quadrant_translate_face n face = Done t /\
       p4est_quadrant_is_valid t = true /\
       level t = level q /\
       (x t = x n /\ (y t = 0 \/ y t = P4EST_LAST_OFFSET (level q)) \/
        y t = y n /\ (x t = 0 \/ x t = P4EST_LAST_OFFSET (level q)))).
Proof.
  intros Hd Hv Hf.
  assert (Hf' : 0 <= face < 2 * P4EST_DIM) by (unfold P4EST_DIM; rewrite Hd; lia).
  destruct (face_neighbor_done q r face Hv Hf') as [Hn Hne]. cbv zeta in Hn, Hne.
  eexists. split; [exact Hn|]. clear Hn.
  pose proof (proj1 (is_valid_spec q) Hv) as (Hl & Cx & Cy & _).
  destruct (translated_coord (level q) (x q) Hl Cx) as [Tx1 Tx2].
  destruct (translated_coord (level q) (y q) Hl Cy) as [Ty1 Ty2].
  pose proof (proj2 Cx) as Rx. pose proof (proj2 Cy) as Ry.
  pose proof pow2_MAXLEVEL_le as HP.
  assert (H31 : 2 ^ 31 = 2 * 2 ^ 30) by reflexivity.
  pose proof (pow2_pos (P4EST_MAXLEVEL - level q)
                ltac:(unfold P4EST_QMAXLEVEL in Hl; lia)) as Hp.
  pose proof (pow2_le_mono (P4EST_MAXLEVEL - level q) P4EST_MAXLEVEL
                ltac:(unfold P4EST_QMAXLEVEL in Hl; lia)) as Hle.
  pose proof (aligned_step (x q) (P4EST_MAXLEVEL - level q) P4EST_MAXLEVEL
                ltac:(unfold P4EST_QMAXLEVEL in Hl; lia) (proj1 Cx) ltac:(lia)) as Sx.
  pose proof (aligned_step (y q) (P4EST_MAXLEVEL - level q) P4EST_MAXLEVEL
                ltac:(unfold P4EST_QMAXLEVEL in Hl; lia) (proj1 Cy) ltac:(lia)) as Sy.
  assert (Zx : x q < 2 ^ (P4EST_MAXLEVEL - level q) -> x q = 0).
  { intros H. rewrite <- (Z.mod_small (x q) (2 ^ (P4EST_MAXLEVEL - level q))) by lia.
    apply Cx. }
  assert (Zy : y q < 2 ^ (P4EST_MAXLEVEL - level q) -> y q = 0).
  { intros H. rewrite <- (Z.mod_small (y q) (2 ^ (P4EST_MAXLEVEL - level q))) by lia.
    apply Cy. }
  unfold p4est_quadrant_translate_face, p4est_quadrant_is_outside_face.
  rewrite Hne, orb_true_r, P4EST_ASSERT_true. cbn [bind].
  revert Hne. unfold face_offset, P4EST_LAST_OFFSET. rewrite Hd, ROOT_LEN_pow.
  rewrite QUADRANT_LEN_pow in *.
  assert (Hfin : forall t : p4est_quadrant_t,
            p4est_quadrant_is_valid t = true ->
            (P4EST_ASSERT (p4est_quadrant_is_node t false || p4est_quadrant_is_extended t)
             ;;; Done t) = Done t).
  { intros t Ht. rewrite (is_valid_extended t Ht), orb_true_r, P4EST_ASSERT_true.
    reflexivity. }
  assert (Hval : forall vx vy zz,
            coord_valid (level q) vx -> coord_valid (level q) vy ->
            p4est_quadrant_is_valid (mkquad vx vy zz (level q)) = true).
  { intros vx vy zz Hx Hy. apply is_valid_spec. cbn [x y z level].
    rewrite Hd. repeat split; auto; try apply Hx; try apply Hy; try lia; discriminate. }
  destruct Hf as [Hf0 Hf4].
  assert (Hc : face = 0 \/ face = 1 \/ face = 2 \/ face = 3) by lia.
  destruct Hc as [-> | [-> | [-> | -> ]]]; cbn [Z.eqb Pos.eqb x y z level];
    intros Hne Hout; unfold set_x, set_y; cbn [x y z level];
    rewrite ?Z.mul_0_l, ?Z.add_0_r in *;
    destruct (Z.ltb_spec (x q) 0), (Z.geb_spec (x q) (2 ^ P4EST_MAXLEVEL)),
      (Z.ltb_spec (y q) 0), (Z.geb_spec (y q) (2 ^ P4EST_MAXLEVEL)); try lia;
    repeat match type of Hout with
           | context [?u <? 0] => destruct (Z.ltb_spec u 0)
           | context [?u >=? ?v] => destruct (Z.geb_spec u v)
           end; try discriminate Hout;
    rewrite int32_small by lia;
    (eexists; split; [apply Hfin, Hval | split; [apply Hval|]]);
    try exact Cx; try exact Cy;
    try (replace (y q + -1 * 2 ^ (P4EST_MAXLEVEL - level q) + 2 ^ P4EST_MAXLEVEL)
           with (y q - 2 ^ (P4EST_MAXLEVEL - level q) + 2 ^ P4EST_MAXLEVEL) by ring;
         apply Ty1; lia);
    try (replace (x q + -1 * 2 ^ (P4EST_MAXLEVEL - level q) + 2 ^ P4EST_MAXLEVEL)
           with (x q - 2 ^ (P4EST_MAXLEVEL - level q) + 2 ^ P4EST_MAXLEVEL) by ring;
         apply Tx1; lia);
    try (replace (y q + 1 * 2 ^ (P4EST_MAXLEVEL - level q) - 2 ^ P4EST_MAXLEVEL)
           with (y q + 2 ^ (P4EST_MAXLEVEL - level q) - 2 ^ P4EST_MAXLEVEL) by ring;
         apply Ty2; lia);
    try (replace (x q + 1 * 2 ^ (P4EST_MAXLEVEL - level q) - 2 ^ P4EST_MAXLEVEL)
           with (x q + 2 ^ (P4EST_MAXLEVEL - level q) - 2 ^ P4EST_MAXLEVEL) by ring;
         apply Tx2; lia);
    cbn [x y z level]; (split; [reflexivity|]); lia.
Qed.

(** ** Neighbours across a corner *)

Lemma corner_steps (corner : Z) :
  0 <= corner < 8 ->
  2 * Z.land corner 1 - 1 = corner_offset corner AX /\
  Z.land corner 2 - 1 = corner_offset corner AY /\
  Z.quot (Z.land corner 4) 2 - 1 = corner_offset corner AZ.
Proof.
  intros H. destruct (small_id_cases corner H) as [E|[E|[E|[E|[E|[E|[E|E]]]]]]];
    subst corner; repeat split; reflexivity.
Qed.

Lemma corner_offset_range (corner : Z) (a : axis) : -1 <= corner_offset corner a <= 1.
Proof. unfold corner_offset. destruct (Z.testbit corner (axis_rank a)); cbn; lia. Qed.

Lemma corner_offset_opposite (corner : Z) (a : axis) :
  0 <= corner < P4EST_CHILDREN -> In a axes ->
  0 <= P4EST_CHILDREN - 1 - corner < P4EST_CHILDREN /\
  corner_offset (P4EST_CHILDREN - 1 - corner) a = - corner_offset corner a.
Proof.
  unfold P4EST_CHILDREN, axes. destruct P4_TO_P8; intros Hc Ha; (split; [lia|]).
  - destruct (small_id_cases corner Hc) as [E|[E|[E|[E|[E|[E|[E|E]]]]]]]; subst corner;
      cbn [In] in Ha; repeat destruct Ha as [<-|Ha]; try contradiction; reflexivity.
  - assert (E : corner = 0 \/ corner = 1 \/ corner = 2 \/ corner = 3) by lia.
    destruct E as [E|[E|[E|E]]]; subst corner;
      cbn [In] in Ha; repeat destruct Ha as [<-|Ha]; try contradiction; reflexivity.
Qed.

Lemma children_le_8 : 0 < P4EST_CHILDREN <= 8.
Proof. unfold P4EST_CHILDREN. destruct P4_TO_P8; lia. Qed.

(** What [p4est_quadrant_corner_neighbor] stores in [r]. *)
Lemma corner_neighbor_done (q r : p4est_quadrant_t) (corner : Z) :
  p4est_quadrant_is_valid q = true -> 0 <= corner < P4EST_CHILDREN ->
  let n := mkquad (x q + corner_offset corner AX * P4EST_QUADRANT_LEN (level q))
                  (y q + corner_offset corner AY * P4EST_QUADRANT_LEN (level q))
                  (if P4_TO_P8
                   then z q + corner_offset corner AZ * P4EST_QUADRANT_LEN (level q)
                   else z r)
                  (level q) in
  p4est_quadrant_corner_neighbor q corner r = Done n /\
  p4est_quadrant_is_extended n = true.
Proof.
  intros Hv Hc. cbv zeta. pose proof children_le_8 as H8.
  pose proof (proj1 (is_valid_spec q) Hv) as (Hl & Cx & Cy & Cz).
  match goal with |- _ /\ p4est_quadrant_is_extended ?t = true => set (n := t) end.
  assert (Hne : p4est_quadrant_is_extended n = true).
  { apply is_extended_spec. subst n. cbn [x y z level].
    split; [exact Hl|].
    split; [apply shift_coord; auto using corner_offset_range|].
    split; [apply shift_coord; auto using corner_offset_range|].
    intros Hd. rewrite Hd. apply shift_coord; auto using corner_offset_range. }
  split; [|exact Hne].
  unfold p4est_quadrant_corner_neighbor.
  rewrite (P4EST_ASSERT_holds ((0 <=? corner) && (corner <? P4EST_CHILDREN)))
    by (apply andb_true_iff; split; [apply Z.leb_le | apply Z.ltb_lt]; lia).
  rewrite (P4EST_ASSERT_holds _ Hv). cbn [bind].
  destruct (corner_steps corner ltac:(lia)) as (-> & -> & ->).
  pose proof (fun k Hk => shift_coord (level q) (x q) k Hl Cx Hk) as Sx.
  pose proof (fun k Hk => shift_coord (level q) (y q) k Hl Cy Hk) as Sy.
  destruct (Sx _ (corner_offset_range corner AX)) as (_ & Ix & Bx & _).
  destruct (Sy _ (corner_offset_range corner AY)) as (_ & Iy & By & _).
  pose proof (Sx 0 ltac:(lia)) as (_ & _ & Bx0 & _).
  pose proof (Sy 0 ltac:(lia)) as (_ & _ & By0 & _).
  pose proof pow2_MAXLEVEL_le as HP.
  assert (H31 : 2 ^ 31 = 2 * 2 ^ 30) by reflexivity.
  assert (Hk : forall k, -1 <= k <= 1 ->
            - 2 ^ 31 <= k * P4EST_QUADRANT_LEN (level q) < 2 ^ 31).
  { intros k Hk. rewrite QUADRANT_LEN_pow. unfold P4EST_QMAXLEVEL in Hl.
    pose proof (pow2_pos (P4EST_MAXLEVEL - level q) ltac:(lia)).
    pose proof (pow2_le_mono (P4EST_MAXLEVEL - level q) P4EST_MAXLEVEL ltac:(lia)).
    nia. }
  rewrite (int32_small (corner_offset corner AX * _))
    by apply Hk, corner_offset_range.
  rewrite (int32_small (corner_offset corner AY * _))
    by apply Hk, corner_offset_range.
  rewrite (int32_small (x q + _)) by lia.
  rewrite (int32_small (y q + _)) by lia.
  assert (Hres : forall t : p4est_quadrant_t, t = n ->
            (P4EST_ASSERT (p4est_quadrant_is_extended t) ;;; Done t) = Done n).
  { intros t ->. rewrite (P4EST_ASSERT_holds _ Hne). reflexivity. }
  apply Hres. subst n. destruct P4_TO_P8 eqn:Hd; [|reflexivity].
  pose proof (fun k Hk => shift_coord (level q) (z q) k Hl (Cz eq_refl) Hk) as Sz.
  destruct (Sz _ (corner_offset_range corner AZ)) as (_ & Iz & Bz & _).
  pose proof (Sz 0 ltac:(lia)) as (_ & _ & Bz0 & _).
  rewrite (int32_small (corner_offset corner AZ * _))
    by apply Hk, corner_offset_range.
  rewrite (int32_small (z q + _)) by lia.
  reflexivity.
Qed.

(** The corner neighbour of a valid quadrant, for a corner number in
    range, is an extended quadrant of the same level, one side length
    away along every axis; when it is valid, its neighbour across the
    opposite corner has the coordinates of the quadrant one started
    from. *)
Theorem corner_neighbor_round_trip (q r r' : p4est_quadrant_t) (corner : Z) :
  p4est_quadrant_is_valid q = true -> 0 <= corner < P4EST_CHILDREN ->
  exists n,
    p4est_quadrant_corner_neighbor q corner r = Done n /\
    p4est_quadrant_is_extended n = true /\
    level n = level q /\
    (forall a, In a axes ->
       coord a n = coord a q + corner_offset corner a * P4EST_QUADRANT_LEN (level q)) /\
    (p4est_quadrant_is_valid n = true ->
     exists q',
       p4est_quadrant_corner_neighbor n (P4EST_CHILDREN - 1 - corner) r' = Done q' /\
       x q' = x q /\ y q' = y q /\ (P4_TO_P8 = true -> z q' = z q) /\
       level q' = level q).
Proof.
  intros Hv Hc.
  destruct (corner_neighbor_done q r corner Hv Hc) as [Hn Hne]. cbv zeta in Hn, Hne.
  eexists. split; [exact Hn|]. split; [exact Hne|]. split; [reflexivity|].
  split.
  - intros a. unfold axes. destruct P4_TO_P8; cbn [In]; intros Ha;
      repeat destruct Ha as [<-|Ha]; try contradiction; reflexivity.
  - intros Hnv.
    assert (Hax : In AX axes) by (unfold axes; destruct P4_TO_P8; cbn; auto).
    assert (Hay : In AY axes) by (unfold axes; destruct P4_TO_P8; cbn; auto).
    destruct (corner_offset_opposite corner AX Hc Hax) as [Ho Ox].
    destruct (corner_offset_opposite corner AY Hc Hay) as [_ Oy].
    destruct (corner_neighbor_done _ r' (P4EST_CHILDREN - 1 - corner) Hnv Ho) as [Hq' _].
    cbv zeta in Hq'. eexists. split; [exact Hq'|].
    cbn [x y z level]. rewrite Ox, Oy.
    split; [ring|]. split; [ring|]. split; [|reflexivity].
    intros Hd. rewrite Hd.
    assert (Haz : In AZ axes) by (unfold axes; rewrite Hd; cbn; auto).
    destruct (corner_offset_opposite corner AZ Hc Haz) as [_ Oz].
    rewrite Oz. ring.
Qed.

(** ** Quadrants around a node *)

Lemma clear_bits_below_div (p c : Z) :
  0 <= p -> clear_bits_below p c = 2 ^ p * (c / 2 ^ p).
Proof.
  intros Hp. apply Z.bits_inj'. intros j Hj. rewrite clear_bits_below_bit by lia.
  rewrite Z.mul_comm, <- Z.shiftl_mul_pow2, Z.shiftl_spec by lia.
  destruct (Z.leb_spec p j).
  - rewrite Z.div_pow2_bits by lia. cbn [andb]. f_equal. ring.
  - symmetry. apply Z.testbit_neg_r. lia.
Qed.

(** One coordinate of the quadrant of level [l] around a clamped node. *)
Lemma node_quadrant_coord (l c : Z) :
  0 <= l <= P4EST_QMAXLEVEL -> node_coord true c ->
  let c' := clear_bits_below (P4EST_MAXLEVEL - l) c in
  coord_valid l c' /\ c' <= c < c' + P4EST_QUADRANT_LEN l /\
  forall v, coord_valid l v -> v <= c < v + P4EST_QUADRANT_LEN l -> v = c'.
Proof.
  unfold P4EST_QMAXLEVEL, node_coord, coord_valid. intros Hl [Hr _]. cbv zeta.
  rewrite QUADRANT_LEN_pow. cbn [Z.b2z] in Hr.
  set (p := P4EST_MAXLEVEL - l). assert (Hp : 0 <= p) by (subst p; lia).
  rewrite (clear_bits_below_div p c Hp).
  pose proof (pow2_pos p Hp) as Hpp.
  pose proof (Z.div_mod c (2 ^ p) ltac:(lia)) as Hdm.
  pose proof (Z.mod_pos_bound c (2 ^ p) Hpp) as Hm.
  assert (Hd : 0 <= c / 2 ^ p) by (apply Z.div_pos; lia).
  split; [split|split].
  - rewrite Z.mul_comm. apply Z.mod_mul. lia.
  - nia.
  - lia.
  - intros v [Hv _] Hvc. apply Z.mod_divide in Hv; [|lia]. destruct Hv as [t ->].
    rewrite Z.mul_comm. f_equal.
    apply (Z.div_unique c (2 ^ p) t (c - t * 2 ^ p)); lia.
Qed.

Lemma node_to_quadrant_done (n r : p4est_quadrant_t) (lvl : Z) :
  p4est_quadrant_is_node n true = true -> 0 <= lvl <= P4EST_QMAXLEVEL ->
  let q := mkquad (clear_bits_below (P4EST_MAXLEVEL - lvl) (x n))
                  (clear_bits_below (P4EST_MAXLEVEL - lvl) (y n))
                  (if P4_TO_P8 then clear_bits_below (P4EST_MAXLEVEL - lvl) (z n)
                   else z r)
                  lvl in
  p4est_node_to_quadrant n lvl r = Done q /\
  p4est_quadrant_is_valid q = true.
Proof.
  intros Hn Hl. cbv zeta. pose proof MAXLEVEL_le_30 as HM.
  pose proof (proj1 (is_node_spec n true) Hn) as (_ & Nx & Ny & Nz).
  match goal with |- _ /\ p4est_quadrant_is_valid ?t = true => set (q := t) end.
  assert (Hqv : p4est_quadrant_is_valid q = true).
  { apply is_valid_spec. subst q. cbn [x y z level]. split; [exact Hl|].
    split; [apply (node_quadrant_coord lvl (x n) Hl Nx)|].
    split; [apply (node_quadrant_coord lvl (y n) Hl Ny)|].
    intros Hd. rewrite Hd. apply (node_quadrant_coord lvl (z n) Hl (Nz Hd)). }
  split; [|exact Hqv].
  unfold p4est_node_to_quadrant. unfold P4EST_QMAXLEVEL in Hl.
  rewrite (P4EST_ASSERT_holds _ Hn).
  rewrite (P4EST_ASSERT_holds ((0 <=? lvl) && (lvl <=? P4EST_QMAXLEVEL)))
    by (unfold P4EST_QMAXLEVEL; apply andb_true_iff; split; apply Z.leb_le; lia).
  cbn [bind]. rewrite !nca_mask by lia. rewrite (int8_small lvl) by lia.
  match goal with |- context [P4EST_ASSERT (p4est_quadrant_is_valid ?t)] =>
    replace t with q by (subst q; destruct P4_TO_P8; reflexivity) end.
  rewrite (P4EST_ASSERT_holds _ Hqv). reflexivity.
Qed.

Lemma contains_node_value (q n : p4est_quadrant_t) :
  p4est_quadrant_is_valid q = true -> p4est_quadrant_is_node n true = true ->
  exists b,
    p4est_quadrant_contains_node q n = Done b /\
    (b = true <->
     forall a, In a axes ->
       coord a q <= coord a n < coord a q + P4EST_QUADRANT_LEN (level q)).
Proof.
  intros Hv Hn. pose proof (proj1 (is_valid_spec q) Hv) as (Hl & Cx & Cy & Cz).
  unfold p4est_quadrant_contains_node.
  rewrite (P4EST_ASSERT_holds _ Hv), (P4EST_ASSERT_holds _ Hn). cbn [bind].
  pose proof (shift_coord (level q) (x q) 1 Hl Cx ltac:(lia)) as (_ & Ix & _).
  pose proof (shift_coord (level q) (y q) 1 Hl Cy ltac:(lia)) as (_ & Iy & _).
  rewrite Z.mul_1_l in Ix, Iy.
  rewrite (int32_small (x q + _)) by exact Ix.
  rewrite (int32_small (y q + _)) by exact Iy.
  eexists. split; [reflexivity|].
  destruct P4_TO_P8 eqn:Hd.
  - pose proof (shift_coord (level q) (z q) 1 Hl (Cz eq_refl) ltac:(lia)) as (_ & Iz & _).
    rewrite Z.mul_1_l in Iz. rewrite (int32_small (z q + _)) by exact Iz.
    rewrite (in_axes_3d _ Hd). cbn [coord axis_select].
    rewrite !andb_true_iff, !Z.leb_le, !Z.ltb_lt. tauto.
  - rewrite (in_axes_2d _ Hd). cbn [coord axis_select].
    rewrite !andb_true_iff, !Z.leb_le, !Z.ltb_lt. tauto.
Qed.

(** [p4est_node_to_quadrant] yields, for a clamped node and a level in
    range, the valid quadrant of that level that contains the node
    ([p4est_quadrant_contains_node]), and no other valid quadrant of that
    level contains it. *)
Theorem node_to_quadrant_is_the_container (n r : p4est_quadrant_t) (lvl : Z) :
  p4est_quadrant_is_node n true = true -> 0 <= lvl <= P4EST_QMAXLEVEL ->
  exists q,
    p4est_node_to_quadrant n lvl r = Done q /\
    p4est_quadrant_is_valid q = true /\
    level q = lvl /\
    p4est_quadrant_contains_node q n = Done true /\
    forall q',
      p4est_quadrant_is_valid q' = true -> level q' = lvl ->
      p4est_quadrant_contains_node q' n = Done true ->
      forall a, In a axes -> coord a q' = coord a q.
Proof.
  intros Hn Hl.
  destruct (node_to_quadrant_done n r lvl Hn Hl) as [Hq Hqv]. cbv zeta in Hq, Hqv.
  eexists. split; [exact Hq|]. split; [exact Hqv|]. split; [reflexivity|].
  match type of Hqv with p4est_quadrant_is_valid ?t = true => set (q := t) in * end.
  pose proof (proj1 (is_node_spec n true) Hn) as (_ & Nx & Ny & Nz).
  assert (Hnc : forall a, In a axes -> node_coord true (coord a n)).
  { intros a. unfold axes. destruct P4_TO_P8; cbn [In]; intros Ha;
      repeat destruct Ha as [<-|Ha]; try contradiction; cbn [coord axis_select]; auto. }
  assert (Hqc : forall a, In a axes ->
            coord a q = clear_bits_below (P4EST_MAXLEVEL - lvl) (coord a n)).
  { apply coords_of_fields; subst q; cbn [x y z]; auto. intros ->. reflexivity. }
  split.
  - destruct (contains_node_value q n Hqv Hn) as (b & Hb & Hbv).
    rewrite Hb. f_equal. apply Hbv. intros a Ha. rewrite (Hqc a Ha).
    apply (node_quadrant_coord lvl (coord a n) Hl (Hnc a Ha)).
  - intros q' Hv' Hl' Hc' a Ha.
    destruct (contains_node_value q' n Hv' Hn) as (b & Hb & Hbv).
    rewrite Hb in Hc'. injection Hc' as ->.
    rewrite (Hqc a Ha).
    apply (node_quadrant_coord lvl (coord a n) Hl (Hnc a Ha)).
    + rewrite <- Hl'. apply (is_valid_coord q' a Hv' Ha).
    + rewrite <- Hl'. apply (proj1 Hbv eq_refl a Ha).
Qed.

(** ** Corner nodes *)

Lemma corner_node_steps (corner : Z) :
  0 <= corner < 8 ->
  Z.land corner 1 = Z.b2z (Z.testbit corner 0) /\
  Z.shiftr (Z.land corner 2) 1 = Z.b2z (Z.testbit corner 1) /\
  Z.shiftr (Z.land corner 4) 2 = Z.b2z (Z.testbit corner 2).
Proof.
  intros H. destruct (small_id_cases corner H) as [E|[E|[E|[E|[E|[E|[E|E]]]]]]];
    subst corner; repeat split; reflexivity.
Qed.

Lemma corner_node_coord (l c : Z) (b : bool) :
  0 <= l <= P4EST_QMAXLEVEL -> coord_valid l c ->
  node_coord false (c + Z.b2z b * P4EST_QUADRANT_LEN l) /\
  - 2 ^ 31 <= Z.b2z b * P4EST_QUADRANT_LEN l < 2 ^ 31 /\
  - 2 ^ 31 <= c + Z.b2z b * P4EST_QUADRANT_LEN l < 2 ^ 31.
Proof.
  intros Hl Hc.
  assert (Hb : -1 <= Z.b2z b <= 1) by (destruct b; cbn; lia).
  destruct (shift_coord l c (Z.b2z b) Hl Hc Hb) as ([Hal _] & I & B & _).
  destruct Hc as [Hc0 Hr]. unfold P4EST_QMAXLEVEL in Hl.
  pose proof pow2_MAXLEVEL_le as HP.
  assert (H31 : 2 ^ 31 = 2 * 2 ^ 30) by reflexivity.
  rewrite QUADRANT_LEN_pow in *.
  pose proof (pow2_pos (P4EST_MAXLEVEL - l) ltac:(lia)) as Hp.
  pose proof (pow2_le_mono (P4EST_MAXLEVEL - l) P4EST_MAXLEVEL ltac:(lia)) as Hle.
  split; [|split; [destruct b; cbn [Z.b2z]; lia | exact I]].
  unfold node_coord. cbn [Z.b2z]. split.
  - destruct b; cbn [Z.b2z] in *; lia.
  - left. apply (aligned_weaken _ 1 (P4EST_MAXLEVEL - l)) in Hal; [|lia].
    exact Hal.
Qed.

(** What [p4est_quadrant_corner_node] stores in [r]. *)
Lemma corner_node_done (q r : p4est_quadrant_t) (corner : Z) :
  p4est_quadrant_is_valid q = true -> 0 <= corner < P4EST_CHILDREN ->
  let n := mkquad (x q + Z.b2z (Z.testbit corner 0) * P4EST_QUADRANT_LEN (level q))
                  (y q + Z.b2z (Z.testbit corner 1) * P4EST_QUADRANT_LEN (level q))
                  (if P4_TO_P8
                   then z q + Z.b2z (Z.testbit corner 2) * P4EST_QUADRANT_LEN (level q)
                   else z r)
                  P4EST_MAXLEVEL in
  p4est_quadrant_corner_node q corner r = Done n /\
  p4est_quadrant_is_node n false = true.
Proof.
  intros Hv Hc. cbv zeta. pose proof children_le_8 as H8.
  pose proof (proj1 (is_valid_spec q) Hv) as (Hl & Cx & Cy & Cz).
  destruct (corner_node_coord (level q) (x q) (Z.testbit corner 0) Hl Cx) as (Nx & Kx & Ix).
  destruct (corner_node_coord (level q) (y q) (Z.testbit corner 1) Hl Cy) as (Ny & Ky & Iy).
  match goal with |- _ /\ p4est_quadrant_is_node ?t false = true => set (n := t) end.
  assert (Hnn : p4est_quadrant_is_node n false = true).
  { apply is_node_spec. subst n. cbn [x y z level]. split; [reflexivity|].
    split; [exact Nx|]. split; [exact Ny|]. intros Hd. rewrite Hd.
    apply (corner_node_coord (level q) (z q) (Z.testbit corner 2) Hl (Cz Hd)). }
  split; [|exact Hnn].
  unfold p4est_quadrant_corner_node.
  rewrite (P4EST_ASSERT_holds ((0 <=? corner) && (corner <? P4EST_CHILDREN)))
    by (apply andb_true_iff; split; [apply Z.leb_le | apply Z.ltb_lt]; lia).
  rewrite (P4EST_ASSERT_holds _ Hv). cbn [bind].
  destruct (corner_node_steps corner ltac:(lia)) as (-> & -> & ->).
  rewrite (int32_small (Z.b2z (Z.testbit corner 0) * _)) by exact Kx.
  rewrite (int32_small (Z.b2z (Z.testbit corner 1) * _)) by exact Ky.
  rewrite (int32_small (x q + _)) by exact Ix.
  rewrite (int32_small (y q + _)) by exact Iy.
  assert (Hres : forall t : p4est_quadrant_t, t = n ->
            (P4EST_ASSERT (p4est_quadrant_is_node t false) ;;; Done t) = Done n).
  { intros t ->. rewrite (P4EST_ASSERT_holds _ Hnn). reflexivity. }
  apply Hres. subst n. destruct P4_TO_P8 eqn:Hd; [|reflexivity].
  destruct (corner_node_coord (level q) (z q) (Z.testbit corner 2) Hl (Cz eq_refl))
    as (_ & Kz & Iz).
  rewrite (int32_small (Z.b2z (Z.testbit corner 2) * _)) by exact Kz.
  rewrite (int32_small (z q + _)) by exact Iz.
  reflexivity.
Qed.

(** [p4est_quadrant_corner_node] yields, for a valid quadrant and a
    corner number in range, an unclamped node: the corner of the
    quadrant that the bits of the corner number select.  From its lowest
    corner node, clamped, [p4est_node_to_quadrant] at the level of the
    quadrant leads back to the coordinates of the quadrant. *)
Theorem corner_node_is_node (q r : p4est_quadrant_t) (corner : Z) :
  p4est_quadrant_is_valid q = true -> 0 <= corner < P4EST_CHILDREN ->
  exists n,
    p4est_quadrant_corner_node q corner r = Done n /\
    p4est_quadrant_is_node n false = true /\
    (forall a, In a axes ->
       coord a n = coord a q +
                   Z.b2z (Z.testbit corner (axis_rank a)) * P4EST_QUADRANT_LEN (level q)) /\
    (corner = 0 ->
     exists c q',
       p4est_node_clamp_inside n r = Done c /\
       p4est_node_to_quadrant c (level q) r = Done q' /\
       level q' = level q /\
       forall a, In a axes -> coord a q' = coord a q).
Proof.
  intros Hv Hc.
  destruct (corner_node_done q r corner Hv Hc) as [Hn Hnn]. cbv zeta in Hn, Hnn.
  eexists. split; [exact Hn|]. split; [exact Hnn|]. split.
  - intros a. unfold axes. destruct P4_TO_P8; cbn [In]; intros Ha;
      repeat destruct Ha as [<-|Ha]; try contradiction; reflexivity.
  - intros ->. clear Hn.
    pose proof (proj1 (is_valid_spec q) Hv) as (Hl & Cx & Cy & Cz).
    revert Hnn. cbn [Z.testbit Z.b2z]. rewrite !Z.mul_0_l, !Z.add_0_r.
    set (n := mkquad (x q) (y q) (if P4_TO_P8 then z q else z r) P4EST_MAXLEVEL).
    intros Hnn.
    set (c := mkquad (x q) (y q) (if P4_TO_P8 then z q else z r) P4EST_MAXLEVEL).
    assert (Hcn : p4est_quadrant_is_node c true = true).
    { assert (Hev : forall v, coord_valid (level q) v -> node_coord true v).
      { intros v [Hal Hr]. unfold node_coord. cbn [Z.b2z]. split; [lia|]. left.
        unfold P4EST_QMAXLEVEL in Hl.
        apply (aligned_weaken v 1 (P4EST_MAXLEVEL - level q)); [lia | exact Hal]. }
      apply is_node_spec. subst c. cbn [x y z level]. split; [reflexivity|].
      split; [apply Hev, Cx|]. split; [apply Hev, Cy|].
      intros Hd. rewrite Hd. apply Hev, Cz, Hd. }
    assert (Hclamp : p4est_node_clamp_inside n r = Done c).
    { unfold p4est_node_clamp_inside. rewrite (P4EST_ASSERT_holds _ Hnn). cbn [bind].
      rewrite ROOT_LEN_pow. subst n. cbn [x y z].
      destruct Cx as [_ Rx], Cy as [_ Ry].
      destruct (Z.eqb_spec (x q) (2 ^ P4EST_MAXLEVEL)); [lia|].
      destruct (Z.eqb_spec (y q) (2 ^ P4EST_MAXLEVEL)); [lia|].
      assert (Hres : forall t : p4est_quadrant_t, t = c ->
                (P4EST_ASSERT (p4est_quadrant_is_node t true) ;;; Done t) = Done c).
      { intros t ->. rewrite (P4EST_ASSERT_holds _ Hcn). reflexivity. }
      apply Hres. subst c. destruct P4_TO_P8 eqn:Hd; [|reflexivity].
      destruct (Cz eq_refl) as [_ Rz].
      destruct (Z.eqb_spec (z q) (2 ^ P4EST_MAXLEVEL)); [lia|]. reflexivity. }
    destruct (node_to_quadrant_done c r (level q) Hcn Hl) as [Hq' _]. cbv zeta in Hq'.
    exists c. eexists. split; [exact Hclamp|]. split; [exact Hq'|].
    split; [reflexivity|].
    unfold P4EST_QMAXLEVEL in Hl.
    intros a. unfold axes. destruct P4_TO_P8; cbn [In]; intros Ha;
      repeat destruct Ha as [<-|Ha]; try contradiction; subst c;
      cbn [coord axis_select x y z];
      apply clear_bits_below_aligned; try lia;
      try apply Cx; try apply Cy; apply (Cz eq_refl).
Qed.

(** ** Touching a corner of the root *)

Lemma corner_sides (corner : Z) :
  0 <= corner < 8 ->
  Z.rem corner 2 = Z.b2z (Z.testbit corner 0) /\
  Z.rem (Z.quot corner 2) 2 = Z.b2z (Z.testbit corner 1) /\
  Z.quot corner 4 = Z.b2z (Z.testbit corner 2).
Proof.
  intros H. destruct (small_id_cases corner H) as [E|[E|[E|[E|[E|[E|[E|E]]]]]]];
    subst corner; repeat split; reflexivity.
Qed.

Lemma array_get_pair (s0 s1 : Z) (b : bool) :
  array_get [s0; s1] (Z.b2z b) = if b then s1 else s0.
Proof. destruct b; reflexivity. Qed.

(** The counting of contacts in [p4est_quadrant_touches_corner] amounts
    to a test per axis. *)
Lemma touches_corner_eq (q : p4est_quadrant_t) (corner : Z) (inside : bool) :
  0 <= corner < P4EST_CHILDREN ->
  p4est_quadrant_touches_corner q corner inside =
  (bounds <- (if level q =? P4EST_MAXLEVEL then
                P4EST_ASSERT (p4est_quadrant_is_node q inside) ;;;
                Done (0, P4EST_ROOT_LEN - Z.b2z inside)
              else if negb inside then
                P4EST_ASSERT (p4est_quadrant_is_extended q) ;;;
                Done (- P4EST_QUADRANT_LEN (level q), P4EST_ROOT_LEN)
              else
                P4EST_ASSERT (p4est_quadrant_is_valid q) ;;;
                Done (0, P4EST_LAST_OFFSET (level q))) ;;
   Done ((x q =? corner_target (fst bounds) (snd bounds) corner AX) &&
         (y q =? corner_target (fst bounds) (snd bounds) corner AY) &&
         (if P4_TO_P8
          then z q =? corner_target (fst bounds) (snd bounds) corner AZ
          else true))).
Proof.
  intros Hc. pose proof children_le_8 as H8.
  unfold p4est_quadrant_touches_corner.
  rewrite (P4EST_ASSERT_holds ((0 <=? corner) && (corner <? P4EST_CHILDREN)))
    by (apply andb_true_iff; split; [apply Z.leb_le | apply Z.ltb_lt]; lia).
  cbn [bind].
  match goal with |- bind ?m _ = bind ?m _ => destruct m as [[lo up]| |] end;
    cbn [bind fst snd]; try reflexivity.
  destruct (corner_sides corner ltac:(lia)) as (-> & -> & ->).
  unfold corner_target, P4EST_DIM. cbn [axis_rank]. f_equal.
  destruct P4_TO_P8, (Z.testbit corner 0), (Z.testbit corner 1), (Z.testbit corner 2);
    cbn [Z.b2z Z.add Pos.add Pos.succ app]; unfold array_get;
    cbn [Z.to_nat Pos.to_nat Pos.iter_op Nat.add nth];
    destruct (x q =? lo), (x q =? up), (y q =? lo), (y q =? up),
      (z q =? lo), (z q =? up); reflexivity.
Qed.

Lemma transform_corner_store (q : p4est_quadrant_t) (corner s0 s1 : Z) :
  0 <= corner < P4EST_CHILDREN ->
  (if P4_TO_P8
   then set_z (set_y (set_x q (array_get [s0; s1] (Z.rem corner 2)))
                     (array_get [s0; s1] (Z.rem (Z.quot corner 2) 2)))
              (array_get [s0; s1] (Z.quot corner 4))
   else set_y (set_x q (array_get [s0; s1] (Z.rem corner 2)))
              (array_get [s0; s1] (Z.rem (Z.quot corner 2) 2))) =
  mkquad (corner_target s0 s1 corner AX) (corner_target s0 s1 corner AY)
         (if P4_TO_P8 then corner_target s0 s1 corner AZ else z q) (level q).
Proof.
  intros Hc. pose proof children_le_8 as H8.
  destruct (corner_sides corner ltac:(lia)) as (-> & -> & ->).
  rewrite !array_get_pair. unfold corner_target. cbn [axis_rank].
  destruct P4_TO_P8; reflexivity.
Qed.

Lemma corner_target_cases (lower upper corner : Z) (a : axis) :
  corner_target lower upper corner a = lower \/
  corner_target lower upper corner a = upper.
Proof. unfold corner_target. destruct (Z.testbit corner (axis_rank a)); auto. Qed.

(** [p4est_quadrant_transform_corner] moves a quadrant, or an unclamped
    node, onto corner number [corner] of the root: it returns, its
    closing assertion passes, and [p4est_quadrant_touches_corner]
    accepts the result, which keeps the level. *)
Theorem transform_corner_touches_corner (q : p4est_quadrant_t) (corner : Z)
  (inside : bool) :
  0 <= corner < P4EST_CHILDREN ->
  (level q = P4EST_MAXLEVEL /\ inside = false) \/ 0 <= level q <= P4EST_QMAXLEVEL ->
  exists t,
    p4est_quadrant_transform_corner q corner inside = Done t /\
    level t = level q /\
    p4est_quadrant_touches_corner t corner inside = Done true.
Proof.
  intros Hc Hl. pose proof MAXLEVEL_le_30 as HM. pose proof children_le_8 as H8.
  pose proof (pow2_pos P4EST_MAXLEVEL ltac:(lia)) as HR.
  unfold p4est_quadrant_transform_corner.
  rewrite (P4EST_ASSERT_holds ((0 <=? corner) && (corner <? P4EST_CHILDREN)))
    by (apply andb_true_iff; split; [apply Z.leb_le | apply Z.ltb_lt]; lia).
  cbn [bind].
  assert (Hfin : forall t : p4est_quadrant_t,
            p4est_quadrant_touches_corner t corner inside = Done true ->
            (P4EST_ASSERT_CALL (p4est_quadrant_touches_corner t corner inside) ;;; Done t)
            = Done t).
  { intros t Ht. unfold P4EST_ASSERT_CALL. rewrite Ht.
    destruct P4EST_DEBUG; reflexivity. }
  assert (Heven : forall k, 1 <= k -> (2 ^ k) mod 2 = 0).
  { intros k Hk. replace k with (1 + (k - 1)) by ring.
    rewrite Z.pow_add_r by lia. change (2 ^ 1) with 2.
    rewrite Z.mul_comm. apply Z.mod_mul. lia. }
  destruct Hl as [[Hl ->]|Hl].
  - (* an unclamped node *)
    rewrite Hl, Z.eqb_refl. cbn [negb]. rewrite P4EST_ASSERT_true. cbn [bind].
    cbv zeta. rewrite (transform_corner_store q corner 0 P4EST_ROOT_LEN Hc).
    set (t := mkquad _ _ _ _).
    assert (Ht : p4est_quadrant_touches_corner t corner false = Done true).
    { rewrite touches_corner_eq by exact Hc. subst t. cbn [level x y z].
      rewrite Hl, Z.eqb_refl.
      rewrite (P4EST_ASSERT_holds (p4est_quadrant_is_node _ false)).
      - cbn [bind fst snd Z.b2z]. rewrite Z.sub_0_r.
        destruct P4_TO_P8; rewrite !Z.eqb_refl; reflexivity.
      - apply is_node_spec. cbn [level x y z]. split; [reflexivity|].
        assert (Hn : forall a, node_coord false (corner_target 0 P4EST_ROOT_LEN corner a)).
        { intros a. unfold node_coord. cbn [Z.b2z]. rewrite ROOT_LEN_pow.
          destruct (corner_target_cases 0 (2 ^ P4EST_MAXLEVEL) corner a) as [-> | ->].
          - split; [lia | left; reflexivity].
          - split; [lia | left; apply Heven; lia]. }
        split; [apply Hn|]. split; [apply Hn|]. intros Hd. rewrite Hd. apply Hn. }
    exists t. split; [apply Hfin, Ht|]. split; [subst t; cbn; lia | exact Ht].
  - (* a quadrant *)
    unfold P4EST_QMAXLEVEL in Hl.
    destruct (Z.eqb_spec (level q) P4EST_MAXLEVEL) as [E|_]; [lia|].
    rewrite (P4EST_ASSERT_holds ((0 <=? level q) && (level q <=? P4EST_QMAXLEVEL)))
      by (unfold P4EST_QMAXLEVEL; apply andb_true_iff; split; apply Z.leb_le; lia).
    cbn [bind].
    cbv zeta. rewrite (transform_corner_store q corner _ _ Hc).
    set (t := mkquad _ _ _ _).
    pose proof (pow2_pos (P4EST_MAXLEVEL - level q) ltac:(lia)) as Hp.
    pose proof (pow2_le_mono (P4EST_MAXLEVEL - level q) P4EST_MAXLEVEL ltac:(lia)) as Hle.
    assert (Hs : 2 ^ P4EST_MAXLEVEL
                 = 2 ^ level q * 2 ^ (P4EST_MAXLEVEL - level q)).
    { rewrite <- Z.pow_add_r by lia. f_equal. lia. }
    assert (Hroot : (2 ^ P4EST_MAXLEVEL) mod 2 ^ (P4EST_MAXLEVEL - level q) = 0).
    { rewrite Hs. apply Z.mod_mul. lia. }
    assert (Ht : p4est_quadrant_touches_corner t corner inside = Done true).
    { rewrite touches_corner_eq by exact Hc. subst t. cbn [level x y z].
      destruct (Z.eqb_spec (level q) P4EST_MAXLEVEL) as [E|_]; [lia|].
      destruct inside; cbn [negb].
      - rewrite (P4EST_ASSERT_holds (p4est_quadrant_is_valid _)).
        + cbn [bind fst snd]. destruct P4_TO_P8; rewrite !Z.eqb_refl; reflexivity.
        + apply is_valid_spec. cbn [level x y z].
          split; [unfold P4EST_QMAXLEVEL; lia|].
          assert (Hn : forall a,
                    coord_valid (level q)
                      (corner_target 0 (P4EST_LAST_OFFSET (level q)) corner a)).
          { intros a. unfold coord_valid, P4EST_LAST_OFFSET.
            rewrite ROOT_LEN_pow, QUADRANT_LEN_pow.
            destruct (corner_target_cases 0
                        (2 ^ P4EST_MAXLEVEL - 2 ^ (P4EST_MAXLEVEL - level q)) corner a)
              as [-> | ->].
            - split; [apply Z.mod_0_l; lia | lia].
            - split; [|lia].
              replace (2 ^ P4EST_MAXLEVEL - 2 ^ (P4EST_MAXLEVEL - level q))
                with (2 ^ P4EST_MAXLEVEL + (-1) * 2 ^ (P4EST_MAXLEVEL - level q)) by ring.
              rewrite Z.mod_add by lia. exact Hroot. }
          split; [apply Hn|]. split; [apply Hn|]. intros Hd. rewrite Hd. apply Hn.
      - rewrite (P4EST_ASSERT_holds (p4est_quadrant_is_extended _)).
        + cbn [bind fst snd]. destruct P4_TO_P8; rewrite !Z.eqb_refl; reflexivity.
        + apply is_extended_spec. cbn [level x y z].
          split; [unfold P4EST_QMAXLEVEL; lia|].
          assert (Hn : forall a,
                    coord_extended (level q)
                      (corner_target (- P4EST_QUADRANT_LEN (level q)) P4EST_ROOT_LEN
                         corner a)).
          { intros a. unfold coord_extended.
            rewrite ROOT_LEN_pow, QUADRANT_LEN_pow.
            destruct (corner_target_cases (- 2 ^ (P4EST_MAXLEVEL - level q))
                        (2 ^ P4EST_MAXLEVEL) corner a) as [-> | ->].
            - split; [|lia].
              replace (- 2 ^ (P4EST_MAXLEVEL - level q))
                with (0 + (-1) * 2 ^ (P4EST_MAXLEVEL - level q)) by ring.
              rewrite Z.mod_add by lia. apply Z.mod_0_l. lia.
            - split; [exact Hroot | lia]. }
          split; [apply Hn|]. split; [apply Hn|]. intros Hd. rewrite Hd. apply Hn. }
    exists t. split; [apply Hfin, Ht|]. split; [reflexivity | exact Ht].
Qed.

(** ** Rigid transforms across a face (2D) *)

Lemma transform_cases (t : Z) :
  0 <= t < 8 ->
  t = 0 \/ t = 1 \/ t = 2 \/ t = 3 \/ t = 4 \/ t = 5 \/ t = 6 \/ t = 7.
Proof. lia. Qed.

Lemma is_node_level (q : p4est_quadrant_t) (inside : bool) :
  level q <> P4EST_MAXLEVEL -> p4est_quadrant_is_node q inside = false.
Proof.
  intros H. unfold p4est_quadrant_is_node.
  rewrite (proj2 (Z.eqb_neq _ _) H). reflexivity.
Qed.

Lemma reflect_node_coord (c : Z) :
  node_coord false c ->
  node_coord false (P4EST_ROOT_LEN - c) /\
  - 2 ^ 31 <= P4EST_ROOT_LEN - c < 2 ^ 31.
Proof.
  unfold node_coord. cbn [Z.b2z]. rewrite ROOT_LEN_pow. intros [Hr He].
  pose proof pow2_MAXLEVEL_le as HP. pose proof MAXLEVEL_le_30 as HM.
  assert (H31 : 2 ^ 31 = 2 * 2 ^ 30) by reflexivity.
  split; [|lia]. split; [lia|]. left.
  destruct He as [He|[He _]]; [|discriminate].
  assert (HR : (2 ^ P4EST_MAXLEVEL) mod 2 = 0).
  { replace P4EST_MAXLEVEL with (1 + (P4EST_MAXLEVEL - 1)) by ring.
    rewrite Z.pow_add_r by lia. change (2 ^ 1) with 2.
    rewrite Z.mul_comm. apply Z.mod_mul. lia. }
  rewrite Zminus_mod, HR, He. reflexivity.
Qed.

Lemma reflect_extended_coord (l c : Z) :
  0 <= l <= P4EST_QMAXLEVEL -> coord_extended l c ->
  coord_extended l (P4EST_LAST_OFFSET l - c) /\
  - 2 ^ 31 <= P4EST_LAST_OFFSET l - c < 2 ^ 31.
Proof.
  unfold coord_extended, P4EST_LAST_OFFSET, P4EST_QMAXLEVEL.
  rewrite ROOT_LEN_pow, QUADRANT_LEN_pow. intros Hl [Hal Hr].
  pose proof pow2_MAXLEVEL_le as HP. pose proof MAXLEVEL_le_30 as HM.
  assert (H31 : 2 ^ 31 = 2 * 2 ^ 30) by reflexivity.
  set (h := P4EST_MAXLEVEL - l) in *. assert (Hh : 0 <= h <= P4EST_MAXLEVEL) by (subst h; lia).
  pose proof (pow2_pos h ltac:(lia)) as Hp.
  pose proof (pow2_le_mono h P4EST_MAXLEVEL Hh) as Hle.
  pose proof (aligned_step c h (P4EST_MAXLEVEL + 1) ltac:(lia) Hal ltac:(rewrite pow2_double; lia))
    as Hst.
  rewrite pow2_double in Hst by lia.
  assert (Hs : 2 ^ P4EST_MAXLEVEL = 2 ^ (P4EST_MAXLEVEL - h) * 2 ^ h).
  { rewrite <- Z.pow_add_r by lia. f_equal. lia. }
  split; [|lia]. split; [|lia].
  apply Z.mod_divide in Hal; [|lia]. destruct Hal as [t Ht].
  replace (2 ^ P4EST_MAXLEVEL - 2 ^ h - c)
    with ((2 ^ (P4EST_MAXLEVEL - h) - 1 - t) * 2 ^ h) by (rewrite Ht; lia).
  apply Z.mod_mul. lia.
Qed.

(** What [p4est_quadrant_transform_face] stores in [r], in the 2D build. *)
Lemma transform_face_done (q r : p4est_quadrant_t) (t : Z) :
  P4_TO_P8 = false ->
  p4est_quadrant_is_node q false = true \/ p4est_quadrant_is_extended q = true ->
  0 <= t < 8 ->
  let th := if p4est_quadrant_is_node q false
            then P4EST_ROOT_LEN else P4EST_LAST_OFFSET (level q) in
  let r1 := mkquad (fst (transform_face_coords t th (x q) (y q)))
                   (snd (transform_face_coords t th (x q) (y q)))
                   (z r) (level q) in
  p4est_quadrant_transform_face q r t = Done r1 /\
  p4est_quadrant_is_node r1 false = p4est_quadrant_is_node q false /\
  (p4est_quadrant_is_node q false = false -> p4est_quadrant_is_extended r1 = true).
Proof.
  intros Hd Hq Ht. cbv zeta.
  unfold p4est_quadrant_transform_face.
  rewrite (P4EST_ASSERT_holds ((0 <=? t) && (t <? 8)))
    by (apply andb_true_iff; split; [apply Z.leb_le | apply Z.ltb_lt]; lia).
  cbn [bind].
  destruct (p4est_quadrant_is_node q false) eqn:Hn.
  - (* an unclamped node *)
    pose proof (proj1 (is_node_spec q false) Hn) as (Hl & Nx & Ny & _).
    destruct (reflect_node_coord (x q) Nx) as [Rx Ix].
    destruct (reflect_node_coord (y q) Ny) as [Ry Iy].
    assert (Hnode : forall vx vy, node_coord false vx -> node_coord false vy ->
              p4est_quadrant_is_node (mkquad vx vy (z r) (level q)) false = true).
    { intros vx vy Hx Hy. apply is_node_spec. cbn [x y z level].
      split; [exact Hl|]. split; [exact Hx|]. split; [exact Hy|].
      intros E. rewrite Hd in E. discriminate E. }
    cbn [bind]. unfold transform_face_coords.
    destruct (transform_cases t Ht) as [E|[E|[E|[E|[E|[E|[E|E]]]]]]]; subst t;
      cbn [Z.eqb Pos.eqb bind fst snd]; unfold set_level, set_y, set_x; cbn [x y z level];
      rewrite ?int32_small by assumption;
      (rewrite (Hnode _ _) by assumption); cbn [orb];
      rewrite P4EST_ASSERT_true; cbn [bind];
      (split; [reflexivity|]); (split; [reflexivity | intros E; discriminate E]).
  - (* an extended quadrant *)
    destruct Hq as [Hq|Hq]; [discriminate|].
    rewrite (P4EST_ASSERT_holds _ Hq). cbn [bind].
    pose proof (proj1 (is_extended_spec q) Hq) as (Hl & Cx & Cy & _).
    destruct (reflect_extended_coord (level q) (x q) Hl Cx) as [Rx Ix].
    destruct (reflect_extended_coord (level q) (y q) Hl Cy) as [Ry Iy].
    assert (Hext : forall vx vy,
              coord_extended (level q) vx -> coord_extended (level q) vy ->
              p4est_quadrant_is_extended (mkquad vx vy (z r) (level q)) = true).
    { intros vx vy Hx Hy. apply is_extended_spec. cbn [x y z level].
      split; [exact Hl|]. split; [exact Hx|]. split; [exact Hy|].
      intros E. rewrite Hd in E. discriminate E. }
    assert (Hnn : forall vx vy,
              p4est_quadrant_is_node (mkquad vx vy (z r) (level q)) false = false).
    { intros vx vy. apply is_node_level. cbn [level]. unfold P4EST_QMAXLEVEL in Hl. lia. }
    unfold transform_face_coords.
    destruct (transform_cases t Ht) as [E|[E|[E|[E|[E|[E|[E|E]]]]]]]; subst t;
      cbn [Z.eqb Pos.eqb bind fst snd]; unfold set_level, set_y, set_x; cbn [x y z level];
      rewrite ?int32_small by assumption;
      rewrite Hnn; (rewrite (Hext _ _) by assumption); cbn [orb];
      rewrite P4EST_ASSERT_true; cbn [bind];
      (split; [reflexivity|]); (split; [reflexivity|]); intros _; reflexivity.
Qed.

(** In the 2D build [p4est_quadrant_transform_face] maps unclamped nodes
    to unclamped nodes and extended quadrants to extended quadrants of
    the same level, and the inverse transform applied to the result
    gives back the coordinates one started from. *)
Theorem transform_face_inverse (q r r' : p4est_quadrant_t) (t : Z) :
  P4_TO_P8 = false ->
  p4est_quadrant_is_node q false = true \/ p4est_quadrant_is_extended q = true ->
  0 <= t < 8 ->
  exists r1 r2,
    p4est_quadrant_transform_face q r t = Done r1 /\
    p4est_quadrant_is_node r1 false = p4est_quadrant_is_node q false /\
    (p4est_quadrant_is_extended q = true -> p4est_quadrant_is_extended r1 = true) /\
    level r1 = level q /\
    p4est_quadrant_transform_face r1 r' (inverse_transform t) = Done r2 /\
    x r2 = x q /\ y r2 = y q /\ level r2 = level q.
Proof.
  intros Hd Hq Ht.
  destruct (transform_face_done q r t Hd Hq Ht) as (H1 & Hn1 & He1). cbv zeta in H1, Hn1, He1.
  set (th := if p4est_quadrant_is_node q false
             then P4EST_ROOT_LEN else P4EST_LAST_OFFSET (level q)) in *.
  set (r1 := mkquad _ _ _ _) in *.
  assert (Hq1 : p4est_quadrant_is_node r1 false = true \/
                p4est_quadrant_is_extended r1 = true).
  { rewrite Hn1. destruct (p4est_quadrant_is_node q false); auto. }
  assert (Hti : 0 <= inverse_transform t < 8).
  { unfold inverse_transform.
    destruct (Z.eqb_spec t 1); [lia|]. destruct (Z.eqb_spec t 3); lia. }
  destruct (transform_face_done r1 r' _ Hd Hq1 Hti) as (H2 & _ & _). cbv zeta in H2.
  rewrite Hn1 in H2. fold th in H2.
  exists r1. eexists. split; [exact H1|]. split; [exact Hn1|].
  split.
  { intros He. apply He1. apply is_node_level.
    pose proof (extended_level q He). lia. }
  split; [reflexivity|]. split; [exact H2|].
  subst r1. subst th. cbn [x y z level].
  unfold inverse_transform, transform_face_coords.
  destruct (transform_cases t Ht) as [E|[E|[E|[E|[E|[E|[E|E]]]]]]]; subst t;
    cbn [Z.eqb Pos.eqb fst snd]; repeat split; ring.
Qed.

(** ** Morton index, parent and child identifier *)

Lemma child_id_bits (q : p4est_quadrant_t) :
  p4est_quadrant_is_extended q = true -> 0 < level q ->
  exists cid,
    p4est_quadrant_child_id q = Done cid /\
    0 <= cid < P4EST_CHILDREN /\
    forall a, In a axes ->
      Z.testbit cid (axis_rank a) = Z.testbit (coord a q) (P4EST_MAXLEVEL - level q).
Proof.
  intros He Hl. pose proof (extended_level q He) as Hlq.
  set (bx := Z.testbit (x q) (P4EST_MAXLEVEL - level q)).
  set (by_ := Z.testbit (y q) (P4EST_MAXLEVEL - level q)).
  set (bz := Z.testbit (z q) (P4EST_MAXLEVEL - level q)).
  exists (Z.lor (Z.lor (Z.b2z bx) (2 * Z.b2z by_))
                (if P4_TO_P8 then 4 * Z.b2z bz else 0)).
  split.
  - unfold p4est_quadrant_child_id, p4est_quadrant_ancestor_id.
    rewrite (P4EST_ASSERT_holds _ He).
    rewrite (P4EST_ASSERT_holds ((0 <=? level q) && (level q <=? P4EST_MAXLEVEL)))
      by (apply andb_true_iff; split; apply Z.leb_le; lia).
    rewrite (P4EST_ASSERT_holds (level q >=? level q)) by (apply Z.geb_le; lia).
    cbn [bind].
    destruct (Z.eqb_spec (level q) 0) as [E0|_]; [lia|].
    rewrite QUADRANT_LEN_pow, !land_pow2_testbit by lia.
    fold bx by_ bz. f_equal.
    destruct P4_TO_P8, bx, by_, bz; reflexivity.
  - unfold P4EST_CHILDREN, axes.
    destruct P4_TO_P8, bx eqn:Ex, by_ eqn:Ey, bz eqn:Ez; cbn;
      (split; [lia|]); intros a Ha;
      repeat destruct Ha as [<-|Ha]; try contradiction;
      cbn [coord axis_select axis_rank]; fold bx by_ bz;
      rewrite ?Ex, ?Ey, ?Ez; reflexivity.
Qed.

Lemma CHILDREN_pow : P4EST_CHILDREN = 2 ^ P4EST_DIM.
Proof. unfold P4EST_CHILDREN, P4EST_DIM. destruct P4_TO_P8; reflexivity. Qed.

(** The Morton index of a quadrant at its own level is that of its
    parent, shifted by one group of [D] bits, plus its child identifier:
    [linear_id (q, l) = 2^D * linear_id (parent (q), l - 1) + child_id (q)]. *)
Theorem linear_id_parent_child (q r : p4est_quadrant_t) :
  p4est_quadrant_is_extended q = true -> 0 < level q ->
  exists id p pid cid,
    p4est_quadrant_linear_id q (level q) = Done id /\
    p4est_quadrant_parent q r = Done p /\
    p4est_quadrant_linear_id p (level p) = Done pid /\
    p4est_quadrant_child_id q = Done cid /\
    id = P4EST_CHILDREN * pid + cid.
Proof.
  intros He Hl. pose proof (extended_level q He) as Hlq.
  pose proof MAXLEVEL_le_30 as HM. pose proof DIM_range as HD.
  destruct (parent_done q r He Hl) as [Hp Hpe].
  destruct (parent_result_fields q r He) as (Pl & _ & Pc).
  destruct (child_id_bits q He Hl) as (cid & Hcid & Hcr & Hcb).
  exists (linear_id_result q (level q)), (parent_result q r),
    (linear_id_result (parent_result q r) (level (parent_result q r))), cid.
  split; [apply linear_id_done; [exact He | lia]|].
  split; [exact Hp|].
  split; [apply linear_id_done; [exact Hpe | rewrite Pl; lia]|].
  split; [exact Hcid|].
  rewrite Pl, CHILDREN_pow.
  rewrite CHILDREN_pow in Hcr.
  pose proof (linear_id_result_nonneg (parent_result q r) (level q - 1)) as Hpn.
  pose proof (pow2_pos P4EST_DIM ltac:(lia)) as Hpd.
  apply Z.bits_inj'. intros k Hk.
  destruct (position_split k Hk) as (i & a & Ha & Hi & ->).
  pose proof (axis_rank_range a Ha) as Ra.
  rewrite linear_id_result_bit by (auto; lia).
  destruct (Z.eq_dec i 0) as [->|Hi0].
  - (* the lowest group: the child identifier *)
    rewrite Z.mul_0_r, !Z.add_0_l.
    set (pid := linear_id_result (parent_result q r) (level q - 1)) in *.
    replace (2 ^ P4EST_DIM * pid + cid) with (cid + pid * 2 ^ P4EST_DIM) by ring.
    rewrite <- (Z.mod_pow2_bits_low (cid + pid * 2 ^ P4EST_DIM) P4EST_DIM (axis_rank a))
      by lia.
    rewrite Z.mod_add, Z.mod_small by lia.
    rewrite (Hcb a Ha).
    destruct (Z.ltb_spec 0 (level q + 2)); [reflexivity | lia].
  - (* the groups above: the index of the parent *)
    replace (P4EST_DIM * i + axis_rank a)
      with (P4EST_DIM * (i - 1) + axis_rank a + P4EST_DIM) by ring.
    set (pid := linear_id_result (parent_result q r) (level q - 1)) in *.
    replace (2 ^ P4EST_DIM * pid + cid) with (cid + pid * 2 ^ P4EST_DIM) by ring.
    rewrite <- (Z.div_pow2_bits (cid + pid * 2 ^ P4EST_DIM)) by nia.
    rewrite Z.div_add, Z.div_small, Z.add_0_l by lia.
    subst pid.
    rewrite linear_id_result_bit by (auto; lia).
    replace (i - 1 + (P4EST_MAXLEVEL - (level q - 1))) with (i + (P4EST_MAXLEVEL - level q))
      by ring.
    rewrite (parent_bits_above q r a) by (auto; lia).
    destruct (Z.ltb_spec i (level q + 2)), (Z.ltb_spec (i - 1) (level q - 1 + 2));
      try lia; reflexivity.
Qed.

(** ** The successor test and the order *)

(** Whenever [p4est_quadrant_is_next (q, r)] holds, the total order
    places [q] before [r]; in particular no quadrant is its own
    successor. *)
Theorem is_next_implies_before (q r : p4est_quadrant_t) :
  p4est_quadrant_is_extended q = true ->
  p4est_quadrant_is_extended r = true ->
  exists b c,
    p4est_quadrant_is_next q r = Done b /\
    p4est_quadrant_compare q r = Done c /\
    (b = true -> c = -1).
Proof.
  intros Hq Hr.
  pose proof (extended_level q Hq) as Hlq. pose proof (extended_level r Hr) as Hlr.
  pose proof (is_extended_comparable q Hq) as Cq.
  pose proof (is_extended_comparable r Hr) as Cr.
  rewrite (p4est_quadrant_is_next_value q r Hq Hr).
  rewrite (compare_by_key q r Cq Cr).
  do 2 eexists. split; [reflexivity|]. split; [reflexivity|].
  intros Hb.
  assert (Hc : p4est_quadrant_compare q r = Done (-1)).
  { destruct (level q >? level r).
    - apply andb_true_iff in Hb. destruct Hb as [_ Hb].
      apply (linear_id_succ_compare q r (level r)); auto; unfold P4EST_QMAXLEVEL; lia.
    - apply (linear_id_succ_compare q r (level q)); auto; unfold P4EST_QMAXLEVEL; lia. }
  rewrite (compare_by_key q r Cq Cr) in Hc. injection Hc as Hc. exact Hc.
Qed.

(** ** The nearest common ancestor is one, and the deepest *)

Lemma ancestor_or_equal_bits (c q : p4est_quadrant_t) :
  p4est_quadrant_is_extended c = true -> p4est_quadrant_is_extended q = true ->
  (ancestor_or_equal c q <->
   level c <= level q /\
   forall a, In a axes ->
             agree_from (P4EST_MAXLEVEL - level c) (coord a c) (coord a q)).
Proof.
  intros Hc Hq. unfold ancestor_or_equal.
  pose proof (extended_level c Hc) as Hlc. pose proof (extended_level q Hq) as Hlq.
  destruct (is_equal_value c q (is_extended_comparable c Hc) (is_extended_comparable q Hq))
    as (e & He & Hev).
  destruct (is_ancestor_value c q Hc Hq) as (b & Hb & Hbv).
  rewrite He, Hb. split.
  - intros [E|E]; injection E as ->.
    + destruct (proj1 Hev eq_refl) as [El Hs]. split; [lia|].
      intros a Ha i _. rewrite (Hs a Ha). reflexivity.
    + destruct (proj1 Hbv eq_refl) as [Hlt Hag]. split; [lia | exact Hag].
  - intros [Hle Hag].
    destruct (Z.eq_dec (level c) (level q)) as [El|Nl].
    + left. f_equal. apply Hev. split; [exact El|]. intros a Ha.
      apply (aligned_agree_eq (level c)); [lia | | | apply Hag; exact Ha].
      * apply (extended_coord c a Hc Ha).
      * rewrite El. apply (extended_coord q a Hq Ha).
    + right. f_equal. apply Hbv. split; [lia | exact Hag].
Qed.

(** For extended quadrants [q1], [q2] of one tree,
    [p4est_nearest_common_ancestor] returns an extended quadrant that is
    an ancestor of, or equal to, each of them; every extended quadrant
    with that property is an ancestor of, or equal to, the result; and
    exchanging the arguments changes neither level nor coordinates. *)
Theorem nearest_common_ancestor_is_deepest (q1 q2 r : p4est_quadrant_t) :
  p4est_quadrant_is_extended q1 = true ->
  p4est_quadrant_is_extended q2 = true ->
  same_tree q1 q2 ->
  exists a,
    p4est_nearest_common_ancestor q1 q2 r = Done a /\
    p4est_quadrant_is_extended a = true /\
    ancestor_or_equal a q1 /\ ancestor_or_equal a q2 /\
    (forall c, p4est_quadrant_is_extended c = true ->
               ancestor_or_equal c q1 -> ancestor_or_equal c q2 ->
               ancestor_or_equal c a) /\
    exists a',
      p4est_nearest_common_ancestor q2 q1 r = Done a' /\
      level a' = level a /\ forall ax, In ax axes -> coord ax a' = coord ax a.
Proof.
  intros H1 H2 Htree.
  pose proof (extended_level q1 H1) as L1. pose proof (extended_level q2 H2) as L2.
  destruct (nca_spec q1 q2 r H1 H2 Htree) as (a & lev & Ea & Hnca & Al & Az & Ax & Ay).
  pose proof Hnca as (Hlev & Hag & Hmax).
  assert (Hac : forall ax, In ax axes ->
            coord ax a = clear_bits_below (P4EST_MAXLEVEL - lev) (coord ax q1)).
  { apply coords_of_fields; auto. intros Hd. rewrite Az, Hd. reflexivity. }
  assert (Hae : p4est_quadrant_is_extended a = true).
  { apply is_extended_of_coords; rewrite Al; [unfold P4EST_QMAXLEVEL; lia|].
    intros ax Hax. rewrite (Hac ax Hax).
    apply clear_bits_below_extended; [unfold P4EST_QMAXLEVEL; lia | reflexivity|].
    apply (extended_coord q1 ax H1 Hax). }
  assert (Hbits : forall ax, In ax axes ->
            agree_from (P4EST_MAXLEVEL - lev) (coord ax a) (coord ax q1)).
  { intros ax Hax i Hi. rewrite (Hac ax Hax), clear_bits_below_bit by lia.
    destruct (Z.leb_spec (P4EST_MAXLEVEL - lev) i); [reflexivity | lia]. }
  exists a. split; [exact Ea|]. split; [exact Hae|].
  split; [|split; [|split]].
  - apply ancestor_or_equal_bits; auto. rewrite Al. split; [lia | exact Hbits].
  - apply ancestor_or_equal_bits; auto. rewrite Al. split; [lia|].
    intros ax Hax i Hi. rewrite (Hbits ax Hax i Hi). apply Hag; auto.
  - intros c Hc Hc1 Hc2.
    pose proof (extended_level c Hc) as Lc.
    apply (ancestor_or_equal_bits c q1 Hc H1) in Hc1. destruct Hc1 as [Hl1 Hb1].
    apply (ancestor_or_equal_bits c q2 Hc H2) in Hc2. destruct Hc2 as [Hl2 Hb2].
    apply ancestor_or_equal_bits; auto. rewrite Al.
    assert (Hle : level c <= lev).
    { destruct (Z.le_gt_cases (level c) lev) as [H|H]; [exact H|]. exfalso.
      apply Hmax; [lia|]. intros ax Hax i Hi.
      rewrite <- (Hb1 ax Hax i), <- (Hb2 ax Hax i) by lia. reflexivity. }
    split; [exact Hle|]. intros ax Hax i Hi.
    rewrite (Hbits ax Hax i) by lia. apply Hb1; auto.
  - assert (Htree' : same_tree q2 q1).
    { intros ax Hax. symmetry. apply Htree, Hax. }
    destruct (nca_spec q2 q1 r H2 H1 Htree') as (a' & lev' & Ea' & Hnca' & Al' & Az' & Ax' & Ay').
    assert (Hsym : nca_level q1 q2 lev').
    { destruct Hnca' as (Hl' & Hag' & Hmax'). split; [lia|]. split.
      - intros ax Hax i Hi. symmetry. apply Hag'; auto.
      - intros Hlt Hall. apply Hmax'; [lia|]. intros ax Hax i Hi. symmetry.
        apply Hall; auto. }
    pose proof (nca_level_unique q1 q2 _ _ Hnca Hsym) as Elev.
    rewrite <- Elev in *. clear Elev.
    exists a'. split; [exact Ea'|]. split; [lia|].
    assert (Hac' : forall ax, In ax axes ->
              coord ax a' = clear_bits_below (P4EST_MAXLEVEL - lev) (coord ax q2)).
    { apply coords_of_fields; auto. intros Hd. rewrite Az', Hd. reflexivity. }
    intros ax Hax. rewrite (Hac ax Hax), (Hac' ax Hax).
    apply Z.bits_inj'. intros i Hi. rewrite !clear_bits_below_bit by lia.
    destruct (Z.leb_spec (P4EST_MAXLEVEL - lev) i); [|reflexivity].
    cbn [andb]. symmetry. apply Hag; auto.
Qed.

(** ** Children, parent and child identifier (2D) *)

(** One coordinate of a child of a quadrant of level [l]. *)
Lemma child_coord (l c : Z) (b : bool) :
  0 <= l < P4EST_QMAXLEVEL -> coord_extended l c ->
  let c' := c + Z.b2z b * P4EST_QUADRANT_LEN (l + 1) in
  coord_extended (l + 1) c' /\
  Z.land c' (Z.lnot (P4EST_QUADRANT_LEN (l + 1))) = c /\
  (Z.land c' (P4EST_QUADRANT_LEN (l + 1)) =? 0) = negb b /\
  (if b then Z.lor c (P4EST_QUADRANT_LEN (l + 1)) else c) = c'.
Proof.
  intros Hl Hc. cbv zeta.
  destruct (child_coord_extended l c Hl Hc) as (C0 & C1 & Clor & Cland).
  unfold P4EST_QMAXLEVEL in Hl.
  assert (Hk : 0 <= P4EST_MAXLEVEL - (l + 1)) by lia.
  assert (Hclr : Z.land c (Z.lnot (P4EST_QUADRANT_LEN (l + 1))) = c).
  { rewrite QUADRANT_LEN_pow in *. apply Z.bits_inj'. intros j Hj.
    rewrite clear_bit_testbit by lia.
    destruct (Z.eqb_spec j (P4EST_MAXLEVEL - (l + 1))) as [->|_];
      [|apply andb_true_r].
    pose proof (land_pow2_testbit c _ Hk) as Hb. rewrite Cland in Hb.
    cbn in Hb. destruct (Z.testbit c (P4EST_MAXLEVEL - (l + 1))); [discriminate | reflexivity]. }
  destruct (sibling_coord (l + 1) c b ltac:(unfold P4EST_QMAXLEVEL; lia) C0)
    as (S1 & S2 & S3 & _).
  cbv zeta in S1, S2, S3.
  assert (E : (if b then Z.lor c (P4EST_QUADRANT_LEN (l + 1))
               else Z.land c (Z.lnot (P4EST_QUADRANT_LEN (l + 1))))
              = c + Z.b2z b * P4EST_QUADRANT_LEN (l + 1)).
  { destruct b; cbn [Z.b2z]; [rewrite Clor | rewrite Hclr]; ring. }
  rewrite E in S1, S2, S3. rewrite Hclr in S2.
  split; [exact S1|]. split; [exact S2|]. split; [exact S3|].
  destruct b; cbn [Z.b2z]; [rewrite Clor|]; ring.
Qed.

(** A child of [q], as [p4est_quadrant_children] builds it, seen by
    [p4est_quadrant_child_id], [p4est_quadrant_is_parent] and
    [p4est_quadrant_parent]. *)
Lemma child_seen (q r : p4est_quadrant_t) (bx by_ : bool) (zz : Z) :
  P4_TO_P8 = false ->
  p4est_quadrant_is_extended q = true -> level q < P4EST_QMAXLEVEL ->
  let c := mkquad (x q + Z.b2z bx * P4EST_QUADRANT_LEN (level q + 1))
                  (y q + Z.b2z by_ * P4EST_QUADRANT_LEN (level q + 1))
                  zz (level q + 1) in
  p4est_quadrant_is_extended c = true /\
  p4est_quadrant_child_id c = Done (Z.b2z bx + 2 * Z.b2z by_) /\
  p4est_quadrant_is_parent q c = Done true /\
  p4est_quadrant_parent c r = Done (mkquad (x q) (y q) (z r) (level q)).
Proof.
  intros Hd He Hl. cbv zeta.
  pose proof (extended_level q He) as Hlq.
  pose proof (proj1 (is_extended_spec q) He) as (_ & Cx & Cy & _).
  assert (HL : 0 <= level q < P4EST_QMAXLEVEL) by lia.
  destruct (child_coord (level q) (x q) bx HL Cx) as (Ex & Px & Ix & _).
  destruct (child_coord (level q) (y q) by_ HL Cy) as (Ey & Py & Iy & _).
  cbv zeta in Ex, Px, Ix, Ey, Py, Iy.
  set (c := mkquad _ _ _ _).
  assert (Hce : p4est_quadrant_is_extended c = true).
  { apply is_extended_spec. subst c. cbn [x y z level].
    split; [lia|]. split; [exact Ex|]. split; [exact Ey|].
    intros E. rewrite Hd in E. discriminate E. }
  split; [exact Hce|]. unfold P4EST_QMAXLEVEL in Hl. split; [|split].
  - unfold p4est_quadrant_child_id, p4est_quadrant_ancestor_id.
    rewrite (P4EST_ASSERT_holds _ Hce). subst c. cbn [x y z level].
    rewrite (P4EST_ASSERT_holds ((0 <=? level q + 1) && (level q + 1 <=? P4EST_MAXLEVEL)))
      by (apply andb_true_iff; split; apply Z.leb_le; lia).
    rewrite (P4EST_ASSERT_holds (level q + 1 >=? level q + 1)) by (apply Z.geb_le; lia).
    cbn [bind].
    destruct (Z.eqb_spec (level q + 1) 0) as [E0|_]; [lia|].
    rewrite Ix, Iy, Hd. f_equal. destruct bx, by_; reflexivity.
  - unfold p4est_quadrant_is_parent.
    rewrite (P4EST_ASSERT_holds _ He), (P4EST_ASSERT_holds _ Hce). cbn [bind].
    subst c. cbn [x y z level]. rewrite Px, Py, Hd, !Z.eqb_refl. reflexivity.
  - destruct (parent_done c r Hce ltac:(subst c; cbn [level]; lia)) as [Hp _].
    rewrite Hp, (parent_result_record c r Hce). subst c. cbn [x y z level].
    rewrite Px, Py, Hd. f_equal. f_equal. ring.
Qed.

(** What [p4est_quadrant_children] stores in [c0] .. [c3]. *)
Lemma children_done (q d0 d1 d2 d3 : p4est_quadrant_t) :
  P4_TO_P8 = false ->
  p4est_quadrant_is_extended q = true -> level q < P4EST_QMAXLEVEL ->
  let h := P4EST_QUADRANT_LEN (level q + 1) in
  p4est_quadrant_children q d0 d1 d2 d3 =
  Done (mkquad (x q + Z.b2z false * h) (y q + Z.b2z false * h) (z d0) (level q + 1),
        mkquad (x q + Z.b2z true * h) (y q + Z.b2z false * h) (z d1) (level q + 1),
        mkquad (x q + Z.b2z false * h) (y q + Z.b2z true * h) (z d2) (level q + 1),
        mkquad (x q + Z.b2z true * h) (y q + Z.b2z true * h) (z d3) (level q + 1)).
Proof.
  intros Hd He Hl. cbv zeta.
  pose proof (extended_level q He) as Hlq. pose proof MAXLEVEL_le_30 as HM.
  pose proof (proj1 (is_extended_spec q) He) as (_ & Cx & Cy & _).
  assert (HL : 0 <= level q < P4EST_QMAXLEVEL) by lia.
  destruct (child_seen q q false false (z d0) Hd He Hl) as (E0 & _).
  destruct (child_seen q q true false (z d1) Hd He Hl) as (E1 & _).
  destruct (child_seen q q false true (z d2) Hd He Hl) as (E2 & _).
  destruct (child_seen q q true true (z d3) Hd He Hl) as (E3 & _).
  cbv zeta in E0, E1, E2, E3.
  destruct (child_coord (level q) (x q) true HL Cx) as (Ex & _ & _ & Lx).
  destruct (child_coord (level q) (y q) true HL Cy) as (Ey & _ & _ & Ly).
  cbv zeta in Ex, Ey, Lx, Ly.
  pose proof (coord_extended_int32 _ _ Ex) as Rx.
  pose proof (coord_extended_int32 _ _ Ey) as Ry.
  unfold p4est_quadrant_children.
  rewrite (P4EST_ASSERT_holds _ He).
  rewrite (P4EST_ASSERT_holds (level q <? P4EST_QMAXLEVEL)) by (apply Z.ltb_lt; exact Hl).
  cbn [bind]. unfold set_level, set_y, set_x. cbn [x y z level].
  unfold P4EST_QMAXLEVEL in Hl.
  rewrite (int8_small (level q + 1)) by lia.
  rewrite Lx, Ly. cbn [Z.b2z] in *. rewrite !Z.mul_0_l, !Z.mul_1_l, !Z.add_0_r in *.
  assert (Hfam : P4EST_ASSERT_CALL
                   (p4est_quadrant_is_family
                      (mkquad (x q) (y q) (z d0) (level q + 1))
                      (mkquad (x q + P4EST_QUADRANT_LEN (level q + 1)) (y q) (z d1)
                         (level q + 1))
                      (mkquad (x q) (y q + P4EST_QUADRANT_LEN (level q + 1)) (z d2)
                         (level q + 1))
                      (mkquad (x q + P4EST_QUADRANT_LEN (level q + 1))
                         (y q + P4EST_QUADRANT_LEN (level q + 1)) (z d3) (level q + 1)))
                 = Done tt).
  { unfold P4EST_ASSERT_CALL. rewrite (is_family_value _ _ _ _ E0 E1 E2 E3).
    cbn [x y z level bind]. rewrite !int32_small by lia. rewrite !Z.eqb_refl.
    destruct (Z.eqb_spec (level q + 1) 0); [lia|]. cbn. destruct P4EST_DEBUG; reflexivity. }
  rewrite Hfam. reflexivity.
Qed.

(** In the 2D build the four quadrants that [p4est_quadrant_children]
    builds for an extended [q] above the deepest level have the child
    identifiers 0, 1, 2, 3 in this order, pass
    [p4est_quadrant_is_parent (q, .)], and [p4est_quadrant_parent] leads
    from each of them back to the coordinates and level of [q]. *)
Theorem children_have_ids_and_parent (q d0 d1 d2 d3 r : p4est_quadrant_t) :
  P4_TO_P8 = false ->
  p4est_quadrant_is_extended q = true -> level q < P4EST_QMAXLEVEL ->
  exists c0 c1 c2 c3,
    p4est_quadrant_children q d0 d1 d2 d3 = Done (c0, c1, c2, c3) /\
    p4est_quadrant_child_id c0 = Done 0 /\ p4est_quadrant_child_id c1 = Done 1 /\
    p4est_quadrant_child_id c2 = Done 2 /\ p4est_quadrant_child_id c3 = Done 3 /\
    forall c, In c [c0; c1; c2; c3] ->
      p4est_quadrant_is_parent q c = Done true /\
      exists p,
        p4est_quadrant_parent c r = Done p /\
        x p = x q /\ y p = y q /\ level p = level q.
Proof.
  intros Hd He Hl.
  pose proof (children_done q d0 d1 d2 d3 Hd He Hl) as Hch. cbv zeta in Hch.
  destruct (child_seen q r false false (z d0) Hd He Hl) as (_ & I0 & P0 & R0).
  destruct (child_seen q r true false (z d1) Hd He Hl) as (_ & I1 & P1 & R1).
  destruct (child_seen q r false true (z d2) Hd He Hl) as (_ & I2 & P2 & R2).
  destruct (child_seen q r true true (z d3) Hd He Hl) as (_ & I3 & P3 & R3).
  cbv zeta in I0, I1, I2, I3, P0, P1, P2, P3, R0, R1, R2, R3.
  do 4 eexists. split; [exact Hch|].
  split; [exact I0|]. split; [exact I1|]. split; [exact I2|]. split; [exact I3|].
  intros c [<-|[<-|[<-|[<-|[]]]]]; (split; [assumption|]);
    eexists; (split; [eassumption|]); cbn [x y z level]; auto.
Qed.

(** ** Validity tiers and the position against the root *)

(** A quadrant is valid exactly when it is extended and inside the root,
    and the root lies inside the 3x3 neighbourhood; being inside the root,
    outside across one face and outside across a corner exclude one
    another, and in the 2D build one of the three holds of every
    quadrant. *)
Theorem validity_and_root_position (q : p4est_quadrant_t) :
  p4est_quadrant_is_valid q =
    p4est_quadrant_is_extended q && p4est_quadrant_is_inside_root q /\
  (p4est_quadrant_is_inside_root q = true ->
   p4est_quadrant_is_inside_3x3 q = true) /\
  (p4est_quadrant_is_inside_root q = true ->
   p4est_quadrant_is_outside_face q = false /\
   p4est_quadrant_is_outside_corner q = false) /\
  (p4est_quadrant_is_outside_face q = true ->
   p4est_quadrant_is_outside_corner q = false) /\
  (P4_TO_P8 = false ->
   p4est_quadrant_is_inside_root q = true \/
   p4est_quadrant_is_outside_face q = true \/
   p4est_quadrant_is_outside_corner q = true).
Proof.
  pose proof MAXLEVEL_le_30 as HM.
  pose proof (pow2_pos P4EST_MAXLEVEL ltac:(lia)) as HR.
  unfold p4est_quadrant_is_valid, p4est_quadrant_is_extended,
    p4est_quadrant_is_inside_root, p4est_quadrant_is_inside_3x3,
    p4est_quadrant_is_outside_face, p4est_quadrant_is_outside_corner.
  rewrite ROOT_LEN_pow.
  destruct P4_TO_P8;
    destruct (Z.geb_spec (x q) 0), (Z.ltb_spec (x q) (2 ^ P4EST_MAXLEVEL)),
      (Z.geb_spec (y q) 0), (Z.ltb_spec (y q) (2 ^ P4EST_MAXLEVEL)),
      (Z.geb_spec (z q) 0), (Z.ltb_spec (z q) (2 ^ P4EST_MAXLEVEL)),
      (Z.ltb_spec (x q) 0), (Z.geb_spec (x q) (2 ^ P4EST_MAXLEVEL)),
      (Z.ltb_spec (y q) 0), (Z.geb_spec (y q) (2 ^ P4EST_MAXLEVEL)),
      (Z.ltb_spec (z q) 0), (Z.geb_spec (z q) (2 ^ P4EST_MAXLEVEL));
    try lia;
    destruct (Z.geb_spec (x q) (- 2 ^ P4EST_MAXLEVEL)),
      (Z.leb_spec (x q) (2 ^ P4EST_MAXLEVEL + (2 ^ P4EST_MAXLEVEL - 1))),
      (Z.geb_spec (y q) (- 2 ^ P4EST_MAXLEVEL)),
      (Z.leb_spec (y q) (2 ^ P4EST_MAXLEVEL + (2 ^ P4EST_MAXLEVEL - 1))),
      (Z.geb_spec (z q) (- 2 ^ P4EST_MAXLEVEL)),
      (Z.leb_spec (z q) (2 ^ P4EST_MAXLEVEL + (2 ^ P4EST_MAXLEVEL - 1)));
    try lia; cbn [andb orb Z.b2z Z.add Z.eqb Pos.add Pos.eqb Pos.succ];
    rewrite ?andb_true_r, ?andb_false_r;
    repeat split; try reflexivity; try discriminate; auto;
    try (intros E; discriminate E).
Qed.

(** ** Half-size neighbours across a face (2D) *)

(** The closing part of [p4est_quadrant_half_face_neighbors], for two
    children [n0], [n1] of the face neighbour [fn]. *)
Lemma half_face_tail (fn r : p4est_quadrant_t) (b0x b0y b1x b1y : bool) (z0 z1 : Z)
  (nur : option (p4est_quadrant_t * p4est_quadrant_t)) :
  P4_TO_P8 = false ->
  p4est_quadrant_is_extended fn = true -> level fn < P4EST_QMAXLEVEL ->
  let h := P4EST_QUADRANT_LEN (level fn + 1) in
  let n0 := mkquad (x fn + Z.b2z b0x * h) (y fn + Z.b2z b0y * h) z0 (level fn + 1) in
  let n1 := mkquad (x fn + Z.b2z b1x * h) (y fn + Z.b2z b1y * h) z1 (level fn + 1) in
  let dh := h - P4EST_QUADRANT_LEN P4EST_QMAXLEVEL in
  let up (n u : p4est_quadrant_t) := mkquad (x n + dh) (y n + dh) (z u) P4EST_QMAXLEVEL in
  (P4EST_ASSERT (p4est_quadrant_is_extended n0) ;;;
   P4EST_ASSERT (p4est_quadrant_is_extended n1) ;;;
   match nur with
   | None => Done (n0, n1, None)
   | Some (nur0, nur1) =>
       let dh := int32 (h - P4EST_QUADRANT_LEN P4EST_QMAXLEVEL) in
       let nur0 := set_x nur0 (int32 (x n0 + dh)) in
       let nur0 := set_y nur0 (int32 (y n0 + dh)) in
       let nur0 := set_level nur0 P4EST_QMAXLEVEL in
       P4EST_ASSERT (p4est_quadrant_is_extended nur0) ;;;
       let nur1 := set_x nur1 (int32 (x n1 + dh)) in
       let nur1 := set_y nur1 (int32 (y n1 + dh)) in
       let nur1 := set_level nur1 P4EST_QMAXLEVEL in
       P4EST_ASSERT (p4est_quadrant_is_extended nur1) ;;;
       Done (n0, n1, Some (nur0, nur1))
   end) =
  Done (n0, n1, match nur with
                | None => None
                | Some (nur0, nur1) => Some (up n0 nur0, up n1 nur1)
                end) /\
  p4est_quadrant_is_parent fn n0 = Done true /\
  p4est_quadrant_is_parent fn n1 = Done true /\
  p4est_quadrant_last_descendent n0 r P4EST_QMAXLEVEL = Done (up n0 r) /\
  p4est_quadrant_last_descendent n1 r P4EST_QMAXLEVEL = Done (up n1 r).
Proof.
  intros Hd He Hl. cbv zeta.
  destruct (child_seen fn r b0x b0y z0 Hd He Hl) as (E0 & _ & P0 & _).
  destruct (child_seen fn r b1x b1y z1 Hd He Hl) as (E1 & _ & P1 & _).
  cbv zeta in E0, E1, P0, P1.
  set (n0 := mkquad _ _ z0 _) in *. set (n1 := mkquad _ _ z1 _) in *.
  pose proof (extended_level fn He) as Hlf.
  assert (HL : forall n, level n = level fn + 1 ->
            level n <= P4EST_QMAXLEVEL <= P4EST_QMAXLEVEL) by (intros; lia).
  pose proof (last_descendent_done n0 r _ E0 (HL n0 eq_refl)) as L0.
  pose proof (last_descendent_done n1 r _ E1 (HL n1 eq_refl)) as L1.
  cbv zeta in L0, L1. rewrite Hd in L0, L1.
  split; [|split; [exact P0|split; [exact P1|split; [exact L0 | exact L1]]]].
  rewrite (P4EST_ASSERT_holds _ E0), (P4EST_ASSERT_holds _ E1). cbn [bind].
  destruct nur as [[nur0 nur1]|]; [|reflexivity].
  assert (Hup : forall n u, p4est_quadrant_is_extended n = true ->
            level n = level fn + 1 ->
            - 2 ^ 31 <= P4EST_QUADRANT_LEN (level fn + 1)
                        - P4EST_QUADRANT_LEN P4EST_QMAXLEVEL < 2 ^ 31 /\
            - 2 ^ 31 <= x n + (P4EST_QUADRANT_LEN (level fn + 1)
                               - P4EST_QUADRANT_LEN P4EST_QMAXLEVEL) < 2 ^ 31 /\
            - 2 ^ 31 <= y n + (P4EST_QUADRANT_LEN (level fn + 1)
                               - P4EST_QUADRANT_LEN P4EST_QMAXLEVEL) < 2 ^ 31 /\
            p4est_quadrant_is_extended
              (mkquad (x n + (P4EST_QUADRANT_LEN (level fn + 1)
                              - P4EST_QUADRANT_LEN P4EST_QMAXLEVEL))
                      (y n + (P4EST_QUADRANT_LEN (level fn + 1)
                              - P4EST_QUADRANT_LEN P4EST_QMAXLEVEL))
                      (z u) P4EST_QMAXLEVEL) = true).
  { intros n u Hn Hln.
    pose proof (proj1 (is_extended_spec n) Hn) as (Hlv & Cx & Cy & _).
    rewrite Hln in *.
    destruct (descendant_coord (level fn + 1) P4EST_QMAXLEVEL (x n)
                ltac:(lia) ltac:(lia) Cx) as (Hs & _ & Dx & _).
    destruct (descendant_coord (level fn + 1) P4EST_QMAXLEVEL (y n)
                ltac:(lia) ltac:(lia) Cy) as (_ & _ & Dy & _).
    cbv zeta in Dx, Dy.
    pose proof (coord_extended_int32 _ _ Dx). pose proof (coord_extended_int32 _ _ Dy).
    pose proof pow2_MAXLEVEL_le as HP.
    assert (H31 : 2 ^ 31 = 2 * 2 ^ 30) by reflexivity.
    split; [lia|]. split; [lia|]. split; [lia|].
    apply is_extended_spec. cbn [x y z level].
    split; [unfold P4EST_QMAXLEVEL in *; lia|]. split; [exact Dx|]. split; [exact Dy|].
    intros E. rewrite Hd in E. discriminate E. }
  destruct (Hup n0 nur0 E0 eq_refl) as (Id & Ix0 & Iy0 & U0).
  destruct (Hup n1 nur1 E1 eq_refl) as (_ & Ix1 & Iy1 & U1).
  cbv zeta. unfold set_level, set_y, set_x. cbn [x y z level] in *.
  rewrite (int32_small (P4EST_QUADRANT_LEN (level fn + 1) - _)) by exact Id.
  rewrite !int32_small by assumption.
  rewrite (P4EST_ASSERT_holds _ U0), (P4EST_ASSERT_holds _ U1). reflexivity.
Qed.
(** The same with [n0] and [n1] given by their fields. *)
Lemma half_face_tail_fields (fn r n0 n1 : p4est_quadrant_t) (b0x b0y b1x b1y : bool)
  (nur : option (p4est_quadrant_t * p4est_quadrant_t)) :
  P4_TO_P8 = false ->
  p4est_quadrant_is_extended fn = true -> level fn < P4EST_QMAXLEVEL ->
  let h := P4EST_QUADRANT_LEN (level fn + 1) in
  x n0 = x fn + Z.b2z b0x * h -> y n0 = y fn + Z.b2z b0y * h ->
  level n0 = level fn + 1 ->
  x n1 = x fn + Z.b2z b1x * h -> y n1 = y fn + Z.b2z b1y * h ->
  level n1 = level fn + 1 ->
  let dh := h - P4EST_QUADRANT_LEN P4EST_QMAXLEVEL in
  let up (n u : p4est_quadrant_t) := mkquad (x n + dh) (y n + dh) (z u) P4EST_QMAXLEVEL in
  (P4EST_ASSERT (p4est_quadrant_is_extended n0) ;;;
   P4EST_ASSERT (p4est_quadrant_is_extended n1) ;;;
   match nur with
   | None => Done (n0, n1, None)
   | Some (nur0, nur1) =>
       let dh := int32 (h - P4EST_QUADRANT_LEN P4EST_QMAXLEVEL) in
       let nur0 := set_x nur0 (int32 (x n0 + dh)) in
       let nur0 := set_y nur0 (int32 (y n0 + dh)) in
       let nur0 := set_level nur0 P4EST_QMAXLEVEL in
       P4EST_ASSERT (p4est_quadrant_is_extended nur0) ;;;
       let nur1 := set_x nur1 (int32 (x n1 + dh)) in
       let nur1 := set_y nur1 (int32 (y n1 + dh)) in
       let nur1 := set_level nur1 P4EST_QMAXLEVEL in
       P4EST_ASSERT (p4est_quadrant_is_extended nur1) ;;;
       Done (n0, n1, Some (nur0, nur1))
   end) =
  Done (n0, n1, match nur with
                | None => None
                | Some (nur0, nur1) => Some (up n0 nur0, up n1 nur1)
                end) /\
  p4est_quadrant_is_parent fn n0 = Done true /\
  p4est_quadrant_is_parent fn n1 = Done true /\
  p4est_quadrant_last_descendent n0 r P4EST_QMAXLEVEL = Done (up n0 r) /\
  p4est_quadrant_last_descendent n1 r P4EST_QMAXLEVEL = Done (up n1 r).
Proof.
  intros Hd He Hl h X0 Y0 L0 X1 Y1 L1.
  destruct n0 as [a0 c0 z0 l0], n1 as [a1 c1 z1 l1]. cbn [x y z level] in *.
  subst a0 c0 l0 a1 c1 l1. subst h.
  exact (half_face_tail fn r b0x b0y b1x b1y z0 z1 nur Hd He Hl).
Qed.

(** [p4est_quadrant_half_face_neighbors] (2D).  For a valid quadrant [q]
    above the deepest quadrant level and a face in [0, 4), the call returns
    and stores in [n] two different children of the same-size neighbour
    across that face (as [p4est_quadrant_face_neighbor] gives it); if [nur]
    is passed it receives the coordinates and level of the last descendants
    of the two at level [P4EST_QMAXLEVEL]; with [nur = NULL] the same [n]
    results. *)
Theorem half_face_neighbors_are_children_of_neighbor
  (q r : p4est_quadrant_t) (face : Z) (n : p4est_quadrant_t * p4est_quadrant_t) :
  P4_TO_P8 = false ->
  p4est_quadrant_is_valid q = true -> level q < P4EST_QMAXLEVEL ->
  0 <= face < 4 ->
  exists n0 n1 fn l0 l1,
    p4est_quadrant_face_neighbor q face r = Done fn /\
    p4est_quadrant_is_parent fn n0 = Done true /\
    p4est_quadrant_is_parent fn n1 = Done true /\
    (x n0 <> x n1 \/ y n0 <> y n1) /\
    p4est_quadrant_last_descendent n0 r P4EST_QMAXLEVEL = Done l0 /\
    p4est_quadrant_last_descendent n1 r P4EST_QMAXLEVEL = Done l1 /\
    p4est_quadrant_half_face_neighbors q face n None = Done (n0, n1, None) /\
    forall u0 u1,
      p4est_quadrant_half_face_neighbors q face n (Some (u0, u1)) =
      Done (n0, n1, Some (mkquad (x l0) (y l0) (z u0) (level l0),
                          mkquad (x l1) (y l1) (z u1) (level l1))).
Proof.
  intros Hd Hv Hlq Hf.
  pose proof (proj1 (is_valid_spec q) Hv) as (Hl & Cx & Cy & _).
  assert (Hf' : 0 <= face < 2 * P4EST_DIM) by (unfold P4EST_DIM; rewrite Hd; lia).
  destruct (face_neighbor_done q r face Hv Hf') as (FN & FE).
  cbv zeta in FN, FE. rewrite Hd in FN, FE.
  assert (Hqh : P4EST_QUADRANT_LEN (level q) = 2 * P4EST_QUADRANT_LEN (level q + 1) /\
                0 < P4EST_QUADRANT_LEN (level q + 1)).
  { unfold P4EST_QMAXLEVEL in *. rewrite !QUADRANT_LEN_pow.
    replace (P4EST_MAXLEVEL - level q) with (Z.succ (P4EST_MAXLEVEL - (level q + 1))) by lia.
    rewrite Z.pow_succ_r by lia.
    pose proof (pow2_pos (P4EST_MAXLEVEL - (level q + 1)) ltac:(lia)). lia. }
  destruct Hqh as (Hqh & Hpos).
  destruct (shift_coord (level q) (x q) 1 Hl Cx ltac:(lia)) as (_ & _ & Xp & _).
  destruct (shift_coord (level q) (x q) (-1) Hl Cx ltac:(lia)) as (_ & _ & Xm & _).
  destruct (shift_coord (level q) (y q) 1 Hl Cy ltac:(lia)) as (_ & _ & Yp & _).
  destruct (shift_coord (level q) (y q) (-1) Hl Cy ltac:(lia)) as (_ & _ & Ym & _).
  pose proof pow2_MAXLEVEL_le as HP.
  assert (H31 : 2 ^ 31 = 2 * 2 ^ 30) by reflexivity.
  pose proof (proj2 Cx) as Rx. pose proof (proj2 Cy) as Ry.
  assert (Hhead : forall nur,
    p4est_quadrant_half_face_neighbors q face n nur =
    (let qh := P4EST_QUADRANT_LEN (level q) in
     let qh_2 := P4EST_QUADRANT_LEN (level q + 1) in
     let n0 := set_level (fst n) (level q + 1) in
     let n1 := set_level (snd n) (level q + 1) in
     n01 <- (if face =? 0 then
               Done (mkquad (x q) (y q - qh_2) (z n0) (level n0),
                     mkquad (x q + qh_2) (y q - qh_2) (z n1) (level n1))
             else if face =? 1 then
               Done (mkquad (x q + qh) (y q) (z n0) (level n0),
                     mkquad (x q + qh) (y q + qh_2) (z n1) (level n1))
             else if face =? 2 then
               Done (mkquad (x q) (y q + qh) (z n0) (level n0),
                     mkquad (x q + qh_2) (y q + qh) (z n1) (level n1))
             else
               Done (mkquad (x q - qh_2) (y q) (z n0) (level n0),
                     mkquad (x q - qh_2) (y q + qh_2) (z n1) (level n1))) ;;
     let n0 := fst n01 in
     let n1 := snd n01 in
     P4EST_ASSERT (p4est_quadrant_is_extended n0) ;;;
     P4EST_ASSERT (p4est_quadrant_is_extended n1) ;;;
     match nur with
     | None => Done (n0, n1, None)
     | Some (nur0, nur1) =>
         let dh := int32 (qh_2 - P4EST_QUADRANT_LEN P4EST_QMAXLEVEL) in
         let nur0 := set_x nur0 (int32 (x n0 + dh)) in
         let nur0 := set_y nur0 (int32 (y n0 + dh)) in
         let nur0 := set_level nur0 P4EST_QMAXLEVEL in
         P4EST_ASSERT (p4est_quadrant_is_extended nur0) ;;;
         let nur1 := set_x nur1 (int32 (x n1 + dh)) in
         let nur1 := set_y nur1 (int32 (y n1 + dh)) in
         let nur1 := set_level nur1 P4EST_QMAXLEVEL in
         P4EST_ASSERT (p4est_quadrant_is_extended nur1) ;;;
         Done (n0, n1, Some (nur0, nur1))
     end)).
  { intros nur. unfold p4est_quadrant_half_face_neighbors.
    rewrite (P4EST_ASSERT_holds _ Hv).
    rewrite (P4EST_ASSERT_holds (level q <? P4EST_QMAXLEVEL)) by (apply Z.ltb_lt; lia).
    cbn [bind]. cbv zeta.
    rewrite (int8_small (level q + 1))
      by (pose proof MAXLEVEL_le_30; unfold P4EST_QMAXLEVEL in *; lia).
    assert (Hc : face = 0 \/ face = 1 \/ face = 2 \/ face = 3) by lia.
    destruct Hc as [-> | [-> | [-> | -> ]]]; cbn [Z.eqb Pos.eqb];
      unfold set_level, set_y, set_x; cbn [x y z level fst snd];
      rewrite ?(int32_small (x q + _)), ?(int32_small (x q - _)),
              ?(int32_small (y q + _)), ?(int32_small (y q - _)) by lia;
      reflexivity. }
  set (fn := mkquad _ _ _ _) in *.
  assert (Hfl : level fn < P4EST_QMAXLEVEL) by (subst fn; cbn [level]; exact Hlq).
  assert (Hc : face = 0 \/ face = 1 \/ face = 2 \/ face = 3) by lia.
  assert (Hfin : forall (n0 n1 : p4est_quadrant_t) (b0x b0y b1x b1y : bool),
    (forall nur, p4est_quadrant_half_face_neighbors q face n nur =
       (P4EST_ASSERT (p4est_quadrant_is_extended n0) ;;;
        P4EST_ASSERT (p4est_quadrant_is_extended n1) ;;;
        match nur with
        | None => Done (n0, n1, None)
        | Some (nur0, nur1) =>
            let dh := int32 (P4EST_QUADRANT_LEN (level fn + 1)
                             - P4EST_QUADRANT_LEN P4EST_QMAXLEVEL) in
            let nur0 := set_x nur0 (int32 (x n0 + dh)) in
            let nur0 := set_y nur0 (int32 (y n0 + dh)) in
            let nur0 := set_level nur0 P4EST_QMAXLEVEL in
            P4EST_ASSERT (p4est_quadrant_is_extended nur0) ;;;
            let nur1 := set_x nur1 (int32 (x n1 + dh)) in
            let nur1 := set_y nur1 (int32 (y n1 + dh)) in
            let nur1 := set_level nur1 P4EST_QMAXLEVEL in
            P4EST_ASSERT (p4est_quadrant_is_extended nur1) ;;;
            Done (n0, n1, Some (nur0, nur1))
        end)) ->
    x n0 = x fn + Z.b2z b0x * P4EST_QUADRANT_LEN (level fn + 1) ->
    y n0 = y fn + Z.b2z b0y * P4EST_QUADRANT_LEN (level fn + 1) ->
    level n0 = level fn + 1 ->
    x n1 = x fn + Z.b2z b1x * P4EST_QUADRANT_LEN (level fn + 1) ->
    y n1 = y fn + Z.b2z b1y * P4EST_QUADRANT_LEN (level fn + 1) ->
    level n1 = level fn + 1 ->
    (b0x <> b1x \/ b0y <> b1y) ->
    exists n0 n1 fn l0 l1,
      p4est_quadrant_face_neighbor q face r = Done fn /\
      p4est_quadrant_is_parent fn n0 = Done true /\
      p4est_quadrant_is_parent fn n1 = Done true /\
      (x n0 <> x n1 \/ y n0 <> y n1) /\
      p4est_quadrant_last_descendent n0 r P4EST_QMAXLEVEL = Done l0 /\
      p4est_quadrant_last_descendent n1 r P4EST_QMAXLEVEL = Done l1 /\
      p4est_quadrant_half_face_neighbors q face n None = Done (n0, n1, None) /\
      forall u0 u1,
        p4est_quadrant_half_face_neighbors q face n (Some (u0, u1)) =
        Done (n0, n1, Some (mkquad (x l0) (y l0) (z u0) (level l0),
                            mkquad (x l1) (y l1) (z u1) (level l1)))).
  { intros n0 n1 b0x b0y b1x b1y Hh X0 Y0 L0 X1 Y1 L1 Hb.
    destruct (half_face_tail_fields fn r n0 n1 b0x b0y b1x b1y None Hd FE Hfl
                X0 Y0 L0 X1 Y1 L1) as (TN & P0 & P1 & D0 & D1).
    cbv zeta in TN, D0, D1.
    exists n0, n1, fn. eexists. eexists.
    split; [exact FN|]. split; [exact P0|]. split; [exact P1|].
    split.
    { rewrite X0, Y0, X1, Y1. replace (level fn + 1) with (level q + 1) by reflexivity.
      destruct Hb as [Hb|Hb]; [left|right];
        destruct b0x, b0y, b1x, b1y; cbn [Z.b2z]; try congruence; lia. }
    split; [exact D0|]. split; [exact D1|].
    split; [rewrite Hh; exact TN|].
    intros u0 u1. rewrite Hh.
    destruct (half_face_tail_fields fn r n0 n1 b0x b0y b1x b1y (Some (u0, u1)) Hd FE Hfl
                X0 Y0 L0 X1 Y1 L1) as (TS & _).
    refine (eq_trans TS _). cbn [x y z level]. reflexivity. }
  destruct Hc as [Hc | [Hc | [Hc | Hc]]]; subst face.
  - eapply (Hfin _ _ false true true true).
    + intros nur. rewrite Hhead. cbv zeta. cbn [Z.eqb Pos.eqb bind fst snd]. reflexivity.
    + subst fn. unfold face_offset. rewrite Hd. cbn [x y z level Z.eqb Pos.eqb Z.b2z]. lia.
    + subst fn. unfold face_offset. rewrite Hd. cbn [x y z level Z.eqb Pos.eqb Z.b2z]. lia.
    + reflexivity.
    + subst fn. unfold face_offset. rewrite Hd. cbn [x y z level Z.eqb Pos.eqb Z.b2z]. lia.
    + subst fn. unfold face_offset. rewrite Hd. cbn [x y z level Z.eqb Pos.eqb Z.b2z]. lia.
    + reflexivity.
    + left. discriminate.
  - eapply (Hfin _ _ false false false true).
    + intros nur. rewrite Hhead. cbv zeta. cbn [Z.eqb Pos.eqb bind fst snd]. reflexivity.
    + subst fn. unfold face_offset. rewrite Hd. cbn [x y z level Z.eqb Pos.eqb Z.b2z]. lia.
    + subst fn. unfold face_offset. rewrite Hd. cbn [x y z level Z.eqb Pos.eqb Z.b2z]. lia.
    + reflexivity.
    + subst fn. unfold face_offset. rewrite Hd. cbn [x y z level Z.eqb Pos.eqb Z.b2z]. lia.
    + subst fn. unfold face_offset. rewrite Hd. cbn [x y z level Z.eqb Pos.eqb Z.b2z]. lia.
    + reflexivity.
    + right. discriminate.
  - eapply (Hfin _ _ false false true false).
    + intros nur. rewrite Hhead. cbv zeta. cbn [Z.eqb Pos.eqb bind fst snd]. reflexivity.
    + subst fn. unfold face_offset. rewrite Hd. cbn [x y z level Z.eqb Pos.eqb Z.b2z]. lia.
    + subst fn. unfold face_offset. rewrite Hd. cbn [x y z level Z.eqb Pos.eqb Z.b2z]. lia.
    + reflexivity.
    + subst fn. unfold face_offset. rewrite Hd. cbn [x y z level Z.eqb Pos.eqb Z.b2z]. lia.
    + subst fn. unfold face_offset. rewrite Hd. cbn [x y z level Z.eqb Pos.eqb Z.b2z]. lia.
    + reflexivity.
    + left. discriminate.
  - eapply (Hfin _ _ true false true true).
    + intros nur. rewrite Hhead. cbv zeta. cbn [Z.eqb Pos.eqb bind fst snd]. reflexivity.
    + subst fn. unfold face_offset. rewrite Hd. cbn [x y z level Z.eqb Pos.eqb Z.b2z]. lia.
    + subst fn. unfold face_offset. rewrite Hd. cbn [x y z level Z.eqb Pos.eqb Z.b2z]. lia.
    + reflexivity.
    + subst fn. unfold face_offset. rewrite Hd. cbn [x y z level Z.eqb Pos.eqb Z.b2z]. lia.
    + subst fn. unfold face_offset. rewrite Hd. cbn [x y z level Z.eqb Pos.eqb Z.b2z]. lia.
    + reflexivity.
    + right. discriminate.
Qed.

(** ** Shifting a quadrant into a corner *)

Lemma multiple_le (Q m n : Z) : 0 < Q -> Q * m < Q * n + Q -> m <= n.
Proof. intros HQ H. nia. Qed.

(** One coordinate in one pass of the loop of
    [p4est_quadrant_shift_corner]. *)
Lemma shift_axis (l c : Z) (up : bool) :
  0 < l <= P4EST_QMAXLEVEL -> shift_range up l c ->
  let Q := P4EST_QUADRANT_LEN l in
  let th := P4EST_LAST_OFFSET l in
  let pc := Z.land c (Z.lnot Q) in
  let rc := if up then Z.lor c Q else pc in
  let ok := eqb (rc <=? 0) (negb up) && eqb (rc >=? th) up in
  coord_extended l c /\
  (l = 1 -> ok = true) /\
  (ok = true ->
   if up then 0 < rc /\ th <= rc /\ (rc < P4EST_ROOT_LEN -> rc = th)
   else rc <= 0 /\ 0 < P4EST_ROOT_LEN) /\
  coord_valid l (if up then th else 0) /\
  (1 < l ->
   let nc := pc + (2 * Z.b2z up - 1) * P4EST_QUADRANT_LEN (l - 1) in
   shift_range up (l - 1) nc /\ coord_extended (l - 1) nc /\
   - 2 ^ 31 <= (2 * Z.b2z up - 1) * P4EST_QUADRANT_LEN (l - 1) < 2 ^ 31 /\
   - 2 ^ 31 <= nc < 2 ^ 31).
Proof.
  unfold P4EST_QMAXLEVEL, shift_range, coord_extended, coord_valid, P4EST_LAST_OFFSET.
  intros Hl [Hal Hr]. cbv zeta.
  rewrite ROOT_LEN_pow, !QUADRANT_LEN_pow.
  pose proof MAXLEVEL_le_30 as HM. pose proof pow2_MAXLEVEL_le as HP.
  set (k := P4EST_MAXLEVEL - l) in *.
  assert (Hk : 0 <= k) by lia.
  replace (P4EST_MAXLEVEL - (l - 1)) with (k + 1) by lia.
  pose proof (pow2_pos k Hk) as HQ.
  pose proof (pow2_double k Hk) as H2Q.
  assert (HR : 2 ^ P4EST_MAXLEVEL = 2 ^ (k + 1) * 2 ^ (l - 1)).
  { rewrite <- Z.pow_add_r by lia. f_equal. lia. }
  pose proof (pow2_pos (l - 1) ltac:(lia)) as Hn.
  assert (H31 : 2 ^ 31 = 2 * 2 ^ 30) by reflexivity.
  pose proof (clear_bit_aligned c k Hk Hal) as Hpc.
  assert (Hlor : Z.lor c (2 ^ k) = Z.land c (Z.lnot (2 ^ k)) + 2 ^ k).
  { rewrite <- lor_pow2_aligned_next.
    - apply Z.bits_inj'. intros i Hi.
      rewrite !Z.lor_spec, clear_bit_testbit, Z.pow2_bits_eqb by lia.
      rewrite (Z.eqb_sym k i). destruct (Z.testbit c i), (i =? k); reflexivity.
    - exact Hk.
    - rewrite Hpc, Z.mul_comm. apply Z.mod_mul. lia. }
  rewrite Hlor. rewrite Hpc.
  set (m := c / 2 ^ (k + 1)) in *.
  pose proof (Z.div_mod c (2 ^ (k + 1)) ltac:(lia)) as Hdm. fold m in Hdm.
  pose proof (Z.mod_pos_bound c (2 ^ (k + 1)) ltac:(lia)) as Hmb.
  set (n := 2 ^ (l - 1)) in *.
  set (Q := 2 ^ k) in *. rewrite H2Q in *. 
  assert (Hth : (2 * Q * n - Q) mod Q = 0).
  { replace (2 * Q * n - Q) with ((2 * n - 1) * Q) by ring. apply Z.mod_mul. lia. }
  assert (Hn1 : l = 1 -> n = 1) by (intros ->; reflexivity).
  assert (Hn2 : 1 < l -> 2 <= n).
  { intros H1. subst n. replace (l - 1) with (1 + (l - 2)) by ring.
    rewrite Z.pow_add_r by lia. change (2 ^ 1) with 2.
    pose proof (pow2_pos (l - 2) ltac:(lia)). lia. }
  assert (Hal2 : forall v, (2 * Q * v) mod (2 * Q) = 0).
  { intros v. rewrite Z.mul_comm. apply Z.mod_mul. lia. }
  rewrite HR in *.
  destruct up; cbn [negb Z.b2z].
  - assert (Hm0 : 0 <= m) by (apply (multiple_le (2 * Q) 0 m); lia).
    assert (Hmn : m <= n) by (apply (multiple_le (2 * Q) m n); lia).
    split; [split; [exact Hal | nia]|].
    split.
    { intros E. rewrite (Hn1 E).
      destruct (Z.leb_spec (2 * Q * m + Q) 0); [nia|].
      destruct (Z.geb_spec (2 * Q * m + Q) (2 * Q * 1 - Q)); [reflexivity | nia]. }
    split.
    { intros Hok. apply andb_true_iff in Hok. destruct Hok as [O1 O2].
      apply eqb_prop in O1. apply eqb_prop in O2.
      apply Z.leb_gt in O1. apply Z.geb_le in O2.
      split; [lia|]. split; [lia|]. intros Hlt.
      assert (m <= n - 1) by (apply (multiple_le (2 * Q) m (n - 1)); nia).
      nia. }
    split; [split; [exact Hth | nia]|].
    intros H1. specialize (Hn2 H1).
    replace (2 * Q * m + (2 * 1 - 1) * (2 * Q)) with (2 * Q * (m + 1)) by ring.
    split; [split; [apply Hal2 | nia]|].
    split; [split; [apply Hal2 | nia]|]. nia.
  - assert (Hm0 : -1 <= m) by (apply (multiple_le (2 * Q) (-1) m); lia).
    assert (Hmn : m <= n - 1) by (apply (multiple_le (2 * Q) m (n - 1)); nia).
    split; [split; [exact Hal | nia]|].
    split.
    { intros E. rewrite (Hn1 E) in *.
      destruct (Z.leb_spec (2 * Q * m) 0); [|nia].
      destruct (Z.geb_spec (2 * Q * m) (2 * Q * 1 - Q)); [nia | reflexivity]. }
    split.
    { intros Hok. apply andb_true_iff in Hok. destruct Hok as [O1 O2].
      apply eqb_prop in O1. apply Z.leb_le in O1. split; [lia | nia]. }
    split; [split; [apply Z.mod_0_l; lia | nia]|].
    intros H1. specialize (Hn2 H1).
    replace (2 * Q * m + (2 * 0 - 1) * (2 * Q)) with (2 * Q * (m - 1)) by ring.
    split; [split; [apply Hal2 | nia]|].
    split; [split; [apply Hal2 | nia]|]. nia.
Qed.

Lemma outface_contact (corner : Z) (a0 a1 b0 b1 c0 c1 : bool) :
  0 <= corner < P4EST_CHILDREN ->
  ((if P4_TO_P8
    then Z.lor (Z.lor (Z.lor (Z.lor (Z.lor (Z.lor 0 (if a0 then 1 else 0))
                                           (if a1 then 2 else 0))
                                    (if b0 then 4 else 0))
                             (if b1 then 8 else 0))
                      (if c0 then 16 else 0))
               (if c1 then 32 else 0)
    else Z.lor (Z.lor (Z.lor (Z.lor 0 (if a0 then 1 else 0))
                             (if a1 then 2 else 0))
                      (if b0 then 4 else 0))
               (if b1 then 8 else 0))
   =? array_get shift_corner_contact corner) =
  (eqb a0 (negb (Z.testbit corner 0)) && eqb a1 (Z.testbit corner 0)) &&
  (eqb b0 (negb (Z.testbit corner 1)) && eqb b1 (Z.testbit corner 1)) &&
  (if P4_TO_P8
   then eqb c0 (negb (Z.testbit corner 2)) && eqb c1 (Z.testbit corner 2)
   else true).
Proof.
  unfold P4EST_CHILDREN, P4EST_DIM, shift_corner_contact, array_get.
  destruct P4_TO_P8; intros Hc.
  - assert (H8 : 0 <= corner < 8) by (change (2 ^ 3) with 8 in Hc; lia).
    destruct (small_id_cases corner H8)
      as [-> | [-> | [-> | [-> | [-> | [-> | [-> | -> ]]]]]]];
      destruct a0, a1, b0, b1, c0, c1; reflexivity.
  - assert (H4 : corner = 0 \/ corner = 1 \/ corner = 2 \/ corner = 3)
      by (change (2 ^ 2) with 4 in Hc; lia).
    destruct H4 as [-> | [-> | [-> | -> ]]];
      destruct a0, a1, b0, b1; reflexivity.
Qed.

Lemma step_assert (b : bool) :
  P4EST_ASSERT ((-1 =? 2 * Z.b2z b - 1) || (2 * Z.b2z b - 1 =? 1)) = Done tt.
Proof. apply P4EST_ASSERT_holds. destruct b; reflexivity. Qed.

(** One pass of the loop of [p4est_quadrant_shift_corner]. *)
Lemma shift_corner_pass (fuel : nat) (quad r : p4est_quadrant_t) (corner : Z) :
  0 <= corner < P4EST_CHILDREN ->
  0 < level quad <= P4EST_QMAXLEVEL ->
  shift_range (Z.testbit corner 0) (level quad) (x quad) ->
  shift_range (Z.testbit corner 1) (level quad) (y quad) ->
  (P4_TO_P8 = true -> shift_range (Z.testbit corner 2) (level quad) (z quad)) ->
  let Q := P4EST_QUADRANT_LEN (level quad) in
  let th := P4EST_LAST_OFFSET (level quad) in
  let c' (j : Z) (c : Z) := if Z.testbit corner j then Z.lor c Q else Z.land c (Z.lnot Q) in
  let s := mkquad (c' 0 (x quad)) (c' 1 (y quad))
                  (if P4_TO_P8 then c' 2 (z quad) else z r) (level quad) in
  let ok (j : Z) (v : Z) :=
    eqb (v <=? 0) (negb (Z.testbit corner j)) && eqb (v >=? th) (Z.testbit corner j) in
  let n (j : Z) (c : Z) :=
    Z.land c (Z.lnot Q)
    + (2 * Z.b2z (Z.testbit corner j) - 1) * P4EST_QUADRANT_LEN (level quad - 1) in
  let quad' := mkquad (n 0 (x quad)) (n 1 (y quad))
                      (if P4_TO_P8 then n 2 (z quad) else z quad) (level quad - 1) in
  let fin (j : Z) (v : Z) :=
    if Z.testbit corner j
    then 0 < v /\ th <= v /\ (v < P4EST_ROOT_LEN -> v = th)
    else v <= 0 /\ 0 < P4EST_ROOT_LEN in
  p4est_quadrant_is_extended s = true /\
  (ok 0 (x s) && ok 1 (y s) && (if P4_TO_P8 then ok 2 (z s) else true) = true ->
   fin 0 (x s) /\ fin 1 (y s) /\ (P4_TO_P8 = true -> fin 2 (z s))) /\
  (ok 0 (x s) && ok 1 (y s) && (if P4_TO_P8 then ok 2 (z s) else true) = false ->
   1 < level quad /\
   shift_range (Z.testbit corner 0) (level quad') (x quad') /\
   shift_range (Z.testbit corner 1) (level quad') (y quad') /\
   (P4_TO_P8 = true -> shift_range (Z.testbit corner 2) (level quad') (z quad'))) /\
  shift_corner_loop fuel quad r corner =
  if ok 0 (x s) && ok 1 (y s) && (if P4_TO_P8 then ok 2 (z s) else true)
  then Done (s, th)
  else match fuel with
       | O => Fuel
       | S fuel' => shift_corner_loop fuel' quad' s corner
       end.
Proof.
  intros Hc Hl Sx Sy Sz. cbv zeta.
  pose proof children_le_8 as H8.
  destruct (shift_axis _ _ _ Hl Sx) as (Ex & Ox & Fx & _ & Nx).
  destruct (shift_axis _ _ _ Hl Sy) as (Ey & Oy & Fy & _ & Ny).
  cbv zeta in Ox, Oy, Fx, Fy, Nx, Ny.
  pose proof (fun Hd => proj1 (proj2 (proj2 (shift_axis _ _ _ Hl (Sz Hd))))) as Fz.
  cbv zeta in Fz.
  assert (Hz : P4_TO_P8 = true ->
               coord_extended (level quad) (z quad) /\
               (level quad = 1 ->
                eqb ((if Z.testbit corner 2
                      then Z.lor (z quad) (P4EST_QUADRANT_LEN (level quad))
                      else Z.land (z quad) (Z.lnot (P4EST_QUADRANT_LEN (level quad)))) <=? 0)
                    (negb (Z.testbit corner 2)) &&
                eqb ((if Z.testbit corner 2
                      then Z.lor (z quad) (P4EST_QUADRANT_LEN (level quad))
                      else Z.land (z quad) (Z.lnot (P4EST_QUADRANT_LEN (level quad))))
                     >=? P4EST_LAST_OFFSET (level quad))
                    (Z.testbit corner 2) = true) /\
               (1 < level quad ->
                shift_range (Z.testbit corner 2) (level quad - 1)
                  (Z.land (z quad) (Z.lnot (P4EST_QUADRANT_LEN (level quad)))
                   + (2 * Z.b2z (Z.testbit corner 2) - 1)
                     * P4EST_QUADRANT_LEN (level quad - 1)) /\
                coord_extended (level quad - 1)
                  (Z.land (z quad) (Z.lnot (P4EST_QUADRANT_LEN (level quad)))
                   + (2 * Z.b2z (Z.testbit corner 2) - 1)
                     * P4EST_QUADRANT_LEN (level quad - 1)) /\
                - 2 ^ 31 <= (2 * Z.b2z (Z.testbit corner 2) - 1)
                            * P4EST_QUADRANT_LEN (level quad - 1) < 2 ^ 31 /\
                - 2 ^ 31 <= Z.land (z quad) (Z.lnot (P4EST_QUADRANT_LEN (level quad)))
                            + (2 * Z.b2z (Z.testbit corner 2) - 1)
                              * P4EST_QUADRANT_LEN (level quad - 1) < 2 ^ 31)).
  { intros Hd. destruct (shift_axis _ _ _ Hl (Sz Hd)) as (Ez & Oz & _ & _ & Nz).
    cbv zeta in Oz, Nz.
    destruct (Z.testbit corner 2); (split; [exact Ez|]); (split; [exact Oz | exact Nz]). }
  assert (He : p4est_quadrant_is_extended quad = true).
  { apply is_extended_spec. split; [lia|]. split; [exact Ex|]. split; [exact Ey|].
    intros Hd. apply (Hz Hd). }
  destruct (sibling_done quad r corner He (proj1 Hl) Hc) as (Sd & Se).
  cbv zeta in Sd, Se.
  destruct (parent_done quad quad He (proj1 Hl)) as (Pd & _).
  rewrite (parent_result_record quad quad He) in Pd.
  destruct (corner_steps corner ltac:(lia)) as (S0 & S1 & S2).
  unfold corner_offset in S0, S1, S2. cbn [axis_rank] in S0, S1, S2.
  split; [exact Se|].
  set (s := mkquad _ _ _ (level quad)) in *.
  match goal with |- (?b = true -> _) /\ _ => set (okall := b) end.
  split.
  { intros Hok. subst okall s. cbn [x y z level] in *.
    apply andb_true_iff in Hok. destruct Hok as [Hok Okz].
    apply andb_true_iff in Hok. destruct Hok as [Okx Oky].
    split; [destruct (Z.testbit corner 0); exact (Fx Okx)|].
    split; [destruct (Z.testbit corner 1); exact (Fy Oky)|].
    intros Hd. rewrite Hd in *. destruct (Z.testbit corner 2); exact (Fz eq_refl Okz). }
  assert (Hnext : okall = false ->
    1 < level quad /\
    (1 < level quad ->
     shift_range (Z.testbit corner 0) (level quad - 1)
       (Z.land (x quad) (Z.lnot (P4EST_QUADRANT_LEN (level quad)))
        + (2 * Z.b2z (Z.testbit corner 0) - 1) * P4EST_QUADRANT_LEN (level quad - 1)) /\
     shift_range (Z.testbit corner 1) (level quad - 1)
       (Z.land (y quad) (Z.lnot (P4EST_QUADRANT_LEN (level quad)))
        + (2 * Z.b2z (Z.testbit corner 1) - 1) * P4EST_QUADRANT_LEN (level quad - 1)))).
  { intros Hok.
    assert (H1 : level quad <> 1).
    { intros E. subst okall s. cbn [x y z level] in Hok.
      assert (Ox' := Ox E). assert (Oy' := Oy E).
      destruct (Z.testbit corner 0), (Z.testbit corner 1);
        rewrite Ox', Oy' in Hok; cbn [andb] in Hok;
        destruct P4_TO_P8 eqn:Hd; try discriminate Hok;
        destruct (Hz eq_refl) as (_ & Oz & _); rewrite (Oz E) in Hok; discriminate Hok. }
    split; [lia|]. intros H1'. split; [apply (Nx H1') | apply (Ny H1')]. }
  split.
  { intros Hok. destruct (Hnext Hok) as (H1 & Hr). destruct (Hr H1) as (Rx & Ry).
    cbn [x y z level]. split; [exact H1|]. split; [exact Rx|]. split; [exact Ry|].
    intros Hd. rewrite Hd. apply (Hz Hd), H1. }
  assert (Hhead : forall fuel0, shift_corner_loop fuel0 quad r corner =
    if okall then Done (s, P4EST_LAST_OFFSET (level quad))
    else match fuel0 with
         | O => Fuel
         | S fuel' =>
             quad1 <- p4est_quadrant_parent quad quad ;;
             let quad1 := set_x quad1
                   (int32 (x quad1 + int32 ((2 * Z.land corner 1 - 1)
                                            * P4EST_QUADRANT_LEN (level quad1)))) in
             let quad1 := set_y quad1
                   (int32 (y quad1 + int32 ((Z.land corner 2 - 1)
                                            * P4EST_QUADRANT_LEN (level quad1)))) in
             let quad1 :=
               if P4_TO_P8
               then set_z quad1
                      (int32 (z quad1 + int32 ((Z.quot (Z.land corner 4) 2 - 1)
                                               * P4EST_QUADRANT_LEN (level quad1))))
               else quad1 in
             P4EST_ASSERT (p4est_quadrant_is_extended quad1) ;;;
             shift_corner_loop fuel' quad1 s corner
         end).
  { intros fuel0.
    destruct fuel0; cbn [shift_corner_loop]; cbv zeta; rewrite Sd; cbn [bind];
      rewrite S0, S1, S2, !step_assert;
      replace (if P4_TO_P8 then Done tt else Done tt) with (Done tt : outcome unit)
        by (destruct P4_TO_P8; reflexivity);
      cbn [bind]; rewrite outface_contact by exact Hc; reflexivity. }
  rewrite Hhead. destruct okall eqn:Hok; [reflexivity|].
  destruct fuel as [|fuel']; [reflexivity|].
  destruct (Hnext eq_refl) as (H1 & _).
  destruct (Nx H1) as (_ & Cx & Ix & Jx). destruct (Ny H1) as (_ & Cy & Iy & Jy).
  rewrite Pd. cbn [bind]. cbv zeta.
  rewrite S0, S1, S2.
  unfold set_z, set_y, set_x. cbn [x y z level].
  rewrite (int32_small (_ * P4EST_QUADRANT_LEN (level quad - 1))) by exact Ix.
  rewrite (int32_small (Z.land (x quad) _ + _)) by exact Jx.
  rewrite (int32_small (_ * P4EST_QUADRANT_LEN (level quad - 1))) by exact Iy.
  rewrite (int32_small (Z.land (y quad) _ + _)) by exact Jy.
  destruct P4_TO_P8 eqn:Hd.
  - destruct (Hz eq_refl) as (_ & _ & Nz). destruct (Nz H1) as (_ & Cz & Iz & Jz).
    cbn [x y z level].
    rewrite (int32_small (_ * P4EST_QUADRANT_LEN (level quad - 1))) by exact Iz.
    rewrite (int32_small (Z.land (z quad) _ + _)) by exact Jz.
    rewrite P4EST_ASSERT_holds; [reflexivity|].
    apply is_extended_spec. cbn [x y z level]. unfold P4EST_QMAXLEVEL in *.
    split; [lia|]. split; [exact Cx|]. split; [exact Cy|]. intros _. exact Cz.
  - rewrite P4EST_ASSERT_holds; [reflexivity|].
    apply is_extended_spec. cbn [x y z level]. unfold P4EST_QMAXLEVEL in *.
    split; [lia|]. split; [exact Cx|]. split; [exact Cy|].
    intros E. rewrite Hd in E. discriminate E.
Qed.
(** The loop of [p4est_quadrant_shift_corner] leaves within as many
    passes as the level of the quadrant it starts from. *)
Lemma shift_corner_loop_done (fuel : nat) :
  forall (quad r : p4est_quadrant_t) (corner : Z),
  0 <= corner < P4EST_CHILDREN ->
  0 < level quad <= P4EST_QMAXLEVEL ->
  level quad <= Z.of_nat fuel + 1 ->
  shift_range (Z.testbit corner 0) (level quad) (x quad) ->
  shift_range (Z.testbit corner 1) (level quad) (y quad) ->
  (P4_TO_P8 = true -> shift_range (Z.testbit corner 2) (level quad) (z quad)) ->
  let fin (j : Z) (l v : Z) :=
    if Z.testbit corner j
    then 0 < v /\ P4EST_LAST_OFFSET l <= v /\
         (v < P4EST_ROOT_LEN -> v = P4EST_LAST_OFFSET l)
    else v <= 0 /\ 0 < P4EST_ROOT_LEN in
  exists s,
    shift_corner_loop fuel quad r corner = Done (s, P4EST_LAST_OFFSET (level s)) /\
    0 < level s <= level quad /\
    fin 0 (level s) (x s) /\ fin 1 (level s) (y s) /\
    (P4_TO_P8 = true -> fin 2 (level s) (z s)) /\
    (P4_TO_P8 = false -> z s = z r).
Proof.
  induction fuel as [|fuel IH]; intros quad r corner Hc Hl Hf Sx Sy Sz; cbv zeta.
  - destruct (shift_corner_pass 0 quad r corner Hc Hl Sx Sy Sz) as (_ & Hfin & Hnext & Heq).
    cbv zeta in Hfin, Hnext, Heq. rewrite Heq.
    match type of Hfin with (?b = true -> _) => destruct b eqn:Hok end.
    + destruct (Hfin eq_refl) as (Fx & Fy & Fz).
      match goal with |- exists s, Done (?s0, _) = _ /\ _ => exists s0 end.
      split; [reflexivity|]. cbn [x y z level].
      split; [lia|]. split; [exact Fx|]. split; [exact Fy|]. split; [exact Fz|].
      intros Hd. rewrite Hd. reflexivity.
    + destruct (Hnext eq_refl) as (H1 & _). cbn [Z.of_nat] in Hf. lia.
  - destruct (shift_corner_pass (S fuel) quad r corner Hc Hl Sx Sy Sz)
      as (_ & Hfin & Hnext & Heq).
    cbv zeta in Hfin, Hnext, Heq. rewrite Heq.
    match type of Hfin with (?b = true -> _) => destruct b eqn:Hok end.
    + destruct (Hfin eq_refl) as (Fx & Fy & Fz).
      match goal with |- exists s, Done (?s0, _) = _ /\ _ => exists s0 end.
      split; [reflexivity|]. cbn [x y z level].
      split; [lia|]. split; [exact Fx|]. split; [exact Fy|]. split; [exact Fz|].
      intros Hd. rewrite Hd. reflexivity.
    + destruct (Hnext eq_refl) as (H1 & Rx & Ry & Rz).
      match goal with |- context [shift_corner_loop fuel ?qd ?sb corner] =>
        destruct (IH qd sb corner Hc) as (s & Es & Ls & Fx & Fy & Fz & Zs);
          [cbn [level]; unfold P4EST_QMAXLEVEL in *; lia
          |cbn [level]; lia | exact Rx | exact Ry | exact Rz |]
      end.
      cbn [level] in Ls. exists s. split; [exact Es|]. split; [lia|].
      split; [exact Fx|]. split; [exact Fy|]. split; [exact Fz|].
      intros Hd. rewrite (Zs Hd). cbn [z]. rewrite Hd. reflexivity.
Qed.
(** The clamping that ends [p4est_quadrant_shift_corner], field by field. *)
Lemma shift_corner_clamp (s : p4est_quadrant_t) (th : Z) :
  let clamp (v : Z) :=
    let v := if v <? 0 then 0 else v in
    if v >=? P4EST_ROOT_LEN then th else v in
  (let r := s in
   let r := if x r <? 0 then set_x r 0 else r in
   let r := if x r >=? P4EST_ROOT_LEN then set_x r th else r in
   let r := if y r <? 0 then set_y r 0 else r in
   let r := if y r >=? P4EST_ROOT_LEN then set_y r th else r in
   let r :=
     if P4_TO_P8
     then
       let r := if z r <? 0 then set_z r 0 else r in
       if z r >=? P4EST_ROOT_LEN then set_z r th else r
     else r in
   r) =
  mkquad (clamp (x s)) (clamp (y s)) (if P4_TO_P8 then clamp (z s) else z s) (level s).
Proof.
  cbv zeta. destruct s as [a b c d]. unfold set_z, set_y, set_x. cbn [x y z level].
  destruct P4_TO_P8;
    repeat match goal with
           | |- context [if ?c then _ else _] =>
               lazymatch c with
               | context [if _ then _ else _] => fail
               | _ => let E := fresh "E" in destruct c eqn:E; cbn [x y z level] in *
               end
           end; try reflexivity; congruence.
Qed.

(** [p4est_quadrant_shift_corner] ends, for a valid quadrant below the
    root and a corner number in range, within as many passes of its loop as
    the level of the quadrant; what it stores in [r] is the valid quadrant
    of some level between 1 and that of [q] that sits in the given corner
    of the root, which [p4est_quadrant_touches_corner] accepts from the
    inside. *)
Theorem shift_corner_reaches_corner (fuel : nat) (q r : p4est_quadrant_t) (corner : Z) :
  p4est_quadrant_is_valid q = true -> 0 < level q ->
  0 <= corner < P4EST_CHILDREN ->
  level q <= Z.of_nat fuel + 1 ->
  exists t,
    p4est_quadrant_shift_corner fuel q r corner = Done t /\
    0 < level t <= level q /\
    p4est_quadrant_is_valid t = true /\
    (forall a, In a axes ->
       coord a t = corner_target 0 (P4EST_LAST_OFFSET (level t)) corner a) /\
    (P4_TO_P8 = false -> z t = z r) /\
    p4est_quadrant_touches_corner t corner true = Done true.
Proof.
  intros Hv Hl0 Hc Hf.
  pose proof (proj1 (is_valid_spec q) Hv) as (Hl & Cx & Cy & Cz).
  pose proof MAXLEVEL_le_30 as HM.
  assert (Hrange : forall up c, coord_valid (level q) c -> shift_range up (level q) c).
  { intros up c [Hal Hr]. split; [exact Hal|].
    pose proof (pow2_pos (P4EST_MAXLEVEL - level q)
                  ltac:(unfold P4EST_QMAXLEVEL in *; lia)).
    destruct up; lia. }
  destruct (shift_corner_loop_done fuel q r corner Hc ltac:(lia) Hf
              (Hrange _ _ Cx) (Hrange _ _ Cy) (fun Hd => Hrange _ _ (Cz Hd)))
    as (s & Es & Ls & Fx & Fy & Fz & Zs).
  cbv zeta in Fx, Fy, Fz.
  set (th := P4EST_LAST_OFFSET (level s)) in *.
  assert (Hls : 0 < level s <= P4EST_QMAXLEVEL) by lia.
  assert (Hclamp : forall (up : bool) v,
    (if up then 0 < v /\ th <= v /\ (v < P4EST_ROOT_LEN -> v = th)
     else v <= 0 /\ 0 < P4EST_ROOT_LEN) ->
    (if (if v <? 0 then 0 else v) >=? P4EST_ROOT_LEN
     then th else if v <? 0 then 0 else v) = if up then th else 0).
  { intros up v H. destruct up.
    - destruct H as (H0 & H1 & H2).
      destruct (Z.ltb_spec v 0); [lia|].
      destruct (Z.geb_spec v P4EST_ROOT_LEN); [reflexivity | apply H2; lia].
    - destruct H as (H0 & H1).
      destruct (Z.ltb_spec v 0).
      + destruct (Z.geb_spec 0 P4EST_ROOT_LEN); [lia | reflexivity].
      + destruct (Z.geb_spec v P4EST_ROOT_LEN); lia. }
  assert (Hcv : forall up : bool, coord_valid (level s) (if up then th else 0)).
  { intros up.
    assert (S0 : shift_range up (level s) 0).
    { split; [apply Z.mod_0_l; apply Z.pow_nonzero; unfold P4EST_QMAXLEVEL in *; lia|].
      pose proof (pow2_pos (P4EST_MAXLEVEL - level s)
                    ltac:(unfold P4EST_QMAXLEVEL in *; lia)).
      pose proof (pow2_pos P4EST_MAXLEVEL ltac:(lia)).
      destruct up; lia. }
    exact (proj1 (proj2 (proj2 (proj2 (shift_axis _ _ _ Hls S0))))). }
  pose proof (shift_corner_clamp s th) as Hcl. cbv beta zeta in Hcl.
  rewrite (Hclamp _ _ Fx), (Hclamp _ _ Fy) in Hcl.
  set (t := mkquad (corner_target 0 th corner AX) (corner_target 0 th corner AY)
                   (if P4_TO_P8 then corner_target 0 th corner AZ else z s) (level s)).
  assert (Hcl' : _ = t) by
    (etransitivity; [exact Hcl|]; subst t; unfold corner_target; cbn [axis_rank];
     destruct P4_TO_P8 eqn:Hd; [rewrite (Hclamp _ _ (Fz eq_refl))|]; reflexivity).
  assert (Htv : p4est_quadrant_is_valid t = true).
  { apply is_valid_spec. subst t. unfold corner_target. cbn [x y z level axis_rank].
    split; [lia|]. split; [apply Hcv|]. split; [apply Hcv|].
    intros Hd. rewrite Hd. apply Hcv. }
  assert (Ht : p4est_quadrant_touches_corner t corner true = Done true).
  { rewrite touches_corner_eq by exact Hc.
    destruct (Z.eqb_spec (level t) P4EST_MAXLEVEL) as [E|_];
      [subst t; cbn [level] in E; unfold P4EST_QMAXLEVEL in *; lia|].
    cbn [negb]. rewrite (P4EST_ASSERT_holds _ Htv). cbn [bind fst snd].
    subst t. cbn [x y z level]. fold th. rewrite !Z.eqb_refl.
    destruct P4_TO_P8; [rewrite Z.eqb_refl|]; reflexivity. }
  exists t. split.
  { unfold p4est_quadrant_shift_corner.
    rewrite (P4EST_ASSERT_holds _ Hv).
    rewrite (P4EST_ASSERT_holds ((corner >=? 0) && (corner <? P4EST_CHILDREN)))
      by (apply andb_true_iff; split; [apply Z.geb_le | apply Z.ltb_lt]; lia).
    cbn [bind]. rewrite Es. cbn [bind fst snd].
    etransitivity;
      [exact (f_equal (fun u => P4EST_ASSERT_CALL
                                   (p4est_quadrant_touches_corner u corner true) ;;;
                                 Done u) Hcl')|].
    cbv beta. unfold P4EST_ASSERT_CALL. rewrite Ht.
    destruct P4EST_DEBUG; reflexivity. }
  split; [subst t; cbn [level]; lia|]. split; [exact Htv|].
  split.
  { intros a Ha. unfold axes in Ha. subst t. unfold coord, axis_select.
    cbn [x y z level]. fold th.
    destruct P4_TO_P8; cbn [In] in Ha;
      repeat (destruct Ha as [<-|Ha]; [reflexivity|]); destruct Ha. }
  split; [|exact Ht].
  intros Hd. subst t. cbn [z]. rewrite Hd. exact (Zs Hd).
Qed.

(** ** The order of quadrants tagged with their tree *)

Lemma key_compare_zero (q1 q2 : p4est_quadrant_t) :
  comparable q1 = true -> comparable q2 = true ->
  ((if linear_id_result q1 P4EST_MAXLEVEL <? linear_id_result q2 P4EST_MAXLEVEL
    then -1
    else if linear_id_result q2 P4EST_MAXLEVEL <? linear_id_result q1 P4EST_MAXLEVEL
    then 1
    else level q1 - level q2) = 0 <->
   level q1 = level q2 /\ same_position q1 q2).
Proof.
  intros H1 H2. pose proof MAXLEVEL_le_30 as HM. split.
  - intros Hc.
    destruct (Z.ltb_spec (linear_id_result q1 P4EST_MAXLEVEL)
                         (linear_id_result q2 P4EST_MAXLEVEL)); [discriminate|].
    destruct (Z.ltb_spec (linear_id_result q2 P4EST_MAXLEVEL)
                         (linear_id_result q1 P4EST_MAXLEVEL)); [discriminate|].
    split; [lia|]. apply key_eq_same_position; auto. lia.
  - intros [Hl Hs].
    rewrite (linear_id_result_ext q2 q1 P4EST_MAXLEVEL) by
      (try lia; intros a Ha j _; rewrite (Hs a Ha); reflexivity).
    rewrite Z.ltb_irrefl. lia.
Qed.

(** The value of [p4est_quadrant_compare_piggy]: the tree decides, then
    the Morton key, then the level. *)
Lemma compare_piggy_value (p1 p2 : p4est_quadrant_piggy_t) :
  piggy_ok p1 -> piggy_ok p2 ->
  p4est_quadrant_compare_piggy p1 p2 =
  Done (if which_tree p1 <? which_tree p2 then -1
        else if which_tree p2 <? which_tree p1 then 1
        else if linear_id_result (piggy_quadrant p1) P4EST_MAXLEVEL
                <? linear_id_result (piggy_quadrant p2) P4EST_MAXLEVEL
        then -1
        else if linear_id_result (piggy_quadrant p2) P4EST_MAXLEVEL
                <? linear_id_result (piggy_quadrant p1) P4EST_MAXLEVEL
        then 1
        else level (piggy_quadrant p1) - level (piggy_quadrant p2)).
Proof.
  intros [C1 T1] [C2 T2]. unfold p4est_quadrant_compare_piggy. cbv zeta.
  rewrite (P4EST_ASSERT_holds ((which_tree p1 >=? 0) && (which_tree p2 >=? 0)))
    by (apply andb_true_iff; split; apply Z.geb_le; lia).
  cbn [bind].
  assert (H31 : 2 ^ 31 = 2147483648) by reflexivity.
  rewrite int32_small by lia.
  destruct (Z.eqb_spec (which_tree p1 - which_tree p2) 0) as [E|E].
  - destruct (Z.ltb_spec (which_tree p1) (which_tree p2)); [lia|].
    destruct (Z.ltb_spec (which_tree p2) (which_tree p1)); [lia|].
    apply compare_by_key; assumption.
  - destruct (Z.ltb_spec (which_tree p1 - which_tree p2) 0);
      destruct (Z.ltb_spec (which_tree p1) (which_tree p2)); try lia; [reflexivity|].
    destruct (Z.ltb_spec (which_tree p2) (which_tree p1)); [reflexivity | lia].
Qed.

(** [p4est_quadrant_compare_piggy] orders tagged quadrants by tree first
    and by [p4est_quadrant_compare] within a tree: it is a three-way
    comparison that is antisymmetric and transitive, it returns 0 exactly
    where [p4est_quadrant_is_equal_piggy] holds, and on clamped nodes
    [p4est_node_equal_piggy_fn] is that same equality. *)
Theorem compare_piggy_total_order :
  (forall p1 p2,
      piggy_ok p1 -> piggy_ok p2 ->
      exists c e,
        p4est_quadrant_compare_piggy p1 p2 = Done c /\
        p4est_quadrant_compare_piggy p2 p1 = Done (- c) /\
        p4est_quadrant_is_equal_piggy p1 p2 = Done e /\
        (c = 0 <-> e = true) /\
        (which_tree p1 < which_tree p2 -> c < 0) /\
        (which_tree p1 = which_tree p2 ->
         p4est_quadrant_compare (piggy_quadrant p1) (piggy_quadrant p2) = Done c) /\
        (p4est_quadrant_is_node (piggy_quadrant p1) true = true ->
         p4est_quadrant_is_node (piggy_quadrant p2) true = true ->
         p4est_node_equal_piggy_fn p1 p2 true = Done e)) /\
  (forall p1 p2 p3,
      piggy_ok p1 -> piggy_ok p2 -> piggy_ok p3 ->
      exists c12 c23 c13,
        p4est_quadrant_compare_piggy p1 p2 = Done c12 /\
        p4est_quadrant_compare_piggy p2 p3 = Done c23 /\
        p4est_quadrant_compare_piggy p1 p3 = Done c13 /\
        (c12 <= 0 -> c23 <= 0 -> c13 <= 0) /\
        (c12 <= 0 -> c23 <= 0 -> c12 < 0 \/ c23 < 0 -> c13 < 0)).
Proof.
  split.
  - intros p1 p2 O1 O2.
    rewrite (compare_piggy_value p1 p2 O1 O2), (compare_piggy_value p2 p1 O2 O1).
    destruct O1 as [C1 T1], O2 as [C2 T2].
    destruct (is_equal_value _ _ C1 C2) as (e0 & He & Hev).
    pose proof (key_compare_zero _ _ C1 C2) as Hz.
    pose proof (compare_by_key _ _ C1 C2) as Hk.
    unfold p4est_quadrant_is_equal_piggy, p4est_node_equal_piggy_fn.
    set (k1 := linear_id_result (piggy_quadrant p1) P4EST_MAXLEVEL) in *.
    set (k2 := linear_id_result (piggy_quadrant p2) P4EST_MAXLEVEL) in *.
    destruct (Z.eqb_spec (which_tree p1) (which_tree p2)) as [E|E].
    + eexists. exists e0. split; [reflexivity|].
      split.
      { f_equal. rewrite E, Z.ltb_irrefl.
        destruct (Z.ltb_spec k1 k2), (Z.ltb_spec k2 k1); lia. }
      split; [exact He|].
      rewrite E, Z.ltb_irrefl.
      split; [rewrite Hev; exact Hz|]. split; [lia|]. split; [intros _; exact Hk|].
      intros N1 N2. rewrite (P4EST_ASSERT_holds _ N1), (P4EST_ASSERT_holds _ N2).
      cbn [bind andb].
      unfold p4est_quadrant_is_equal in He.
      pose proof C1 as C1'. pose proof C2 as C2'. unfold comparable in C1', C2'.
      rewrite (P4EST_ASSERT_holds _ C1'), (P4EST_ASSERT_holds _ C2') in He.
      cbn [bind] in He. rewrite <- He.
      rewrite (proj1 (proj1 (is_node_spec _ _) N1)), (proj1 (proj1 (is_node_spec _ _) N2)).
      rewrite Z.eqb_refl. reflexivity.
    + eexists. exists false. split; [reflexivity|].
      split.
      { f_equal. destruct (Z.ltb_spec (which_tree p1) (which_tree p2)),
                   (Z.ltb_spec (which_tree p2) (which_tree p1)); lia. }
      split; [reflexivity|].
      split.
      { destruct (Z.ltb_spec (which_tree p1) (which_tree p2)),
          (Z.ltb_spec (which_tree p2) (which_tree p1));
          (split; [intros H1; lia | intros H1; discriminate H1]). }
      split.
      { intros Hlt. destruct (Z.ltb_spec (which_tree p1) (which_tree p2)); lia. }
      split; [intros E'; lia|].
      intros N1 N2. rewrite (P4EST_ASSERT_holds _ N1), (P4EST_ASSERT_holds _ N2).
      reflexivity.
  - intros p1 p2 p3 O1 O2 O3.
    rewrite (compare_piggy_value p1 p2 O1 O2), (compare_piggy_value p2 p3 O2 O3),
      (compare_piggy_value p1 p3 O1 O3).
    do 3 eexists. split; [reflexivity|]. split; [reflexivity|]. split; [reflexivity|].
    generalize (linear_id_result (piggy_quadrant p1) P4EST_MAXLEVEL),
      (linear_id_result (piggy_quadrant p2) P4EST_MAXLEVEL),
      (linear_id_result (piggy_quadrant p3) P4EST_MAXLEVEL).
    intros k1 k2 k3.
    destruct (Z.ltb_spec (which_tree p1) (which_tree p2)),
      (Z.ltb_spec (which_tree p2) (which_tree p1)),
      (Z.ltb_spec (which_tree p2) (which_tree p3)),
      (Z.ltb_spec (which_tree p3) (which_tree p2)),
      (Z.ltb_spec (which_tree p1) (which_tree p3)),
      (Z.ltb_spec (which_tree p3) (which_tree p1)); try lia;
      destruct (Z.ltb_spec k1 k2), (Z.ltb_spec k2 k1), (Z.ltb_spec k2 k3),
        (Z.ltb_spec k3 k2), (Z.ltb_spec k1 k3), (Z.ltb_spec k3 k1); lia.
Qed.

(** ** Corner numbers under a face transform *)

Lemma reflect_valid_coord (l c : Z) :
  0 <= l <= P4EST_QMAXLEVEL -> coord_valid l c ->
  coord_valid l (P4EST_LAST_OFFSET l - c).
Proof.
  unfold coord_valid, P4EST_LAST_OFFSET, P4EST_QMAXLEVEL.
  rewrite ROOT_LEN_pow, QUADRANT_LEN_pow. intros Hl [Hal Hr].
  set (h := P4EST_MAXLEVEL - l) in *.
  assert (Hh : 0 <= h <= P4EST_MAXLEVEL) by (subst h; lia).
  pose proof (pow2_pos h ltac:(lia)) as Hp.
  pose proof (aligned_step c h P4EST_MAXLEVEL Hh Hal ltac:(lia)) as Hst.
  split; [|lia].
  assert (Hs : 2 ^ P4EST_MAXLEVEL = 2 ^ l * 2 ^ h).
  { rewrite <- Z.pow_add_r by lia. f_equal. subst h. lia. }
  apply Z.mod_divide in Hal; [|lia]. destruct Hal as [m ->].
  replace (2 ^ P4EST_MAXLEVEL - 2 ^ h - m * 2 ^ h) with ((2 ^ l - 1 - m) * 2 ^ h)
    by (rewrite Hs; ring).
  apply Z.mod_mul. lia.
Qed.

(** In the 2D build, with the corner table [0; 1; 3; 2],
    [p4est_node_transform] is the map of corner numbers that
    [p4est_quadrant_transform_face] induces: transforming the corner node
    [node] of a valid quadrant gives the corner node
    [p4est_node_transform (node, transform_type)] of the transformed
    quadrant, which is valid again; the inverse transform gives back
    [node]. *)
Theorem node_transform_follows_transform_face
  (q r r' : p4est_quadrant_t) (node t : Z) :
  P4_TO_P8 = false ->
  p4est_corner_to_zorder = [0; 1; 3; 2] ->
  p4est_quadrant_is_valid q = true ->
  0 <= node < 4 -> 0 <= t < 8 ->
  exists node' q' n n' m,
    p4est_node_transform node t = Done node' /\
    0 <= node' < 4 /\
    p4est_node_transform node' (inverse_transform t) = Done node /\
    p4est_quadrant_transform_face q r t = Done q' /\
    p4est_quadrant_is_valid q' = true /\
    p4est_quadrant_corner_node q node r' = Done n /\
    p4est_quadrant_transform_face n r t = Done n' /\
    p4est_quadrant_corner_node q' node' r' = Done m /\
    x m = x n' /\ y m = y n' /\ level m = level n'.
Proof.
  intros Hd Htab Hv Hn Ht.
  pose proof (proj1 (is_valid_spec q) Hv) as (Hl & Cx & Cy & _).
  pose proof MAXLEVEL_le_30 as HM.
  assert (Hch : P4EST_CHILDREN = 4)
    by (unfold P4EST_CHILDREN, P4EST_DIM; rewrite Hd; reflexivity).
  assert (Hqn : p4est_quadrant_is_node q false = false)
    by (apply is_node_level; unfold P4EST_QMAXLEVEL in Hl; lia).
  assert (Hqe : p4est_quadrant_is_extended q = true).
  { apply is_extended_spec. split; [exact Hl|].
    split; [apply coord_valid_extended, Cx|]. split; [apply coord_valid_extended, Cy|].
    intros E. rewrite Hd in E. discriminate E. }
  destruct (transform_face_done q r t Hd (or_intror Hqe) Ht) as (Tq & _ & _).
  cbv zeta in Tq. rewrite Hqn in Tq.
  set (th := P4EST_LAST_OFFSET (level q)) in *.
  set (q' := mkquad _ _ _ _) in Tq.
  assert (Hv' : p4est_quadrant_is_valid q' = true).
  { apply is_valid_spec. subst q'. cbn [x y z level].
    pose proof (reflect_valid_coord _ _ Hl Cx) as Rx.
    pose proof (reflect_valid_coord _ _ Hl Cy) as Ry. fold th in Rx, Ry.
    split; [exact Hl|].
    destruct (transform_cases t Ht) as [-> | [-> | [-> | [-> | [-> | [-> | [-> | -> ]]]]]]];
      cbn [transform_face_coords Z.eqb Pos.eqb fst snd];
      (split; [assumption|]); (split; [assumption|]);
      intros E; rewrite Hd in E; discriminate E. }
  destruct (corner_node_done q r' node Hv ltac:(lia)) as (Cn & Nn).
  cbv zeta in Cn, Nn. rewrite Hd in Cn, Nn.
  set (n := mkquad _ _ _ P4EST_MAXLEVEL) in *.
  destruct (transform_face_done n r t Hd (or_introl Nn) Ht) as (Tn & _ & _).
  cbv zeta in Tn. rewrite Nn in Tn.
  assert (Hcn : forall k, 0 <= k < 4 ->
            p4est_quadrant_corner_node q' k r' =
            Done (mkquad (x q' + Z.b2z (Z.testbit k 0) * P4EST_QUADRANT_LEN (level q))
                         (y q' + Z.b2z (Z.testbit k 1) * P4EST_QUADRANT_LEN (level q))
                         (z r') P4EST_MAXLEVEL)).
  { intros k Hk. destruct (corner_node_done q' r' k Hv' ltac:(lia)) as (Ck & _).
    cbv zeta in Ck. rewrite Hd in Ck. exact Ck. }
  assert (Hnt : forall k u, 0 <= k < 4 ->
            p4est_node_transform k u =
            if u =? 0 then Done k
            else if u =? 1 then
              Done (array_get [0; 1; 3; 2] (Z.rem (array_get [0; 1; 3; 2] k + 1) 4))
            else if u =? 2 then Done (3 - k)
            else if u =? 3 then
              Done (array_get [0; 1; 3; 2] (Z.rem (array_get [0; 1; 3; 2] k + 3) 4))
            else if u =? 4 then
              (if k =? 0 then Done 2 else if k =? 1 then Done 3
               else if k =? 2 then Done 0 else if k =? 3 then Done 1 else Abort)
            else if u =? 5 then
              (if k =? 0 then Done 0 else if k =? 1 then Done 2
               else if k =? 2 then Done 1 else if k =? 3 then Done 3 else Abort)
            else if u =? 6 then
              (if k =? 0 then Done 1 else if k =? 1 then Done 0
               else if k =? 2 then Done 3 else if k =? 3 then Done 2 else Abort)
            else if u =? 7 then
              (if k =? 0 then Done 3 else if k =? 1 then Done 1
               else if k =? 2 then Done 2 else if k =? 3 then Done 0 else Abort)
            else Abort).
  { intros k u Hk. unfold p4est_node_transform.
    rewrite (P4EST_ASSERT_holds ((0 <=? k) && (k <? 4)))
      by (apply andb_true_iff; split; [apply Z.leb_le | apply Z.ltb_lt]; lia).
    rewrite Htab. reflexivity. }
  assert (Hth : th = P4EST_ROOT_LEN - P4EST_QUADRANT_LEN (level q)) by reflexivity.
  assert (Hnc : node = 0 \/ node = 1 \/ node = 2 \/ node = 3) by lia.
  rewrite (Hnt node t Hn).
  destruct (transform_cases t Ht) as [-> | [-> | [-> | [-> | [-> | [-> | [-> | -> ]]]]]]];
    destruct Hnc as [-> | [-> | [-> | -> ]]];
    (match goal with
     | |- context [@eq (outcome Z) ?e _] =>
         let v := eval vm_compute in e in change e with v
     end;
     eexists; exists q', n; eexists; eexists;
     split; [reflexivity|]; split; [lia|];
     split; [rewrite Hnt by lia; reflexivity|];
     split; [exact Tq|]; split; [exact Hv'|]; split; [exact Cn|];
     split; [exact Tn|];
     split; [apply Hcn; lia|];
     subst q' n;
     repeat match goal with
            | |- context [Z.testbit ?a ?b] =>
                let v := eval vm_compute in (Z.testbit a b) in
                change (Z.testbit a b) with v
            end;
     cbn [x y z level transform_face_coords Z.eqb Pos.eqb fst snd Z.b2z];
     rewrite ?Hth;
     split; [lia|]; split; [lia|]; reflexivity).
Qed.

(** ** Morton index and ancestor identifiers *)

Lemma ancestor_id_bits (q : p4est_quadrant_t) (l : Z) :
  p4est_quadrant_is_extended q = true -> 0 < l <= level q ->
  exists aid,
    p4est_quadrant_ancestor_id q l = Done aid /\
    0 <= aid < P4EST_CHILDREN /\
    forall a, In a axes ->
      Z.testbit aid (axis_rank a) = Z.testbit (coord a q) (P4EST_MAXLEVEL - l).
Proof.
  intros He Hl. pose proof (extended_level q He) as Hlq.
  set (bx := Z.testbit (x q) (P4EST_MAXLEVEL - l)).
  set (by_ := Z.testbit (y q) (P4EST_MAXLEVEL - l)).
  set (bz := Z.testbit (z q) (P4EST_MAXLEVEL - l)).
  exists (Z.lor (Z.lor (Z.b2z bx) (2 * Z.b2z by_))
                (if P4_TO_P8 then 4 * Z.b2z bz else 0)).
  split.
  - unfold p4est_quadrant_ancestor_id.
    rewrite (P4EST_ASSERT_holds _ He).
    rewrite (P4EST_ASSERT_holds ((0 <=? l) && (l <=? P4EST_MAXLEVEL)))
      by (apply andb_true_iff; split; apply Z.leb_le; lia).
    rewrite (P4EST_ASSERT_holds (level q >=? l)) by (apply Z.geb_le; lia).
    cbn [bind].
    destruct (Z.eqb_spec l 0) as [E0|_]; [lia|].
    rewrite QUADRANT_LEN_pow, !land_pow2_testbit by lia.
    fold bx by_ bz. f_equal.
    destruct P4_TO_P8, bx, by_, bz; reflexivity.
  - unfold P4EST_CHILDREN, axes.
    destruct P4_TO_P8, bx eqn:Ex, by_ eqn:Ey, bz eqn:Ez; cbn;
      (split; [lia|]); intros a Ha;
      repeat destruct Ha as [<-|Ha]; try contradiction;
      cbn [coord axis_select axis_rank]; fold bx by_ bz;
      rewrite ?Ex, ?Ey, ?Ez; reflexivity.
Qed.

(** The ancestor identifiers of an extended quadrant are the digits of its
    Morton index in base [2^D]: for [0 < l <= q.level],
    [linear_id (q, l) = 2^D * linear_id (q, l - 1) + ancestor_id (q, l)],
    and [ancestor_id (q, 0)] is 0. *)
Theorem linear_id_digits_are_ancestor_ids (q : p4est_quadrant_t) (l : Z) :
  p4est_quadrant_is_extended q = true -> 0 < l <= level q ->
  exists id id' aid,
    p4est_quadrant_linear_id q l = Done id /\
    p4est_quadrant_linear_id q (l - 1) = Done id' /\
    p4est_quadrant_ancestor_id q l = Done aid /\
    0 <= aid < P4EST_CHILDREN /\
    id = P4EST_CHILDREN * id' + aid /\
    p4est_quadrant_ancestor_id q 0 = Done 0.
Proof.
  intros He Hl. pose proof (extended_level q He) as Hlq.
  pose proof MAXLEVEL_le_30 as HM. pose proof DIM_range as HD.
  destruct (ancestor_id_bits q l He Hl) as (aid & Haid & Har & Hab).
  exists (linear_id_result q l), (linear_id_result q (l - 1)), aid.
  split; [apply linear_id_done; [exact He | lia]|].
  split; [apply linear_id_done; [exact He | lia]|].
  split; [exact Haid|]. split; [exact Har|].
  split.
  2:{ unfold p4est_quadrant_ancestor_id.
      rewrite (P4EST_ASSERT_holds _ He).
      rewrite (P4EST_ASSERT_holds ((0 <=? 0) && (0 <=? P4EST_MAXLEVEL)))
        by (apply andb_true_iff; split; apply Z.leb_le; lia).
      rewrite (P4EST_ASSERT_holds (level q >=? 0)) by (apply Z.geb_le; lia).
      reflexivity. }
  rewrite CHILDREN_pow. rewrite CHILDREN_pow in Har.
  pose proof (linear_id_result_nonneg q (l - 1)) as Hpn.
  pose proof (pow2_pos P4EST_DIM ltac:(lia)) as Hpd.
  set (pid := linear_id_result q (l - 1)) in *.
  apply Z.bits_inj'. intros k Hk.
  destruct (position_split k Hk) as (i & a & Ha & Hi & ->).
  pose proof (axis_rank_range a Ha) as Ra.
  rewrite linear_id_result_bit by (auto; lia).
  replace (2 ^ P4EST_DIM * pid + aid) with (aid + pid * 2 ^ P4EST_DIM) by ring.
  destruct (Z.eq_dec i 0) as [->|Hi0].
  - rewrite Z.mul_0_r, !Z.add_0_l.
    rewrite <- (Z.mod_pow2_bits_low (aid + pid * 2 ^ P4EST_DIM) P4EST_DIM (axis_rank a))
      by lia.
    rewrite Z.mod_add, Z.mod_small by lia.
    rewrite (Hab a Ha).
    destruct (Z.ltb_spec 0 (l + 2)); [reflexivity | lia].
  - replace (P4EST_DIM * i + axis_rank a)
      with (P4EST_DIM * (i - 1) + axis_rank a + P4EST_DIM) by ring.
    rewrite <- (Z.div_pow2_bits (aid + pid * 2 ^ P4EST_DIM)) by nia.
    rewrite Z.div_add, Z.div_small, Z.add_0_l by lia.
    subst pid.
    rewrite linear_id_result_bit by (auto; lia).
    replace (i - 1 + (P4EST_MAXLEVEL - (l - 1))) with (i + (P4EST_MAXLEVEL - l)) by ring.
    destruct (Z.ltb_spec i (l + 2)), (Z.ltb_spec (i - 1) (l - 1 + 2)); try lia; reflexivity.
Qed.

End Bits.

(** * Concrete instances

    The 2D build has [P4EST_MAXLEVEL = 30], the 3D build
    [P8EST_MAXLEVEL = 19]. *)

Lemma MAXLEVEL_ok_2d : MAXLEVEL_ok false 30.
Proof. unfold MAXLEVEL_ok. lia. Defined.

Lemma MAXLEVEL_ok_3d : MAXLEVEL_ok true 19.
Proof. unfold MAXLEVEL_ok. lia. Defined.

(** C10 at the node (2^30, 0) of the 2D build. *)
Lemma node_clamp_then_unclamp_witness :
  exists c,
    p4est_node_clamp_inside false true 30 (mkquad (2 ^ 30) 0 0 30) local_quadrant
    = Done c /\
    p4est_quadrant_is_node false 30 c true = true /\
    exists u,
      p4est_node_unclamp false true 30 c = Done u /\
      p4est_quadrant_is_node false 30 u false = true /\
      x u = 2 ^ 30 /\ y u = 0 /\ (false = true -> z u = 0) /\ level u = 30.
Proof.
  apply (node_clamp_then_unclamp false true 30 MAXLEVEL_ok_2d
           (mkquad (2 ^ 30) 0 0 30) local_quadrant).
  reflexivity.
Defined.

(** C8 at a level-0 and at a level-1 quadrant of the 2D debug build. *)
Lemma parent_precondition_and_validity_witness :
  p4est_quadrant_parent false true 30 (mkquad 0 0 0 0) local_quadrant = Abort /\
  exists p,
    p4est_quadrant_parent false true 30 (mkquad (2 ^ 29) 0 0 1) local_quadrant
    = Done p /\
    p4est_quadrant_is_extended false 30 p = true.
Proof.
  destruct (parent_precondition_and_validity false true 30 MAXLEVEL_ok_2d)
    as [Habort Hparent].
  split.
  - apply Habort; reflexivity.
  - destruct (Hparent (mkquad (2 ^ 29) 0 0 1) local_quadrant) as (p & Hp & H);
      [reflexivity | cbn; lia |].
    exists p. split; [exact Hp | apply H].
Defined.

(** C7 at the root's first child and one of its children. *)
Lemma is_ancestor_iff_bits_from_witness :
  exists b,
    p4est_quadrant_is_ancestor false true 30
      (mkquad 0 0 0 1) (mkquad (2 ^ 28) 0 0 2) = Done b /\
    (b = true <->
     1 < 2 /\
     forall a, In a (axes false) ->
               agree_from (30 - 1) (coord a (mkquad 0 0 0 1))
                 (coord a (mkquad (2 ^ 28) 0 0 2))).
Proof.
  apply (is_ancestor_iff_bits_from false true 30
           (mkquad 0 0 0 1) (mkquad (2 ^ 28) 0 0 2)); reflexivity.
Defined.

(** C7 as stated fails: the level-1 quadrant at the origin and the
    level-2 quadrant at x = 2^29 agree on all bits strictly above
    position [MAXLEVEL - 1 = 29], yet the first is not an ancestor of the
    second (they differ at bit 29 itself). *)
Lemma is_ancestor_strictly_above_counterexample :
  let q := mkquad 0 0 0 1 in
  let r := mkquad (2 ^ 29) 0 0 2 in
  p4est_quadrant_is_extended false 30 q = true /\
  p4est_quadrant_is_extended false 30 r = true /\
  p4est_quadrant_is_ancestor false true 30 q r = Done false /\
  (level q < level r /\
   forall a, In a (axes false) ->
             agree_above (30 - level q) (coord a q) (coord a r)).
Proof.
  cbv zeta. split; [reflexivity|]. split; [reflexivity|]. split; [reflexivity|].
  split; [cbn; lia|].
  intros a Ha i Hi. cbn in Hi.
  destruct Ha as [<-|[<-|[]]]; cbn [coord axis_select x y]; [|reflexivity].
  rewrite Z.bits_0, Z.pow2_bits_false; [reflexivity | lia].
Qed.

(** C6 at the four children of the 2D root. *)
Lemma is_family_with_first_child_iff_children_witness :
  (exists X c0 c1 c2 c3,
      p4est_quadrant_is_extended false 30 X = true /\
      level X < P4EST_QMAXLEVEL 30 /\
      p4est_quadrant_children false true 30 X c0 c1 c2 c3 =
      Done (mkquad 0 0 0 1, mkquad (2 ^ 29) 0 0 1,
            mkquad 0 (2 ^ 29) 0 1, mkquad (2 ^ 29) (2 ^ 29) 0 1))
  <->
  (p4est_quadrant_is_family false true 30
     (mkquad 0 0 0 1) (mkquad (2 ^ 29) 0 0 1)
     (mkquad 0 (2 ^ 29) 0 1) (mkquad (2 ^ 29) (2 ^ 29) 0 1) = Done true /\
   p4est_quadrant_child_id false true 30 (mkquad 0 0 0 1) = Done 0).
Proof.
  apply (is_family_with_first_child_iff_children false true 30 MAXLEVEL_ok_2d);
    reflexivity.
Defined.

(** C6 as stated fails: the four level-2 quadrants packed around
    (2^28, 0), whose first member is a second child, are accepted by
    [p4est_quadrant_is_family], but no quadrant has them as children. *)
Lemma is_family_unaligned_counterexample :
  let q0 := mkquad (2 ^ 28) 0 0 2 in
  let q1 := mkquad (2 ^ 29) 0 0 2 in
  let q2 := mkquad (2 ^ 28) (2 ^ 28) 0 2 in
  let q3 := mkquad (2 ^ 29) (2 ^ 28) 0 2 in
  p4est_quadrant_is_extended false 30 q0 = true /\
  p4est_quadrant_is_extended false 30 q1 = true /\
  p4est_quadrant_is_extended false 30 q2 = true /\
  p4est_quadrant_is_extended false 30 q3 = true /\
  p4est_quadrant_is_family false true 30 q0 q1 q2 q3 = Done true /\
  ~ (exists X c0 c1 c2 c3,
        p4est_quadrant_children false true 30 X c0 c1 c2 c3 = Done (q0, q1, q2, q3)).
Proof.
  cbv zeta. repeat (split; [reflexivity|]).
  intros (X & c0 & c1 & c2 & c3 & H).
  unfold p4est_quadrant_children in H.
  destruct (P4EST_ASSERT true (p4est_quadrant_is_extended false 30 X));
    cbn [bind] in H; try discriminate.
  destruct (P4EST_ASSERT true (level X <? P4EST_QMAXLEVEL 30));
    cbn [bind] in H; try discriminate.
  destruct (P4EST_ASSERT_CALL true _) in H; cbn [bind] in H; try discriminate.
  cbn [x y z level set_x set_y set_z set_level] in H.
  injection H as Ex0 Ey0 Ez0 El0 Ex1 _ _ _ _.
  rewrite Ex0, El0 in Ex1. vm_compute in Ex1. discriminate.
Qed.

(** C9 fails in the 3D build: two level-2 octants with equal x and y
    whose z coordinates lie in different parents are reported siblings by
    the bit-mask test (its z line is never compiled), while the reference
    predicate rejects them. *)
Lemma is_sibling_3d_divergence :
  let q1 := mkquad 0 0 0 2 in
  let q2 := mkquad 0 0 (2 ^ 18) 2 in
  p4est_quadrant_is_extended true 19 q1 = true /\
  p4est_quadrant_is_extended true 19 q2 = true /\
  p4est_quadrant_is_sibling true true 19 q1 q2 = Done true /\
  p4est_quadrant_is_sibling_D true true 19 q1 q2 = Done false.
Proof. cbv zeta. repeat split; reflexivity. Qed.

(** C1 at two level-1 quadrants of the 2D root. *)
Lemma compare_three_way_witness :
  exists c,
    p4est_quadrant_compare false true 30 (mkquad 0 0 0 1) (mkquad (2 ^ 29) 0 0 1)
    = Done c /\
    (same_position false (mkquad 0 0 0 1) (mkquad (2 ^ 29) 0 0 1) ->
     Z.sgn c = Z.sgn (1 - 1) /\ (c = 0 <-> 1 = 1)) /\
    (~ same_position false (mkquad 0 0 0 1) (mkquad (2 ^ 29) 0 0 1) ->
     (exists a, decides false a (mkquad 0 0 0 1) (mkquad (2 ^ 29) 0 0 1)) /\
     forall a, decides false a (mkquad 0 0 0 1) (mkquad (2 ^ 29) 0 0 1) ->
       Z.sgn c =
       Z.sgn (lift_negative 30 (coord a (mkquad 0 0 0 1)) -
              lift_negative 30 (coord a (mkquad (2 ^ 29) 0 0 1)))).
Proof.
  apply (compare_three_way false true 30 MAXLEVEL_ok_2d
           (mkquad 0 0 0 1) (mkquad (2 ^ 29) 0 0 1)); reflexivity.
Defined.

(** C2 at a level-2 quadrant encoded at level 1, and at the index 11 of
    level 2, in the 2D build. *)
Lemma morton_encode_decode_inverse_witness :
  (exists id r,
      p4est_quadrant_linear_id false true 30 (mkquad (3 * 2 ^ 28) (2 ^ 29) 0 2) 1
      = Done id /\
      p4est_quadrant_set_morton false true 30 local_quadrant 1 id = Done r /\
      level r = 1 /\
      forall a, In a (axes false) ->
                coord a r =
                clear_bits_below (30 - 1) (coord a (mkquad (3 * 2 ^ 28) (2 ^ 29) 0 2))) /\
  (exists r,
      p4est_quadrant_set_morton false true 30 local_quadrant 2 11 = Done r /\
      p4est_quadrant_is_valid false 30 r = true /\
      level r = 2 /\
      p4est_quadrant_linear_id false true 30 r 2 = Done 11).
Proof.
  destruct (morton_encode_decode_inverse false true 30 MAXLEVEL_ok_2d)
    as [Hencode Hdecode].
  split.
  - apply Hencode; [reflexivity | cbn; lia].
  - apply Hdecode; [unfold P4EST_QMAXLEVEL; lia | unfold P4EST_DIM; lia].
Defined.

(** C3 at two level-1 quadrants of the 2D root, assertions compiled out. *)
Lemma compare_lt_linear_id_witness :
  (exists i1 i2,
      p4est_quadrant_linear_id false false 30 (mkquad 0 0 0 1) 1 = Done i1 /\
      p4est_quadrant_linear_id false false 30 (mkquad (2 ^ 29) 0 0 1) 1 = Done i2 /\
      i1 < i2) /\
  (exists i1 i2,
      p4est_quadrant_linear_id false false 30 (mkquad 0 0 0 1) 1 = Done i1 /\
      p4est_quadrant_linear_id false false 30 (mkquad (2 ^ 29) 0 0 1) 1 = Done i2 /\
      i1 <= i2 /\
      (~ same_position false (mkquad 0 0 0 1) (mkquad (2 ^ 29) 0 0 1) -> i1 < i2)).
Proof.
  destruct (compare_lt_linear_id false false 30 MAXLEVEL_ok_2d
              (mkquad 0 0 0 1) (mkquad (2 ^ 29) 0 0 1) 1 (-1))
    as [Hsame Hrelease]; [reflexivity | reflexivity | reflexivity | lia |].
  split.
  - apply Hsame; reflexivity.
  - apply Hrelease; [reflexivity | unfold P4EST_QMAXLEVEL; cbn; lia].
Defined.

(** C3 as stated fails: the root and its first child satisfy
    [compare < 0], yet at the common level 1 the linear id of the root
    is not defined in a debug build (its precondition [level <= q.level]
    fails), and without assertions both ids are 0. *)
Lemma compare_lt_linear_id_counterexample :
  let a := mkquad 0 0 0 0 in
  let b := mkquad 0 0 0 1 in
  p4est_quadrant_is_valid false 30 a = true /\
  p4est_quadrant_is_valid false 30 b = true /\
  Z.max (level a) (level b) <= 1 /\
  p4est_quadrant_compare false true 30 a b = Done (-1) /\
  p4est_quadrant_linear_id false true 30 a 1 = Abort /\
  p4est_quadrant_linear_id false false 30 a 1 = Done 0 /\
  p4est_quadrant_linear_id false false 30 b 1 = Done 0.
Proof.
  cbv zeta. split; [reflexivity|]. split; [reflexivity|].
  split; [cbn; lia|]. repeat split; reflexivity.
Qed.

(** C4 at two level-2 quadrants of the 2D root whose nearest common
    ancestor is the root's first child. *)
Lemma nearest_common_ancestor_agree_witness :
  exists res,
    p4est_nearest_common_ancestor false true 30
      (mkquad 0 0 0 2) (mkquad (2 ^ 28) (2 ^ 28) 0 2) local_quadrant = Done res /\
    p4est_nearest_common_ancestor_D false true 30 30
      (mkquad 0 0 0 2) (mkquad (2 ^ 28) (2 ^ 28) 0 2) local_quadrant = Done res.
Proof.
  apply (nearest_common_ancestor_agree false true 30 MAXLEVEL_ok_2d 30
           (mkquad 0 0 0 2) (mkquad (2 ^ 28) (2 ^ 28) 0 2) local_quadrant).
  - reflexivity.
  - reflexivity.
  - intros a [<-|[<-|[]]]; reflexivity.
  - lia.
Defined.

(** C5 at the first two children of the 2D root. *)
Lemma is_next_agrees_with_reference_witness :
  exists b,
    p4est_quadrant_is_next false true 30 (mkquad 0 0 0 1) (mkquad (2 ^ 29) 0 0 1)
    = Done b /\
    p4est_quadrant_is_next_D false true 30 30 (mkquad 0 0 0 1) (mkquad (2 ^ 29) 0 0 1)
    = Done b.
Proof.
  apply (is_next_agrees_with_reference false true 30 MAXLEVEL_ok_2d 30
           (mkquad 0 0 0 1) (mkquad (2 ^ 29) 0 0 1)).
  - reflexivity.
  - reflexivity.
  - cbn. lia.
Defined.

(** The 2D sibling tests at the first two children of the root, in a debug
    build. *)
Lemma is_sibling_agrees_with_reference_2d_witness :
  exists b,
    p4est_quadrant_is_sibling false true 30 (mkquad 0 0 0 1) (mkquad (2 ^ 29) 0 0 1)
    = Done b /\
    p4est_quadrant_is_sibling_D false true 30 (mkquad 0 0 0 1) (mkquad (2 ^ 29) 0 0 1)
    = Done b.
Proof.
  apply (is_sibling_agrees_with_reference_2d false true 30 MAXLEVEL_ok_2d
           (mkquad 0 0 0 1) (mkquad (2 ^ 29) 0 0 1));
    [reflexivity | reflexivity | reflexivity | cbn; lia].
Defined.

(** In a debug build the reference predicate aborts on a level-0 second
    argument once the first has a parent: only [q1.level] is screened
    before both parents are taken. *)
Lemma is_sibling_D_aborts_on_root :
  p4est_quadrant_is_sibling false true 30 (mkquad 0 0 0 1) (mkquad 0 0 0 0)
  = Done false /\
  p4est_quadrant_is_sibling_D false true 30 (mkquad 0 0 0 1) (mkquad 0 0 0 0)
  = Abort /\
  p4est_quadrant_is_sibling_D false false 30 (mkquad 0 0 0 1) (mkquad 0 0 0 0)
  = Done false.
Proof. repeat split; reflexivity. Qed.

(** The order laws at the first two children of the 2D root and a
    grandchild. *)
Lemma compare_total_order_witness :
  p4est_quadrant_compare false true 30 (mkquad 0 0 0 1) (mkquad 0 0 0 1) = Done 0 /\
  (exists c,
      p4est_quadrant_compare false true 30 (mkquad 0 0 0 1) (mkquad (2 ^ 29) 0 0 1)
      = Done c /\
      p4est_quadrant_compare false true 30 (mkquad (2 ^ 29) 0 0 1) (mkquad 0 0 0 1)
      = Done (- c)) /\
  (exists c12 c23 c13,
      p4est_quadrant_compare false true 30 (mkquad 0 0 0 1) (mkquad (2 ^ 28) 0 0 2)
      = Done c12 /\
      p4est_quadrant_compare false true 30 (mkquad (2 ^ 28) 0 0 2) (mkquad (2 ^ 29) 0 0 1)
      = Done c23 /\
      p4est_quadrant_compare false true 30 (mkquad 0 0 0 1) (mkquad (2 ^ 29) 0 0 1)
      = Done c13 /\
      (c12 <= 0 -> c23 <= 0 -> c13 <= 0) /\
      (c12 <= 0 -> c23 <= 0 -> c12 < 0 \/ c23 < 0 -> c13 < 0)).
Proof.
  destruct (compare_total_order false true 30 MAXLEVEL_ok_2d) as (Hrefl & Hanti & Htrans).
  split; [apply Hrefl; reflexivity|].
  split; [apply Hanti; reflexivity|].
  apply Htrans; reflexivity.
Defined.

(** The comparison against the equality at the first two children of the 2D root. *)
Lemma compare_zero_iff_equal_witness :
  exists (c : Z) (e : bool),
    p4est_quadrant_compare false true 30 (mkquad 0 0 0 1)
      (mkquad (2 ^ 29) 0 0 1) =
    Done c /\
    p4est_quadrant_is_equal false true 30 (mkquad 0 0 0 1)
      (mkquad (2 ^ 29) 0 0 1) =
    Done e /\
    (c = 0 <-> e = true) /\
    (p4est_quadrant_is_extended false 30 (mkquad 0 0 0 1) = true ->
     p4est_quadrant_is_extended false 30 (mkquad (2 ^ 29) 0 0 1) =
     true ->
     p4est_quadrant_equal_fn false true 30 (mkquad 0 0 0 1)
       (mkquad (2 ^ 29) 0 0 1) =
     Done e).
Proof.
  apply (compare_zero_iff_equal
           false true 30 MAXLEVEL_ok_2d (mkquad 0 0 0 1) (mkquad (2 ^ 29) 0 0 1));
    [reflexivity | reflexivity].
Defined.

(** The two parent tests at a level-1 quadrant and one of its children (2D). *)
Lemma is_parent_agrees_with_reference_witness :
  exists b : bool,
    p4est_quadrant_is_parent false true 30 (mkquad 0 0 0 1)
      (mkquad (2 ^ 28) 0 0 2) =
    Done b /\
    p4est_quadrant_is_parent_D false true 30 (mkquad 0 0 0 1)
      (mkquad (2 ^ 28) 0 0 2) =
    Done b.
Proof.
  apply (is_parent_agrees_with_reference
           false true 30 MAXLEVEL_ok_2d (mkquad 0 0 0 1) (mkquad (2 ^ 28) 0 0 2));
    [reflexivity | reflexivity].
Defined.

(** The two ancestor tests at a level-1 quadrant and one of its children (2D). *)
Lemma is_ancestor_agrees_with_reference_witness :
  exists b : bool,
    p4est_quadrant_is_ancestor false true 30 (mkquad 0 0 0 1)
      (mkquad (2 ^ 28) 0 0 2) =
    Done b /\
    p4est_quadrant_is_ancestor_D false true 30 30 (mkquad 0 0 0 1)
      (mkquad (2 ^ 28) 0 0 2) =
    Done b.
Proof.
  apply (is_ancestor_agrees_with_reference
           false true 30 MAXLEVEL_ok_2d 30 (mkquad 0 0 0 1) (mkquad (2 ^ 28) 0 0 2));
    [reflexivity | reflexivity | intros a [<-|[<-|[]]]; reflexivity | lia].
Defined.

(** The sibling number 3 of the first child of the 2D root. *)
Lemma sibling_has_id_and_parent_witness :
  exists s : p4est_quadrant_t,
    p4est_quadrant_sibling false true 30 (mkquad 0 0 0 1)
      local_quadrant 3 =
    Done s /\
    p4est_quadrant_is_extended false 30 s = true /\
    level s = level (mkquad 0 0 0 1) /\
    p4est_quadrant_child_id false true 30 s = Done 3 /\
    exists p : p4est_quadrant_t,
      p4est_quadrant_parent false true 30 (mkquad 0 0 0 1)
        local_quadrant =
      Done p /\ p4est_quadrant_parent false true 30 s local_quadrant = Done p.
Proof.
  apply (sibling_has_id_and_parent
           false true 30 MAXLEVEL_ok_2d (mkquad 0 0 0 1) local_quadrant 3);
    [reflexivity | cbn; lia | cbn; lia].
Defined.

(** The second child of the 2D root, taken as the sibling with its own child identifier. *)
Lemma sibling_of_own_child_id_witness :
  exists (cid : Z) (s : p4est_quadrant_t),
    p4est_quadrant_child_id false true 30 (mkquad (2 ^ 29) 0 0 1) =
    Done cid /\
    p4est_quadrant_sibling false true 30 (mkquad (2 ^ 29) 0 0 1)
      local_quadrant cid =
    Done s /\
    x s = x (mkquad (2 ^ 29) 0 0 1) /\
    y s = y (mkquad (2 ^ 29) 0 0 1) /\
    (false = true -> z s = z (mkquad (2 ^ 29) 0 0 1)) /\
    level s = level (mkquad (2 ^ 29) 0 0 1).
Proof.
  apply (sibling_of_own_child_id
           false true 30 (mkquad (2 ^ 29) 0 0 1) local_quadrant);
    [reflexivity | cbn; lia].
Defined.

(** The first and last descendant of level 2 of the first child of the 2D root. *)
Lemma descendents_extended_valid_below_witness :
  exists fd ld : p4est_quadrant_t,
    p4est_quadrant_first_descendent false true 30 (mkquad 0 0 0 1)
      local_quadrant 2 =
    Done fd /\
    p4est_quadrant_last_descendent false true 30 (mkquad 0 0 0 1)
      local_quadrant 2 =
    Done ld /\
    level fd = 2 /\
    level ld = 2 /\
    p4est_quadrant_is_extended false 30 fd = true /\
    p4est_quadrant_is_extended false 30 ld = true /\
    (p4est_quadrant_is_valid false 30 (mkquad 0 0 0 1) = true ->
     p4est_quadrant_is_valid false 30 fd = true /\
     p4est_quadrant_is_valid false 30 ld = true) /\
    (level (mkquad 0 0 0 1) < 2 ->
     p4est_quadrant_is_ancestor false true 30 (mkquad 0 0 0 1) fd =
     Done true /\
     p4est_quadrant_is_ancestor false true 30 (mkquad 0 0 0 1) ld =
     Done true).
Proof.
  apply (descendents_extended_valid_below
           false true 30 MAXLEVEL_ok_2d (mkquad 0 0 0 1) local_quadrant 2);
    [reflexivity | cbn; lia].
Defined.

(** A level-2 descendant of the first child of the 2D root, placed in the order. *)
Lemma descendants_are_order_interval_witness :
  exists (ld : p4est_quadrant_t) (c1 c2 : Z) (b : bool),
    p4est_quadrant_last_descendent false true 30 (mkquad 0 0 0 1)
      local_quadrant (P4EST_QMAXLEVEL 30) =
    Done ld /\
    p4est_quadrant_compare false true 30 (mkquad 0 0 0 1)
      (mkquad (2 ^ 28) 0 0 2) =
    Done c1 /\
    p4est_quadrant_compare false true 30 (mkquad (2 ^ 28) 0 0 2) ld =
    Done c2 /\
    p4est_quadrant_is_ancestor false true 30 (mkquad 0 0 0 1)
      (mkquad (2 ^ 28) 0 0 2) =
    Done b /\ (b = true <-> c1 < 0 /\ c2 <= 0).
Proof.
  apply (descendants_are_order_interval
           false true 30 MAXLEVEL_ok_2d (mkquad 0 0 0 1) (mkquad (2 ^ 28) 0 0 2) local_quadrant);
    [reflexivity | reflexivity].
Defined.

(** The first child of the 2D root against a tree that spans the whole root. *)
Lemma inside_tree_implies_overlaps_witness :
  exists bi bo : bool,
    p4est_quadrant_is_inside_tree false true 30
      (mktree 1 ((mkquad 0 0 0 29)) ((mkquad (2 ^ 30 - 2) (2 ^ 30 - 2) 0 29))) (mkquad 0 0 0 1) =
    Done bi /\
    p4est_quadrant_overlaps_tree false true 30
      (mktree 1 ((mkquad 0 0 0 29)) ((mkquad (2 ^ 30 - 2) (2 ^ 30 - 2) 0 29))) (mkquad 0 0 0 1) =
    Done bo /\
    (bi = true -> bo = true) /\
    (quadrants_elem_count
       (mktree 1 ((mkquad 0 0 0 29)) ((mkquad (2 ^ 30 - 2) (2 ^ 30 - 2) 0 29))) =
     0 -> bi = false /\ bo = false).
Proof.
  apply (inside_tree_implies_overlaps
           false true 30 MAXLEVEL_ok_2d (mktree 1 (mkquad 0 0 0 29) (mkquad (2 ^ 30 - 2) (2 ^ 30 - 2) 0 29)) (mkquad 0 0 0 1));
    [reflexivity | intros _; split; reflexivity].
Defined.

(** The neighbour across face 1 of the first child of the 2D root, and back. *)
Lemma face_neighbor_round_trip_witness :
  exists n : p4est_quadrant_t,
    p4est_quadrant_face_neighbor false true 30 (mkquad 0 0 0 1) 1
      local_quadrant =
    Done n /\
    p4est_quadrant_is_extended false 30 n = true /\
    level n = level (mkquad 0 0 0 1) /\
    (p4est_quadrant_is_valid false 30 n = true \/
     p4est_quadrant_is_outside_face false 30 n = true) /\
    (p4est_quadrant_is_valid false 30 n = true ->
     exists q' : p4est_quadrant_t,
       p4est_quadrant_face_neighbor false true 30 n (opposite_face false 1) local_quadrant =
       Done q' /\
       x q' = x (mkquad 0 0 0 1) /\
       y q' = y (mkquad 0 0 0 1) /\
       (false = true -> z q' = z (mkquad 0 0 0 1)) /\
       level q' = level (mkquad 0 0 0 1)).
Proof.
  apply (face_neighbor_round_trip
           false true 30 MAXLEVEL_ok_2d (mkquad 0 0 0 1) local_quadrant local_quadrant 1);
    [reflexivity | cbn; lia].
Defined.

(** The neighbour across face 3 of the first child of the 2D root lies outside; translated, it is the second child. *)
Lemma translate_face_of_outside_neighbor_witness :
  exists n : p4est_quadrant_t,
    p4est_quadrant_face_neighbor false true 30 (mkquad 0 0 0 1) 3
      local_quadrant =
    Done n /\
    (p4est_quadrant_is_outside_face false 30 n = true ->
     exists t : p4est_quadrant_t,
       p4est_quadrant_translate_face false true 30 n 3 = Done t /\
       p4est_quadrant_is_valid false 30 t = true /\
       level t = level (mkquad 0 0 0 1) /\
       (x t = x n /\
        (y t = 0 \/
         y t = P4EST_LAST_OFFSET 30 (level (mkquad 0 0 0 1))) \/
        y t = y n /\
        (x t = 0 \/
         x t = P4EST_LAST_OFFSET 30 (level (mkquad 0 0 0 1))))).
Proof.
  apply (translate_face_of_outside_neighbor
           false true 30 MAXLEVEL_ok_2d (mkquad 0 0 0 1) local_quadrant 3);
    [reflexivity | reflexivity | lia].
Defined.

(** The neighbour across corner 3 of the first child of the 2D root, and back. *)
Lemma corner_neighbor_round_trip_witness :
  exists n : p4est_quadrant_t,
    p4est_quadrant_corner_neighbor false true 30 (mkquad 0 0 0 1) 3
      local_quadrant =
    Done n /\
    p4est_quadrant_is_extended false 30 n = true /\
    level n = level (mkquad 0 0 0 1) /\
    (forall a : axis,
     In a (axes false) ->
     coord a n =
     coord a (mkquad 0 0 0 1) +
     corner_offset 3 a *
     P4EST_QUADRANT_LEN 30 (level (mkquad 0 0 0 1))) /\
    (p4est_quadrant_is_valid false 30 n = true ->
     exists q' : p4est_quadrant_t,
       p4est_quadrant_corner_neighbor false true 30 n (P4EST_CHILDREN false - 1 - 3)
         local_quadrant =
       Done q' /\
       x q' = x (mkquad 0 0 0 1) /\
       y q' = y (mkquad 0 0 0 1) /\
       (false = true -> z q' = z (mkquad 0 0 0 1)) /\
       level q' = level (mkquad 0 0 0 1)).
Proof.
  apply (corner_neighbor_round_trip
           false true 30 MAXLEVEL_ok_2d (mkquad 0 0 0 1) local_quadrant local_quadrant 3);
    [reflexivity | cbn; lia].
Defined.

(** The level-1 quadrant around a node clamped to the right edge of the 2D root. *)
Lemma node_to_quadrant_is_the_container_witness :
  exists q : p4est_quadrant_t,
    p4est_node_to_quadrant false true 30 (mkquad (2 ^ 30 - 1) 2 0 30)
      1 local_quadrant =
    Done q /\
    p4est_quadrant_is_valid false 30 q = true /\
    level q = 1 /\
    p4est_quadrant_contains_node false true 30 q
      (mkquad (2 ^ 30 - 1) 2 0 30) =
    Done true /\
    (forall q' : p4est_quadrant_t,
     p4est_quadrant_is_valid false 30 q' = true ->
     level q' = 1 ->
     p4est_quadrant_contains_node false true 30 q'
       (mkquad (2 ^ 30 - 1) 2 0 30) =
     Done true -> forall a : axis, In a (axes false) -> coord a q' = coord a q).
Proof.
  apply (node_to_quadrant_is_the_container
           false true 30 MAXLEVEL_ok_2d (mkquad (2 ^ 30 - 1) 2 0 30) local_quadrant 1);
    [reflexivity | cbn; lia].
Defined.

(** The lowest corner node of the first child of the 2D root, and the way back. *)
Lemma corner_node_is_node_witness :
  exists n : p4est_quadrant_t,
    p4est_quadrant_corner_node false true 30 (mkquad 0 0 0 1) 0
      local_quadrant =
    Done n /\
    p4est_quadrant_is_node false 30 n false = true /\
    (forall a : axis,
     In a (axes false) ->
     coord a n =
     coord a (mkquad 0 0 0 1) +
     Z.b2z (Z.testbit 0 (axis_rank a)) *
     P4EST_QUADRANT_LEN 30 (level (mkquad 0 0 0 1))) /\
    (0 = 0 ->
     exists c q' : p4est_quadrant_t,
       p4est_node_clamp_inside false true 30 n local_quadrant = Done c /\
       p4est_node_to_quadrant false true 30 c
         (level (mkquad 0 0 0 1)) local_quadrant =
       Done q' /\
       level q' = level (mkquad 0 0 0 1) /\
       (forall a : axis,
        In a (axes false) -> coord a q' = coord a (mkquad 0 0 0 1))).
Proof.
  apply (corner_node_is_node
           false true 30 MAXLEVEL_ok_2d (mkquad 0 0 0 1) local_quadrant 0);
    [reflexivity | cbn; lia].
Defined.

(** The first child of the 2D root moved onto corner 2, inside. *)
Lemma transform_corner_touches_corner_witness :
  exists t : p4est_quadrant_t,
    p4est_quadrant_transform_corner false true 30 (mkquad 0 0 0 1) 2
      true =
    Done t /\
    level t = level (mkquad 0 0 0 1) /\
    p4est_quadrant_touches_corner false true 30 t 2 true = Done true.
Proof.
  apply (transform_corner_touches_corner
           false true 30 MAXLEVEL_ok_2d (mkquad 0 0 0 1) 2 true);
    [cbn; lia | right; cbn; lia].
Defined.

(** A quarter turn of the first child of the 2D root, and the turn back. *)
Lemma transform_face_inverse_witness :
  exists r1 r2 : p4est_quadrant_t,
    p4est_quadrant_transform_face false true 30 (mkquad 0 0 0 1)
      local_quadrant 1 =
    Done r1 /\
    p4est_quadrant_is_node false 30 r1 false =
    p4est_quadrant_is_node false 30 (mkquad 0 0 0 1) false /\
    (p4est_quadrant_is_extended false 30 (mkquad 0 0 0 1) = true ->
     p4est_quadrant_is_extended false 30 r1 = true) /\
    level r1 = level (mkquad 0 0 0 1) /\
    p4est_quadrant_transform_face false true 30 r1 local_quadrant (inverse_transform 1) =
    Done r2 /\
    x r2 = x (mkquad 0 0 0 1) /\
    y r2 = y (mkquad 0 0 0 1) /\
    level r2 = level (mkquad 0 0 0 1).
Proof.
  apply (transform_face_inverse
           false true 30 MAXLEVEL_ok_2d (mkquad 0 0 0 1) local_quadrant local_quadrant 1);
    [reflexivity | right; reflexivity | lia].
Defined.

(** The linear id of the second child of the 2D root against that of the root. *)
Lemma linear_id_parent_child_witness :
  exists (id : Z) (p : p4est_quadrant_t) (pid cid : Z),
    p4est_quadrant_linear_id false true 30 (mkquad (2 ^ 29) 0 0 1)
      (level (mkquad (2 ^ 29) 0 0 1)) =
    Done id /\
    p4est_quadrant_parent false true 30 (mkquad (2 ^ 29) 0 0 1)
      local_quadrant =
    Done p /\
    p4est_quadrant_linear_id false true 30 p (level p) = Done pid /\
    p4est_quadrant_child_id false true 30 (mkquad (2 ^ 29) 0 0 1) =
    Done cid /\ id = P4EST_CHILDREN false * pid + cid.
Proof.
  apply (linear_id_parent_child
           false true 30 MAXLEVEL_ok_2d (mkquad (2 ^ 29) 0 0 1) local_quadrant);
    [reflexivity | reflexivity].
Defined.

(** The successor test and the comparison at the first two children of the 2D root. *)
Lemma is_next_implies_before_witness :
  exists (b : bool) (c : Z),
    p4est_quadrant_is_next false true 30 (mkquad 0 0 0 1)
      (mkquad (2 ^ 29) 0 0 1) =
    Done b /\
    p4est_quadrant_compare false true 30 (mkquad 0 0 0 1)
      (mkquad (2 ^ 29) 0 0 1) =
    Done c /\ (b = true -> c = -1).
Proof.
  apply (is_next_implies_before
           false true 30 MAXLEVEL_ok_2d (mkquad 0 0 0 1) (mkquad (2 ^ 29) 0 0 1));
    [reflexivity | reflexivity].
Defined.

(** The nearest common ancestor of two grandchildren of the 2D root. *)
Lemma nearest_common_ancestor_is_deepest_witness :
  exists a : p4est_quadrant_t,
    p4est_nearest_common_ancestor false true 30 (mkquad 0 0 0 2)
      (mkquad (2 ^ 28) (2 ^ 28) 0 2) local_quadrant =
    Done a /\
    p4est_quadrant_is_extended false 30 a = true /\
    ancestor_or_equal false true 30 a (mkquad 0 0 0 2) /\
    ancestor_or_equal false true 30 a (mkquad (2 ^ 28) (2 ^ 28) 0 2) /\
    (forall c : p4est_quadrant_t,
     p4est_quadrant_is_extended false 30 c = true ->
     ancestor_or_equal false true 30 c (mkquad 0 0 0 2) ->
     ancestor_or_equal false true 30 c (mkquad (2 ^ 28) (2 ^ 28) 0 2) ->
     ancestor_or_equal false true 30 c a) /\
    exists a' : p4est_quadrant_t,
      p4est_nearest_common_ancestor false true 30
        (mkquad (2 ^ 28) (2 ^ 28) 0 2)
        (mkquad 0 0 0 2) local_quadrant =
      Done a' /\
      level a' = level a /\
      (forall ax : axis, In ax (axes false) -> coord ax a' = coord ax a).
Proof.
  apply (nearest_common_ancestor_is_deepest
           false true 30 MAXLEVEL_ok_2d (mkquad 0 0 0 2) (mkquad (2 ^ 28) (2 ^ 28) 0 2) local_quadrant);
    [reflexivity | reflexivity | intros a [<-|[<-|[]]]; reflexivity].
Defined.

(** The four children of the first child of the 2D root. *)
Lemma children_have_ids_and_parent_witness :
  exists c0 c1 c2 c3 : p4est_quadrant_t,
    p4est_quadrant_children false true 30 (mkquad 0 0 0 1)
      local_quadrant local_quadrant local_quadrant local_quadrant =
    Done (c0, c1, c2, c3) /\
    p4est_quadrant_child_id false true 30 c0 = Done 0 /\
    p4est_quadrant_child_id false true 30 c1 = Done 1 /\
    p4est_quadrant_child_id false true 30 c2 = Done 2 /\
    p4est_quadrant_child_id false true 30 c3 = Done 3 /\
    (forall c : p4est_quadrant_t,
     In c [c0; c1; c2; c3] ->
     p4est_quadrant_is_parent false true 30 (mkquad 0 0 0 1) c =
     Done true /\
     exists p : p4est_quadrant_t,
       p4est_quadrant_parent false true 30 c local_quadrant = Done p /\
       x p = x (mkquad 0 0 0 1) /\
       y p = y (mkquad 0 0 0 1) /\
       level p = level (mkquad 0 0 0 1)).
Proof.
  apply (children_have_ids_and_parent
           false true 30 MAXLEVEL_ok_2d (mkquad 0 0 0 1) local_quadrant local_quadrant local_quadrant local_quadrant local_quadrant);
    [reflexivity | reflexivity | reflexivity].
Defined.

(** The half-size neighbours across face 1 of the first child of the 2D root. *)
Lemma half_face_neighbors_are_children_of_neighbor_witness :
  exists n0 n1 fn l0 l1 : p4est_quadrant_t,
    p4est_quadrant_face_neighbor false true 30 (mkquad 0 0 0 1) 1
      local_quadrant =
    Done fn /\
    p4est_quadrant_is_parent false true 30 fn n0 = Done true /\
    p4est_quadrant_is_parent false true 30 fn n1 = Done true /\
    (x n0 <> x n1 \/ y n0 <> y n1) /\
    p4est_quadrant_last_descendent false true 30 n0 local_quadrant (P4EST_QMAXLEVEL 30) =
    Done l0 /\
    p4est_quadrant_last_descendent false true 30 n1 local_quadrant (P4EST_QMAXLEVEL 30) =
    Done l1 /\
    p4est_quadrant_half_face_neighbors false true 30
      (mkquad 0 0 0 1) 1 (local_quadrant, local_quadrant) None =
    Done (n0, n1, None) /\
    (forall u0 u1 : p4est_quadrant_t,
     p4est_quadrant_half_face_neighbors false true 30
       (mkquad 0 0 0 1) 1 (local_quadrant, local_quadrant)
       (Some (u0, u1)) =
     Done
       (n0, n1,
        Some
          ((mkquad (x l0) (y l0) (z u0) (level l0)),
           (mkquad (x l1) (y l1) (z u1) (level l1))))).
Proof.
  apply (half_face_neighbors_are_children_of_neighbor
           false true 30 MAXLEVEL_ok_2d (mkquad 0 0 0 1) local_quadrant 1 (local_quadrant, local_quadrant));
    [reflexivity | reflexivity | reflexivity | lia].
Defined.

(** A grandchild of the 2D root shifted into corner 3. *)
Lemma shift_corner_reaches_corner_witness :
  exists t : p4est_quadrant_t,
    p4est_quadrant_shift_corner false true 30 1
      (mkquad (2 ^ 28) 0 0 2) local_quadrant 3 =
    Done t /\
    0 < level t <= level (mkquad (2 ^ 28) 0 0 2) /\
    p4est_quadrant_is_valid false 30 t = true /\
    (forall a : axis,
     In a (axes false) -> coord a t = corner_target 0 (P4EST_LAST_OFFSET 30 (level t)) 3 a) /\
    (false = false -> z t = z local_quadrant) /\
    p4est_quadrant_touches_corner false true 30 t 3 true = Done true.
Proof.
  apply (shift_corner_reaches_corner
           false true 30 MAXLEVEL_ok_2d 1%nat (mkquad (2 ^ 28) 0 0 2) local_quadrant 3);
    [reflexivity | reflexivity | split; [apply Z.leb_le | apply Z.ltb_lt]; reflexivity | apply Z.leb_le; reflexivity].
Defined.

(** Corner 1 of the first child of the 2D root under the quarter turn of type 1. *)
Lemma node_transform_follows_transform_face_witness :
  exists (node' : Z) (q' n n' m : p4est_quadrant_t),
    p4est_node_transform true [0; 1; 3; 2] 1 1 = Done node' /\
    0 <= node' < 4 /\
    p4est_node_transform true [0; 1; 3; 2] node' (inverse_transform 1) = Done 1 /\
    p4est_quadrant_transform_face false true 30 (mkquad 0 0 0 1)
      local_quadrant 1 =
    Done q' /\
    p4est_quadrant_is_valid false 30 q' = true /\
    p4est_quadrant_corner_node false true 30 (mkquad 0 0 0 1) 1
      local_quadrant =
    Done n /\
    p4est_quadrant_transform_face false true 30 n local_quadrant 1 = Done n' /\
    p4est_quadrant_corner_node false true 30 q' node' local_quadrant = Done m /\
    x m = x n' /\ y m = y n' /\ level m = level n'.
Proof.
  apply (node_transform_follows_transform_face
           false true 30 [0; 1; 3; 2] MAXLEVEL_ok_2d (mkquad 0 0 0 1) local_quadrant local_quadrant 1 1);
    [reflexivity | reflexivity | reflexivity | lia | lia].
Defined.

(** The tree-first order at the second child of the root of tree 0 and
    the first child of the root of tree 1 (2D). *)
Lemma compare_piggy_total_order_witness :
  exists (c : Z) (e : bool),
    p4est_quadrant_compare_piggy false true 30 (mkpiggy (mkquad (2 ^ 29) 0 0 1) 0) (mkpiggy (mkquad 0 0 0 1) 1) = Done c /\
    p4est_quadrant_compare_piggy false true 30 (mkpiggy (mkquad 0 0 0 1) 1) (mkpiggy (mkquad (2 ^ 29) 0 0 1) 0) = Done (- c) /\
    p4est_quadrant_is_equal_piggy false true 30 (mkpiggy (mkquad (2 ^ 29) 0 0 1) 0) (mkpiggy (mkquad 0 0 0 1) 1) = Done e /\
    (c = 0 <-> e = true) /\
    (which_tree (mkpiggy (mkquad (2 ^ 29) 0 0 1) 0) < which_tree (mkpiggy (mkquad 0 0 0 1) 1) -> c < 0) /\
    (which_tree (mkpiggy (mkquad (2 ^ 29) 0 0 1) 0) = which_tree (mkpiggy (mkquad 0 0 0 1) 1) ->
     p4est_quadrant_compare false true 30
       (piggy_quadrant (mkpiggy (mkquad (2 ^ 29) 0 0 1) 0)) (piggy_quadrant (mkpiggy (mkquad 0 0 0 1) 1)) = Done c) /\
    (p4est_quadrant_is_node false 30 (piggy_quadrant (mkpiggy (mkquad (2 ^ 29) 0 0 1) 0)) true = true ->
     p4est_quadrant_is_node false 30 (piggy_quadrant (mkpiggy (mkquad 0 0 0 1) 1)) true = true ->
     p4est_node_equal_piggy_fn false true 30 (mkpiggy (mkquad (2 ^ 29) 0 0 1) 0) (mkpiggy (mkquad 0 0 0 1) 1) true = Done e).
Proof.
  apply (proj1 (compare_piggy_total_order false true 30 MAXLEVEL_ok_2d)
           (mkpiggy (mkquad (2 ^ 29) 0 0 1) 0) (mkpiggy (mkquad 0 0 0 1) 1));
    (split; [reflexivity | split; [apply Z.leb_le | apply Z.ltb_lt]; reflexivity]).
Defined.

(** The validity tiers at the left neighbour of the first child of the 2D root. *)
Lemma validity_and_root_position_witness :
  p4est_quadrant_is_valid false 30 (mkquad (- 2 ^ 29) 0 0 1) =
  p4est_quadrant_is_extended false 30 (mkquad (- 2 ^ 29) 0 0 1) &&
  p4est_quadrant_is_inside_root false 30 (mkquad (- 2 ^ 29) 0 0 1) /\
  (p4est_quadrant_is_inside_root false 30 (mkquad (- 2 ^ 29) 0 0 1) =
   true ->
   p4est_quadrant_is_inside_3x3 false 30 (mkquad (- 2 ^ 29) 0 0 1) =
   true) /\
  (p4est_quadrant_is_inside_root false 30 (mkquad (- 2 ^ 29) 0 0 1) =
   true ->
   p4est_quadrant_is_outside_face false 30 (mkquad (- 2 ^ 29) 0 0 1) =
   false /\
   p4est_quadrant_is_outside_corner false 30 (mkquad (- 2 ^ 29) 0 0 1) =
   false) /\
  (p4est_quadrant_is_outside_face false 30 (mkquad (- 2 ^ 29) 0 0 1) =
   true ->
   p4est_quadrant_is_outside_corner false 30 (mkquad (- 2 ^ 29) 0 0 1) =
   false) /\
  (false = false ->
   p4est_quadrant_is_inside_root false 30 (mkquad (- 2 ^ 29) 0 0 1) =
   true \/
   p4est_quadrant_is_outside_face false 30 (mkquad (- 2 ^ 29) 0 0 1) =
   true \/
   p4est_quadrant_is_outside_corner false 30 (mkquad (- 2 ^ 29) 0 0 1) =
   true).
Proof.
  apply (validity_and_root_position
           false 30 MAXLEVEL_ok_2d (mkquad (- 2 ^ 29) 0 0 1)).
Defined.

(** The first digit of the Morton index of a grandchild of the 2D root. *)
Lemma linear_id_digits_are_ancestor_ids_witness :
  exists id id' aid : Z,
    p4est_quadrant_linear_id false true 30
      (mkquad (2 ^ 28) (2 ^ 29) 0 2) 1 =
    Done id /\
    p4est_quadrant_linear_id false true 30
      (mkquad (2 ^ 28) (2 ^ 29) 0 2) (1 - 1) =
    Done id' /\
    p4est_quadrant_ancestor_id false true 30
      (mkquad (2 ^ 28) (2 ^ 29) 0 2) 1 =
    Done aid /\
    0 <= aid < P4EST_CHILDREN false /\
    id = P4EST_CHILDREN false * id' + aid /\
    p4est_quadrant_ancestor_id false true 30
      (mkquad (2 ^ 28) (2 ^ 29) 0 2) 0 =
    Done 0.
Proof.
  apply (linear_id_digits_are_ancestor_ids
           false true 30 MAXLEVEL_ok_2d (mkquad (2 ^ 28) (2 ^ 29) 0 2) 1);
    [reflexivity | cbn; lia].
Defined.
